(* ===== verification/_CoqProject ===== *)
-Q . S2P
Prelude.v
Endian.v
ConnBuffer.v
BufferSpec.v
SizedBuffer.v
LogStream.v
CString.v
NetAddress.v
Socket.v
Time.v
Float.v
Calendar.v
FormatSize.v
Thread.v
Logger.v
TimerQueue.v
TimerFd.v
Epoll.v
EventLoop.v
LoopLife.v
Reactor.v
LoopThread.v
ByteStream.v
TcpConnection.v
Http.v
HttpServer.v
File.v
Process.v
LogFile.v
AsyncLogging.v
LogPipeline.v
Connector.v
LoopThreadPool.v
TcpServer.v
ServerDestroy.v
ConnEnd.v
ConnPoller.v
ServerCallbacks.v
ServerConns.v
ServerPollers.v
Acceptor.v
