(* ===== verification/Prelude.v ===== *)
(** * RewriteMuduo: a verification development

    The program (src/) is a rewrite in C++17 of the muduo network library: a
    reactor with one event loop per thread, TCP connections and servers on top of
    it, an asynchronous logging front end and back end, and a small HTTP server.
    Its parts and the files that model them:

    - src/src/file/ConnBuffer.*, the byte buffer of a connection: ConnBuffer.v (every
      member function, on indices into a vector), BufferSpec.v (the abstract byte
      queue it implements), Endian.v (src/src/network/Endian.h).
    - src/src/file/Buffer.*, src/src/log/LogStream.*: SizedBuffer.v, LogStream.v, the
      fixed-size buffer and the formatting of numbers and text into it; FormatSize.v,
      FormatSi and FormatIec, over the accuracy of doubles in Float.v.
    - src/src/log/Logger.*: Logger.v, the line of a log statement, its thread-local
      caches and the global hooks; LogPipeline.v, the logger of many threads with
      the asynchronous backend behind it.
    - src/src/file/File.*, FileOpt.*, src/src/log/LogFile.*, src/src/log/AsynLogBackend.*:
      File.v, LogFile.v, AsyncLogging.v.  Front-end threads fill buffers, the backend
      thread swaps them out and appends them to a log file that rolls.
    - src/src/unix/Time.*, Duration.*: Time.v, with machine integers and IEEE doubles;
      Calendar.v, the calendar text of a time stamp.
    - src/src/unix/Thread.*: Thread.v, the identity of a thread, the latch, and start,
      join and destruction of a thread.
    - src/src/unix/ProcssInfo.*: Process.v, over the C strings of CString.v.
    - src/src/network/Timer*, TimerQueue.*: TimerQueue.v, the timers of a loop;
      TimerFd.v, the descriptor that wakes the loop for them, with its two clocks.
    - src/src/network/Channel.*, Epoll.*: Epoll.v, the channels of a loop, the poller
      and the dispatch of events.
    - src/src/network/EventLoop.*: EventLoop.v, the functors queued from any thread,
      the wakeup descriptor and [Quit]; Epoll.v, the channel part; LoopLife.v,
      construction, destruction and the thread checks, with those of the timer queue
      and the poller; Reactor.v, the whole [Loop] over Epoll.v, TimerQueue.v and
      EventLoop.v, with other threads acting on it.
    - src/src/network/LoopThread.*, LoopThreadPool.*: LoopThread.v, a thread that runs
      a loop; LoopThreadPool.v, the pool of them.
    - src/src/network/TcpConnection.*: TcpConnection.v, over the byte streams of
      ByteStream.v and the channels of Epoll.v; ConnEnd.v, destructor, defaults and
      small members; ConnPoller.v, many connections on one poller.
    - src/src/network/TcpServer.*: TcpServer.v, the registry, with connections reduced
      to the phase of their life; ServerConns.v, the server over the full connections
      of TcpConnection.v, which refines it; ServerPollers.v, that server on the pollers
      of its loops; ServerDestroy.v, the destructor;
      ServerCallbacks.v, the callbacks a user sets and a new connection gets.
    - src/src/network/Connector.*, Acceptor.*: Connector.v, Acceptor.v.
    - src/src/network/Socket.*, SocketOps.*: Socket.v, over a record of system calls;
      NetAddress.v, the address functions and NetAddress.*, on the bytes of the
      socket address.
    - src/http/*: Http.v, the request parser, the response and the handlers of a
      connection; HttpServer.v, the accept loop.

    ** How code becomes definitions

    Definitions carry the names of the source.  A class is a record of its fields; a
    member function is a function from the object (and its arguments) to an
    [outcome], which is the new object and the result, or a [fault]: a failed
    [assert] (the build leaves them on), a fatal log line, an exception, or undefined
    behaviour.  Several source files are in the middle of a renaming and spell
    the same member in two ways; the definitions model the one member that is meant.
    Machine integers are [Z] with the wrap-around ([u64], [i32], ...) or the overflow
    check ([sint_checked]) written out.  Pointers are keys of a map when what matters
    is whether they dangle (Epoll.v, TimerQueue.v), offsets when they point into an
    array (ConnBuffer.v, SizedBuffer.v), and [option] when they are unique_ptr
    (AsyncLogging.v, Connector.v).

    System calls and library calls are arguments.  Where a theorem relies on their
    documented behaviour this is a class with laws that has an instance showing
    they can be kept (epoll(7) in Epoll.v, accept(2) in Acceptor.v), or a named
    hypothesis met by the function in the witness ([readv_ok], [fwrite_ok], [reads]).
    User callbacks are arbitrary functions that list the calls they make.

    Components meet through interfaces: [StreamBuffer] (ByteStream.v) is what a
    connection needs of its buffers, proved for ConnBuffer.v; [LogSink]
    (AsyncLogging.v) is what the backend needs of its file, proved for LogFile.v when
    fwrite takes every byte, and for what LogFile.v is given when it does not;
    [changed] and [planned] (Epoll.v) are what a channel call does to a channel and
    which callbacks an event runs, proved of the full model and used by
    TcpConnection.v and Connector.v; ConnPoller.v runs the channel calls that
    connections recorded on the full poller and dispatches what it reports to them, for
    which [logs] (what a connection recorded is what happened to its copy of the channel)
    and [queues] (it only adds functors) are proved once for every handler, by
    [keep_exec_event] of ConnEnd.v; ServerPollers.v
    does so for every loop of a server; the [phase] of TcpServer.v is what [phase_of]
    (ServerConns.v) sees of a full connection.

    Concurrency: the event loop is a step relation in which the loop thread and any
    number of others interleave between critical sections (EventLoop.v); in the whole
    loop (Reactor.v) and around the timer descriptor (TimerFd.v) other threads act, and
    time passes, at the points where the loop thread calls user code, reads the clock,
    polls or takes the queue; a thread and
    its owner (Thread.v), and an I/O thread, its owner and the users of its loop
    (LoopThread.v, which runs the relation of EventLoop.v inside its own) are step
    relations too; logging, the server and its destruction are sequences of atomic
    steps of several threads (AsyncLogging.v, LogPipeline.v, TcpServer.v,
    ServerConns.v, ServerPollers.v, ServerDestroy.v); a connection and a connector live in one thread and see the
    calls of other threads as queued functors.

    ** What the theorems show

    Each theorem states its conditions; those that the code does not ensure by itself
    have a lemma that shows what happens without them, named here in brackets.

    - Buffers: [Buffer] refines a byte queue with room in front for all sequences of
      calls within the contract; for all others it stays within its vector or stops in
      an assertion, as long as no more room is asked for than an object can have
      [ensure_overflow]; ReadFd appends what readv delivered, integers survive network
      order, FindCrlf finds the first CRLF; [SizedBuffer] stores a text whole or not at
      all.
    - Loop: an alarm calls the callbacks of exactly the timers that are due, in order,
      and arms the repeating ones again; no sequence of additions and cancellations,
      from callbacks too, touches a deleted timer; the kernel's interest list mirrors
      the channels; [Poll] activates what the kernel reports; functors run at most
      once, in order, and none is lost (a loop that quits leaves some pending
      [quit_drops_functor]); no wakeup is lost, for functors queued by the loop thread
      before it enters [Loop] excepted [queue_before_loop_waits].
      A timer that has expired makes its descriptor readable, however the clock was set
      before, once no timer is inserted for a while [insertions_starve], and the alarm
      runs it.  The parts together: the whole loop fails no assertion and touches
      nothing that is gone, whatever handlers and other threads do within their
      obligations [AddTimer_races], and can be destroyed when it has returned; a round
      runs the callbacks the reported events call for, due timers, then the functors,
      and nothing else; [Quit] from any thread makes the round it falls in the last.
    - Threads: a thread has at most one loop, and a loop closes what it opened;
      starting a thread returns with its identity; a started I/O loop is live while its
      owner holds it as long as only the destructor quits it, [StartLoop] then cannot be
      kept from returning, and a destructor that waits for a running loop can return
      [destroy_can_hang, quit_can_dangle]; owners that join first see nothing
      undefined.
    - Connections: bytes written plus bytes buffered are the messages accepted, in
      order; until it is closed, the write side is shut down after the last byte and not
      before [shutdown_after_close]; the user is told of each connection once up and once
      down; no assertion fails as long as nobody switches reading off or on
      [stop_read_then_close_aborts] and half-closed connections are not destroyed
      [destroy_half_closed_aborts]; a connection that nothing refers to any
      more was destroyed first, and its destructor then fails no assertion.  On a poller
      with other connections and channels the kernel watches each open connection for
      input, and for output exactly while it has bytes to write, in every order of
      polls, handlers, functors, accepts and releases, and neither what it reports nor a
      queued functor reaches an object that is gone, as long as no object goes while a
      functor of it is queued [send_behind_destroy_dangles].
    - Server side: the registry of a server is exact in every interleaving, names are
      unique, loops are used in turn; with the full connections in place of phases the
      server takes the same steps and, under the conditions of the connections, nothing
      aborts; so it does on the pollers of its
      loops, which watch each connection for what it waits for and report only open
      ones, however the loops interleave and descriptors are used again, the users
      calling connections through shared pointers they hold; destroying the server
      destroys every connection when none is half closed or on its way out
      [half_closed_destruction, removal_after_destruction, close_after_destruction];
      a connector started only when idle, whose loop resets the old channel before the
      next attempt, never aborts, leaks no socket and backs off exponentially
      [timer_before_reset_aborts, two_attempts_abort]; an acceptor
      gets rid of waiting connections even when out of descriptors; every descriptor
      of a [Socket] is closed once; accept(2) comes back on six errors and ends the
      process on all others.
    - Logging: numbers print in canonical decimal and read back; FormatSi rounds to
      three digits through two roundings of doubles, below 999.5 T exactly
      [FormatSi_double_rounding]; a statement whose line fits writes one line of a
      fixed layout with the right date, as if nothing were cached
      [long_message_runs_on]; on stdout a fatal
      statement leaves nothing unwritten; lines shorter than a buffer, none of them fatal, reach the
      file object once and in order, through the logger and the backend, and the file
      as far as fopen succeeds and fwrite takes them [long_line_discarded,
      fatal_line_lost]; rolling loses
      nothing that fwrite took, and what was rolled was closed; stopping the backend terminates.
    - Addresses: an address made by any of the constructors is of one of the two
      families when what it was given is, prints accordingly, and prints as a port alone
      otherwise [local_addr_unknown]; one built from text prints as that text.
    - HTTP: a request that arrives in one piece is parsed back, header values up to
      their first colon [host_port_cut, partial_line_loses_bytes]; paths are filtered;
      the accept loop starts each accepted connection once until it is stopped.

    Lemmas named after a defect ([Stop_loses_lines], [stop_read_then_close_aborts],
    [partial_at_crlf_undefined], ...) show by evaluation where the code does not do
    what it means to.

    ** Bounds and fuel

    Loops that are not structural take fuel that is proved enough: 20 rounds for
    [Convert] and 16 for [ConvertHex] (the digits of 64 bits), one more than the length
    of the text for [split_loop] and [parse_loop], two for [append_loop] (a short
    fwrite is an error and ends it), [maxSize] for [read_loop] (each round reads a
    byte).  The loop of Reactor.v runs as many rounds as its fuel says, or until [Quit];
    a [Quit] that another thread makes at a given point of the run needs no more than
    that many rounds.  Sizes are bounded where the code's own types bound them: 2^31 for [int],
    2^62 for the length of a message, 2^29 channels in a loop (the vector of events the
    poller doubles stays below 2^31), 51 characters for the address in the name of a
    connection (the longest printed IPv6 address and port have 47).

    ** What is not modelled

    Common.h but for its memset (deleted copy operations, macros and a cast: they have
    no behaviour of their own), the std::any context of a loop and of a connection, the
    handler that ignores SIGPIPE (write(2) answers EPIPE in the models), the static
    assertions, members that only return a field, what printf
    makes of a double with %.12g (an argument of LogStream.v), the log lines the
    network classes write about themselves, and the tests and demo programs, some of
    which call members under names they no longer have. *)
From Stdlib Require Export ZArith Lia.
From Stdlib Require Strings.Byte.
From coqutil Require Export Byte.
From stdpp Require Export base option gmap strings numbers list.
Open Scope Z_scope.

(** ** Outcomes

    A C++ call either returns, or ends the process or the caller's control
    flow: a failed [assert] (the build does not define NDEBUG), a
    [LOG_FATAL]/[LOG_SYSFATAL] line (whose destructor calls [abort]), a C++
    exception, or behaviour the standard leaves undefined. *)
Inductive fault : Type :=
  | Assertion (expr : string)
  | LogFatal (msg : string)
  | Exception (what : string)
  | Undefined (what : string).

Inductive outcome (A : Type) : Type :=
  | Ok (a : A)
  | Fault (f : fault).
Arguments Ok {A} a.
Arguments Fault {A} f.

#[global] Instance fault_eq_dec : EqDecision fault.
Proof. solve_decision. Defined.
#[global] Instance outcome_eq_dec `{EqDecision A} : EqDecision (outcome A).
Proof. solve_decision. Defined.

#[global] Instance outcome_ret : MRet outcome := fun A a => Ok a.
#[global] Instance outcome_bind : MBind outcome := fun A B k m =>
  match m with Ok a => k a | Fault f => Fault f end.
#[global] Instance outcome_fmap : FMap outcome := fun A B g m =>
  match m with Ok a => Ok (g a) | Fault f => Fault f end.

(** [assert(cond)]: the text of the condition is kept for the reader. *)
Definition massert (cond : bool) (expr : string) : outcome unit :=
  if cond then Ok tt else Fault (Assertion expr).

(** A run that ends normally. *)
Definition returns {A} (m : outcome A) : Prop := exists a, m = Ok a.

(** A run that stays within defined behaviour: it ends in a state satisfying
    [P], or in a failed check ([assert], fatal log line, exception). *)
Definition safe {A} (P : A -> Prop) (m : outcome A) : Prop :=
  match m with
  | Ok a => P a
  | Fault (Undefined _) => False
  | Fault _ => True
  end.

(** A run that ends in a state satisfying [P], or with a fatal log line. *)
Definition fatal_or {A} (P : A -> Prop) (m : outcome A) : Prop :=
  match m with
  | Ok a => P a
  | Fault (LogFatal _) => True
  | Fault _ => False
  end.

(** Folding a fallible step over a list, in order. *)
Fixpoint ofold {A S} (f : A -> S -> outcome S) (l : list A) (s : S) : outcome S :=
  match l with
  | [] => Ok s
  | x :: l' => s' ← f x s; ofold f l' s'
  end.

(** A run that ends in a state satisfying [P], or with an exception; when it need
    not be [strict], also with a failed check. *)
Definition holds {A} (strict : bool) (P : A -> Prop) (m : outcome A) : Prop :=
  match m with
  | Ok a => P a
  | Fault (Exception _) => True
  | Fault _ => strict = false
  end.

(** ** Machine integers *)
Definition u64 (z : Z) : Z := z mod 2 ^ 64.
Definition u32 (z : Z) : Z := z mod 2 ^ 32.
Definition u16 (z : Z) : Z := z mod 2 ^ 16.
Definition sint (w z : Z) : Z := (z + 2 ^ (w - 1)) mod 2 ^ w - 2 ^ (w - 1).
Definition i64 (z : Z) : Z := sint 64 z.
Definition i32 (z : Z) : Z := sint 32 z.
Definition i16 (z : Z) : Z := sint 16 z.
Definition i8 (z : Z) : Z := sint 8 z.

(** Signed arithmetic whose overflow is undefined behaviour. *)
Definition in_sint (w z : Z) : bool := (- 2 ^ (w - 1) <=? z) && (z <? 2 ^ (w - 1)).
Definition sint_checked (w z : Z) : outcome Z :=
  if in_sint w z then Ok z else Fault (Undefined "signed overflow").

(** ** Lists addressed by machine integers *)
Definition zlen {A} (l : list A) : Z := Z.of_nat (length l).
Definition ztake {A} (n : Z) (l : list A) : list A := take (Z.to_nat n) l.
Definition zdrop {A} (n : Z) (l : list A) : list A := drop (Z.to_nat n) l.
(** The [n] elements from offset [off]. *)
Definition zslice {A} (off n : Z) (l : list A) : list A := ztake n (zdrop off l).
(** [std::copy]/[memcpy] of [d] over the elements from offset [off]. *)
Definition zsplice {A} (off : Z) (d l : list A) : list A :=
  ztake off l ++ d ++ zdrop (off + zlen d) l.
(** [vector::resize] to [n] elements, new ones set to [x]. *)
Definition zresize {A} (n : Z) (x : A) (l : list A) : list A :=
  ztake n l ++ replicate (Z.to_nat n - length l) x.

#[global] Instance byte_eq_dec : EqDecision byte := Stdlib.Strings.Byte.byte_eq_dec.
#[global] Instance byte_countable : Countable byte :=
  inj_countable' (fun b => Byte.byte.unsigned b) (fun z => Byte.byte.of_Z z)
    (fun b => Byte.byte.of_Z_unsigned b).

(** String literals as bytes, without the terminator. *)
Definition chars (s : string) : list byte := String.list_byte_of_string s.

(** ** Memory

    Arrays are lists of bytes; an access outside the array is undefined. *)

(** [std::copy(d, d + len, v + off)]. *)
Definition copy_into (off : Z) (d v : list byte) : outcome (list byte) :=
  if (0 <=? off) && (off + zlen d <=? zlen v) then Ok (zsplice off d v)
  else Fault (Undefined "copy outside the array").

(** Reading [n] bytes at offset [off]. *)
Definition read_from (off n : Z) (v : list byte) : outcome (list byte) :=
  if (0 <=? off) && (0 <=? n) && (off + n <=? zlen v) then Ok (zslice off n v)
  else Fault (Undefined "read outside the array").

(** ** errno (Linux) *)
Definition EPERM : Z := 1.
Definition EINTR : Z := 4.
Definition EBADF : Z := 9.
Definition EAGAIN : Z := 11.
Definition EWOULDBLOCK : Z := 11.
Definition ENOMEM : Z := 12.
Definition EACCES : Z := 13.
Definition EFAULT : Z := 14.
Definition EISDIR : Z := 21.
Definition EINVAL : Z := 22.
Definition ENFILE : Z := 23.
Definition EMFILE : Z := 24.
Definition EPIPE : Z := 32.
Definition EPROTO : Z := 71.
Definition ENOTSOCK : Z := 88.
Definition EOPNOTSUPP : Z := 95.
Definition EAFNOSUPPORT : Z := 97.
Definition EADDRINUSE : Z := 98.
Definition EADDRNOTAVAIL : Z := 99.
Definition ENETUNREACH : Z := 101.
Definition ECONNABORTED : Z := 103.
Definition ECONNRESET : Z := 104.
Definition ENOBUFS : Z := 105.
Definition EISCONN : Z := 106.
Definition ECONNREFUSED : Z := 111.
Definition EALREADY : Z := 114.
Definition EINPROGRESS : Z := 115.

(** ** Tactics *)

(** Inverts a bind that returned. *)
Lemma bind_Ok {A B} (m : outcome A) (k : A -> outcome B) b :
  (m ≫= k) = Ok b <-> exists a, m = Ok a /\ k a = Ok b.
Proof.
  destruct m; cbn; split; [eauto | intros (a' & [= ->] & E); done | done | ].
  intros (? & ? & ?); done.
Qed.

Lemma bind_Fault {A B} (m : outcome A) (k : A -> outcome B) f :
  (m ≫= k) = Fault f <-> m = Fault f \/ exists a, m = Ok a /\ k a = Fault f.
Proof.
  destruct m; cbn; split.
  - eauto.
  - intros [?|(a' & [= ->] & E)]; done.
  - intros [= ->]; auto.
  - intros [[= ->]|(? & ? & ?)]; done.
Qed.

Lemma massert_Ok c e u : massert c e = Ok u <-> c = true.
Proof. destruct u, c; cbn; split; done. Qed.

Ltac inv_ok :=
  repeat match goal with
  | H : (_ ≫= _) = Ok _ |- _ =>
      apply bind_Ok in H; let a := fresh "a" in let E := fresh "E" in
      destruct H as (a & E & H)
  | H : massert _ _ = Ok _ |- _ => apply massert_Ok in H
  | H : Ok _ = Ok _ |- _ => injection H as H
  | H : Fault _ = Ok _ |- _ => discriminate H
  | H : mret _ = Ok _ |- _ => cbv [mret outcome_ret] in H
  | a : unit |- _ => destruct a
  | H : context [match ?p with (_, _) => _ end] |- _ => is_var p; destruct p
  end; subst.

(** Turns the boolean tests of the code into propositions. *)
Ltac bool_to_prop :=
  repeat match goal with
  | H : context [(?a <? ?b)%Z = true] |- _ => rewrite Z.ltb_lt in H
  | H : context [(?a <? ?b)%Z = false] |- _ => rewrite Z.ltb_ge in H
  | H : context [(?a <=? ?b)%Z = true] |- _ => rewrite Z.leb_le in H
  | H : context [(?a <=? ?b)%Z = false] |- _ => rewrite Z.leb_gt in H
  | H : context [(?a =? ?b)%Z = true] |- _ => rewrite Z.eqb_eq in H
  | H : context [(?a =? ?b)%Z = false] |- _ => rewrite Z.eqb_neq in H
  | H : (_ && _) = true |- _ => apply andb_true_iff in H; destruct H
  | H : (_ || _) = false |- _ => apply orb_false_iff in H; destruct H
  | H : negb _ = true |- _ => apply negb_true_iff in H
  | H : negb _ = false |- _ => apply negb_false_iff in H
  end.

(** Case analysis on the [if]s of a goal, with the test as a proposition. *)
Ltac case_if :=
  match goal with
  | |- context [if (?a <? ?b)%Z then _ else _] => destruct (Z.ltb_spec a b)
  | |- context [if (?a <=? ?b)%Z then _ else _] => destruct (Z.leb_spec a b)
  | |- context [if (?a =? ?b)%Z then _ else _] => destruct (Z.eqb_spec a b)
  | |- context [if ?c then _ else _] => let E := fresh "E" in destruct c eqn:E
  end.

Create HintDb rnet.
#[export] Hint Constants Opaque : rnet.

(** ** Shared lemmas *)

Lemma safe_bind {A B} (P : A -> Prop) (Q : B -> Prop) m k :
  safe P m -> (forall a, P a -> safe Q (k a)) -> safe Q (m ≫= k).
Proof. destruct m as [a|[]]; cbn; auto. Qed.
Lemma safe_mono {A} (P Q : A -> Prop) m : safe P m -> (forall a, P a -> Q a) -> safe Q m.
Proof. destruct m as [a|[]]; cbn; auto. Qed.
Lemma fatal_bind {A B} (P : A -> Prop) (Q : B -> Prop) m k :
  fatal_or P m -> (forall a, P a -> fatal_or Q (k a)) -> fatal_or Q (m ≫= k).
Proof. destruct m as [a|[]]; cbn; auto. Qed.
Lemma fatal_mono {A} (P Q : A -> Prop) m : fatal_or P m -> (forall a, P a -> Q a) -> fatal_or Q m.
Proof. destruct m as [a|[]]; cbn; auto. Qed.
Lemma safe_massert c e (Q : unit -> Prop) : (c = true -> Q tt) -> safe Q (massert c e).
Proof. destruct c; cbn; auto. Qed.
Lemma massert_true c e : c = true -> massert c e = Ok tt.
Proof. by intros ->. Qed.

Lemma holds_bind {A B} strict (P : A -> Prop) (Q : B -> Prop) m k :
  holds strict P m -> (forall a, P a -> holds strict Q (k a)) -> holds strict Q (m ≫= k).
Proof. destruct m as [a|[]]; cbn; auto. Qed.
Lemma holds_mono {A} strict (P Q : A -> Prop) m :
  holds strict P m -> (forall a, P a -> Q a) -> holds strict Q m.
Proof. destruct m as [a|[]]; cbn; auto. Qed.
Lemma holds_massert strict c e (Q : unit -> Prop) :
  (strict = true -> c = true) -> (c = true -> Q tt) -> holds strict Q (massert c e).
Proof. destruct c; cbn; auto. destruct strict; cbn; [|done]. intros Hc. by discriminate Hc. Qed.
Lemma holds_ofold {A S} strict (P : S -> Prop) (f : A -> S -> outcome S) l s :
  P s -> (forall x s, x ∈ l -> P s -> holds strict P (f x s)) -> holds strict P (ofold f l s).
Proof.
  revert s; induction l as [|x l IH]; intros s Hs Hf; [done|]. cbn [ofold].
  eapply holds_bind; [apply Hf; [left|done]|]. intros s' Hs'. apply IH; [done|].
  intros y s0 Hy. apply Hf. by right.
Qed.

Lemma u64_small z : 0 <= z < 2 ^ 64 -> u64 z = z.
Proof. apply Z.mod_small. Qed.
Lemma u64_range z : 0 <= u64 z < 2 ^ 64.
Proof. apply Z.mod_pos_bound; lia. Qed.
Lemma u16_small z : 0 <= z < 2 ^ 16 -> u16 z = z.
Proof. apply Z.mod_small. Qed.
Lemma u16_range z : 0 <= u16 z < 2 ^ 16.
Proof. apply Z.mod_pos_bound; lia. Qed.
Lemma u32_small z : 0 <= z < 2 ^ 32 -> u32 z = z.
Proof. apply Z.mod_small. Qed.
Lemma u32_range z : 0 <= u32 z < 2 ^ 32.
Proof. apply Z.mod_pos_bound; lia. Qed.

Lemma sint_small w z :
  0 < w -> - 2 ^ (w - 1) <= z < 2 ^ (w - 1) -> sint w z = z.
Proof.
  intros Hw Hz. unfold sint. rewrite Z.mod_small; [lia|].
  replace w with (Z.succ (w - 1)) at 3 by lia. rewrite Z.pow_succ_r; lia.
Qed.
Lemma sint_range w z : 0 < w -> - 2 ^ (w - 1) <= sint w z < 2 ^ (w - 1).
Proof.
  intros Hw. unfold sint.
  pose proof (Z.mod_pos_bound (z + 2 ^ (w - 1)) (2 ^ w) ltac:(lia)).
  assert (2 ^ w = 2 * 2 ^ (w - 1)).
  { rewrite <- Z.pow_succ_r by lia. f_equal. lia. }
  lia.
Qed.
(** The wrapped value differs from the exact one by a multiple of [2^w]. *)
Lemma sint_mod w z : 0 < w -> sint w (z mod 2 ^ w) = sint w z.
Proof.
  intros Hw. unfold sint. rewrite Z.add_mod_idemp_l by lia. done.
Qed.

Lemma zlen_nonneg {A} (l : list A) : 0 <= zlen l.
Proof. unfold zlen; lia. Qed.
Lemma zlen_nil {A} : zlen (@nil A) = 0.
Proof. done. Qed.
Lemma zlen_cons {A} (x : A) l : zlen (x :: l) = 1 + zlen l.
Proof. unfold zlen; cbn [length]; lia. Qed.
Lemma zlen_app {A} (l k : list A) : zlen (l ++ k) = zlen l + zlen k.
Proof. unfold zlen; rewrite length_app; lia. Qed.
Lemma zlen_ztake {A} n (l : list A) : zlen (ztake n l) = Z.max 0 (Z.min n (zlen l)).
Proof. unfold zlen, ztake; rewrite length_take; lia. Qed.
Lemma zlen_zdrop {A} n (l : list A) : zlen (zdrop n l) = Z.max 0 (zlen l - Z.max 0 n).
Proof. unfold zlen, zdrop; rewrite length_drop; lia. Qed.
Lemma zlen_replicate {A} n (x : A) : zlen (replicate n x) = Z.of_nat n.
Proof. unfold zlen; by rewrite length_replicate. Qed.
Lemma zlen_zslice {A} off n (l : list A) :
  0 <= off -> 0 <= n -> off + n <= zlen l -> zlen (zslice off n l) = n.
Proof. intros. unfold zslice. rewrite zlen_ztake, zlen_zdrop; lia. Qed.
Lemma zlen_zsplice {A} off (d l : list A) :
  0 <= off -> off + zlen d <= zlen l -> zlen (zsplice off d l) = zlen l.
Proof.
  intros. unfold zsplice. rewrite !zlen_app, zlen_ztake, zlen_zdrop.
  pose proof (zlen_nonneg d); lia.
Qed.
Lemma zlen_zresize {A} n (x : A) l : 0 <= n -> zlen (zresize n x l) = n.
Proof.
  intros. unfold zresize. rewrite zlen_app, zlen_ztake, zlen_replicate.
  unfold zlen; lia.
Qed.
Lemma zlen_rev {A} (l : list A) : zlen (reverse l) = zlen l.
Proof. unfold zlen; by rewrite length_reverse. Qed.
Lemma zlen_map {A B} (f : A -> B) l : zlen (f <$> l) = zlen l.
Proof. unfold zlen; by rewrite length_fmap. Qed.

Lemma zslice_lookup {A} off n (l : list A) (i : nat) :
  0 <= off -> Z.of_nat i < n -> zslice off n l !! i = l !! (Z.to_nat off + i)%nat.
Proof.
  intros. unfold zslice, ztake, zdrop.
  rewrite lookup_take_lt by lia. by rewrite lookup_drop.
Qed.

(** What a copy leaves untouched, and what it writes. *)
Lemma zslice_zsplice_before {A} off n off' (d l : list A) :
  0 <= off -> 0 <= n -> off + n <= off' -> off' <= zlen l ->
  zslice off n (zsplice off' d l) = zslice off n l.
Proof.
  intros. unfold zslice, zsplice, ztake, zdrop, zlen in *.
  rewrite drop_app_le by (rewrite length_take; lia).
  rewrite take_app_le by (rewrite length_drop, length_take; lia).
  rewrite skipn_firstn_comm, take_take. f_equal. lia.
Qed.

Lemma zslice_zsplice_same {A} off (d l : list A) :
  0 <= off -> off <= zlen l -> zslice off (zlen d) (zsplice off d l) = d.
Proof.
  intros. unfold zslice, zsplice, ztake, zdrop, zlen in *.
  rewrite drop_app_length' by (rewrite length_take; lia).
  rewrite take_app_le by lia. by rewrite Nat2Z.id, firstn_all.
Qed.

Lemma zslice_zsplice_after {A} off n off' (d l : list A) :
  0 <= off' -> 0 <= n -> off' + zlen d <= off -> off <= zlen l ->
  zslice off n (zsplice off' d l) = zslice off n l.
Proof.
  intros. unfold zslice, zsplice, ztake, zdrop, zlen in *. f_equal.
  rewrite app_assoc, drop_app_ge; rewrite length_app, length_take; [|lia].
  rewrite drop_drop. f_equal. lia.
Qed.

Lemma zslice_zresize {A} off n m (x : A) l :
  0 <= off -> 0 <= n -> off + n <= zlen l -> zlen l <= m ->
  zslice off n (zresize m x l) = zslice off n l.
Proof.
  intros. unfold zslice, zresize, ztake, zdrop, zlen in *.
  rewrite (firstn_all2 l) by lia.
  rewrite drop_app_le by lia. rewrite take_app_le; [done|].
  rewrite length_drop; lia.
Qed.

Lemma zslice_app {A} off n m (l : list A) :
  0 <= off -> 0 <= n -> 0 <= m ->
  zslice off (n + m) l = zslice off n l ++ zslice (off + n) m l.
Proof.
  intros. unfold zslice, ztake, zdrop.
  replace (Z.to_nat (n + m)) with (Z.to_nat n + Z.to_nat m)%nat by lia.
  replace (Z.to_nat (off + n)) with (Z.to_nat off + Z.to_nat n)%nat by lia.
  rewrite <- drop_drop, <- take_take_drop. done.
Qed.

Lemma zslice_nil {A} off n (l : list A) : n <= 0 -> zslice off n l = [].
Proof. intros. unfold zslice, ztake. by replace (Z.to_nat n) with 0%nat by lia. Qed.

Lemma zdrop_zslice {A} k off n (l : list A) :
  0 <= off -> 0 <= k <= n -> zdrop k (zslice off n l) = zslice (off + k) (n - k) l.
Proof.
  intros. unfold zslice, ztake, zdrop.
  replace (Z.to_nat (off + k)) with (Z.to_nat off + Z.to_nat k)%nat by lia.
  rewrite <- drop_drop.
  replace (Z.to_nat n) with (Z.to_nat k + Z.to_nat (n - k))%nat by lia.
  by rewrite <- take_drop_commute.
Qed.

Lemma ztake_zslice {A} k off n (l : list A) :
  k <= n -> ztake k (zslice off n l) = zslice off k l.
Proof.
  intros. unfold zslice, ztake, zdrop. rewrite take_take. f_equal. lia.
Qed.

Lemma ztake_zdrop {A} n (l : list A) : ztake n l ++ zdrop n l = l.
Proof. apply take_drop. Qed.
Lemma zdrop_all {A} n (l : list A) : zlen l <= n -> zdrop n l = [].
Proof. intros. apply drop_ge. unfold zlen in *; lia. Qed.
Lemma ztake_all {A} n (l : list A) : zlen l <= n -> ztake n l = l.
Proof. intros. apply take_ge. unfold zlen in *; lia. Qed.
Lemma zdrop_0 {A} (l : list A) : zdrop 0 l = l.
Proof. done. Qed.
Lemma zdrop_app_len {A} (l k : list A) : zdrop (zlen l) (l ++ k) = k.
Proof. unfold zdrop, zlen. rewrite Nat2Z.id. apply drop_app_length. Qed.
Lemma ztake_app_len {A} (l k : list A) : ztake (zlen l) (l ++ k) = l.
Proof. unfold ztake, zlen. rewrite Nat2Z.id. apply take_app_length. Qed.
Lemma zlen_zero {A} (l : list A) : zlen l = 0 -> l = [].
Proof. destruct l; [done|]. rewrite zlen_cons. pose proof (zlen_nonneg l); lia. Qed.

(** Accesses within the array. *)
Lemma copy_into_Ok off d v :
  0 <= off -> off + zlen d <= zlen v -> copy_into off d v = Ok (zsplice off d v).
Proof.
  intros. unfold copy_into.
  by rewrite (proj2 (Z.leb_le _ _)), (proj2 (Z.leb_le _ _)).
Qed.

Lemma read_from_Ok off n v :
  0 <= off -> 0 <= n -> off + n <= zlen v -> read_from off n v = Ok (zslice off n v).
Proof.
  intros. unfold read_from.
  by rewrite !(proj2 (Z.leb_le _ _)).
Qed.

(** [ofold] over a concatenation runs the parts in order. *)
Lemma ofold_app {A S} (f : A -> S -> outcome S) l k s :
  ofold f (l ++ k) s = (s' ← ofold f l s; ofold f k s').
Proof.
  revert s; induction l as [|x l IH]; intros s; cbn; [done|].
  destruct (f x s); cbn; [apply IH | done].
Qed.

(** An invariant of the step is an invariant of the fold. *)
Lemma ofold_inv {A S} (P : S -> Prop) (f : A -> S -> outcome S) l s s' :
  (forall x s s', x ∈ l -> P s -> f x s = Ok s' -> P s') ->
  P s -> ofold f l s = Ok s' -> P s'.
Proof.
  revert s; induction l as [|x l IH]; intros s Hf Hs E; cbn in E; [by inv_ok|].
  inv_ok. eapply IH; [ | | done].
  - intros; eapply Hf; [right | |]; done.
  - eapply Hf; [left | |]; done.
Qed.

#[global] Instance zlen_proper {A} : Proper ((≡ₚ) ==> (=)) (@zlen A).
Proof. intros l k E. unfold zlen. by rewrite E. Qed.

Lemma filter_all {A} (P : A -> Prop) `{!forall x, Decision (P x)} (l : list A) :
  (forall x, x ∈ l -> P x) -> filter P l = l.
Proof.
  induction l as [|x l IH]; intros Hl; [done|]. rewrite filter_cons, decide_True by (apply Hl; left).
  f_equal. apply IH. intros; apply Hl; by right.
Qed.
Lemma filter_none {A} (P : A -> Prop) `{!forall x, Decision (P x)} (l : list A) :
  (forall x, x ∈ l -> ~ P x) -> filter P l = [].
Proof.
  induction l as [|x l IH]; intros Hl; [done|]. rewrite filter_cons, decide_False by (apply Hl; left).
  apply IH. intros; apply Hl; by right.
Qed.

Lemma filter_ext_in {A} (P Q : A -> Prop) `{!forall x, Decision (P x)} `{!forall x, Decision (Q x)}
    (l : list A) : (forall x, x ∈ l -> P x <-> Q x) -> filter P l = filter Q l.
Proof.
  induction l as [|x l IH]; intros Hl; [done|]. rewrite !filter_cons.
  rewrite (decide_ext (P x) (Q x)) by (apply Hl; left).
  rewrite IH by (intros; apply Hl; by right). done.
Qed.

Lemma zlen_zslice_le {A} off n (l : list A) : 0 <= n -> zlen (zslice off n l) <= n.
Proof. intros. unfold zslice. rewrite zlen_ztake; lia. Qed.

Create Rewrite HintDb zlen.
#[export] Hint Rewrite @zlen_app @zlen_cons @zlen_nil @zlen_rev @zlen_map : zlen.
#[export] Hint Rewrite @zlen_zsplice @zlen_zslice @zlen_zresize using lia : zlen.
Ltac zlen_simpl := autorewrite with zlen in *.
