(* ===== verification/Endian.v ===== *)
(** * Byte order (src/src/network/Endian.h)

    The conversions between host and network order, on the little-endian host
    the build targets ([-march=native] on x86-64): [htobeN] and [beNtoh] reverse
    the bytes of the N-bit word. *)
From Stdlib Require Import ZArith Lia List.
From coqutil Require Import Byte.
From coqutil Require Export Word.LittleEndianList.
From S2P Require Import Prelude.

(** Reverse the [n] bytes of a word held in host (little-endian) order. *)
Definition bswap (n : nat) (w : Z) : Z := le_combine (rev (le_split n w)).

Definition HostToNetwork64 (host64 : Z) : Z := bswap 8 host64.
Definition HostToNetwork32 (host32 : Z) : Z := bswap 4 host32.
Definition HostToNetwork16 (host16 : Z) : Z := bswap 2 host16.
Definition NetworkToHost64 (net64 : Z) : Z := bswap 8 net64.
Definition NetworkToHost32 (net32 : Z) : Z := bswap 4 net32.
Definition NetworkToHost16 (net16 : Z) : Z := bswap 2 net16.

(** Big-endian bytes: the order a peer reads from the wire. *)
Definition be_bytes (n : nat) (w : Z) : list byte := rev (le_split n w).
Definition be_value (bs : list byte) : Z := le_combine (rev bs).

Lemma length_be_bytes n w : length (be_bytes n w) = n.
Proof. unfold be_bytes. rewrite length_rev. apply length_le_split. Qed.

Lemma be_value_bytes n w : be_value (be_bytes n w) = w mod 2 ^ (Z.of_nat n * 8).
Proof. unfold be_value, be_bytes. rewrite rev_involutive. apply le_combine_split. Qed.

Lemma be_bytes_value bs : be_bytes (length bs) (be_value bs) = bs.
Proof.
  unfold be_value, be_bytes.
  rewrite <- length_rev, split_le_combine. apply rev_involutive.
Qed.

(** Storing a swapped word in memory lays out big-endian bytes. *)
Lemma le_split_bswap n w : le_split n (bswap n w) = be_bytes n w.
Proof.
  unfold bswap, be_bytes.
  apply split_le_combine'. rewrite length_rev. apply length_le_split.
Qed.

(** Loading bytes and swapping reads them as big-endian. *)
Lemma bswap_le_combine n bs :
  length bs = n -> bswap n (le_combine bs) = be_value bs.
Proof. intros <-. unfold bswap, be_value. by rewrite split_le_combine. Qed.

Lemma bswap_range n w : 0 <= bswap n w < 2 ^ (8 * Z.of_nat n).
Proof.
  unfold bswap. pose proof (le_combine_bound (rev (le_split n w))) as H.
  rewrite length_rev, length_le_split in H. exact H.
Qed.

Lemma bswap_involutive n w :
  0 <= w < 2 ^ (Z.of_nat n * 8) -> bswap n (bswap n w) = w.
Proof.
  intros H. unfold bswap at 2. rewrite bswap_le_combine.
  - unfold be_value. rewrite rev_involutive, le_combine_split. by apply Z.mod_small.
  - rewrite length_rev. apply length_le_split.
Qed.

(** ** Signed words through memory

    [intN_t beN = HostToNetworkN(x)] followed by a copy of [beN]'s bytes, and
    the way back; [w] is the width in bits of an [n]-byte word. *)
Section Codec.
Variables (n : nat) (w : Z).
Hypotheses (Hw : w = Z.of_nat n * 8) (Hn : (0 < n)%nat).

Lemma sint_wrap z : sint w z mod 2 ^ w = z mod 2 ^ w.
Proof.
  unfold sint. rewrite <- Zminus_mod_idemp_l.
  rewrite Z.mod_mod by lia. rewrite Zminus_mod_idemp_l. f_equal. lia.
Qed.

Lemma store_network x :
  le_split n (sint w (bswap n (x mod 2 ^ w))) = be_bytes n x.
Proof.
  rewrite le_split_mod, <- Hw, sint_wrap, Hw, <- le_split_mod.
  rewrite le_split_bswap. unfold be_bytes. by rewrite <- le_split_mod.
Qed.

Lemma load_network bs :
  length bs = n -> sint w (bswap n (sint w (le_combine bs) mod 2 ^ w)) = sint w (be_value bs).
Proof.
  intros Hl. rewrite sint_wrap, Z.mod_small; [by rewrite bswap_le_combine|].
  pose proof (le_combine_bound bs) as B. rewrite Hl in B.
  replace w with (8 * Z.of_nat n) by lia. exact B.
Qed.

Lemma be_roundtrip x :
  - 2 ^ (w - 1) <= x < 2 ^ (w - 1) -> sint w (be_value (be_bytes n x)) = x.
Proof.
  intros Hx. rewrite be_value_bytes, <- Hw, sint_mod by lia.
  apply sint_small; lia.
Qed.
End Codec.
