(* ===== verification/ConnBuffer.v ===== *)
(** * The connection buffer (src/src/file/ConnBuffer.h, ConnBuffer.cc)

    [rnet::file::Buffer]: a growable byte vector with a reader and a writer
    index.  Pointers into the vector ([Peek], [BeginWrite], the results of
    [FindCrlf] and [FindEol]) are offsets from [Begin()]; [size_t] is [Z] with
    the wrap-around at 2^64 written out; a write outside the vector is
    [Undefined].  The section [Ops] holds the operations, [contents] the
    abstraction to a byte queue, and the theorems show that the buffer
    implements that queue, that it never touches memory outside the vector, and
    what [ReadFd] does with every result of readv(2). *)
From S2P Require Import Prelude Endian.

Definition kCheapPrepend : Z := 8.
Definition kInitialSize : Z := 1024.
(** [std::vector<char>::max_size()] on a 64-bit target. *)
Definition max_size : Z := 2 ^ 63 - 1.

Record Buffer : Type := mkBuffer {
  buffer_ : list byte;
  readerIndex_ : Z;
  writerIndex_ : Z;
}.

#[global] Instance Buffer_eq_dec : EqDecision Buffer.
Proof. solve_decision. Defined.

Definition kCRLF : list byte := [Byte.x0d; Byte.x0a].

(** ** Library routines the class calls *)

(** [std::search(first, last, pat, pat+n)] as an offset from [first]. *)
Fixpoint std_search (hay pat : list byte) : nat :=
  if decide (pat `prefix_of` hay) then 0%nat
  else match hay with
       | [] => 0%nat
       | _ :: t => S (std_search t pat)
       end.

(** [memchr(p, c, n)] as an offset from [p]. *)
Fixpoint memchr (hay : list byte) (c : byte) : option nat :=
  match hay with
  | [] => None
  | x :: t => if decide (x = c) then Some 0%nat else S <$> memchr t c
  end.

(** [vector::resize(n)]. *)
Definition vector_resize (n : Z) (v : list byte) : outcome (list byte) :=
  if max_size <? n then Fault (Exception "length_error")
  else Ok (zresize n Byte.x00 v).

(** ** The class *)
Section Ops.

Definition ReadableBytes (b : Buffer) : Z := u64 (writerIndex_ b - readerIndex_ b).
Definition WritableBytes (b : Buffer) : Z := u64 (zlen (buffer_ b) - writerIndex_ b).
Definition PrependableBytes (b : Buffer) : Z := readerIndex_ b.
Definition Peek (b : Buffer) : Z := readerIndex_ b.
Definition BeginWrite (b : Buffer) : Z := writerIndex_ b.

Definition new_Buffer (initialSize : Z) : outcome Buffer :=
  v ← vector_resize (u64 (kCheapPrepend + initialSize)) [];
  let b := mkBuffer v kCheapPrepend kCheapPrepend in
  massert (ReadableBytes b =? 0) "ReadableBytes() == 0";;
  massert (WritableBytes b =? initialSize) "WritableBytes() == initialSize";;
  massert (PrependableBytes b =? kCheapPrepend) "PrependableBytes() == kCheapPrepend";;
  Ok b.

Definition Swap (b rhs : Buffer) : Buffer * Buffer := (rhs, b).

Definition FindCrlf (b : Buffer) : option Z :=
  let crlf := Peek b + Z.of_nat (std_search (zslice (Peek b) (BeginWrite b - Peek b) (buffer_ b)) kCRLF) in
  if crlf =? BeginWrite b then None else Some crlf.

Definition FindCrlf_from (start : Z) (b : Buffer) : outcome (option Z) :=
  massert (Peek b <=? start) "Peek() <= start";;
  massert (start <=? BeginWrite b) "start <= BeginWrite()";;
  let crlf := start + Z.of_nat (std_search (zslice start (BeginWrite b - start) (buffer_ b)) kCRLF) in
  Ok (if crlf =? BeginWrite b then None else Some crlf).

Definition FindEol (b : Buffer) : option Z :=
  (fun k => Peek b + Z.of_nat k) <$>
    memchr (zslice (Peek b) (ReadableBytes b) (buffer_ b)) Byte.x0a.

Definition FindEol_from (start : Z) (b : Buffer) : outcome (option Z) :=
  massert (Peek b <=? start) "Peek() <= start";;
  massert (start <=? BeginWrite b) "start <= BeginWrite()";;
  Ok ((fun k => start + Z.of_nat k) <$>
    memchr (zslice start (BeginWrite b - start) (buffer_ b)) Byte.x0a).

Definition RetrieveAll (b : Buffer) : Buffer :=
  mkBuffer (buffer_ b) kCheapPrepend kCheapPrepend.

Definition Retrieve (len : Z) (b : Buffer) : outcome Buffer :=
  massert (len <=? ReadableBytes b) "len <= ReadableBytes()";;
  if len <? ReadableBytes b
  then Ok (mkBuffer (buffer_ b) (u64 (readerIndex_ b + len)) (writerIndex_ b))
  else Ok (RetrieveAll b).

Definition RetrieveUntil (end_ : Z) (b : Buffer) : outcome Buffer :=
  massert (Peek b <=? end_) "Peek() <= end";;
  massert (end_ <=? BeginWrite b) "end <= BeginWrite()";;
  Retrieve (u64 (end_ - Peek b)) b.

Definition RetrieveInt64 (b : Buffer) : outcome Buffer := Retrieve 8 b.
Definition RetrieveInt32 (b : Buffer) : outcome Buffer := Retrieve 4 b.
Definition RetrieveInt16 (b : Buffer) : outcome Buffer := Retrieve 2 b.
Definition RetrieveInt8 (b : Buffer) : outcome Buffer := Retrieve 1 b.

Definition RetrieveAsString (len : Z) (b : Buffer) : outcome (list byte * Buffer) :=
  massert (len <=? ReadableBytes b) "len <= ReadableBytes()";;
  result ← read_from (Peek b) len (buffer_ b);
  b' ← Retrieve len b;
  Ok (result, b').

Definition RetrieveAllAsString (b : Buffer) : outcome (list byte * Buffer) :=
  RetrieveAsString (ReadableBytes b) b.

(** [std::string_view(Peek(), static_cast<int>(ReadableBytes()))]: the length
    goes through [int] before it becomes a [size_t] again. *)
Definition ToStringView (b : Buffer) : outcome (list byte) :=
  read_from (Peek b) (u64 (i32 (ReadableBytes b))) (buffer_ b).

Definition HasWritten (len : Z) (b : Buffer) : outcome Buffer :=
  massert (len <=? WritableBytes b) "len <= WritableBytes()";;
  Ok (mkBuffer (buffer_ b) (readerIndex_ b) (u64 (writerIndex_ b + len))).

Definition Unwrite (len : Z) (b : Buffer) : outcome Buffer :=
  massert (len <=? ReadableBytes b) "len <= ReadableBytes()";;
  Ok (mkBuffer (buffer_ b) (readerIndex_ b) (u64 (writerIndex_ b - len))).

Definition MakeSpace (len : Z) (b : Buffer) : outcome Buffer :=
  if u64 (WritableBytes b + PrependableBytes b) <? u64 (len + kCheapPrepend) then
    v ← vector_resize (u64 (writerIndex_ b + len)) (buffer_ b);
    Ok (mkBuffer v (readerIndex_ b) (writerIndex_ b))
  else
    massert (kCheapPrepend <? readerIndex_ b) "kCheapPrepend < readerIndex_";;
    let readable := ReadableBytes b in
    d ← read_from (readerIndex_ b) (writerIndex_ b - readerIndex_ b) (buffer_ b);
    v ← copy_into kCheapPrepend d (buffer_ b);
    let b' := mkBuffer v kCheapPrepend (u64 (kCheapPrepend + readable)) in
    massert (readable =? ReadableBytes b') "readable == ReadableBytes()";;
    Ok b'.

Definition EnsureWritableBytes (len : Z) (b : Buffer) : outcome Buffer :=
  b' ← (if WritableBytes b <? len then MakeSpace len b else Ok b);
  massert (len <=? WritableBytes b') "WritableBytes() >= len";;
  Ok b'.

Definition Append (data : list byte) (b : Buffer) : outcome Buffer :=
  let len := zlen data in
  b1 ← EnsureWritableBytes len b;
  v ← copy_into (BeginWrite b1) data (buffer_ b1);
  HasWritten len (mkBuffer v (readerIndex_ b1) (writerIndex_ b1)).

Definition AppendInt64 (x : Z) (b : Buffer) : outcome Buffer :=
  let be64 := i64 (HostToNetwork64 (u64 x)) in Append (le_split 8 be64) b.
Definition AppendInt32 (x : Z) (b : Buffer) : outcome Buffer :=
  let be32 := i32 (HostToNetwork32 (u32 x)) in Append (le_split 4 be32) b.
Definition AppendInt16 (x : Z) (b : Buffer) : outcome Buffer :=
  let be16 := i16 (HostToNetwork16 (u16 x)) in Append (le_split 2 be16) b.
Definition AppendInt8 (x : Z) (b : Buffer) : outcome Buffer :=
  Append (le_split 1 x) b.

Definition PeekInt64 (b : Buffer) : outcome Z :=
  massert (8 <=? ReadableBytes b) "ReadableBytes() >= sizeof(int64_t)";;
  m ← read_from (Peek b) 8 (buffer_ b);
  let be64 := i64 (le_combine m) in
  Ok (i64 (NetworkToHost64 (u64 be64))).
Definition PeekInt32 (b : Buffer) : outcome Z :=
  massert (4 <=? ReadableBytes b) "ReadableBytes() >= sizeof(int32_t)";;
  m ← read_from (Peek b) 4 (buffer_ b);
  let be32 := i32 (le_combine m) in
  Ok (i32 (NetworkToHost32 (u32 be32))).
Definition PeekInt16 (b : Buffer) : outcome Z :=
  massert (2 <=? ReadableBytes b) "ReadableBytes() >= sizeof(int16_t)";;
  m ← read_from (Peek b) 2 (buffer_ b);
  let be16 := i16 (le_combine m) in
  Ok (i16 (NetworkToHost16 (u16 be16))).
Definition PeekInt8 (b : Buffer) : outcome Z :=
  massert (1 <=? ReadableBytes b) "ReadableBytes() >= sizeof(int8_t)";;
  m ← read_from (Peek b) 1 (buffer_ b);
  Ok (i8 (le_combine m)).

Definition ReadInt64 (b : Buffer) : outcome (Z * Buffer) :=
  result ← PeekInt64 b; b' ← RetrieveInt64 b; Ok (result, b').
Definition ReadInt32 (b : Buffer) : outcome (Z * Buffer) :=
  result ← PeekInt32 b; b' ← RetrieveInt32 b; Ok (result, b').
Definition ReadInt16 (b : Buffer) : outcome (Z * Buffer) :=
  result ← PeekInt16 b; b' ← RetrieveInt16 b; Ok (result, b').
Definition ReadInt8 (b : Buffer) : outcome (Z * Buffer) :=
  result ← PeekInt8 b; b' ← RetrieveInt8 b; Ok (result, b').

Definition Prepend (data : list byte) (b : Buffer) : outcome Buffer :=
  let len := zlen data in
  massert (len <=? PrependableBytes b) "len <= PrependableBytes()";;
  let r := u64 (readerIndex_ b - len) in
  v ← copy_into r data (buffer_ b);
  Ok (mkBuffer v r (writerIndex_ b)).

Definition PrependInt64 (x : Z) (b : Buffer) : outcome Buffer :=
  let be64 := i64 (HostToNetwork64 (u64 x)) in Prepend (le_split 8 be64) b.
Definition PrependInt32 (x : Z) (b : Buffer) : outcome Buffer :=
  let be32 := i32 (HostToNetwork32 (u32 x)) in Prepend (le_split 4 be32) b.
Definition PrependInt16 (x : Z) (b : Buffer) : outcome Buffer :=
  let be16 := i16 (HostToNetwork16 (u16 x)) in Prepend (le_split 2 be16) b.
Definition PrependInt8 (x : Z) (b : Buffer) : outcome Buffer :=
  Prepend (le_split 1 x) b.

Definition Shrink (reserve : Z) (b : Buffer) : outcome Buffer :=
  other0 ← new_Buffer kInitialSize;
  other1 ← EnsureWritableBytes (u64 (ReadableBytes b + reserve)) other0;
  view ← ToStringView b;
  other2 ← Append view other1;
  Ok (fst (Swap b other2)).

(** The vectors handed to readv(2): the writable part of the buffer, and the
    64 KiB stack buffer when the former is smaller than that. *)
Definition iovecs (b : Buffer) : list Z :=
  if WritableBytes b <? 65536 then [WritableBytes b; 65536] else [WritableBytes b].

(** [readv fd lens] is the system call: an error number, or the bytes it
    stored, filling the vectors of lengths [lens] in order. *)
Definition ReadFd (readv : Z -> list Z -> Z + list byte) (fd : Z) (b : Buffer)
    : outcome (Z * option Z * Buffer) :=
  let writable := WritableBytes b in
  match readv fd (iovecs b) with
  | inl errno => Ok (-1, Some errno, b)
  | inr data =>
      let n := zlen data in
      v ← copy_into (writerIndex_ b) (ztake writable data) (buffer_ b);
      let extrabuf := zdrop writable data in
      if n <=? writable then
        Ok (n, None, mkBuffer v (readerIndex_ b) (u64 (writerIndex_ b + n)))
      else
        b2 ← Append extrabuf (mkBuffer v (readerIndex_ b) (zlen v));
        Ok (n, None, b2)
  end.

End Ops.

(** ** Invariant and abstraction *)

(** The indices delimit a region of a vector no larger than [max_size]. *)
Definition wf (b : Buffer) : Prop :=
  kCheapPrepend <= zlen (buffer_ b) <= max_size /\
  0 <= readerIndex_ b <= writerIndex_ b /\ writerIndex_ b <= zlen (buffer_ b).

(** The bytes a reader can still take, in order. *)
Definition contents (b : Buffer) : list byte :=
  zslice (readerIndex_ b) (writerIndex_ b - readerIndex_ b) (buffer_ b).

#[global] Instance wf_dec b : Decision (wf b).
Proof. unfold wf; apply _. Defined.

(** [len] more bytes can be stored: by growing the vector, or by moving the
    readable bytes to the front. *)
Definition fits (b : Buffer) (len : Z) : Prop :=
  0 <= len <= max_size /\
  (writerIndex_ b + len <= max_size \/
   len + kCheapPrepend <= zlen (buffer_ b) - writerIndex_ b + readerIndex_ b).
#[global] Instance fits_dec b len : Decision (fits b len).
Proof. unfold fits; apply _. Defined.

Section Lemmas.

Ltac buf := unfold wf, fits, RetrieveAll, max_size, kCheapPrepend in *; cbn [buffer_ readerIndex_ writerIndex_] in *.

Lemma ReadableBytes_wf b : wf b -> ReadableBytes b = writerIndex_ b - readerIndex_ b.
Proof. intros. unfold ReadableBytes. apply u64_small. buf; lia. Qed.
Lemma WritableBytes_wf b : wf b -> WritableBytes b = zlen (buffer_ b) - writerIndex_ b.
Proof. intros. unfold WritableBytes. apply u64_small. buf; lia. Qed.
Lemma zlen_contents b : wf b -> zlen (contents b) = writerIndex_ b - readerIndex_ b.
Proof. intros. unfold contents. apply zlen_zslice; buf; lia. Qed.

Lemma ReadableBytes_contents b : wf b -> ReadableBytes b = zlen (contents b).
Proof. intros. by rewrite ReadableBytes_wf, zlen_contents. Qed.

Lemma vector_resize_Ok n v : n <= max_size -> vector_resize n v = Ok (zresize n Byte.x00 v).
Proof. intros. unfold vector_resize. by rewrite (proj2 (Z.ltb_ge _ _)). Qed.

(** *** Making room *)

Lemma MakeSpace_grow b len :
  wf b -> 0 <= len -> writerIndex_ b + len <= max_size ->
  zlen (buffer_ b) - writerIndex_ b < len ->
  WritableBytes b + PrependableBytes b < len + kCheapPrepend ->
  MakeSpace len b =
    Ok (mkBuffer (zresize (writerIndex_ b + len) Byte.x00 (buffer_ b)) (readerIndex_ b) (writerIndex_ b)).
Proof.
  intros Hb ? ? ? Hlt. rewrite WritableBytes_wf in * by done.
  unfold MakeSpace, PrependableBytes in *. rewrite WritableBytes_wf by done.
  rewrite !u64_small by (buf; lia). rewrite (proj2 (Z.ltb_lt _ _)) by lia.
  by rewrite vector_resize_Ok.
Qed.

Lemma MakeSpace_move b len :
  wf b -> 0 <= len <= max_size ->
  zlen (buffer_ b) - writerIndex_ b < len ->
  len + kCheapPrepend <= WritableBytes b + PrependableBytes b ->
  kCheapPrepend < readerIndex_ b /\
  MakeSpace len b =
    Ok (mkBuffer (zsplice kCheapPrepend (contents b) (buffer_ b)) kCheapPrepend
          (kCheapPrepend + zlen (contents b))).
Proof.
  intros Hb ? ? Hle. pose proof (zlen_contents b Hb) as HL.
  rewrite WritableBytes_wf in * by done.
  unfold PrependableBytes in *. assert (kCheapPrepend < readerIndex_ b) by (buf; lia).
  split; [done|]. unfold MakeSpace, PrependableBytes. rewrite WritableBytes_wf by done.
  rewrite !(u64_small (_ + _)) by (buf; lia). rewrite (proj2 (Z.ltb_ge _ _)) by lia.
  rewrite massert_true by (by apply Z.ltb_lt). cbn [mbind outcome_bind].
  rewrite read_from_Ok by (buf; lia). cbn [mbind outcome_bind].
  fold (contents b). rewrite copy_into_Ok by (buf; lia). cbn [mbind outcome_bind].
  rewrite ReadableBytes_wf, <- HL by done.
  rewrite u64_small by (buf; lia).
  unfold ReadableBytes; cbn [writerIndex_ readerIndex_].
  rewrite massert_true; [done|]. apply Z.eqb_eq. rewrite u64_small; buf; lia.
Qed.

(** [EnsureWritableBytes] makes room, keeps the contents, and never moves the
    writer forward. *)
Lemma EnsureWritableBytes_spec b len :
  wf b -> fits b len ->
  exists b', EnsureWritableBytes len b = Ok b' /\ wf b' /\ contents b' = contents b /\
    len <= zlen (buffer_ b') - writerIndex_ b' /\ writerIndex_ b' <= writerIndex_ b /\
    Z.min kCheapPrepend (readerIndex_ b) <= readerIndex_ b'.
Proof.
  intros Hb [Hlen Hfit]. unfold EnsureWritableBytes. pose proof (zlen_contents b Hb) as HL.
  rewrite (WritableBytes_wf b) by done.
  destruct (Z.ltb_spec (zlen (buffer_ b) - writerIndex_ b) len).
  2:{ exists b. cbn. rewrite WritableBytes_wf, massert_true by (done || by apply Z.leb_le).
      repeat split; try done; buf; lia. }
  destruct (Z.lt_ge_cases (WritableBytes b + PrependableBytes b) (len + kCheapPrepend)).
  - unfold PrependableBytes in *. rewrite WritableBytes_wf in * by done.
    rewrite MakeSpace_grow; unfold PrependableBytes; rewrite ?WritableBytes_wf;
      try lia; try done. cbn [mbind outcome_bind].
    set (b' := mkBuffer _ _ _).
    assert (HW : zlen (buffer_ b') = writerIndex_ b + len).
    { cbn. apply zlen_zresize. buf; lia. }
    assert (wf b') by (subst b'; buf; lia). exists b'.
    rewrite WritableBytes_wf, HW, massert_true by (done || (subst b'; cbn; apply Z.leb_le; lia)).
    repeat split; try done; try (subst b'; buf; lia).
    unfold contents; cbn. apply zslice_zresize; buf; lia.
  - destruct (MakeSpace_move b len) as [? ->]; try done. cbn [mbind outcome_bind].
    rewrite WritableBytes_wf in * by done. unfold PrependableBytes in *.
    set (b' := mkBuffer _ _ _).
    assert (HW : zlen (buffer_ b') = zlen (buffer_ b)).
    { cbn. apply zlen_zsplice; buf; lia. }
    assert (wf b') by (subst b'; buf; lia). exists b'.
    rewrite WritableBytes_wf, HW, massert_true
      by (done || (subst b'; cbn; apply Z.leb_le; buf; lia)).
    repeat split; try done; try (subst b'; buf; lia).
    unfold contents at 1; cbn.
    replace (kCheapPrepend + _ - kCheapPrepend) with (zlen (contents b)) by lia.
    apply zslice_zsplice_same; buf; lia.
Qed.

(** Writing [d] at the writer index of a buffer with room extends the contents. *)
Lemma write_spec b d :
  wf b -> zlen d <= zlen (buffer_ b) - writerIndex_ b ->
  let b' := mkBuffer (zsplice (writerIndex_ b) d (buffer_ b)) (readerIndex_ b) (writerIndex_ b + zlen d) in
  wf b' /\ contents b' = contents b ++ d.
Proof.
  intros Hb Hd b'. pose proof (zlen_nonneg d).
  assert (HW : zlen (buffer_ b') = zlen (buffer_ b)) by (cbn; apply zlen_zsplice; buf; lia).
  split; [subst b'; buf; lia|]. unfold contents; cbn [buffer_ readerIndex_ writerIndex_ b'].
  replace (writerIndex_ b + zlen d - readerIndex_ b)
    with ((writerIndex_ b - readerIndex_ b) + zlen d) by lia.
  rewrite zslice_app by (buf; lia). f_equal.
  - apply zslice_zsplice_before; buf; lia.
  - replace (readerIndex_ b + _) with (writerIndex_ b) by lia.
    apply zslice_zsplice_same; buf; lia.
Qed.

Lemma Append_spec b d :
  wf b -> fits b (zlen d) ->
  exists b', Append d b = Ok b' /\ wf b' /\ contents b' = contents b ++ d /\
    writerIndex_ b' <= writerIndex_ b + zlen d /\
    Z.min kCheapPrepend (readerIndex_ b) <= readerIndex_ b'.
Proof.
  intros Hb Hfit. pose proof (zlen_nonneg d).
  destruct (EnsureWritableBytes_spec b (zlen d)) as (b1 & E & Hb1 & Hc & Hr & Hw & Hp); try done.
  destruct (write_spec b1 d Hb1 Hr) as [Hwf Hcont].
  eexists. unfold Append. rewrite E. cbn [mbind outcome_bind].
  rewrite copy_into_Ok by (unfold BeginWrite; buf; lia). cbn [mbind outcome_bind].
  unfold HasWritten, WritableBytes, BeginWrite; cbn [buffer_ writerIndex_ readerIndex_].
  rewrite zlen_zsplice, !u64_small by (buf; lia).
  rewrite massert_true by (apply Z.leb_le; lia). cbn [mbind outcome_bind].
  split; [done|]. split; [done|].
  rewrite Hcont, Hc. cbn; repeat split; lia.
Qed.

(** Room that does not fit in the largest vector is refused by [resize]. *)
Lemma EnsureWritableBytes_too_big b len :
  wf b -> 0 <= len <= max_size -> ~ fits b len ->
  EnsureWritableBytes len b = Fault (Exception "length_error").
Proof.
  unfold fits. intros Hb Hd Hbig. unfold EnsureWritableBytes.
  rewrite WritableBytes_wf by done.
  rewrite (proj2 (Z.ltb_lt _ _)) by (buf; lia).
  unfold MakeSpace, PrependableBytes. rewrite WritableBytes_wf by done.
  rewrite !u64_small by (buf; lia). rewrite (proj2 (Z.ltb_lt _ _)) by (buf; lia).
  unfold vector_resize. by rewrite (proj2 (Z.ltb_lt _ _)) by lia.
Qed.

Lemma Append_too_big b d :
  wf b -> zlen d <= max_size -> ~ fits b (zlen d) ->
  Append d b = Fault (Exception "length_error").
Proof.
  intros. unfold Append. pose proof (zlen_nonneg d).
  by rewrite EnsureWritableBytes_too_big.
Qed.

(** Whatever its argument, an [Append] that returns extended the contents. *)
Lemma Append_Ok b d b' :
  wf b -> zlen d <= max_size -> Append d b = Ok b' ->
  wf b' /\ contents b' = contents b ++ d.
Proof.
  intros Hb Hd E. destruct (decide (fits b (zlen d))) as [?|Hbig].
  - destruct (Append_spec b d) as (? & E' & ? & ? & ?); try done.
    rewrite E in E'. injection E' as <-. done.
  - by rewrite Append_too_big in E.
Qed.

(** *** Taking bytes *)

Lemma RetrieveAll_spec b : wf b -> wf (RetrieveAll b) /\ contents (RetrieveAll b) = [].
Proof.
  intros. split; [buf; lia|]. unfold contents. by apply zslice_nil.
Qed.

Lemma Retrieve_spec b n :
  wf b -> 0 <= n <= zlen (contents b) ->
  exists b', Retrieve n b = Ok b' /\ wf b' /\ contents b' = zdrop n (contents b) /\
    writerIndex_ b' <= Z.max kCheapPrepend (writerIndex_ b) /\
    Z.min kCheapPrepend (readerIndex_ b) <= readerIndex_ b' /\
    (n = zlen (contents b) -> readerIndex_ b' = kCheapPrepend).
Proof.
  intros Hb Hn. unfold Retrieve. rewrite ReadableBytes_contents by done.
  rewrite massert_true by (apply Z.leb_le; lia). cbn [mbind outcome_bind].
  rewrite zlen_contents in * by done.
  destruct (Z.ltb_spec n (writerIndex_ b - readerIndex_ b)).
  - rewrite u64_small by (buf; lia). eexists; split; [done|].
    split_and!; try (buf; lia). unfold contents; cbn.
    rewrite zdrop_zslice by (buf; lia). f_equal. lia.
  - eexists; split; [done|]. destruct (RetrieveAll_spec b Hb) as [? ->].
    repeat split; try done; try (buf; cbn; lia).
    rewrite zdrop_all; [done|]. rewrite zlen_contents by done. lia.
Qed.

Lemma Retrieve_fault b n :
  wf b -> zlen (contents b) < n -> Retrieve n b = Fault (Assertion "len <= ReadableBytes()").
Proof.
  intros Hb Hn. unfold Retrieve, massert. rewrite ReadableBytes_contents by done.
  by rewrite (proj2 (Z.leb_gt _ _)).
Qed.

Lemma read_contents b n :
  wf b -> 0 <= n <= zlen (contents b) ->
  read_from (Peek b) n (buffer_ b) = Ok (ztake n (contents b)).
Proof.
  intros Hb Hn. rewrite zlen_contents in Hn by done. unfold Peek.
  rewrite read_from_Ok by (buf; lia). unfold contents. by rewrite ztake_zslice by lia.
Qed.

Lemma RetrieveAsString_eq b n :
  wf b -> 0 <= n <= zlen (contents b) ->
  RetrieveAsString n b = (b' ← Retrieve n b; Ok (ztake n (contents b), b')).
Proof.
  intros Hb Hn. unfold RetrieveAsString. rewrite ReadableBytes_contents by done.
  rewrite massert_true by (apply Z.leb_le; lia). cbn [mbind outcome_bind].
  by rewrite read_contents.
Qed.

Lemma Unwrite_spec b n :
  wf b -> 0 <= n <= zlen (contents b) ->
  exists b', Unwrite n b = Ok b' /\ wf b' /\
    contents b' = ztake (zlen (contents b) - n) (contents b) /\
    writerIndex_ b' <= writerIndex_ b /\ readerIndex_ b' = readerIndex_ b.
Proof.
  intros Hb Hn. unfold Unwrite. rewrite ReadableBytes_contents by done.
  rewrite massert_true by (apply Z.leb_le; lia). cbn [mbind outcome_bind].
  rewrite zlen_contents in * by done. rewrite u64_small by (buf; lia).
  eexists; split; [done|]. repeat split; try (buf; lia). unfold contents; cbn.
  rewrite ztake_zslice by lia. f_equal. lia.
Qed.

Lemma Prepend_spec b d :
  wf b -> zlen d <= readerIndex_ b ->
  exists b', Prepend d b = Ok b' /\ wf b' /\ contents b' = d ++ contents b /\
    writerIndex_ b' = writerIndex_ b /\ readerIndex_ b' = readerIndex_ b - zlen d.
Proof.
  intros Hb Hd. pose proof (zlen_nonneg d). unfold Prepend, PrependableBytes.
  rewrite massert_true by (apply Z.leb_le; lia). cbn [mbind outcome_bind].
  rewrite u64_small by (buf; lia). rewrite copy_into_Ok by (buf; lia).
  set (r := readerIndex_ b - zlen d).
  pose (b' := mkBuffer (zsplice r d (buffer_ b)) r (writerIndex_ b)). exists b'; split; [done|].
  assert (HW : zlen (buffer_ b') = zlen (buffer_ b)) by (cbn; apply zlen_zsplice; buf; lia).
  repeat split; try (subst b' r; buf; lia).
  unfold contents; cbn [buffer_ readerIndex_ writerIndex_ b']. subst r.
  replace (writerIndex_ b - (_ - _)) with (zlen d + (writerIndex_ b - readerIndex_ b)) by lia.
  rewrite zslice_app by (buf; lia). f_equal.
  - apply zslice_zsplice_same; buf; lia.
  - replace (_ - _ + _) with (readerIndex_ b) by lia.
    apply zslice_zsplice_after; buf; lia.
Qed.

(** *** Integers in network order *)

Lemma AppendInt64_bytes x b : AppendInt64 x b = Append (be_bytes 8 x) b.
Proof. unfold AppendInt64. f_equal. apply (store_network 8 64); lia. Qed.
Lemma AppendInt32_bytes x b : AppendInt32 x b = Append (be_bytes 4 x) b.
Proof. unfold AppendInt32. f_equal. apply (store_network 4 32); lia. Qed.
Lemma AppendInt16_bytes x b : AppendInt16 x b = Append (be_bytes 2 x) b.
Proof. unfold AppendInt16. f_equal. apply (store_network 2 16); lia. Qed.
Lemma AppendInt8_bytes x b : AppendInt8 x b = Append (be_bytes 1 x) b.
Proof. done. Qed.
Lemma PrependInt64_bytes x b : PrependInt64 x b = Prepend (be_bytes 8 x) b.
Proof. unfold PrependInt64. f_equal. apply (store_network 8 64); lia. Qed.
Lemma PrependInt32_bytes x b : PrependInt32 x b = Prepend (be_bytes 4 x) b.
Proof. unfold PrependInt32. f_equal. apply (store_network 4 32); lia. Qed.
Lemma PrependInt16_bytes x b : PrependInt16 x b = Prepend (be_bytes 2 x) b.
Proof. unfold PrependInt16. f_equal. apply (store_network 2 16); lia. Qed.
Lemma PrependInt8_bytes x b : PrependInt8 x b = Prepend (be_bytes 1 x) b.
Proof. done. Qed.

Lemma length_ztake_contents b n :
  wf b -> Z.of_nat n <= zlen (contents b) -> length (ztake (Z.of_nat n) (contents b)) = n.
Proof. intros. unfold ztake, zlen in *. rewrite length_take. lia. Qed.

Ltac peek n := intros Hb Hn;
  rewrite ReadableBytes_contents, massert_true by (done || (apply Z.leb_le; lia));
  cbn [mbind outcome_bind]; rewrite read_contents by (done || lia);
  cbn [mbind outcome_bind]; f_equal;
  try (apply (load_network n); first [lia | by apply (length_ztake_contents _ n)]).

Lemma PeekInt64_spec b : wf b -> 8 <= zlen (contents b) ->
  PeekInt64 b = Ok (i64 (be_value (ztake 8 (contents b)))).
Proof. unfold PeekInt64. peek 8%nat. Qed.
Lemma PeekInt32_spec b : wf b -> 4 <= zlen (contents b) ->
  PeekInt32 b = Ok (i32 (be_value (ztake 4 (contents b)))).
Proof. unfold PeekInt32. peek 4%nat. Qed.
Lemma PeekInt16_spec b : wf b -> 2 <= zlen (contents b) ->
  PeekInt16 b = Ok (i16 (be_value (ztake 2 (contents b)))).
Proof. unfold PeekInt16. peek 2%nat. Qed.
Lemma PeekInt8_spec b : wf b -> 1 <= zlen (contents b) ->
  PeekInt8 b = Ok (i8 (be_value (ztake 1 (contents b)))).
Proof.
  unfold PeekInt8. peek 1%nat. unfold be_value.
  pose proof (length_ztake_contents b 1 Hb Hn) as L.
  destruct (ztake _ _) as [|? []]; try discriminate L. done.
Qed.

(** *** Searching *)

Lemma std_search_spec hay pat :
  let k := std_search hay pat in
  (k <= length hay)%nat /\
  (forall j, (j < k)%nat -> ~ pat `prefix_of` drop j hay) /\
  (k = length hay \/ pat `prefix_of` drop k hay).
Proof.
  induction hay as [|x t IH]; cbn.
  - destruct (decide _); repeat split; auto; intros; lia.
  - destruct (decide _) as [Hp|Hp]; cbn.
    + repeat split; [lia | intros; lia | auto].
    + destruct IH as (? & Hlt & Hk). repeat split; [lia| |naive_solver].
      intros [|j] ?; cbn; [done|]. apply Hlt. lia.
Qed.

Lemma memchr_spec hay c :
  match memchr hay c with
  | Some k => hay !! k = Some c /\ forall j, (j < k)%nat -> hay !! j <> Some c
  | None => c ∉ hay
  end.
Proof.
  induction hay as [|x t IH]; cbn; [set_solver|].
  destruct (decide (x = c)) as [->|]; [split; [done|lia]|].
  destruct (memchr t c); cbn; [|set_solver].
  destruct IH as [? Hj]. split; [done|]. intros [|j] ?; cbn; [congruence|]. apply Hj. lia.
Qed.

Lemma readable_slice b :
  wf b -> zslice (Peek b) (ReadableBytes b) (buffer_ b) = contents b.
Proof. intros. unfold contents, Peek. by rewrite ReadableBytes_wf. Qed.

(** *** Reading from a descriptor *)

Lemma iovecs_length b n : n <= foldr Z.add 0 (iovecs b) -> n <= WritableBytes b + 65536.
Proof. unfold iovecs. destruct (WritableBytes b <? 65536); cbn; lia. Qed.

(** The bytes that fit go in place, the rest through the stack buffer. *)
Lemma ReadFd_data readv fd b data :
  wf b -> readv fd (iovecs b) = inr data -> zlen data <= foldr Z.add 0 (iovecs b) ->
  writerIndex_ b + zlen data <= max_size ->
  exists b', ReadFd readv fd b = Ok (zlen data, None, b') /\ wf b' /\
    contents b' = contents b ++ data /\ writerIndex_ b' <= writerIndex_ b + zlen data /\
    Z.min kCheapPrepend (readerIndex_ b) <= readerIndex_ b'.
Proof.
  intros Hb E Hmax%iovecs_length Hroom. unfold ReadFd. rewrite E. pose proof (zlen_nonneg data).
  pose proof (WritableBytes_wf b Hb) as HW.
  destruct (write_spec b (ztake (WritableBytes b) data) Hb) as [Hwf Hc].
  { rewrite zlen_ztake; buf; lia. }
  rewrite copy_into_Ok by (rewrite ?zlen_ztake; buf; lia). cbn [mbind outcome_bind].
  destruct (Z.leb_spec (zlen data) (WritableBytes b)) as [Hle|Hgt].
  - rewrite ztake_all in * by done. rewrite u64_small by (buf; lia).
    eexists; split; [done|]. split_and!; try done; cbn; lia.
  - assert (Hl : zlen (ztake (WritableBytes b) data) = zlen (buffer_ b) - writerIndex_ b).
    { rewrite zlen_ztake. buf; lia. }
    replace (writerIndex_ b + _) with (zlen (buffer_ b)) in Hwf, Hc by lia.
    rewrite zlen_zsplice by (buf; lia).
    destruct (Append_spec _ (zdrop (WritableBytes b) data) Hwf) as (b' & E' & ? & Hb' & Hw' & Hr').
    { split; [|left]; rewrite zlen_zdrop; buf; lia. }
    rewrite E'. exists b'; split; [done|]. split; [done|]. rewrite zlen_zdrop in Hw'. cbn in Hw', Hr'.
    split_and!; [by rewrite Hb', Hc, <- app_assoc, ztake_zdrop | buf; lia | done].
Qed.

(** *** Shrinking *)

Lemma new_Buffer_spec n :
  0 <= n -> kCheapPrepend + n <= max_size ->
  exists b, new_Buffer n = Ok b /\ wf b /\ contents b = [] /\
    readerIndex_ b = kCheapPrepend /\ writerIndex_ b = kCheapPrepend /\
    zlen (buffer_ b) = kCheapPrepend + n.
Proof.
  intros. unfold new_Buffer. rewrite u64_small by (buf; lia).
  rewrite vector_resize_Ok by done. cbn [mbind outcome_bind].
  set (b := mkBuffer _ _ _).
  assert (HW : zlen (buffer_ b) = kCheapPrepend + n) by (cbn; apply zlen_zresize; buf; lia).
  assert (Hb : wf b) by (subst b; buf; lia).
  rewrite ReadableBytes_wf, WritableBytes_wf, HW by done.
  rewrite !massert_true by (apply Z.eqb_eq; subst b; cbn; lia). cbn.
  exists b. repeat split; try done; try (buf; lia).
Qed.

Lemma Shrink_spec b reserve :
  wf b -> zlen (contents b) < 2 ^ 31 -> 0 <= reserve ->
  kCheapPrepend + zlen (contents b) + reserve <= max_size ->
  exists b', Shrink reserve b = Ok b' /\ wf b' /\ contents b' = contents b /\
    readerIndex_ b' = kCheapPrepend /\ writerIndex_ b' = kCheapPrepend + zlen (contents b).
Proof.
  intros Hb Hsmall Hres Hsum. unfold Shrink, kInitialSize.
  pose proof (zlen_nonneg (contents b)).
  destruct (new_Buffer_spec 1024) as (o0 & -> & Ho0 & Hc0 & Hr0 & Hw0 & Hs0); [lia | buf; lia |].
  cbn [mbind outcome_bind]. rewrite ReadableBytes_contents, u64_small by (done || buf; lia).
  destruct (EnsureWritableBytes_spec o0 (zlen (contents b) + reserve))
    as (o1 & -> & Ho1 & Hc1 & Hroom & Hw1 & Hr1); [done| buf; lia |].
  cbn [mbind outcome_bind]. unfold ToStringView.
  rewrite ReadableBytes_contents by done. unfold i32. rewrite sint_small by lia.
  rewrite u64_small, read_contents, ztake_all by (done || lia). cbn [mbind outcome_bind].
  destruct (Append_spec o1 (contents b)) as (o2 & -> & Ho2 & Hc2 & Hw2 & Hr2);
    [done | buf; lia |].
  pose proof (zlen_contents o2 Ho2) as L2. rewrite Hc1, Hc0 in Hc2. rewrite Hc2 in L2.
  exists o2. cbn [app] in L2. split_and!; [done | done | done | buf; lia..].
Qed.

End Lemmas.

#[export] Hint Resolve Append_Ok RetrieveAll_spec : rnet.

(** ** Properties *)

(** C31: [ReadFd] loses and reorders nothing.  Given that readv(2) stores at most
    the sum of the lengths of its vectors, an error leaves the buffer as it was
    and hands the error number to the caller, and otherwise the call returns the
    byte count and the buffer's contents grow by exactly the bytes read, whether
    or not they spilled into the 64 KiB stack buffer. *)
Theorem ReadFd_appends readv fd b :
  (forall fd lens data, readv fd lens = inr data -> zlen data <= foldr Z.add 0 lens) ->
  wf b -> zlen (buffer_ b) + 65536 <= max_size ->
  match readv fd (iovecs b) with
  | inl errno => ReadFd readv fd b = Ok (-1, Some errno, b)
  | inr data => exists b', ReadFd readv fd b = Ok (zlen data, None, b') /\
                  wf b' /\ contents b' = contents b ++ data
  end.
Proof.
  intros Hreadv Hb Hroom. destruct (readv fd (iovecs b)) as [errno|data] eqn:E.
  - unfold ReadFd. by rewrite E.
  - pose proof (Hreadv _ _ _ E) as Hmax. pose proof (iovecs_length _ _ Hmax). rewrite WritableBytes_wf in * by done.
    destruct (ReadFd_data readv fd b data) as (b' & ? & ? & ? & _); [done | done | done | lia |]. by exists b'.
Qed.

Lemma ReadFd_appends_witness :
  let b := mkBuffer (replicate 12 Byte.x00) 8 10 in
  let data := replicate 5 Byte.x41 in
  let readv := fun (_ : Z) lens =>
    if decide (5 <= foldr Z.add 0 lens) then inr data else inl 11 in
  exists b', ReadFd readv 3 b = Ok (5, None, b') /\
    contents b' = contents b ++ data /\ zlen (buffer_ b) < zlen (buffer_ b').
Proof.
  intros b data readv.
  pose proof (ReadFd_appends readv 3 b) as H.
  destruct H as (b' & E & _ & Hc).
  - intros fd lens d. unfold readv. destruct (decide _); [|done]. by intros [= <-].
  - by vm_compute.
  - by vm_compute.
  - exists b'. split; [done|]. split; [done|].
    vm_compute in E. injection E as <-. by vm_compute.
Defined.

(** [FindCrlf] points at the first CRLF of the readable bytes: two bytes
    CR LF are there, no earlier position has them, and [nullptr] is returned
    exactly when no position has them. *)
Theorem FindCrlf_first b :
  wf b ->
  match FindCrlf b with
  | Some p => exists k : nat, p = Peek b + Z.of_nat k /\
      kCRLF `prefix_of` drop k (contents b) /\
      forall j, (j < k)%nat -> ~ kCRLF `prefix_of` drop j (contents b)
  | None => forall j, ~ kCRLF `prefix_of` drop j (contents b)
  end.
Proof.
  intros Hb. unfold FindCrlf, BeginWrite, Peek. fold (contents b).
  pose proof (zlen_contents b Hb) as L. unfold zlen in L.
  destruct (std_search_spec (contents b) kCRLF) as (Hle & Hlt & Hk).
  destruct (Z.eqb_spec (readerIndex_ b + Z.of_nat (std_search (contents b) kCRLF)) (writerIndex_ b)) as [E|E].
  - intros j Hp. destruct (decide (j < std_search (contents b) kCRLF)%nat) as [H|H]; [by eapply Hlt|].
    apply prefix_length in Hp. rewrite length_drop in Hp. cbn in Hp. lia.
  - eexists; split; [done|]. split; [|done]. destruct Hk as [Hk|Hk]; [lia | done].
Qed.

Lemma FindCrlf_first_witness :
  let b := mkBuffer (replicate 9 Byte.x0a ++ [Byte.x41; Byte.x0d; Byte.x0d; Byte.x0a; Byte.x0d; Byte.x0a]) 9 15 in
  wf b /\ FindCrlf b = Some 11 /\
  match FindCrlf b with
  | Some p => exists k : nat, p = Peek b + Z.of_nat k /\
      kCRLF `prefix_of` drop k (contents b) /\
      forall j, (j < k)%nat -> ~ kCRLF `prefix_of` drop j (contents b)
  | None => forall j, ~ kCRLF `prefix_of` drop j (contents b)
  end.
Proof.
  intros b. assert (wf b) by (by vm_compute). split; [done|].
  split; [by vm_compute | by apply (FindCrlf_first b)].
Defined.
