(* ===== verification/BufferSpec.v ===== *)
(** * What [Buffer] promises: a byte queue with room in front

    An abstract specification of [rnet::file::Buffer] and the proof that
    ConnBuffer.v implements it.  The abstract state is the queue of readable
    bytes and the number of bytes that can certainly be prepended; the abstract
    operations say nothing of indices, vectors or copies. *)
From S2P Require Import Prelude Endian ConnBuffer.

(** ** The calls of the public interface, and their answers *)
Inductive call : Type :=
  | CAppend (d : list byte)
  | CAppendInt64 (x : Z) | CAppendInt32 (x : Z) | CAppendInt16 (x : Z) | CAppendInt8 (x : Z)
  | CPrepend (d : list byte)
  | CPrependInt64 (x : Z) | CPrependInt32 (x : Z) | CPrependInt16 (x : Z) | CPrependInt8 (x : Z)
  | CRetrieve (n : Z)
  | CRetrieveUntil (off : Z)          (** [off] is the pointer minus [Peek()] *)
  | CRetrieveAll
  | CRetrieveAsString (n : Z)
  | CRetrieveAllAsString
  | CUnwrite (n : Z)
  | CReadInt64 | CReadInt32 | CReadInt16 | CReadInt8
  | CPeekInt64 | CPeekInt32 | CPeekInt16 | CPeekInt8
  | CFindCrlf | CFindEol
  | CEnsureWritableBytes (n : Z)
  | CRetrieveInt64 | CRetrieveInt32 | CRetrieveInt16 | CRetrieveInt8
  | CFindCrlfFrom (off : Z) | CFindEolFrom (off : Z)
  | CToStringView
  | CHasWritten (n : Z)
  | CShrink (reserve : Z)
  | CReadFd (res : Z + list byte).    (** the error number of readv(2), or the bytes it stored *)

Inductive reply : Type :=
  | RUnit
  | RBytes (d : list byte)
  | RInt (x : Z)
  | RPos (p : option nat).            (** offset from [Peek()] *)

(** ** The concrete calls *)
Definition unit_call (m : outcome Buffer) : outcome (reply * Buffer) :=
  b ← m; Ok (RUnit, b).
Definition bytes_call (m : outcome (list byte * Buffer)) : outcome (reply * Buffer) :=
  r ← m; Ok (RBytes (fst r), snd r).
Definition int_call (m : outcome (Z * Buffer)) : outcome (reply * Buffer) :=
  r ← m; Ok (RInt (fst r), snd r).
Definition peek_call (m : outcome Z) (b : Buffer) : outcome (reply * Buffer) :=
  x ← m; Ok (RInt x, b).
Definition pos_call (p : option Z) (b : Buffer) : outcome (reply * Buffer) :=
  Ok (RPos ((fun k => Z.to_nat (k - Peek b)) <$> p), b).

Definition pos_from (m : outcome (option Z)) (b : Buffer) : outcome (reply * Buffer) :=
  p ← m; pos_call p b.

Definition exec (c : call) (b : Buffer) : outcome (reply * Buffer) :=
  match c with
  | CAppend d => unit_call (Append d b)
  | CAppendInt64 x => unit_call (AppendInt64 x b)
  | CAppendInt32 x => unit_call (AppendInt32 x b)
  | CAppendInt16 x => unit_call (AppendInt16 x b)
  | CAppendInt8 x => unit_call (AppendInt8 x b)
  | CPrepend d => unit_call (Prepend d b)
  | CPrependInt64 x => unit_call (PrependInt64 x b)
  | CPrependInt32 x => unit_call (PrependInt32 x b)
  | CPrependInt16 x => unit_call (PrependInt16 x b)
  | CPrependInt8 x => unit_call (PrependInt8 x b)
  | CRetrieve n => unit_call (Retrieve n b)
  | CRetrieveUntil off => unit_call (RetrieveUntil (Peek b + off) b)
  | CRetrieveAll => unit_call (Ok (RetrieveAll b))
  | CRetrieveAsString n => bytes_call (RetrieveAsString n b)
  | CRetrieveAllAsString => bytes_call (RetrieveAllAsString b)
  | CUnwrite n => unit_call (Unwrite n b)
  | CReadInt64 => int_call (ReadInt64 b)
  | CReadInt32 => int_call (ReadInt32 b)
  | CReadInt16 => int_call (ReadInt16 b)
  | CReadInt8 => int_call (ReadInt8 b)
  | CPeekInt64 => peek_call (PeekInt64 b) b
  | CPeekInt32 => peek_call (PeekInt32 b) b
  | CPeekInt16 => peek_call (PeekInt16 b) b
  | CPeekInt8 => peek_call (PeekInt8 b) b
  | CFindCrlf => pos_call (FindCrlf b) b
  | CFindEol => pos_call (FindEol b) b
  | CEnsureWritableBytes n => unit_call (EnsureWritableBytes n b)
  | CRetrieveInt64 => unit_call (RetrieveInt64 b)
  | CRetrieveInt32 => unit_call (RetrieveInt32 b)
  | CRetrieveInt16 => unit_call (RetrieveInt16 b)
  | CRetrieveInt8 => unit_call (RetrieveInt8 b)
  | CFindCrlfFrom off => pos_from (FindCrlf_from (Peek b + off) b) b
  | CFindEolFrom off => pos_from (FindEol_from (Peek b + off) b) b
  | CToStringView => v ← ToStringView b; Ok (RBytes v, b)
  | CHasWritten n => unit_call (HasWritten n b)
  | CShrink reserve => unit_call (Shrink reserve b)
  | CReadFd res => '(n, _, b) ← ReadFd (fun _ _ => res) 0 b; Ok (RInt n, b)
  end.

Fixpoint exec_all (cs : list call) (b : Buffer) : outcome (list reply * Buffer) :=
  match cs with
  | [] => Ok ([], b)
  | c :: cs' =>
      r ← exec c b;
      rs ← exec_all cs' (snd r);
      Ok (fst r :: fst rs, snd rs)
  end.

(** ** The abstract queue *)
Module Queue.
Record queue : Type := mkQueue { bytes : list byte; room : Z }.

Definition push (d : list byte) (q : queue) : option (reply * queue) :=
  Some (RUnit, mkQueue (bytes q ++ d) (room q)).
Definition push_front (d : list byte) (q : queue) : option (reply * queue) :=
  if zlen d <=? room q
  then Some (RUnit, mkQueue (d ++ bytes q) (room q - zlen d)) else None.
(** Drop [n] bytes; an emptied queue gets its whole front room back. *)
Definition drop_front (n : Z) (q : queue) : queue :=
  mkQueue (zdrop n (bytes q)) (if n =? zlen (bytes q) then kCheapPrepend else room q).
Definition has (n : Z) (q : queue) : bool := (0 <=? n) && (n <=? zlen (bytes q)).
Definition pop (n : Z) (r : reply) (q : queue) : option (reply * queue) :=
  if has n q then Some (r, drop_front n q) else None.
Definition be_int (w n : Z) (q : queue) : reply :=
  RInt (sint w (be_value (ztake n (bytes q)))).
Definition peek (n : Z) (r : reply) (q : queue) : option (reply * queue) :=
  if has n q then Some (r, q) else None.
Definition crlf_at (l : list byte) : option nat :=
  let k := std_search l kCRLF in if (k =? length l)%nat then None else Some k.

Definition step (c : call) (q : queue) : option (reply * queue) :=
  match c with
  | CAppend d => push d q
  | CAppendInt64 x => push (be_bytes 8 x) q
  | CAppendInt32 x => push (be_bytes 4 x) q
  | CAppendInt16 x => push (be_bytes 2 x) q
  | CAppendInt8 x => push (be_bytes 1 x) q
  | CPrepend d => push_front d q
  | CPrependInt64 x => push_front (be_bytes 8 x) q
  | CPrependInt32 x => push_front (be_bytes 4 x) q
  | CPrependInt16 x => push_front (be_bytes 2 x) q
  | CPrependInt8 x => push_front (be_bytes 1 x) q
  | CRetrieve n | CRetrieveUntil n => pop n RUnit q
  | CRetrieveAll => Some (RUnit, mkQueue [] kCheapPrepend)
  | CRetrieveAsString n => pop n (RBytes (ztake n (bytes q))) q
  | CRetrieveAllAsString => pop (zlen (bytes q)) (RBytes (bytes q)) q
  | CUnwrite n =>
      if has n q
      then Some (RUnit, mkQueue (ztake (zlen (bytes q) - n) (bytes q)) (room q)) else None
  | CReadInt64 => pop 8 (be_int 64 8 q) q
  | CReadInt32 => pop 4 (be_int 32 4 q) q
  | CReadInt16 => pop 2 (be_int 16 2 q) q
  | CReadInt8 => pop 1 (be_int 8 1 q) q
  | CPeekInt64 => peek 8 (be_int 64 8 q) q
  | CPeekInt32 => peek 4 (be_int 32 4 q) q
  | CPeekInt16 => peek 2 (be_int 16 2 q) q
  | CPeekInt8 => peek 1 (be_int 8 1 q) q
  | CFindCrlf => Some (RPos (crlf_at (bytes q)), q)
  | CFindEol => Some (RPos (memchr (bytes q) Byte.x0a), q)
  | CEnsureWritableBytes n => if 0 <=? n then Some (RUnit, q) else None
  | CRetrieveInt64 => pop 8 RUnit q
  | CRetrieveInt32 => pop 4 RUnit q
  | CRetrieveInt16 => pop 2 RUnit q
  | CRetrieveInt8 => pop 1 RUnit q
  | CFindCrlfFrom off =>
      peek off (RPos ((fun k => Z.to_nat off + k)%nat <$> crlf_at (zdrop off (bytes q)))) q
  | CFindEolFrom off =>
      peek off (RPos ((fun k => Z.to_nat off + k)%nat <$> memchr (zdrop off (bytes q)) Byte.x0a)) q
  | CToStringView => if zlen (bytes q) <? 2 ^ 31 then Some (RBytes (bytes q), q) else None
  (** the bytes behind the writer index are not part of the queue *)
  | CHasWritten n => if n =? 0 then Some (RUnit, q) else None
  | CShrink reserve =>
      if (0 <=? reserve) && (zlen (bytes q) <? 2 ^ 31)
      then Some (RUnit, mkQueue (bytes q) kCheapPrepend) else None
  | CReadFd (inl _) => Some (RInt (-1), q)
  | CReadFd (inr d) =>
      if zlen d <=? 65536 then Some (RInt (zlen d), mkQueue (bytes q ++ d) (room q)) else None
  end.

Fixpoint steps (cs : list call) (q : queue) : option (list reply * queue) :=
  match cs with
  | [] => Some ([], q)
  | c :: cs' =>
      r ← step c q;
      rs ← steps cs' (snd r);
      Some (fst r :: fst rs, snd rs)
  end.
End Queue.

(** How many bytes of space a call may need. *)
Definition demand (c : call) : Z :=
  match c with
  | CAppend d => zlen d
  | CAppendInt64 _ => 8 | CAppendInt32 _ => 4 | CAppendInt16 _ => 2 | CAppendInt8 _ => 1
  | CEnsureWritableBytes n => Z.max 0 n
  | CShrink reserve => kCheapPrepend + Z.max 0 reserve
  | CReadFd (inr d) => zlen d
  | _ => 0
  end.
Definition demands (cs : list call) : Z := foldr (fun c a => demand c + a) 0 cs.

Lemma demand_nonneg c : 0 <= demand c.
Proof. destruct c as [d| | | | | | | | | | | | | | | | | | | | | | | | | | | | | | | | | | | |[|d]]; cbn; try unfold kCheapPrepend; try lia; apply zlen_nonneg. Qed.
Lemma demands_nonneg cs : 0 <= demands cs.
Proof. induction cs as [|c cs]; unfold demands in *; cbn; [lia|]. pose proof (demand_nonneg c). lia. Qed.

(** ** Simulation *)

(** A buffer represents a queue: same bytes, and at least the promised room. *)
Definition represents (b : Buffer) (q : Queue.queue) : Prop :=
  wf b /\ contents b = Queue.bytes q /\
  0 <= Queue.room q <= Z.min kCheapPrepend (readerIndex_ b).

(** The highest the writer index can be once the buffer was emptied. *)
Definition high (b : Buffer) : Z := Z.max kCheapPrepend (writerIndex_ b).

Section Simulation.
Import Queue.

Ltac sim := unfold represents, high, kCheapPrepend in *; cbn [bytes room] in *.

Lemma has_spec n q : has n q = true -> 0 <= n <= zlen (bytes q).
Proof. unfold has. intros. bool_to_prop. done. Qed.

Lemma sim_push b q d :
  represents b q -> high b + zlen d <= max_size ->
  exists b', Append d b = Ok b' /\ represents b' (mkQueue (bytes q ++ d) (room q)) /\
    high b' <= high b + zlen d.
Proof.
  intros (Hb & Hc & Hr) Hm. pose proof (zlen_nonneg d).
  destruct (Append_spec b d) as (b' & E & Hb' & Hc' & Hw & Hr'); [done| |].
  { unfold fits, high, max_size, kCheapPrepend, wf in *. lia. }
  exists b'. split; [done|]. rewrite Hc in Hc'. sim. split_and!; try done; lia.
Qed.

Lemma sim_push_front b q d :
  represents b q -> zlen d <= room q ->
  exists b', Prepend d b = Ok b' /\ represents b' (mkQueue (d ++ bytes q) (room q - zlen d)) /\
    high b' <= high b.
Proof.
  intros (Hb & Hc & Hr) Hm. pose proof (zlen_nonneg d).
  destruct (Prepend_spec b d) as (b' & E & Hb' & Hc' & Hw & Hr'); [done|lia|].
  exists b'. split; [done|]. rewrite Hc in Hc'. sim. split_and!; try done; lia.
Qed.

Lemma sim_pop b q n :
  represents b q -> 0 <= n <= zlen (bytes q) ->
  exists b', Retrieve n b = Ok b' /\ represents b' (drop_front n q) /\ high b' <= high b.
Proof.
  intros (Hb & Hc & Hr) Hn.
  destruct (Retrieve_spec b n) as (b' & E & Hb' & Hc' & Hw & Hr' & Hall); [done | by rewrite Hc |].
  exists b'. split; [done|]. rewrite Hc in *. unfold drop_front. sim.
  split_and!; try done; try lia; case_if; lia.
Qed.

Lemma sim_find b q : represents b q ->
  (fun k => Z.to_nat (k - Peek b)) <$> FindCrlf b = crlf_at (bytes q) /\
  (fun k => Z.to_nat (k - Peek b)) <$> FindEol b = memchr (bytes q) Byte.x0a.
Proof.
  intros (Hb & Hc & Hr). split.
  - unfold FindCrlf, crlf_at, Peek, BeginWrite. fold (contents b).
    pose proof (zlen_contents b Hb) as L. unfold zlen in L. rewrite Hc in *.
    destruct (Nat.eqb_spec (std_search (bytes q) kCRLF) (length (bytes q))) as [E|E].
    + rewrite (proj2 (Z.eqb_eq _ _)) by lia. done.
    + rewrite (proj2 (Z.eqb_neq _ _)) by lia. cbn. f_equal. lia.
  - unfold FindEol. rewrite readable_slice, Hc by done.
    destruct (memchr _ _); [|done]. cbn. f_equal. lia.
Qed.

Lemma RetrieveUntil_eq b n :
  wf b -> 0 <= n <= zlen (contents b) -> RetrieveUntil (Peek b + n) b = Retrieve n b.
Proof.
  intros Hb Hn. unfold RetrieveUntil. pose proof (zlen_contents b Hb).
  rewrite !massert_true by (apply Z.leb_le; unfold Peek, BeginWrite; lia).
  cbn [mbind outcome_bind]. f_equal.
  replace (_ - _) with n by lia. apply u64_small. unfold wf, max_size in *; lia.
Qed.


Lemma sim_unwrite b q n :
  represents b q -> 0 <= n <= zlen (bytes q) ->
  exists b', Unwrite n b = Ok b' /\
    represents b' (mkQueue (ztake (zlen (bytes q) - n) (bytes q)) (room q)) /\
    high b' <= high b.
Proof.
  intros (Hb & Hc & Hr) Hn.
  destruct (Unwrite_spec b n) as (b' & E & Hb' & Hc' & Hw & Hr'); [done | by rewrite Hc |].
  exists b'. split; [done|]. rewrite Hc in *. sim. split_and!; try done; lia.
Qed.

Lemma sim_ensure b q n :
  represents b q -> 0 <= n -> high b + n <= max_size ->
  exists b', EnsureWritableBytes n b = Ok b' /\ represents b' q /\ high b' <= high b.
Proof.
  intros (Hb & Hc & Hr) Hn Hm.
  destruct (EnsureWritableBytes_spec b n) as (b' & E & Hb' & Hc' & ? & Hw & Hr'); [done| |].
  { unfold fits, high, max_size, kCheapPrepend, wf in *. lia. }
  exists b'. split; [done|]. rewrite Hc in *. sim. split_and!; try done; lia.
Qed.

Lemma sim_find_from b q off : represents b q -> 0 <= off <= zlen (bytes q) ->
  FindCrlf_from (Peek b + off) b = Ok ((fun k => Peek b + off + Z.of_nat k) <$> crlf_at (zdrop off (bytes q))) /\
  FindEol_from (Peek b + off) b = Ok ((fun k => Peek b + off + Z.of_nat k) <$> memchr (zdrop off (bytes q)) Byte.x0a).
Proof.
  intros (Hb & Hc & Hr) Ho. pose proof (zlen_contents b Hb) as L. rewrite Hc in L.
  assert (Hs : zslice (Peek b + off) (BeginWrite b - (Peek b + off)) (buffer_ b) = zdrop off (bytes q)).
  { rewrite <- Hc. unfold contents, Peek, BeginWrite. rewrite zdrop_zslice by (unfold wf in Hb; lia). f_equal. lia. }
  pose proof (zlen_zdrop off (bytes q)) as Ld. rewrite L in Ld. unfold FindCrlf_from, FindEol_from. rewrite Hs.
  rewrite !massert_true by (apply Z.leb_le; unfold Peek, BeginWrite; lia). cbn [mbind outcome_bind]. split; [|done].
  unfold crlf_at. unfold zlen in Ld. destruct (Nat.eqb_spec (std_search (zdrop off (bytes q)) kCRLF) (length (zdrop off (bytes q)))) as [E|E].
  - rewrite (proj2 (Z.eqb_eq _ _)) by (unfold Peek, BeginWrite; lia). done.
  - rewrite (proj2 (Z.eqb_neq _ _)) by (unfold Peek, BeginWrite; lia). done.
Qed.

Lemma sim_view b q : represents b q -> zlen (bytes q) < 2 ^ 31 -> ToStringView b = Ok (bytes q).
Proof.
  intros (Hb & Hc & Hr) Hs. unfold ToStringView. pose proof (zlen_nonneg (bytes q)).
  rewrite ReadableBytes_contents, Hc by done. unfold i32. rewrite sint_small by lia.
  rewrite u64_small, read_contents, Hc, ztake_all by (rewrite ?Hc; done || lia). done.
Qed.

Lemma sim_shrink b q r : represents b q -> 0 <= r -> zlen (bytes q) < 2 ^ 31 -> high b + kCheapPrepend + r <= max_size ->
  exists b', Shrink r b = Ok b' /\ represents b' (mkQueue (bytes q) kCheapPrepend) /\ high b' <= high b + kCheapPrepend + r.
Proof.
  intros (Hb & Hc & Hr) Hr0 Hs Hm. pose proof (zlen_contents b Hb) as L. rewrite Hc in L.
  destruct (Shrink_spec b r) as (b' & E & Hb' & Hc' & Hr' & Hw'); rewrite ?Hc; try done.
  { unfold high, wf in *. lia. }
  exists b'. split; [done|]. rewrite Hc in *. sim. unfold wf in *. split_and!; try done; lia.
Qed.

Lemma sim_readfd b q d : represents b q -> zlen d <= 65536 -> high b + zlen d <= max_size ->
  exists b', ReadFd (fun _ _ => inr d) 0 b = Ok (zlen d, None, b') /\
    represents b' (mkQueue (bytes q ++ d) (room q)) /\ high b' <= high b + zlen d.
Proof.
  intros (Hb & Hc & Hr) Hd Hm. pose proof (zlen_nonneg d).
  destruct (ReadFd_data (fun _ _ => inr d) 0 b d) as (b' & E & Hb' & Hc' & Hw & Hr'); [done | done | | unfold high in Hm; lia |].
  { unfold iovecs. pose proof (u64_range (zlen (buffer_ b) - writerIndex_ b)). fold (WritableBytes b) in *.
    destruct (Z.ltb_spec (WritableBytes b) 65536); cbn; lia. }
  exists b'. split; [done|]. rewrite Hc in *. sim. split_and!; try done; lia.
Qed.

(** A call that takes [n] bytes and answers [r]. *)
Lemma sim_pop_call b q n (r : reply) m :
  represents b q -> has n q = true ->
  (0 <= n <= zlen (contents b) -> m = (b' ← Retrieve n b; Ok (r, b'))) ->
  exists b', m = Ok (r, b') /\ represents b' (drop_front n q) /\ high b' <= high b + 0.
Proof.
  intros HR Hh Hm. apply has_spec in Hh. pose proof HR as (_ & Hc & _).
  rewrite Hc in Hm. rewrite Hm by done.
  destruct (sim_pop b q n HR Hh) as (b' & -> & ? & ?). exists b'. split_and!; try done; lia.
Qed.

(** A call that looks at the first [n] bytes. *)
Lemma sim_peek_call b q n (r : reply) m :
  represents b q -> has n q = true -> (n <= zlen (contents b) -> m = Ok (r, b)) ->
  exists b', m = Ok (r, b') /\ represents b' q /\ high b' <= high b + 0.
Proof.
  intros HR Hh Hm. apply has_spec in Hh. pose proof HR as (_ & Hc & _).
  rewrite Hc in Hm. exists b. rewrite Hm by lia. split_and!; try done; lia.
Qed.

(** A call that appends [d]. *)
Lemma sim_push_call b q d m k :
  represents b q -> zlen d = k -> m = unit_call (Append d b) -> high b + k <= max_size ->
  exists b', m = Ok (RUnit, b') /\ represents b' (mkQueue (bytes q ++ d) (room q)) /\
    high b' <= high b + k.
Proof.
  intros HR <- -> Hm. destruct (sim_push b q d HR Hm) as (b' & -> & ? & ?). by exists b'.
Qed.

(** A call that prepends [d]. *)
Lemma sim_push_front_call b q d m r q' :
  represents b q -> push_front d q = Some (r, q') -> m = unit_call (Prepend d b) ->
  exists b', m = Ok (r, b') /\ represents b' q' /\ high b' <= high b + 0.
Proof.
  unfold push_front. intros HR E ->.
  destruct (Z.leb_spec (zlen d) (room q)); [|done]. injection E as <- <-.
  destruct (sim_push_front b q d HR) as (b' & -> & ? & ?); [done|].
  exists b'. split_and!; try done; lia.
Qed.

Ltac has_case E := unfold pop, peek in E;
  match type of E with context [has ?n ?q] => destruct (has n q) eqn:?; [|discriminate E] end;
  injection E as <- <-.
Ltac pop_case E := has_case E; eapply sim_pop_call; [done..|]; intros; cbn [exec];
  unfold ReadInt64, ReadInt32, ReadInt16, ReadInt8;
  rewrite ?PeekInt64_spec, ?PeekInt32_spec, ?PeekInt16_spec, ?PeekInt8_spec,
    ?RetrieveUntil_eq by (done || lia).
Ltac peek_case E := has_case E; eapply sim_peek_call; [done..|]; intros; cbn [exec];
  rewrite ?PeekInt64_spec, ?PeekInt32_spec, ?PeekInt16_spec, ?PeekInt8_spec by (done || lia).

(** Every call the queue allows is answered by the buffer the same way. *)
Lemma sim_step c b q r q' :
  represents b q -> step c q = Some (r, q') -> high b + demand c <= max_size ->
  exists b', exec c b = Ok (r, b') /\ represents b' q' /\ high b' <= high b + demand c.
Proof.
  intros HR E Hm. pose proof HR as (Hb & Hc & Hr).
  destruct (sim_find b q HR) as [F1 F2].
  destruct c; cbn [step demand] in *.
  - injection E as <- <-. by eapply sim_push_call.
  - injection E as <- <-. eapply sim_push_call; try done. cbn [exec]. by rewrite AppendInt64_bytes.
  - injection E as <- <-. eapply sim_push_call; try done. cbn [exec]. by rewrite AppendInt32_bytes.
  - injection E as <- <-. eapply sim_push_call; try done. cbn [exec]. by rewrite AppendInt16_bytes.
  - injection E as <- <-. by eapply sim_push_call.
  - eapply sim_push_front_call; [done | exact E | done].
  - eapply sim_push_front_call; [done | exact E |]. cbn [exec]. by rewrite PrependInt64_bytes.
  - eapply sim_push_front_call; [done | exact E |]. cbn [exec]. by rewrite PrependInt32_bytes.
  - eapply sim_push_front_call; [done | exact E |]. cbn [exec]. by rewrite PrependInt16_bytes.
  - eapply sim_push_front_call; [done | exact E | done].
  - pop_case E. done.
  - pop_case E. done.
  - injection E as <- <-. exists (RetrieveAll b).
    destruct (RetrieveAll_spec b Hb). split_and!; [done | | unfold high; cbn; lia].
    split_and!; try done; cbn; unfold kCheapPrepend; lia.
  - pop_case E. rewrite RetrieveAsString_eq, Hc by done. by destruct (Retrieve n b).
  - pop_case E. unfold RetrieveAllAsString. rewrite ReadableBytes_contents by done.
    rewrite RetrieveAsString_eq, Hc by (done || rewrite ?Hc; lia).
    rewrite ztake_all by lia. by destruct (Retrieve _ b).
  - has_case E. destruct (sim_unwrite b q n) as (b' & E' & ? & ?); [done | by apply has_spec |].
    exists b'. cbn. rewrite E'. split_and!; try done; lia.
  - pop_case E. unfold be_int, RetrieveInt64. rewrite Hc. by destruct (Retrieve 8 b).
  - pop_case E. unfold be_int, RetrieveInt32. rewrite Hc. by destruct (Retrieve 4 b).
  - pop_case E. unfold be_int, RetrieveInt16. rewrite Hc. by destruct (Retrieve 2 b).
  - pop_case E. unfold be_int, RetrieveInt8. rewrite Hc. by destruct (Retrieve 1 b).
  - peek_case E. unfold be_int. by rewrite Hc.
  - peek_case E. unfold be_int. by rewrite Hc.
  - peek_case E. unfold be_int. by rewrite Hc.
  - peek_case E. unfold be_int. by rewrite Hc.
  - injection E as <- <-. exists b. cbn. unfold pos_call. rewrite F1. split_and!; try done; lia.
  - injection E as <- <-. exists b. cbn. unfold pos_call. rewrite F2. split_and!; try done; lia.
  - destruct (Z.leb_spec 0 n); [|done]. injection E as <- <-.
    destruct (sim_ensure b q n) as (b' & E' & ? & ?); [done | done | lia |].
    exists b'. cbn. rewrite E'. split_and!; try done; lia.
  - pop_case E. done.
  - pop_case E. done.
  - pop_case E. done.
  - pop_case E. done.
  - has_case E. destruct (sim_find_from b q off HR) as [F _]; [by apply has_spec|]. exists b. cbn. unfold pos_from, pos_call. rewrite F.
    split_and!; try done; [|lia]. cbn. do 3 f_equal. clear F1 F2 F; destruct (crlf_at _); [|done]. cbn. f_equal. apply has_spec in Heqb0. lia.
  - has_case E. destruct (sim_find_from b q off HR) as [_ F]; [by apply has_spec|]. exists b. cbn. unfold pos_from, pos_call. rewrite F.
    split_and!; try done; [|lia]. cbn. do 3 f_equal. clear F1 F2 F; destruct (memchr _ _); [|done]. cbn. f_equal. apply has_spec in Heqb0. lia.
  - destruct (Z.ltb_spec (zlen (bytes q)) (2 ^ 31)); [|done]. injection E as <- <-. exists b. cbn. rewrite (sim_view b q) by done.
    split_and!; try done; lia.
  - destruct (Z.eqb_spec n 0) as [->|]; [|done]. injection E as <- <-. exists b. cbn. unfold HasWritten.
    rewrite massert_true by (apply Z.leb_le, u64_range). cbn. rewrite Z.add_0_r, u64_small by (unfold wf, max_size in Hb; lia).
    split_and!; try done; [by destruct b | lia].
  - destruct ((0 <=? reserve) && _) eqn:Eb; [|done]. injection E as <- <-. bool_to_prop.
    destruct (sim_shrink b q reserve) as (b' & E' & ? & ?); [done | lia | lia | lia |]. exists b'. cbn. rewrite E'. split_and!; try done; lia.
  - destruct res as [errno|d]; cbn [demand] in *.
    + injection E as <- <-. exists b. split_and!; try done; lia.
    + destruct (Z.leb_spec (zlen d) 65536); [|done]. injection E as <- <-.
      destruct (sim_readfd b q d) as (b' & E' & ? & ?); [done | done | lia |]. exists b'. cbn [exec]. rewrite E'. split_and!; try done; lia.
Qed.
End Simulation.

(** ** Safety *)

(** What a caller and the kernel owe.  Lengths are [size_t]; a request for room, or for
    room beyond the readable bytes, is not larger than the largest object (nothing checks
    the sum with the writer index: [ensure_overflow]); [ToStringView] and [Shrink], which go
    through [int], are called with less than 2^31 readable bytes; readv(2) stores no more
    than its vectors hold. *)
Definition sane (c : call) (b : Buffer) : Prop :=
  match c with
  | CAppend d => zlen d <= max_size
  | CRetrieve n | CRetrieveAsString n | CUnwrite n | CHasWritten n => 0 <= n
  | CEnsureWritableBytes n => 0 <= n <= max_size
  | CToStringView => zlen (contents b) < 2 ^ 31
  | CShrink reserve => 0 <= reserve /\ zlen (contents b) + reserve <= max_size /\ zlen (contents b) < 2 ^ 31
  | CReadFd (inr d) => zlen d <= foldr Z.add 0 (iovecs b)
  | _ => True
  end.
Fixpoint all_sane (cs : list call) (b : Buffer) : Prop :=
  match cs with
  | [] => True
  | c :: cs => sane c b /\ forall r b', exec c b = Ok (r, b') -> all_sane cs b'
  end.

Section Safety.

Lemma safe_Append b d : wf b -> zlen d <= max_size -> safe wf (Append d b).
Proof.
  intros Hb Hd. destruct (decide (fits b (zlen d))).
  - destruct (Append_spec b d) as (b' & -> & ? & ?); done.
  - by rewrite Append_too_big.
Qed.

Lemma safe_Prepend b d : wf b -> safe wf (Prepend d b).
Proof.
  intros Hb. destruct (Z.le_gt_cases (zlen d) (readerIndex_ b)).
  - destruct (Prepend_spec b d) as (b' & -> & ? & ?); done.
  - unfold Prepend, PrependableBytes, massert. by rewrite (proj2 (Z.leb_gt _ _)).
Qed.

Lemma safe_Retrieve b n : wf b -> 0 <= n -> safe wf (Retrieve n b).
Proof.
  intros Hb Hn. destruct (Z.le_gt_cases n (zlen (contents b))).
  - destruct (Retrieve_spec b n) as (b' & -> & ? & ?); done.
  - by rewrite Retrieve_fault.
Qed.

Lemma safe_RetrieveAsString b n :
  wf b -> 0 <= n -> safe (fun r => wf (snd r)) (RetrieveAsString n b).
Proof.
  intros Hb Hn. destruct (Z.le_gt_cases n (zlen (contents b))).
  - rewrite RetrieveAsString_eq by done.
    eapply safe_bind; [by apply safe_Retrieve | done].
  - unfold RetrieveAsString, massert. rewrite ReadableBytes_contents by done.
    by rewrite (proj2 (Z.leb_gt _ _)).
Qed.

Lemma safe_Unwrite b n : wf b -> 0 <= n -> safe wf (Unwrite n b).
Proof.
  intros Hb Hn. destruct (Z.le_gt_cases n (zlen (contents b))).
  - destruct (Unwrite_spec b n) as (b' & -> & ? & ?); done.
  - unfold Unwrite, massert. rewrite ReadableBytes_contents by done.
    by rewrite (proj2 (Z.leb_gt _ _)).
Qed.

Lemma safe_Ensure b n : wf b -> 0 <= n <= max_size -> safe wf (EnsureWritableBytes n b).
Proof.
  intros Hb Hn. destruct (decide (fits b n)).
  - destruct (EnsureWritableBytes_spec b n) as (b' & -> & ? & ?); done.
  - by rewrite EnsureWritableBytes_too_big.
Qed.

Lemma safe_peek b n e (f : list byte -> Z) :
  wf b -> 0 <= n ->
  safe (fun _ => True)
    (massert (n <=? ReadableBytes b) e;; m ← read_from (Peek b) n (buffer_ b); Ok (f m)).
Proof.
  intros Hb Hn. apply safe_bind with (fun _ => n <= zlen (contents b)).
  - apply safe_massert. rewrite ReadableBytes_contents by done. intros. by bool_to_prop.
  - intros _ ?. by rewrite read_contents.
Qed.

Lemma safe_unit m : safe wf m -> safe (fun r => wf (snd r)) (unit_call m).
Proof. intros. by eapply safe_bind. Qed.
Lemma safe_int (m : outcome Z) n b :
  wf b -> 0 <= n -> safe (fun _ => True) m ->
  safe (fun r => wf (snd r)) (int_call (x ← m; b' ← Retrieve n b; Ok (x, b'))).
Proof.
  intros ? ? Hm. apply safe_bind with (fun r => wf (snd r)); [|done].
  eapply safe_bind; [done|]. intros. eapply safe_bind; [by apply safe_Retrieve|done].
Qed.
Lemma safe_peek_call (m : outcome Z) b :
  wf b -> safe (fun _ => True) m -> safe (fun r => wf (snd r)) (peek_call m b).
Proof. intros. by eapply safe_bind. Qed.

Lemma safe_HasWritten b n : wf b -> 0 <= n -> safe wf (HasWritten n b).
Proof.
  intros Hb Hn. unfold HasWritten. rewrite WritableBytes_wf by done.
  apply safe_bind with (fun _ => n <= zlen (buffer_ b) - writerIndex_ b); [apply safe_massert; intros; by bool_to_prop|].
  intros _ ?. cbn. unfold wf, max_size in *. cbn. rewrite u64_small by lia. lia.
Qed.

Lemma safe_view b : wf b -> zlen (contents b) < 2 ^ 31 -> ToStringView b = Ok (contents b).
Proof.
  intros Hb Hs. apply (sim_view b (Queue.mkQueue (contents b) 0)); [|done]. split; [done|]. split; [done|]. cbn.
  unfold wf, kCheapPrepend in *. lia.
Qed.

Lemma safe_Shrink b r : wf b -> 0 <= r -> zlen (contents b) + r <= max_size -> zlen (contents b) < 2 ^ 31 ->
  safe wf (Shrink r b).
Proof.
  intros Hb Hr Hm Hs. unfold Shrink. pose proof (zlen_nonneg (contents b)).
  destruct (new_Buffer_spec kInitialSize) as (o0 & -> & Ho0 & _); [by vm_compute | by vm_compute |]. cbn [mbind outcome_bind].
  rewrite ReadableBytes_contents, u64_small by (done || unfold max_size in Hm; lia).
  eapply safe_bind; [apply safe_Ensure; [done | lia]|]. intros o1 Ho1. rewrite safe_view by done. cbn [mbind outcome_bind].
  eapply safe_bind; [apply safe_Append; [done | lia]|]. done.
Qed.

Lemma safe_ReadFd b res : wf b -> match res with inr d => zlen d <= foldr Z.add 0 (iovecs b) | inl _ => True end ->
  safe (fun r => wf (snd r)) ('(n, _, b) ← ReadFd (fun _ _ => res) 0 b; Ok (RInt n, b)).
Proof.
  intros Hb Hres. destruct res as [errno|d]; [done|]. pose proof (zlen_nonneg d).
  destruct (decide (writerIndex_ b + zlen d <= max_size)) as [Hm|Hm].
  { by destruct (ReadFd_data (fun _ _ => inr d) 0 b d) as (b' & -> & ? & _). }
  apply iovecs_length in Hres. pose proof (WritableBytes_wf b Hb) as HW. unfold ReadFd.
  destruct (write_spec b (ztake (WritableBytes b) d) Hb) as [Hwf _]; [rewrite zlen_ztake; unfold wf in Hb; lia|].
  rewrite copy_into_Ok by (rewrite ?zlen_ztake; unfold wf in Hb; lia). cbn [mbind outcome_bind].
  rewrite (proj2 (Z.leb_gt _ _)) by (unfold wf in Hb; lia).
  rewrite zlen_zsplice by (rewrite ?zlen_ztake; unfold wf in Hb; lia).
  rewrite zlen_ztake in Hwf. replace (writerIndex_ b + _) with (zlen (buffer_ b)) in Hwf by (unfold wf in Hb; lia).
  pose proof (safe_Append _ (zdrop (WritableBytes b) d) Hwf) as Ha. destruct (Append _ _) as [b2|[]]; cbn in *; try done; apply Ha;
    rewrite zlen_zdrop; unfold wf, max_size in *; lia.
Qed.

Lemma safe_pos_from (m : outcome (option Z)) b : wf b -> safe (fun _ => True) m -> safe (fun r => wf (snd r)) (pos_from m b).
Proof. intros. by eapply safe_bind. Qed.

Lemma safe_exec c b : wf b -> sane c b -> safe (fun r => wf (snd r)) (exec c b).
Proof.
  intros Hb Hs. destruct c; cbn [exec sane] in *;
    try match goal with
        | |- safe _ (unit_call (Shrink _ _)) => destruct Hs as (? & ? & ?); apply safe_unit; by apply safe_Shrink
        | |- safe _ (unit_call (HasWritten _ _)) => apply safe_unit; by apply safe_HasWritten
        end;
    try (apply safe_unit; rewrite ?AppendInt64_bytes, ?AppendInt32_bytes, ?AppendInt16_bytes;
         first [ by apply safe_Append | by apply safe_Prepend | by apply safe_Retrieve
               | by apply safe_Unwrite | by apply safe_Ensure
               | by apply RetrieveAll_spec ]);
    try (apply safe_int; [done | lia | by apply safe_peek]);
    try (apply safe_peek_call; [done | by apply safe_peek]);
    try done.
  - apply safe_unit, safe_bind with (fun _ => Peek b <= Peek b + off).
    { apply safe_massert. intros. by bool_to_prop. }
    intros _ ?. eapply safe_bind; [by apply (safe_massert _ _ (fun _ => True))|].
    intros _ _. apply safe_Retrieve; [done | apply u64_range].
  - eapply safe_bind; [by apply safe_RetrieveAsString | done].
  - eapply safe_bind; [apply safe_RetrieveAsString; [done | apply u64_range] | done].
  - apply safe_pos_from; [done|]. unfold FindCrlf_from. do 2 (eapply safe_bind; [by apply (safe_massert _ _ (fun _ => True))|]; intros _ _). done.
  - apply safe_pos_from; [done|]. unfold FindEol_from. do 2 (eapply safe_bind; [by apply (safe_massert _ _ (fun _ => True))|]; intros _ _). done.
  - rewrite safe_view by done. done.
  - by apply safe_ReadFd.
Qed.
End Safety.

Lemma append_to_empty b d :
  wf b -> contents b = [] -> high b + zlen d <= max_size ->
  exists b', Append d b = Ok b' /\ wf b' /\ contents b' = d.
Proof.
  intros Hb Hc Hh. pose proof (zlen_nonneg d).
  destruct (Append_spec b d) as (b' & -> & ? & Hc' & _); [done| |].
  { unfold fits, high, kCheapPrepend, wf, max_size in *. lia. }
  exists b'. by rewrite Hc', Hc.
Qed.

Lemma drain_spec b n :
  wf b -> zlen (contents b) = n -> exists b', Retrieve n b = Ok b' /\ contents b' = [].
Proof.
  intros Hb <-. pose proof (zlen_nonneg (contents b)).
  destruct (Retrieve_spec b (zlen (contents b))) as (b' & -> & ? & Hc & _); [done | lia |].
  exists b'. by rewrite Hc, zdrop_all.
Qed.

(** One width of integer through the buffer. *)
Lemma codec_roundtrip n w b x (app : outcome Buffer) (read : Buffer -> outcome (Z * Buffer)) :
  w = Z.of_nat n * 8 -> (0 < n)%nat -> wf b -> contents b = [] ->
  high b + Z.of_nat n <= max_size -> - 2 ^ (w - 1) <= x < 2 ^ (w - 1) ->
  app = Append (be_bytes n x) b ->
  (forall b1, wf b1 -> contents b1 = be_bytes n x ->
     read b1 = (b2 ← Retrieve (Z.of_nat n) b1;
                Ok (sint w (be_value (ztake (Z.of_nat n) (be_bytes n x))), b2))) ->
  exists b1 b2, app = Ok b1 /\ contents b1 = be_bytes n x /\ read b1 = Ok (x, b2) /\ contents b2 = [].
Proof.
  intros Hw Hn Hb Hc Hh Hx -> Hread.
  assert (L : zlen (be_bytes n x) = Z.of_nat n) by (unfold zlen; by rewrite length_be_bytes).
  destruct (append_to_empty b (be_bytes n x)) as (b1 & -> & Hb1 & Hc1); [done | done | lia |].
  destruct (drain_spec b1 (Z.of_nat n)) as (b2 & E & H2); [done | by rewrite Hc1 |].
  exists b1, b2. rewrite Hread, E by done. split_and!; try done.
  rewrite ztake_all by lia. cbn. by rewrite (be_roundtrip n w).
Qed.

(** ** Properties *)

(** C2: [Buffer] implements a byte queue.  Whatever sequence of public calls
    the abstract queue allows is carried out by the buffer without a failed
    assertion, with the same answers, and leaves the buffer holding exactly the
    queue's bytes; the only condition is that the bytes appended and the room asked
    for over the whole sequence fit in the largest vector. *)
Theorem buffer_refines_queue cs b q rs q' :
  represents b q -> Queue.steps cs q = Some (rs, q') -> high b + demands cs <= max_size ->
  exists b', exec_all cs b = Ok (rs, b') /\ represents b' q'.
Proof.
  revert b q rs q'. induction cs as [|c cs IH]; intros b q rs q' HR E Hm; cbn in E.
  - injection E as <- <-. by exists b.
  - destruct (Queue.step c q) as [[r q1]|] eqn:E1; [|done]. cbn in E.
    destruct (Queue.steps cs q1) as [[rs' q2]|] eqn:E2; [|done]. injection E as <- <-.
    pose proof (demands_nonneg cs). unfold demands in *. cbn in Hm. destruct (sim_step c b q r q1) as (b1 & Eb & HR1 & Hh1); [done | done | lia |].
    destruct (IH b1 q1 rs' q2 HR1 E2) as (b2 & Eb2 & HR2); [lia|].
    exists b2. cbn. rewrite Eb. cbn. by rewrite Eb2.
Qed.

(** A message framed by a length header, read back. *)
Definition frame_calls : list call :=
  [CAppend (le_split 5 0x6F6C6C6568); CPrependInt32 5; CPeekInt32; CReadInt32;
   CRetrieveAsString 5; CAppendInt64 (-2); CUnwrite 4; CRetrieveAll].

Lemma buffer_refines_queue_witness :
  exists b0 rs b, new_Buffer kInitialSize = Ok b0 /\ exec_all frame_calls b0 = Ok (rs, b) /\
    rs = [RUnit; RUnit; RInt 5; RInt 5; RBytes (le_split 5 0x6F6C6C6568); RUnit; RUnit; RUnit].
Proof.
  destruct (new_Buffer_spec kInitialSize) as (b0 & E0 & Hwf & Hc & Hr & Hw & _);
    [by vm_compute | by vm_compute |].
  destruct (buffer_refines_queue frame_calls b0 (Queue.mkQueue [] kCheapPrepend)
    [RUnit; RUnit; RInt 5; RInt 5; RBytes (le_split 5 0x6F6C6C6568); RUnit; RUnit; RUnit]
    (Queue.mkQueue [] kCheapPrepend)) as (b & E & _).
  - split_and!; [done | done | by vm_compute |]. rewrite Hr. by vm_compute.
  - by vm_compute.
  - unfold high. rewrite Hw. by vm_compute.
  - exists b0. eexists. exists b. done.
Defined.

(** C24: no sequence of public calls makes [Buffer] touch memory outside its
    vector.  From any well-formed buffer, calls within [sane] (requests for room
    no larger than the largest object, [ToStringView] and [Shrink] with less than 2^31
    readable bytes, a readv(2) that respects the lengths it is given) either return
    a well-formed buffer or stop in an assertion or a [length_error]; undefined
    behaviour is never reached.  Larger requests for room do reach it:
    [ensure_overflow], [view_overflow]. *)
Theorem buffer_memory_safe cs b :
  wf b -> all_sane cs b -> safe (fun r => wf (snd r)) (exec_all cs b).
Proof.
  revert b. induction cs as [|c cs IH]; intros b Hb Hs; [done|].
  destruct Hs as [Hc Hs]. cbn [exec_all]. pose proof (safe_exec c b Hb Hc) as He.
  destruct (exec c b) as [[r b']|[]]; cbn in He |- *; try done.
  eapply safe_bind; [apply IH; [done | by apply (Hs r)]|]. done.
Qed.

Lemma buffer_memory_safe_witness :
  let b := mkBuffer (replicate 12 Byte.x00) 9 11 in
  let cs := [CRetrieveUntil 2; CAppend [Byte.x41]; CShrink 3; CReadFd (inr [Byte.x42]); CToStringView; CRetrieve 7] in
  wf b /\ safe (fun r => wf (snd r)) (exec_all cs b) /\
  exec_all (take 5 cs) b = Ok ([RUnit; RUnit; RUnit; RInt 1; RBytes [Byte.x41; Byte.x42]], mkBuffer (Byte.x00 :: replicate 7 Byte.x00 ++ [Byte.x41; Byte.x42] ++ replicate 1022 Byte.x00) 8 10) /\
  exec_all cs b = Fault (Assertion "len <= ReadableBytes()").
Proof.
  intros b cs. assert (wf b) by (by vm_compute). split; [done|]. split; [|split; by vm_compute].
  apply (buffer_memory_safe cs b); [done|].
  repeat (split; [by vm_compute|]; intros ? ? E; vm_compute in E; injection E as <- <-); try done.
Defined.

(** [EnsureWritableBytes] checks the sum of the request with the writer index nowhere: it
    wraps around, the vector is shrunk below the readable bytes, the assertion that follows is
    about another sum that wraps, and the next read is outside the vector. *)
Lemma ensure_overflow : exists b0 b1 b2,
  new_Buffer kInitialSize = Ok b0 /\ Append (replicate 12 Byte.x41) b0 = Ok b1 /\
  EnsureWritableBytes (2 ^ 64 - 9) b1 = Ok b2 /\ zlen (buffer_ b2) = 11 /\ writerIndex_ b2 = 20 /\
  RetrieveAllAsString b2 = Fault (Undefined "read outside the array").
Proof.
  eexists _, _, _. split; [vm_compute; reflexivity|]. split; [vm_compute; reflexivity|].
  split; [vm_compute; reflexivity|]. split_and!; vm_compute; reflexivity.
Qed.
(** [ToStringView] casts the length to [int]: with 2^31 readable bytes the view is almost
    2^64 long. *)
Lemma view_overflow b : wf b -> zlen (contents b) = 2 ^ 31 -> exists m, ToStringView b = Fault (Undefined m).
Proof.
  intros Hb Hl. unfold ToStringView, read_from. rewrite ReadableBytes_contents, Hl by done.
  change (u64 (i32 (2 ^ 31))) with (2 ^ 64 - 2 ^ 31).
  destruct (_ && _) eqn:E; [|by eexists]. bool_to_prop. unfold wf, max_size, Peek in *. lia.
Qed.

(** Integers survive the wire.  In a buffer that has been read to the end, a
    signed 64-, 32-, 16- or 8-bit value written with [AppendIntN] is laid out as
    its big-endian bytes and [ReadIntN] gives the same value back, leaving the
    buffer empty again. *)
Theorem int_roundtrip b x :
  wf b -> contents b = [] -> high b + 8 <= max_size ->
  (- 2 ^ 63 <= x < 2 ^ 63 ->
     exists b1 b2, AppendInt64 x b = Ok b1 /\ contents b1 = be_bytes 8 x /\
       ReadInt64 b1 = Ok (x, b2) /\ contents b2 = []) /\
  (- 2 ^ 31 <= x < 2 ^ 31 ->
     exists b1 b2, AppendInt32 x b = Ok b1 /\ contents b1 = be_bytes 4 x /\
       ReadInt32 b1 = Ok (x, b2) /\ contents b2 = []) /\
  (- 2 ^ 15 <= x < 2 ^ 15 ->
     exists b1 b2, AppendInt16 x b = Ok b1 /\ contents b1 = be_bytes 2 x /\
       ReadInt16 b1 = Ok (x, b2) /\ contents b2 = []) /\
  (- 2 ^ 7 <= x < 2 ^ 7 ->
     exists b1 b2, AppendInt8 x b = Ok b1 /\ contents b1 = be_bytes 1 x /\
       ReadInt8 b1 = Ok (x, b2) /\ contents b2 = []).
Proof.
  intros Hb Hc Hh. split_and!; intros Hx.
  - apply (codec_roundtrip 8 64 b x (AppendInt64 x b) ReadInt64); try done; try lia; [apply AppendInt64_bytes|].
    intros b1 ? E. unfold ReadInt64. rewrite PeekInt64_spec, E by (done || by rewrite E). done.
  - apply (codec_roundtrip 4 32 b x (AppendInt32 x b) ReadInt32); try done; try lia; [apply AppendInt32_bytes|].
    intros b1 ? E. unfold ReadInt32. rewrite PeekInt32_spec, E by (done || by rewrite E). done.
  - apply (codec_roundtrip 2 16 b x (AppendInt16 x b) ReadInt16); try done; try lia; [apply AppendInt16_bytes|].
    intros b1 ? E. unfold ReadInt16. rewrite PeekInt16_spec, E by (done || by rewrite E). done.
  - apply (codec_roundtrip 1 8 b x (AppendInt8 x b) ReadInt8); try done; try lia.
    intros b1 ? E. unfold ReadInt8. rewrite PeekInt8_spec, E by (done || by rewrite E). done.
Qed.

Lemma int_roundtrip_witness :
  exists b0 b1 b2, new_Buffer kInitialSize = Ok b0 /\
    AppendInt64 (-2) b0 = Ok b1 /\ ReadInt64 b1 = Ok (-2, b2).
Proof.
  destruct (new_Buffer_spec kInitialSize) as (b0 & E0 & Hwf & Hc & Hr & Hw & _);
    [by vm_compute | by vm_compute |].
  destruct (int_roundtrip b0 (-2) Hwf Hc) as ((b1 & b2 & ? & _ & ? & _) & _).
  - unfold high. rewrite Hw. by vm_compute.
  - split; by vm_compute.
  - by exists b0, b1, b2.
Defined.

