(* ===== verification/SizedBuffer.v ===== *)
(** * Fixed-size buffers (src/src/file/Buffer.h, Buffer.cc)

    [SizedBuffer<SIZE>]: an array inside the object and a write pointer, kept
    here as the offset [cur_] from [data_].  [SIZE] is the length of [data_]. *)
From S2P Require Import Prelude.

Definition kSmallSize : Z := 1024 * 4.
Definition kLargeSize : Z := 1024 * 1000.

Record SizedBuffer : Type := mkSized {
  data_ : list byte;
  cur_ : Z;
}.

#[global] Instance SizedBuffer_eq_dec : EqDecision SizedBuffer.
Proof. solve_decision. Defined.

Definition new_SizedBuffer (SIZE : Z) : SizedBuffer :=
  mkSized (replicate (Z.to_nat SIZE) Byte.x00) 0.

Definition End_ (b : SizedBuffer) : Z := zlen (data_ b).
Definition Length (b : SizedBuffer) : Z := i32 (cur_ b).
Definition Current (b : SizedBuffer) : Z := cur_ b.
Definition Avail (b : SizedBuffer) : Z := i32 (End_ b - cur_ b).

Definition Append (buf : list byte) (b : SizedBuffer) : outcome SizedBuffer :=
  let len := zlen buf in
  if len <? u64 (Avail b) then
    d ← copy_into (cur_ b) buf (data_ b);
    Ok (mkSized d (cur_ b + len))
  else Ok b.

Definition Add (len : Z) (b : SizedBuffer) : SizedBuffer := mkSized (data_ b) (cur_ b + len).
Definition Reset (b : SizedBuffer) : SizedBuffer := mkSized (data_ b) 0.
Definition Bzero (b : SizedBuffer) : SizedBuffer :=
  mkSized (replicate (length (data_ b)) Byte.x00) (cur_ b).

(** [DebugString] terminates the text in place and returns the whole array. *)
Definition DebugString (b : SizedBuffer) : outcome (list byte * SizedBuffer) :=
  d ← copy_into (cur_ b) [Byte.x00] (data_ b);
  Ok (d, mkSized d (cur_ b)).

Definition ToString (b : SizedBuffer) : outcome (list byte) :=
  read_from 0 (u64 (Length b)) (data_ b).
Definition ToStrView (b : SizedBuffer) : outcome (list byte) :=
  read_from 0 (u64 (Length b)) (data_ b).

(** ** Invariant and abstraction *)

(** The write pointer stays strictly inside the array, which [int] can measure:
    there is always room for the terminator [DebugString] writes. *)
Definition wf (b : SizedBuffer) : Prop :=
  zlen (data_ b) < 2 ^ 31 /\ 0 <= cur_ b < zlen (data_ b).
#[global] Instance wf_dec b : Decision (wf b).
Proof. unfold wf; apply _. Defined.

Definition text (b : SizedBuffer) : list byte := ztake (cur_ b) (data_ b).

Lemma Avail_wf b : wf b -> Avail b = zlen (data_ b) - cur_ b.
Proof. unfold wf, Avail, End_, i32. intros. apply sint_small; lia. Qed.
Lemma Length_wf b : wf b -> Length b = cur_ b.
Proof. unfold wf, Length, i32. intros. apply sint_small; lia. Qed.
Lemma zlen_text b : wf b -> zlen (text b) = cur_ b.
Proof. unfold wf, text. intros. rewrite zlen_ztake. lia. Qed.

(** Writing [d] at the pointer and moving it by [n <= zlen d]. *)
Lemma write_text b d n :
  wf b -> 0 <= n <= zlen d -> cur_ b + zlen d <= zlen (data_ b) -> cur_ b + n < zlen (data_ b) ->
  let b' := mkSized (zsplice (cur_ b) d (data_ b)) (cur_ b + n) in
  wf b' /\ text b' = text b ++ ztake n d /\ zlen (data_ b') = zlen (data_ b).
Proof.
  intros [? ?] ? ? ? b'. unfold wf, text.
  assert (L : zlen (data_ b') = zlen (data_ b)) by (cbn; apply zlen_zsplice; lia).
  split_and!; try (cbn in *; lia). cbn.
  pose proof (zslice_app 0 (cur_ b) n (zsplice (cur_ b) d (data_ b))) as A.
  unfold zslice at 1 2 in A. rewrite !zdrop_0 in A. rewrite A by lia. f_equal.
  - rewrite <- (zdrop_0 (data_ b)) at 2.
    apply (zslice_zsplice_before 0 (cur_ b) (cur_ b)); lia.
  - rewrite Z.add_0_l.
    rewrite <- (zslice_zsplice_same (cur_ b) d (data_ b)) at 2 by lia.
    by rewrite ztake_zslice by lia.
Qed.

(** [Append] takes the whole text or none of it. *)
Lemma SizedAppend_spec b d :
  wf b ->
  exists b', Append d b = Ok b' /\ wf b' /\ zlen (data_ b') = zlen (data_ b) /\
    text b' = text b ++ (if zlen d <? Avail b then d else []).
Proof.
  intros Hb. pose proof Hb as [? ?]. pose proof (zlen_nonneg d). unfold Append.
  rewrite Avail_wf, u64_small by (done || lia).
  destruct (Z.ltb_spec (zlen d) (zlen (data_ b) - cur_ b)).
  - rewrite copy_into_Ok by lia. destruct (write_text b d (zlen d)) as (? & Ht & ?); try done; try lia.
    eexists; split; [done|]. rewrite Ht, ztake_all by lia. done.
  - exists b. rewrite app_nil_r. done.
Qed.

Lemma Reset_spec b : wf b -> wf (Reset b) /\ text (Reset b) = [].
Proof. unfold wf; cbn. intros. split; [lia | done]. Qed.

Lemma new_SizedBuffer_wf n :
  0 < n < 2 ^ 31 -> wf (new_SizedBuffer n) /\ text (new_SizedBuffer n) = [].
Proof.
  intros. unfold wf; cbn. rewrite zlen_replicate. split; [lia | done].
Qed.

Lemma ToString_spec b : wf b -> ToString b = Ok (text b).
Proof.
  intros Hb. pose proof Hb as [? ?]. unfold ToString. rewrite Length_wf, u64_small by (done || lia).
  by rewrite read_from_Ok by lia.
Qed.

(** [SizedBuffer] is all or nothing and never overruns.  On a well-formed
    buffer [Append] cannot fail: it stores the whole text when there is strictly
    more room than that, and otherwise changes nothing; the buffer keeps its
    size, stays well-formed and [ToString] reads back everything stored, in
    order. *)
Theorem SizedBuffer_append_all_or_nothing b ds :
  wf b ->
  exists b', ofold Append ds b = Ok b' /\ wf b' /\
    ToString b' = Ok (foldl (fun t d =>
      if zlen d <? zlen (data_ b) - zlen t then t ++ d else t) (text b) ds).
Proof.
  revert b. induction ds as [|d ds IH]; intros b Hb; cbn.
  - exists b. by rewrite ToString_spec.
  - destruct (SizedAppend_spec b d Hb) as (b1 & -> & Hb1 & Hsz & Ht). cbn.
    destruct (IH b1 Hb1) as (b' & ? & ? & E). exists b'. split_and!; try done.
    rewrite E, Hsz, Ht, Avail_wf, zlen_text by done.
    destruct (zlen d <? zlen (data_ b) - cur_ b); [done | by rewrite app_nil_r].
Qed.

Lemma SizedBuffer_append_all_or_nothing_witness :
  exists b', ofold Append [replicate 3 Byte.x41; replicate 5 Byte.x42; replicate 4 Byte.x43]
    (new_SizedBuffer 8) = Ok b' /\ ToString b' = Ok (replicate 3 Byte.x41 ++ replicate 4 Byte.x43).
Proof.
  destruct (SizedBuffer_append_all_or_nothing (new_SizedBuffer 8)
    [replicate 3 Byte.x41; replicate 5 Byte.x42; replicate 4 Byte.x43]) as (b' & E & _ & T).
  - by vm_compute.
  - exists b'. split; [done|]. rewrite T. by vm_compute.
Defined.
