(* ===== verification/LogStream.v ===== *)
(** * The log stream (src/src/log/LogStream.h, LogStream.cc)

    [LogStream] formats values into a [SizedBuffer<kSmallSize>].  [Convert] and
    [ConvertHex] are the digit loops; [item] lists what [operator<<] accepts.
    [float] and [double] go through [snprintf("%.12g")], which is an argument
    [fmt_g] of the model. *)
From S2P Require Import Prelude SizedBuffer.

Definition digits : list byte := chars "9876543210123456789" ++ [Byte.x00].
Definition digitsHex : list byte := chars "0123456789ABCDEF" ++ [Byte.x00].

(** [zero[lsd]], with [zero = digits + 9]. *)
Definition zero_at (lsd : Z) : outcome byte :=
  if (0 <=? 9 + lsd) && (9 + lsd <? zlen digits)
  then Ok (nth (Z.to_nat (9 + lsd)) digits Byte.x00)
  else Fault (Undefined "zero[lsd]").
Definition digitsHex_at (lsd : Z) : outcome byte :=
  if (0 <=? lsd) && (lsd <? zlen digitsHex)
  then Ok (nth (Z.to_nat lsd) digitsHex Byte.x00)
  else Fault (Undefined "digitsHex[lsd]").

(** The do-while loops: characters in the order they are stored.  C++ [%] and
    [/] truncate towards zero. *)
Fixpoint convert_loop (fuel : nat) (i : Z) : outcome (list byte) :=
  match fuel with
  | O => Fault (Undefined "loop bound")
  | S fuel =>
      let lsd := Z.rem i 10 in
      let i := Z.quot i 10 in
      c ← zero_at lsd;
      if i =? 0 then Ok [c] else rest ← convert_loop fuel i; Ok (c :: rest)
  end.
Fixpoint convertHex_loop (fuel : nat) (i : Z) : outcome (list byte) :=
  match fuel with
  | O => Fault (Undefined "loop bound")
  | S fuel =>
      let lsd := Z.rem i 16 in
      let i := Z.quot i 16 in
      c ← digitsHex_at lsd;
      if i =? 0 then Ok [c] else rest ← convertHex_loop fuel i; Ok (c :: rest)
  end.

(** The 20 rounds are enough for every 64-bit value ([Convert_decimal]). *)
Definition Convert (value : Z) : outcome (list byte) :=
  p ← convert_loop 20 value;
  let p := if value <? 0 then p ++ [Byte.x2d] else p in
  Ok (reverse p).
Definition ConvertHex (value : Z) : outcome (list byte) :=
  p ← convertHex_loop 16 value;
  Ok (reverse p).

Definition kMaxNumericSize : Z := 48.

Definition FormatInteger (v : Z) (b : SizedBuffer) : outcome SizedBuffer :=
  if kMaxNumericSize <=? Avail b then
    s ← Convert v;
    d ← copy_into (Current b) (s ++ [Byte.x00]) (data_ b);
    Ok (Add (zlen s) (mkSized d (cur_ b)))
  else Ok b.

(** [operator<<] on a pointer. *)
Definition FormatPointer (v : Z) (b : SizedBuffer) : outcome SizedBuffer :=
  if kMaxNumericSize <=? Avail b then
    s ← ConvertHex v;
    d ← copy_into (Current b) (chars "0x" ++ s ++ [Byte.x00]) (data_ b);
    Ok (Add (zlen s + 2) (mkSized d (cur_ b)))
  else Ok b.

Section Stream.
(** The type of [double] values, the conversion from [float], and what
    [snprintf(p, kMaxNumericSize, "%.12g", v)] prints. *)
Context {double float : Type}.
Variable fmt_g : double -> list byte.
Variable double_of_float : float -> double.

Definition FormatDouble (v : double) (b : SizedBuffer) : outcome SizedBuffer :=
  if kMaxNumericSize <=? Avail b then
    let s := fmt_g v in
    d ← copy_into (Current b) (ztake (kMaxNumericSize - 1) s ++ [Byte.x00]) (data_ b);
    Ok (Add (zlen s) (mkSized d (cur_ b)))
  else Ok b.

Inductive item : Type :=
  | IBool (v : bool)
  | IInt16 (v : Z) | IUInt16 (v : Z) | IInt32 (v : Z) | IUInt32 (v : Z)
  | IInt64 (v : Z) | IUInt64 (v : Z)
  | IPointer (v : Z)
  | IFloat (v : float) | IDouble (v : double)
  | IChar (v : byte)
  | ICString (str : option (list byte))   (** [None] is [nullptr] *)
  | IString (v : list byte) | IStringView (v : list byte)
  | IBuffer (v : SizedBuffer).

Definition put (x : item) (b : SizedBuffer) : outcome SizedBuffer :=
  match x with
  | IBool v => Append (if v then chars "1" else chars "0") b
  | IInt16 v | IInt32 v => FormatInteger v b
  | IUInt16 v | IUInt32 v => FormatInteger v b
  | IInt64 v | IUInt64 v => FormatInteger v b
  | IPointer v => FormatPointer v b
  | IFloat v => FormatDouble (double_of_float v) b
  | IDouble v => FormatDouble v b
  | IChar v => Append [v] b
  | ICString (Some str) => Append str b
  | ICString None => Append (chars "(null)") b
  | IString v | IStringView v => Append v b
  | IBuffer _ => Ok b
  end.

End Stream.

(** ** Decimal and hexadecimal numerals *)

Definition digit_of (c : byte) : Z := byte.unsigned c - 48.
Definition is_digit (c : byte) : Prop := 0 <= digit_of c <= 9.
(** Value of a digit string, most significant first. *)
Definition dec_nat (s : list byte) : Z := foldl (fun a c => 10 * a + digit_of c) 0 s.
Definition dec_value (s : list byte) : Z :=
  match s with
  | c :: t => if decide (c = Byte.x2d) then - dec_nat t else dec_nat s
  | [] => 0
  end.
(** A numeral without superfluous leading zeros. *)
Definition canonical (s : list byte) : Prop :=
  s <> [] /\ Forall is_digit s /\ (head s = Some Byte.x30 -> s = [Byte.x30]).

Definition hex_digit_of (c : byte) : Z :=
  let v := byte.unsigned c in if v <? 65 then v - 48 else v - 55.
Definition hex_nat (s : list byte) : Z := foldl (fun a c => 16 * a + hex_digit_of c) 0 s.

(** Least significant digit first, as the loops store them. *)
Definition lsb_value (base : Z) (dig : byte -> Z) (s : list byte) : Z :=
  foldr (fun c a => dig c + base * a) 0 s.

Lemma lsb_value_reverse base dig s :
  lsb_value base dig s = foldl (fun a c => base * a + dig c) 0 (reverse s).
Proof.
  unfold lsb_value. induction s as [|c s IH]; [done|].
  rewrite reverse_cons, foldl_snoc, <- IH. cbn. lia.
Qed.

Lemma zero_at_spec lsd :
  -9 <= lsd <= 9 -> exists c, zero_at lsd = Ok c /\ digit_of c = Z.abs lsd /\ is_digit c.
Proof.
  intros H.
  assert (E : lsd = -9 \/ lsd = -8 \/ lsd = -7 \/ lsd = -6 \/ lsd = -5 \/ lsd = -4 \/ lsd = -3 \/
    lsd = -2 \/ lsd = -1 \/ lsd = 0 \/ lsd = 1 \/ lsd = 2 \/ lsd = 3 \/ lsd = 4 \/ lsd = 5 \/
    lsd = 6 \/ lsd = 7 \/ lsd = 8 \/ lsd = 9) by lia.
  clear H. destruct_or! E; subst lsd; (eexists; split; [reflexivity | split; by vm_compute]).
Qed.

Lemma digitsHex_at_spec lsd :
  0 <= lsd <= 15 -> exists c, digitsHex_at lsd = Ok c /\ hex_digit_of c = lsd.
Proof.
  intros H.
  assert (E : lsd = 0 \/ lsd = 1 \/ lsd = 2 \/ lsd = 3 \/ lsd = 4 \/ lsd = 5 \/ lsd = 6 \/
    lsd = 7 \/ lsd = 8 \/ lsd = 9 \/ lsd = 10 \/ lsd = 11 \/ lsd = 12 \/ lsd = 13 \/ lsd = 14 \/
    lsd = 15) by lia.
  clear H. destruct_or! E; subst lsd; (eexists; split; [reflexivity | reflexivity]).
Qed.

(** Truncating division keeps the sign: one round peels off the last digit of
    the absolute value. *)
Lemma quot_rem_abs i b :
  0 < b -> Z.abs (Z.rem i b) = Z.abs i mod b /\ Z.abs (Z.quot i b) = Z.abs i / b.
Proof.
  intros Hb. rewrite <- Z.rem_abs, <- Z.quot_abs, (Z.abs_eq b) by lia.
  split; [apply Z.rem_mod_nonneg | apply Z.quot_div_nonneg]; lia.
Qed.

Lemma convert_loop_spec n i :
  Z.abs i < 10 ^ Z.of_nat n -> (0 < n)%nat ->
  exists s, convert_loop n i = Ok s /\ lsb_value 10 digit_of s = Z.abs i /\
    Forall is_digit s /\ (length s <= n)%nat /\ s <> [] /\
    (last s = Some Byte.x30 -> i = 0 /\ s = [Byte.x30]).
Proof.
  revert i. induction n as [|n IH]; intros i Hi Hn; [lia|].
  destruct (quot_rem_abs i 10) as [Hr Hq]; [lia|].
  pose proof (Z.mod_pos_bound (Z.abs i) 10). pose proof (Z.div_mod (Z.abs i) 10).
  destruct (zero_at_spec (Z.rem i 10)) as (c & Ec & Hc & Hd); [lia|]. cbn. rewrite Ec. cbn.
  destruct (Z.eqb_spec (Z.quot i 10) 0) as [E0|E0].
  - exists [c]. split_and!; try done; cbn; try lia.
    + by constructor.
    + intros [= ->]. cbn in Hc. rewrite Hr in Hc. change (digit_of Byte.x30) with 0 in Hc.
      split; [lia | done].
  - destruct (IH (Z.quot i 10)) as (s & -> & Hv & Hf & Hl & Hne & Hlast).
    { rewrite Hq. apply Z.div_lt_upper_bound; [lia|].
      replace (10 ^ Z.of_nat (S n)) with (10 * 10 ^ Z.of_nat n) in Hi; [done|].
      rewrite <- Z.pow_succ_r by lia. f_equal. lia. }
    { destruct n; [|lia]. cbn in Hi. exfalso.
      assert (Z.abs i / 10 = 0) by (apply Z.div_small; lia). lia. }
    exists (c :: s). unfold lsb_value in *. cbn. split_and!; try done; try lia.
    + by constructor.
    + destruct s; [done|]. intros L. destruct (Hlast L). lia.
Qed.

(** A loop that finished finishes the same way with one more round to spare. *)
Lemma convert_loop_mono n i s : convert_loop n i = Ok s -> convert_loop (S n) i = Ok s.
Proof.
  revert i s. induction n as [|n IH]; intros i s E; [done|].
  set (m := S n) in |- *. cbn [convert_loop] in E |- *.
  destruct (zero_at (Z.rem i 10)); [|done].
  cbn [mbind outcome_bind] in *. destruct (Z.quot i 10 =? 0); [done|].
  apply bind_Ok in E as (r & E & Er). subst m. by rewrite (IH _ _ E).
Qed.

Lemma convert_loop_le n m i s :
  convert_loop n i = Ok s -> (n <= m)%nat -> convert_loop m i = Ok s.
Proof. induction 2; [done|]. by apply convert_loop_mono. Qed.

Lemma convertHex_loop_spec n i :
  0 <= i < 16 ^ Z.of_nat n -> (0 < n)%nat ->
  exists s, convertHex_loop n i = Ok s /\ lsb_value 16 hex_digit_of s = i /\ (length s <= n)%nat.
Proof.
  revert i. induction n as [|n IH]; intros i Hi Hn; [lia|].
  pose proof (Z.mod_pos_bound i 16). pose proof (Z.div_mod i 16).
  destruct (digitsHex_at_spec (Z.rem i 16)) as (c & Ec & Hc).
  { rewrite Z.rem_mod_nonneg; lia. }
  cbn. rewrite Ec. cbn. rewrite Z.rem_mod_nonneg in Hc by lia.
  rewrite Z.quot_div_nonneg by lia. destruct (Z.eqb_spec (i / 16) 0) as [E0|E0].
  - exists [c]. split_and!; try done; cbn; lia.
  - destruct (IH (i / 16)) as (s & -> & Hv & Hl).
    { split; [lia|]. apply Z.div_lt_upper_bound; [lia|].
      replace (16 ^ Z.of_nat (S n)) with (16 * 16 ^ Z.of_nat n) in Hi; [lia|].
      rewrite <- Z.pow_succ_r by lia. f_equal. lia. }
    { destruct n; [|lia]. cbn in Hi. exfalso.
      assert (i / 16 = 0) by (apply Z.div_small; lia). lia. }
    exists (c :: s). unfold lsb_value in *. cbn. split_and!; try done; lia.
Qed.

Lemma foldl_dec s : dec_nat s = foldl (fun a c => 10 * a + digit_of c) 0 s.
Proof. done. Qed.

Lemma reverse_canonical s :
  Forall is_digit s -> s <> [] -> (last s = Some Byte.x30 -> s = [Byte.x30]) ->
  canonical (reverse s).
Proof.
  intros Hf Hne Hl. split_and!.
  - intros E. apply Hne. rewrite <- (reverse_involutive s), E. done.
  - by apply Forall_reverse.
  - rewrite head_reverse. intros ->%Hl. done.
Qed.

Lemma digit_not_minus c : is_digit c -> c <> Byte.x2d.
Proof. intros H ->. vm_compute in H. destruct H. congruence. Qed.

Lemma Convert_Ok v :
  - 2 ^ 63 <= v < 2 ^ 64 ->
  exists s, Convert v = Ok s /\ zlen s <= 20 /\ dec_value s = v /\
    (if v <? 0 then exists t, s = Byte.x2d :: t /\ canonical t else canonical s).
Proof.
  intros Hv. destruct (convert_loop_spec 20 v) as (s & E & Hval & Hf & Hl & Hne & Hlast); [lia|lia|].
  assert (Hcan : canonical (reverse s)).
  { apply reverse_canonical; try done. intros L. by apply Hlast. }
  rewrite lsb_value_reverse, <- foldl_dec in Hval. unfold Convert. rewrite E. cbn [mbind outcome_bind].
  eexists; split; [done|]. destruct (Z.ltb_spec v 0) as [Hneg|Hpos].
  - rewrite reverse_snoc. split_and!.
    + rewrite zlen_cons. unfold zlen. rewrite length_reverse.
      destruct (convert_loop_spec 19 v) as (s' & E' & _ & _ & Hl' & _); [lia|lia|].
      apply (convert_loop_le 19 20) in E'; [|lia]. assert (s = s') as -> by congruence. lia.
    + cbn. rewrite decide_True by done. lia.
    + eauto.
  - split_and!; [unfold zlen; rewrite length_reverse; lia | | done].
    unfold dec_value. destruct Hcan as (Hn & Hd & _). destruct (reverse s) as [|c t]; [done|].
    inversion Hd; subst. rewrite decide_False by (by apply digit_not_minus). lia.
Qed.

(** A value of at most [k] digits is written with at most [k] characters. *)
Lemma Convert_digits (k : nat) v : (0 < k <= 20)%nat -> 0 <= v < 10 ^ Z.of_nat k -> v < 2 ^ 64 ->
  exists n, Convert v = Ok n /\ zlen n <= Z.of_nat k /\ dec_value n = v.
Proof.
  intros Hk Hv Hv64. destruct (Convert_Ok v) as (n & E & _ & Hval & _); [lia|]. exists n. split_and!; try done.
  unfold Convert in E. destruct (convert_loop_spec k v) as (s & E' & _ & _ & Hl & _); [lia|lia|].
  apply (convert_loop_le k 20) in E'; [|lia]. rewrite E' in E. cbn [mbind outcome_bind] in E.
  destruct (Z.ltb_spec v 0); [lia|]. injection E as <-. unfold zlen. rewrite length_reverse. lia.
Qed.

Lemma ConvertHex_Ok v :
  0 <= v < 2 ^ 64 ->
  exists s, ConvertHex v = Ok s /\ zlen s <= 16 /\ hex_nat s = v.
Proof.
  intros Hv. destruct (convertHex_loop_spec 16 v) as (s & E & Hval & Hl); [lia|lia|].
  unfold ConvertHex. rewrite E. eexists; split; [done|].
  rewrite lsb_value_reverse in Hval. split; [|done].
  unfold zlen. rewrite length_reverse. lia.
Qed.

(** ** What each item prints *)
Section Printing.
Context {double float : Type}.
Variable fmt_g : double -> list byte.
Variable double_of_float : float -> double.

(** The text of an item; empty for an integer outside its type's range. *)
Definition item_text (x : item) : list byte :=
  match x with
  | IBool v => if v then chars "1" else chars "0"
  | IInt16 v | IUInt16 v | IInt32 v | IUInt32 v | IInt64 v | IUInt64 v =>
      match Convert v with Ok s => s | Fault _ => [] end
  | IPointer v => chars "0x" ++ match ConvertHex v with Ok s => s | Fault _ => [] end
  | IFloat v => fmt_g (double_of_float v)
  | IDouble v => fmt_g v
  | IChar v => [v]
  | ICString (Some str) => str
  | ICString None => chars "(null)"
  | IString v | IStringView v => v
  | IBuffer _ => []
  end.
(** Room an item asks for before it prints anything. *)
Definition item_room (x : @item double float) : Z :=
  match x with
  | IInt16 _ | IUInt16 _ | IInt32 _ | IUInt32 _ | IInt64 _ | IUInt64 _
  | IPointer _ | IFloat _ | IDouble _ => kMaxNumericSize
  | IBuffer _ => 0
  | _ => 1 + zlen (item_text x)
  end.
(** The value is one its C++ type can hold. *)
Definition item_ok (x : @item double float) : Prop :=
  match x with
  | IInt16 v => - 2 ^ 15 <= v < 2 ^ 15
  | IUInt16 v => 0 <= v < 2 ^ 16
  | IInt32 v => - 2 ^ 31 <= v < 2 ^ 31
  | IUInt32 v => 0 <= v < 2 ^ 32
  | IInt64 v => - 2 ^ 63 <= v < 2 ^ 63
  | IUInt64 v | IPointer v => 0 <= v < 2 ^ 64
  | _ => True
  end.

(** The text after printing [x] behind [t] in an array of [size] bytes. *)
Definition print (size : Z) (t : list byte) (x : item) : list byte :=
  if item_room x <=? size - zlen t then t ++ item_text x else t.

(** Printing [s] and a terminator, then moving past [s]. *)
Lemma put_numeric b s d :
  wf b -> kMaxNumericSize <= Avail b -> zlen d <= kMaxNumericSize - 1 -> d = s ->
  exists b', (x ← copy_into (Current b) (d ++ [Byte.x00]) (data_ b);
              Ok (Add (zlen s) (mkSized x (cur_ b)))) = Ok b' /\
    wf b' /\ zlen (data_ b') = zlen (data_ b) /\ text b' = text b ++ s.
Proof.
  intros Hb Ha Hs ->. rewrite Avail_wf in Ha by done. unfold kMaxNumericSize in *.
  pose proof Hb as [? ?]. pose proof (zlen_nonneg s). unfold Current.
  assert (zlen (s ++ [Byte.x00]) = zlen s + 1) as L by (rewrite zlen_app; done).
  rewrite copy_into_Ok by lia. cbn [mbind outcome_bind].
  destruct (write_text b (s ++ [Byte.x00]) (zlen s)) as (Hb' & Ht & Hl); [done|lia|lia|lia|].
  rewrite ztake_app_len in Ht. eexists; split; [done|]. done.
Qed.

Hypothesis fmt_g_short : forall v, zlen (fmt_g v) < kMaxNumericSize.

Lemma put_spec x b :
  wf b -> item_ok x ->
  exists b', put fmt_g double_of_float x b = Ok b' /\ wf b' /\
    zlen (data_ b') = zlen (data_ b) /\ text b' = print (zlen (data_ b)) (text b) x.
Proof.
  intros Hb Hx. unfold print. rewrite zlen_text, <- Avail_wf by done.
  assert (HI : forall v, - 2 ^ 63 <= v < 2 ^ 64 -> exists b', FormatInteger v b = Ok b' /\ wf b' /\
    zlen (data_ b') = zlen (data_ b) /\ text b' = if kMaxNumericSize <=? Avail b
      then text b ++ match Convert v with Ok s => s | Fault _ => [] end else text b).
  { intros v Hv. destruct (Convert_Ok v Hv) as (s & E & Hl & _). unfold FormatInteger. rewrite E.
    case_if; [|by exists b]. cbn [mbind outcome_bind]. apply put_numeric; try done. unfold kMaxNumericSize; lia. }
  assert (HD : forall v, exists b', FormatDouble fmt_g v b = Ok b' /\ wf b' /\
    zlen (data_ b') = zlen (data_ b) /\ text b' = if kMaxNumericSize <=? Avail b
      then text b ++ fmt_g v else text b).
  { intros v. pose proof (fmt_g_short v). unfold FormatDouble. case_if; [|by exists b].
    assert (ztake (kMaxNumericSize - 1) (fmt_g v) = fmt_g v) as ->.
    { apply ztake_all. unfold kMaxNumericSize in *. lia. }
    apply put_numeric; try done. unfold kMaxNumericSize in *. lia. }
  assert (HA : forall d, exists b', Append d b = Ok b' /\ wf b' /\
    zlen (data_ b') = zlen (data_ b) /\
    text b' = if 1 + zlen d <=? Avail b then text b ++ d else text b).
  { intros d. destruct (SizedAppend_spec b d Hb) as (b' & ? & ? & ? & Ht). exists b'. split_and!; try done.
    rewrite Ht. destruct (Z.ltb_spec (zlen d) (Avail b)), (Z.leb_spec (1 + zlen d) (Avail b));
      try lia; by rewrite ?app_nil_r. }
  destruct x as [[]| | | | | | |v| | | |[]| | |]; cbn [put item_room item_text item_ok] in *;
    try (by apply HA); try (by apply HD); try (apply HI; lia).
  - destruct (ConvertHex_Ok v Hx) as (s & E & Hl & _). unfold FormatPointer. rewrite E.
    case_if; [|by exists b]. cbn [mbind outcome_bind].
    replace (zlen s + 2) with (zlen (chars "0x" ++ s)) by (rewrite zlen_app; change (zlen (chars "0x")) with 2; lia).
    rewrite app_assoc. apply put_numeric; try done.
    rewrite zlen_app. change (zlen (chars "0x")) with 2. unfold kMaxNumericSize; lia.
  - exists b. split_and!; try done. rewrite app_nil_r. by case_if.
Qed.

Lemma put_all xs b : wf b -> Forall item_ok xs ->
  exists b', ofold (put fmt_g double_of_float) xs b = Ok b' /\ wf b' /\ zlen (data_ b') = zlen (data_ b) /\
    text b' = foldl (print (zlen (data_ b))) (text b) xs.
Proof.
  revert b. induction xs as [|x xs IH]; intros b Hb Hx; cbn; [by exists b|].
  inversion_clear Hx. destruct (put_spec x b) as (b1 & -> & Hb1 & Hl & Ht); [done..|].
  cbn. destruct (IH b1) as (b' & ? & ? & ? & Ht'); [done..|]. exists b'. rewrite Ht', Hl, Ht. by split_and!; try lia.
Qed.
(** Items that fit with the room of a number to spare are all printed. *)
Lemma print_fits size t xs :
  zlen (t ++ concat (item_text <$> xs)) + kMaxNumericSize <= size ->
  foldl (print size) t xs = t ++ concat (item_text <$> xs).
Proof.
  revert t. induction xs as [|x xs IH]; intros t Hs; cbn [foldl fmap list_fmap concat] in *; [by rewrite app_nil_r|].
  assert (print size t x = t ++ item_text x) as ->.
  { unfold print. rewrite !zlen_app in Hs. pose proof (zlen_nonneg (item_text x)).
    pose proof (zlen_nonneg (concat (item_text <$> xs))). unfold kMaxNumericSize in *.
    assert (item_room x <= size - zlen t) as Hr.
    { destruct x as [| | | | | | | | | | |[]| | |]; cbn [item_room] in *; unfold kMaxNumericSize; lia. }
    by rewrite (proj2 (Z.leb_le _ _) Hr). }
  rewrite IH; rewrite <- app_assoc; done.
Qed.

End Printing.

(** ** Properties *)

(** [Convert] prints every 64-bit integer, signed or unsigned, INT64_MIN
    included.  The loop ends within its 20 rounds, never indexes outside the
    digit table, and the text is the canonical decimal numeral of the value: at
    most 20 characters, a minus sign exactly for negative values, no leading
    zeros, and reading it back gives the value. *)
Theorem Convert_decimal v :
  - 2 ^ 63 <= v < 2 ^ 64 ->
  exists s, Convert v = Ok s /\ zlen s <= 20 /\ dec_value s = v /\
    (if v <? 0 then exists t, s = Byte.x2d :: t /\ canonical t else canonical s).
Proof. apply Convert_Ok. Qed.

Lemma Convert_decimal_witness :
  Convert (- 2 ^ 63) = Ok (chars "-9223372036854775808") /\
  exists s, Convert (- 2 ^ 63) = Ok s /\ dec_value s = - 2 ^ 63.
Proof.
  split; [by vm_compute|].
  destruct (Convert_decimal (- 2 ^ 63)) as (s & E & _ & Hv & _); [lia|].
  exists s. split; [exact E | exact Hv].
Defined.

(** A [LogStream] prints each item completely or not at all, and never
    outside its array.  Given that [%.12g] prints fewer than [kMaxNumericSize]
    characters, any sequence of [operator<<] calls succeeds on a well-formed
    buffer and leaves exactly the texts of the items there was room for, in
    order: numbers and pointers when 48 bytes were free, strings when strictly
    more than their length was. *)
Theorem LogStream_prints {double float : Type} (fmt_g : double -> list byte)
    (double_of_float : float -> double) (xs : list item) (b : SizedBuffer) :
  (forall v, zlen (fmt_g v) < kMaxNumericSize) -> wf b -> Forall item_ok xs ->
  exists b', ofold (put fmt_g double_of_float) xs b = Ok b' /\ wf b' /\
    text b' = foldl (print fmt_g double_of_float (zlen (data_ b))) (text b) xs.
Proof.
  intros Hf Hb Hx. destruct (put_all fmt_g double_of_float Hf xs b Hb Hx) as (b' & ? & ? & _ & ?). by exists b'.
Qed.

Lemma LogStream_prints_witness :
  let fmt := fun _ : unit => chars "0.5" in
  let xs := [IBool true; IInt16 (-7); IPointer 0xBEEF; IDouble tt; ICString None] in
  exists b', ofold (put fmt (fun u : unit => u)) xs (new_SizedBuffer kSmallSize) = Ok b' /\
    text b' = chars "1-70xBEEF0.5(null)".
Proof.
  intros fmt xs.
  destruct (LogStream_prints fmt (fun u : unit => u) xs (new_SizedBuffer kSmallSize)) as (b' & E & _ & T).
  - by vm_compute.
  - by vm_compute.
  - repeat (constructor; [done || (cbn; lia)|]). constructor.
  - exists b'. split; [done|]. rewrite T. by vm_compute.
Defined.
