(* ===== verification/CString.v ===== *)
(** * C strings and searches

    What the sources use of <cstring>, <cstdio> and std::string: terminated character
    arrays, snprintf into one, find and rfind, atoi. *)
From S2P Require Import Prelude LogStream.

(** The string in a character array: the bytes before the first NUL. *)
Fixpoint cstr (a : list byte) : list byte :=
  match a with
  | [] => []
  | c :: a => if decide (c = Byte.x00) then [] else c :: cstr a
  end.
Definition no_nul (s : list byte) : Prop := Byte.x00 ∉ s.
#[global] Instance no_nul_dec s : Decision (no_nul s).
Proof. unfold no_nul. apply _. Defined.
(** strlen: undefined when the array has no terminator. *)
Definition strlen (a : list byte) : outcome Z :=
  if decide (Byte.x00 ∈ a) then Ok (zlen (cstr a)) else Fault (Undefined "strlen of an unterminated array").

(** [snprintf(buf, size, ...)] where the conversions make the text [s]: at most
    [size - 1] characters and a terminator are stored, the length of the whole text
    is returned. *)
Definition snprintf (buf : list byte) (size : Z) (s : list byte) : outcome (list byte * Z) :=
  b ← copy_into 0 (ztake (size - 1) s ++ [Byte.x00]) buf; Ok (b, zlen s).

Lemma cstr_app s a : no_nul s -> cstr (s ++ Byte.x00 :: a) = s.
Proof.
  unfold no_nul. induction s as [|c s IH]; intros Hs; cbn; [by rewrite decide_True|].
  apply not_elem_of_cons in Hs as [Hc Hs]. rewrite decide_False by done. by rewrite IH.
Qed.
Lemma strlen_app s a : no_nul s -> strlen (s ++ Byte.x00 :: a) = Ok (zlen s).
Proof. intros Hs. unfold strlen. rewrite decide_True by set_solver. by rewrite cstr_app. Qed.
Lemma no_nul_cons c s : no_nul (c :: s) <-> c <> Byte.x00 /\ no_nul s.
Proof. unfold no_nul. set_solver. Qed.
Lemma no_nul_app s t : no_nul (s ++ t) <-> no_nul s /\ no_nul t.
Proof. unfold no_nul. set_solver. Qed.

(** A text that fits is stored whole and followed by its terminator. *)
Lemma snprintf_fits buf s : zlen s < zlen buf ->
  snprintf buf (zlen buf) s = Ok (s ++ Byte.x00 :: zdrop (zlen s + 1) buf, zlen s).
Proof.
  intros Hs. pose proof (zlen_nonneg s). unfold snprintf. rewrite ztake_all by lia.
  assert (zlen (s ++ [Byte.x00]) = zlen s + 1) as L by (rewrite zlen_app; done).
  rewrite copy_into_Ok by lia. cbn [mbind outcome_bind]. unfold zsplice. rewrite L.
  change (ztake 0 buf) with (@nil byte). rewrite Z.add_0_l. cbn [app]. by rewrite <- app_assoc.
Qed.

(** ** Searches: offsets, [None] for npos or nullptr *)
Section Find.
Variable c : byte.

Fixpoint find_char (s : list byte) : option Z :=
  match s with
  | [] => None
  | x :: s => if decide (x = c) then Some 0 else Z.succ <$> find_char s
  end.
Fixpoint rfind_char (s : list byte) : option Z :=
  match s with
  | [] => None
  | x :: s => match rfind_char s with
              | Some i => Some (Z.succ i)
              | None => if decide (x = c) then Some 0 else None
              end
  end.

Lemma find_char_None s : find_char s = None <-> c ∉ s.
Proof.
  induction s as [|x s IH]; cbn; [set_solver|]. case_decide as E; [set_solver|].
  rewrite fmap_None, IH. set_solver.
Qed.
Lemma find_char_app a b : c ∉ a -> find_char (a ++ c :: b) = Some (zlen a).
Proof.
  induction a as [|x a IH]; intros Ha; cbn; [by rewrite decide_True|].
  apply not_elem_of_cons in Ha as [Hx Ha]. rewrite decide_False by done. rewrite IH by done. cbn.
  f_equal. rewrite zlen_cons. lia.
Qed.
Lemma rfind_char_None s : rfind_char s = None <-> c ∉ s.
Proof.
  induction s as [|x s IH]; cbn; [set_solver|]. destruct (rfind_char s) as [i|].
  - split; [done|]. intros Hx. exfalso. assert (Some i = None) as [=]. apply IH. set_solver.
  - case_decide as E; [set_solver|]. split; [|done]. intros _. assert (c ∉ s) by (by apply IH). set_solver.
Qed.
Lemma rfind_char_app a b : c ∉ b -> rfind_char (a ++ c :: b) = Some (zlen a).
Proof.
  intros Hb. induction a as [|x a IH]; cbn.
  - rewrite (proj2 (rfind_char_None b) Hb). by rewrite decide_True.
  - rewrite IH. f_equal. rewrite zlen_cons. lia.
Qed.
(** Every string is split by its last [c], or has none. *)
Lemma rfind_char_cases s : c ∉ s \/ exists a b, s = a ++ c :: b /\ c ∉ b.
Proof.
  induction s as [|x s IH]; [left; set_solver|]. destruct IH as [H|(a & b & -> & Hb)].
  - destruct (decide (x = c)) as [->|Hx]; [right; by exists [], s | left; set_solver].
  - right. by exists (x :: a), b.
Qed.
End Find.

(** [find] of a non-empty pattern. *)
Fixpoint find_sub (pat s : list byte) : option Z :=
  if decide (pat `prefix_of` s) then Some 0
  else match s with [] => None | _ :: s => Z.succ <$> find_sub pat s end.

Lemma find_sub_Some pat s i : find_sub pat s = Some i ->
  exists a b, s = a ++ pat ++ b /\ zlen a = i /\
    forall a' b', s = a' ++ pat ++ b' -> (length a <= length a')%nat.
Proof.
  revert i. induction s as [|x s IH]; intros i; cbn; case_decide as E; intros H; simplify_eq/=.
  - destruct E as [b E]. exists [], b. split_and!; [done..|]. cbn. lia.
  - destruct E as [b E]. exists [], b. split_and!; [done..|]. cbn. lia.
  - apply fmap_Some in H as (j & Hj & ->). destruct (IH j Hj) as (a & b & -> & <- & Hmin).
    exists (x :: a), b. split_and!; [done | rewrite zlen_cons; lia |]. intros [|y a'] b' Eq; cbn in Eq.
    + exfalso. apply E. rewrite Eq. by exists b'.
    + injection Eq as -> Eq. apply Hmin in Eq. cbn. lia.
Qed.
(** The pattern is found where it first occurs. *)
Lemma find_sub_first pat a b :
  (forall a' b', a ++ pat ++ b = a' ++ pat ++ b' -> (length a <= length a')%nat) ->
  find_sub pat (a ++ pat ++ b) = Some (zlen a).
Proof.
  intros Hmin. destruct (find_sub pat (a ++ pat ++ b)) as [i|] eqn:E.
  - destruct (find_sub_Some _ _ _ E) as (a1 & b1 & Eq & <- & H1). f_equal. unfold zlen.
    pose proof (Hmin a1 b1 Eq). pose proof (H1 a b eq_refl). lia.
  - exfalso. clear Hmin. induction a as [|x a IH]; cbn in E.
    + destruct (pat ++ b) eqn:Ep; cbn in E; rewrite decide_True in E by (rewrite <- Ep; by exists b); done.
    + case_decide; [done|]. apply fmap_None in E. by apply IH.
Qed.

(** ** atoi *)
Definition isdigit (c : byte) : bool := (48 <=? byte.unsigned c) && (byte.unsigned c <=? 57).
Definition isspace (c : byte) : bool := (byte.unsigned c =? 32) || ((9 <=? byte.unsigned c) && (byte.unsigned c <=? 13)).
Fixpoint span_digits (s : list byte) : list byte :=
  match s with [] => [] | c :: s => if isdigit c then c :: span_digits s else [] end.
Fixpoint skip_space (s : list byte) : list byte :=
  match s with [] => [] | c :: t => if isspace c then skip_space t else s end.
(** White space, a sign, digits up to the first other character; a value that [int]
    cannot hold is undefined. *)
Definition atoi (s : list byte) : outcome Z :=
  match skip_space s with
  | c :: t =>
      if decide (c = Byte.x2d) then sint_checked 32 (- dec_nat (span_digits t))
      else if decide (c = Byte.x2b) then sint_checked 32 (dec_nat (span_digits t))
      else sint_checked 32 (dec_nat (span_digits (c :: t)))
  | [] => Ok 0
  end.

Lemma isdigit_spec c : isdigit c = true <-> is_digit c.
Proof. unfold isdigit, is_digit, digit_of. rewrite andb_true_iff, !Z.leb_le. lia. Qed.
Lemma span_digits_app s t : Forall is_digit s -> match t with [] => True | c :: _ => isdigit c = false end ->
  span_digits (s ++ t) = s.
Proof.
  intros Hs Ht. induction Hs as [|c s Hc Hs IH]; cbn.
  - destruct t; [done|]. cbn. by rewrite Ht.
  - rewrite (proj2 (isdigit_spec c) Hc). by rewrite IH.
Qed.
(** atoi of a canonical numeral that ends at the end of the text or at a character
    that is no digit. *)
Lemma atoi_digits s t : canonical s -> dec_nat s < 2 ^ 31 ->
  match t with [] => True | c :: _ => isdigit c = false end -> 0 <= dec_nat s ->
  atoi (s ++ t) = Ok (dec_nat s).
Proof.
  intros (Hne & Hd & _) Hb Ht H0. unfold atoi. destruct s as [|c s]; [done|].
  assert (Hc : is_digit c) by (by inversion Hd). unfold is_digit, digit_of in Hc.
  assert (isspace c = false) as Hsp.
  { unfold isspace. rewrite orb_false_iff, andb_false_iff, Z.eqb_neq, !Z.leb_gt. lia. }
  cbn [app skip_space]. rewrite Hsp, !decide_False by (intros ->; cbn in Hc; lia).
  change (c :: s ++ t) with ((c :: s) ++ t). rewrite span_digits_app by done.
  unfold sint_checked, in_sint. change (2 ^ (32 - 1)) with (2 ^ 31).
  rewrite (proj2 (Z.leb_le _ _)), (proj2 (Z.ltb_lt _ _)) by lia. done.
Qed.
Lemma atoi_space c s : isspace c = true -> atoi (c :: s) = atoi s.
Proof. intros H. unfold atoi. cbn [skip_space]. by rewrite H. Qed.

(** ** Printed numbers hold no NUL *)
Lemma zero_at_no_nul i c : zero_at (Z.rem i 10) = Ok c -> c <> Byte.x00.
Proof.
  intros E. assert (Hr : -9 <= Z.rem i 10 <= 9) by (Z.to_euclidean_division_equations; lia).
  assert (Hall : forallb (fun n => match zero_at (Z.of_nat n - 9) with Ok c => negb (bool_decide (c = Byte.x00)) | _ => false end)
    (seq 0 19) = true) by (vm_compute; reflexivity).
  rewrite forallb_forall in Hall. specialize (Hall (Z.to_nat (Z.rem i 10 + 9)) ltac:(apply in_seq; lia)).
  rewrite Z2Nat.id in Hall by lia. replace (Z.rem i 10 + 9 - 9) with (Z.rem i 10) in Hall by lia. rewrite E in Hall.
  by apply negb_true_iff, bool_decide_eq_false in Hall.
Qed.
Lemma convert_loop_no_nul fuel i p : convert_loop fuel i = Ok p -> no_nul p.
Proof.
  revert i p. induction fuel as [|fuel IH]; intros i p E; cbn [convert_loop] in E; [done|]. inv_ok.
  apply zero_at_no_nul in E0. destruct (Z.quot i 10 =? 0); inv_ok; [unfold no_nul; set_solver|].
  apply IH in E1. unfold no_nul in *. set_solver.
Qed.
Lemma Convert_no_nul v s : Convert v = Ok s -> no_nul s.
Proof.
  unfold Convert. intros E. inv_ok. apply convert_loop_no_nul in E0. unfold no_nul in *. rewrite elem_of_reverse.
  case_if; [|done]. set_solver.
Qed.
(** A digit string has no terminator in it. *)
Lemma digits_no_nul s : Forall is_digit s -> no_nul s.
Proof.
  unfold no_nul. intros H Hin. rewrite Forall_forall in H. apply H in Hin. unfold is_digit, digit_of in Hin. cbn in Hin. lia.
Qed.
(** Literals, by evaluation. *)
Ltac no_nul_lit := by apply (bool_decide_eq_true_1 _); vm_compute.
