(* ===== verification/NetAddress.v ===== *)
(** * Addresses (src/src/network/NetAddress.h, NetAddress.cc, and the address
    functions of SocketOps.cc)

    An [InetAddress] is the 28 bytes of its union: sockaddr_in (family, port, four
    bytes of address, eight of padding) and sockaddr_in6 (family, port, flow label,
    sixteen bytes of address, scope) share the first four.  Words are stored in host
    (little-endian) order.  inet_pton, inet_ntop and the resolver are arguments; [junk]
    is what the memory held before. *)
From S2P Require Import Prelude Endian LogStream.

Definition AF_INET : Z := 2.
Definition AF_INET6 : Z := 10.
Definition INADDR_ANY : Z := 0.
Definition INADDR_LOOPBACK : Z := 0x7f000001.
Definition in6addr_any : list byte := replicate 16 Byte.x00.
Definition in6addr_loopback : list byte := replicate 15 Byte.x00 ++ [Byte.x01].
Definition INET_ADDRSTRLEN : Z := 16.
Definition INET6_ADDRSTRLEN : Z := 46.
Definition sizeof_in : Z := 16.
Definition sizeof_in6 : Z := 28.

Abbreviation InetAddress := (list byte) (only parsing).

(** ** Fields *)
Definition load (off : Z) (n : nat) (a : InetAddress) : Z := le_combine (zslice off (Z.of_nat n) a).
Definition store (off : Z) (n : nat) (w : Z) (a : InetAddress) : InetAddress := zsplice off (le_split n w) a.
Definition Family (a : InetAddress) : Z := load 0 2 a.
Definition PortNetEndian (a : InetAddress) : Z := load 2 2 a.
Definition Port (a : InetAddress) : Z := NetworkToHost16 (PortNetEndian a).
Definition sin_addr (a : InetAddress) : list byte := zslice 4 4 a.
Definition sin6_addr (a : InetAddress) : list byte := zslice 8 16 a.
Definition Ipv4NetEndian (a : InetAddress) : outcome Z :=
  _ ← massert (Family a =? AF_INET) "Family() == AF_INET"; Ok (load 4 4 a).
Definition SetScopeId (scope_id : Z) (a : InetAddress) : InetAddress :=
  if Family a =? AF_INET6 then store 24 4 scope_id a else a.
Definition SetSockAddrInet6 (addr6 a : InetAddress) : InetAddress := addr6.
Definition MemZero (n : Z) (a : InetAddress) : InetAddress := zsplice 0 (replicate (Z.to_nat n) Byte.x00) a.

(** [InetAddress(port, loopbackOnly, ipv6)]. *)
Definition InetAddress_port (portArg : Z) (loopbackOnly ipv6 : bool) (junk : InetAddress) : InetAddress :=
  if ipv6 then
    let a := store 0 2 AF_INET6 (MemZero sizeof_in6 junk) in
    let a := zsplice 8 (if loopbackOnly then in6addr_loopback else in6addr_any) a in
    store 2 2 (HostToNetwork16 portArg) a
  else
    let a := store 0 2 AF_INET (MemZero sizeof_in junk) in
    let a := store 4 4 (HostToNetwork32 (if loopbackOnly then INADDR_LOOPBACK else INADDR_ANY)) a in
    store 2 2 (HostToNetwork16 portArg) a.

(** [InetAddress(sockaddr_in)] and [InetAddress(sockaddr_in6)]: one member of the union is
    copied, so after the former the last twelve bytes are what they were. *)
Definition InetAddress_in (addr junk : InetAddress) : InetAddress := zsplice 0 addr junk.
Definition InetAddress_in6 (addr6 junk : InetAddress) : InetAddress := zsplice 0 addr6 junk.

Section Text.
Context (pton ntop : bool -> list byte -> option (list byte)).
(** [pton v6] and [ntop v6] are inet_pton and inet_ntop of one family. *)

Definition fromIpPort4 (ip : list byte) (port : Z) (a : InetAddress) : InetAddress :=
  let a := store 2 2 (HostToNetwork16 port) (store 0 2 AF_INET a) in
  match pton false ip with Some b => zsplice 4 b a | None => a end.
Definition fromIpPort6 (ip : list byte) (port : Z) (a : InetAddress) : InetAddress :=
  let a := store 2 2 (HostToNetwork16 port) (store 0 2 AF_INET6 a) in
  match pton true ip with Some b => zsplice 8 b a | None => a end.
(** [InetAddress(ip, port, ipv6)]. *)
Definition InetAddress_ip (ip : list byte) (portArg : Z) (ipv6 : bool) (junk : InetAddress) : InetAddress :=
  if ipv6 || bool_decide (Byte.x3a ∈ ip) then fromIpPort6 ip portArg (MemZero sizeof_in6 junk)
  else fromIpPort4 ip portArg (MemZero sizeof_in junk).

(** [toIp]: the C string in a buffer of [size] bytes that held the empty string. *)
Definition toIp (size : Z) (a : InetAddress) : outcome (list byte) :=
  if Family a =? AF_INET then
    _ ← massert (INET_ADDRSTRLEN <=? size) "size >= INET_ADDRSTRLEN";
    Ok (default [] (ntop false (sin_addr a)))
  else if Family a =? AF_INET6 then
    _ ← massert (INET6_ADDRSTRLEN <=? size) "size >= INET6_ADDRSTRLEN";
    Ok (default [] (ntop true (sin6_addr a)))
  else Ok [].
(** snprintf cuts at the end of the buffer. *)
Definition toIpPort (size : Z) (a : InetAddress) : outcome (list byte) :=
  if Family a =? AF_INET6 then
    ip ← toIp (size - 1) a;
    let s := chars "[" ++ ip in
    p ← Convert (Port a);
    _ ← massert (zlen s <? size) "size > end";
    Ok (s ++ ztake (size - zlen s - 1) (chars "]:" ++ p))
  else
    s ← toIp size a;
    p ← Convert (Port a);
    _ ← massert (zlen s <? size) "size > end";
    Ok (s ++ ztake (size - zlen s - 1) (chars ":" ++ p)).
Definition ToIp (a : InetAddress) : outcome (list byte) := toIp 64 a.
Definition ToIpPort (a : InetAddress) : outcome (list byte) := toIpPort 64 a.
End Text.

(** [Resolve]: [gethostbyname] gives the address type, its length and the address, or
    nothing. *)
Definition Resolve (gethostbyname : list byte -> option (Z * Z * list byte)) (hostname : list byte)
    (out : InetAddress) : outcome (bool * InetAddress) :=
  match gethostbyname hostname with
  | Some (h_addrtype, h_length, h_addr) =>
      _ ← massert ((h_addrtype =? AF_INET) && (h_length =? 4)) "he->h_addrtype == AF_INET && he->h_length == sizeof(uint32_t)";
      Ok (true, zsplice 4 (ztake 4 h_addr) out)
  | None => Ok (false, out)
  end.

(** The addresses of the two ends, as getsockname and getpeername stored them. *)
Definition isSelfConnect (localaddr peeraddr : InetAddress) : bool :=
  if Family localaddr =? AF_INET then
    (PortNetEndian localaddr =? PortNetEndian peeraddr) && (load 4 4 localaddr =? load 4 4 peeraddr)
  else if Family localaddr =? AF_INET6 then
    (PortNetEndian localaddr =? PortNetEndian peeraddr) && bool_decide (sin6_addr localaddr = sin6_addr peeraddr)
  else false.

(** ** Lemmas *)
Lemma zlen_le_split n w : zlen (le_split n w) = Z.of_nat n.
Proof. unfold zlen. by rewrite length_le_split. Qed.
Lemma zlen_store off n w (a : list byte) : 0 <= off -> off + Z.of_nat n <= zlen a -> zlen (store off n w a) = zlen a.
Proof. intros. unfold store. rewrite zlen_zsplice; [done | lia | rewrite zlen_le_split; lia]. Qed.
Lemma load_store off n w (a : list byte) : 0 <= off -> off + Z.of_nat n <= zlen a -> 0 <= w < 2 ^ (Z.of_nat n * 8) ->
  load off n (store off n w a) = w.
Proof.
  intros. unfold load, store. rewrite <- (zlen_le_split n w), zslice_zsplice_same by lia.
  rewrite le_combine_split. by apply Z.mod_small.
Qed.
Lemma load_splice_before off n off' d (a : list byte) : 0 <= off -> off + Z.of_nat n <= off' -> off' <= zlen a ->
  load off n (zsplice off' d a) = load off n a.
Proof. intros. unfold load. by rewrite zslice_zsplice_before by lia. Qed.
Lemma load_splice_after off n off' d (a : list byte) : 0 <= off' -> off' + zlen d <= off -> off <= zlen a ->
  load off n (zsplice off' d a) = load off n a.
Proof. intros. unfold load. by rewrite zslice_zsplice_after by lia. Qed.

(** An address with its three fields filled in, in either order of port and address. *)
Lemma filled fam p off b (a : list byte) :
  zlen a = sizeof_in6 -> 0 <= fam < 2 ^ 16 -> 0 <= p < 2 ^ 16 -> 4 <= off -> off + zlen b <= sizeof_in6 ->
  let x := zsplice off b (store 2 2 p (store 0 2 fam a)) in
  Family x = fam /\ PortNetEndian x = p /\ zslice off (zlen b) x = b /\ zlen x = sizeof_in6.
Proof.
  intros Ha Hf Hp Ho Hb x. pose proof (zlen_nonneg b). unfold sizeof_in6 in *.
  assert (H0 : zlen (store 0 2 fam a) = 28) by (rewrite zlen_store; lia).
  assert (H1 : zlen (store 2 2 p (store 0 2 fam a)) = 28) by (rewrite zlen_store; lia).
  unfold x, Family, PortNetEndian. split_and!.
  - rewrite load_splice_before by lia. unfold store at 1. rewrite load_splice_before by lia. rewrite load_store; lia.
  - rewrite load_splice_before by lia. rewrite load_store; lia.
  - apply zslice_zsplice_same; lia.
  - rewrite zlen_zsplice; lia.
Qed.
Lemma zlen_MemZero n (a : list byte) : 0 <= n <= zlen a -> zlen (MemZero n a) = zlen a.
Proof. intros. unfold MemZero. rewrite zlen_zsplice; [done | lia | rewrite zlen_replicate; lia]. Qed.

Lemma port_roundtrip port : 0 <= port < 2 ^ 16 -> NetworkToHost16 (HostToNetwork16 port) = port.
Proof. intros. unfold NetworkToHost16, HostToNetwork16. by apply bswap_involutive. Qed.
Lemma HostToNetwork16_range port : 0 <= HostToNetwork16 port < 2 ^ 16.
Proof. apply (bswap_range 2). Qed.

(** The address families. *)
Definition family_of (v6 : bool) : Z := if v6 then AF_INET6 else AF_INET.
Definition addr_off (v6 : bool) : Z := if v6 then 8 else 4.
Definition addr_len (v6 : bool) : Z := if v6 then 16 else 4.
(** The text of an address: brackets around IPv6. *)
Definition ip_port_text (v6 : bool) (ip p : list byte) : list byte :=
  (if v6 then chars "[" ++ ip ++ chars "]" else ip) ++ chars ":" ++ p.

(** Printing an address whose three fields are known. *)
Lemma toIpPort_text ntop (v6 : bool) (a : list byte) ip :
  Family a = family_of v6 -> ntop v6 (zslice (addr_off v6) (addr_len v6) a) = Some ip ->
  zlen ip < (if v6 then INET6_ADDRSTRLEN else INET_ADDRSTRLEN) ->
  exists p, Convert (Port a) = Ok p /\ dec_value p = Port a /\
    ToIp ntop a = Ok ip /\ ToIpPort ntop a = Ok (ip_port_text v6 ip p).
Proof.
  intros Hf Hn Hl. destruct (Convert_digits 5 (Port a)) as (p & E & Hp & Hv).
  { lia. } { unfold Port. pose proof (bswap_range 2 (PortNetEndian a)). unfold NetworkToHost16. lia. }
  { unfold Port. pose proof (bswap_range 2 (PortNetEndian a)). unfold NetworkToHost16. lia. }
  exists p. split; [done|]. split; [done|]. unfold ToIp, ToIpPort, toIpPort, toIp, ip_port_text. rewrite Hf, E.
  unfold sin6_addr, sin_addr, INET6_ADDRSTRLEN, INET_ADDRSTRLEN in *. pose proof (zlen_nonneg ip).
  destruct v6; cbn [addr_off addr_len family_of] in *; cbn -[zlen ztake chars app Z.sub]; rewrite Hn; cbn -[zlen ztake chars app Z.sub].
  - split; [done|]. change (46 <=? 64 - 1) with true. cbn [massert mbind outcome_bind]. rewrite zlen_app.
    change (zlen (chars "[")) with 1.
    destruct (Z.ltb_spec (1 + zlen ip) 64); [|lia]. cbn -[zlen ztake chars app Z.sub].
    rewrite ztake_all; [by rewrite <- !app_assoc|]. rewrite zlen_app. change (zlen (chars "]:")) with 2. lia.
  - split; [done|]. destruct (Z.ltb_spec (zlen ip) 64); [|lia]. cbn -[zlen ztake chars app Z.sub].
    rewrite ztake_all; [done|]. rewrite zlen_app. change (zlen (chars ":")) with 1. lia.
Qed.

(** The two ends of a connection. *)
Lemma le_combine_inj bs bs' : length bs = length bs' -> le_combine bs = le_combine bs' -> bs = bs'.
Proof. intros Hl E. rewrite <- (split_le_combine bs), <- (split_le_combine bs'), E, Hl. done. Qed.

(** C39: An address built from text prints as that text.  For an IP text that
    inet_pton accepts and inet_ntop gives back, the address has the family of the
    text, [Port] is the port, [ToIp] the text, and [ToIpPort] the text (in brackets
    for IPv6), a colon and the decimal port, with nothing cut off, whatever the
    memory held before. *)
Theorem InetAddress_roundtrip pton ntop (ipv6 : bool) ip port b (junk : list byte) :
  let v6 := ipv6 || bool_decide (Byte.x3a ∈ ip) in
  zlen junk = sizeof_in6 -> 0 <= port < 2 ^ 16 ->
  pton v6 ip = Some b -> zlen b = addr_len v6 -> ntop v6 b = Some ip ->
  zlen ip < (if v6 then INET6_ADDRSTRLEN else INET_ADDRSTRLEN) ->
  let a := InetAddress_ip pton ip port ipv6 junk in
  exists p, dec_value p = port /\ Family a = family_of v6 /\ Port a = port /\
    ToIp ntop a = Ok ip /\ ToIpPort ntop a = Ok (ip_port_text v6 ip p).
Proof.
  intros v6 Hj Hp Hpton Hb Hntop Hl a. pose proof (HostToNetwork16_range port) as Hr.
  assert (Hf : Family a = family_of v6 /\ PortNetEndian a = HostToNetwork16 port /\
               zslice (addr_off v6) (addr_len v6) a = b).
  { unfold a, InetAddress_ip. fold v6. rewrite <- Hb. destruct v6; unfold fromIpPort6, fromIpPort4; rewrite Hpton.
    - destruct (filled AF_INET6 (HostToNetwork16 port) 8 b (MemZero sizeof_in6 junk)) as (? & ? & ? & _); try done;
        [rewrite zlen_MemZero; [done | rewrite Hj; unfold sizeof_in6; lia] | unfold sizeof_in6; cbn in Hb; lia].
    - destruct (filled AF_INET (HostToNetwork16 port) 4 b (MemZero sizeof_in junk)) as (? & ? & ? & _); try done;
        [rewrite zlen_MemZero; [done | rewrite Hj; unfold sizeof_in, sizeof_in6; lia] | unfold sizeof_in6; cbn in Hb; lia]. }
  destruct Hf as (Hfam & Hport & Hslice).
  assert (HP : Port a = port) by (unfold Port; rewrite Hport; by apply port_roundtrip).
  destruct (toIpPort_text ntop v6 a ip Hfam) as (p & _ & Hv & ? & ?); [by rewrite Hslice | done |].
  exists p. rewrite HP in Hv. by split_and!.
Qed.
(** 127.0.0.1, port 80. *)
Definition ex_ip : list byte := [Byte.x7f; Byte.x00; Byte.x00; Byte.x01].
Lemma InetAddress_roundtrip_witness :
  let a := InetAddress_ip (fun _ _ => Some ex_ip) (chars "127.0.0.1") 80 false (replicate 28 Byte.xff) in
  exists p, dec_value p = 80 /\ Port a = 80 /\
    ToIpPort (fun _ _ => Some (chars "127.0.0.1")) a = Ok (ip_port_text false (chars "127.0.0.1") p).
Proof.
  destruct (InetAddress_roundtrip (fun _ _ => Some ex_ip) (fun _ _ => Some (chars "127.0.0.1")) false (chars "127.0.0.1") 80
              ex_ip (replicate 28 Byte.xff)) as (p & Hv & _ & Hport & _ & Htext);
    [reflexivity | lia | reflexivity | vm_compute; reflexivity | reflexivity | vm_compute; reflexivity |].
  exists p. split; [exact Hv|]. split; [exact Hport|]. exact Htext.
Defined.

(** Self-connection is equality of the two ends. *)
Lemma isSelfConnect_spec l p : zlen l = sizeof_in6 -> zlen p = sizeof_in6 -> Family l = Family p ->
  isSelfConnect l p = true <->
    exists v6, Family l = family_of v6 /\ Port l = Port p /\
      zslice (addr_off v6) (addr_len v6) l = zslice (addr_off v6) (addr_len v6) p.
Proof.
  unfold sizeof_in6. intros Hl Hp Hfam.
  assert (Hport : forall x, 0 <= PortNetEndian x < 2 ^ 16).
  { intros x. unfold PortNetEndian, load. pose proof (le_combine_bound (zslice 2 (Z.of_nat 2) x)) as B.
    pose proof (zlen_zslice_le 2 (Z.of_nat 2) x ltac:(lia)) as Z2. unfold zlen in Z2.
    pose proof (Z.pow_le_mono_r 2 (8 * Z.of_nat (length (zslice 2 (Z.of_nat 2) x))) 16 ltac:(lia) ltac:(lia)). lia. }
  assert (Hpe : PortNetEndian l = PortNetEndian p <-> Port l = Port p).
  { unfold Port, NetworkToHost16. split; [congruence|]. intros E. apply (f_equal (bswap 2)) in E.
    rewrite !bswap_involutive in E by apply Hport. done. }
  assert (H4 : load 4 4 l = load 4 4 p <-> zslice 4 4 l = zslice 4 4 p).
  { unfold load. change (Z.of_nat 4) with 4. split; [|congruence]. apply le_combine_inj.
    apply Nat2Z.inj. change (zlen (zslice 4 4 l) = zlen (zslice 4 4 p)). by rewrite !zlen_zslice by lia. }
  unfold isSelfConnect. destruct (Z.eqb_spec (Family l) AF_INET) as [E4|E4]; [|destruct (Z.eqb_spec (Family l) AF_INET6) as [E6|E6]].
  - rewrite andb_true_iff, !Z.eqb_eq, Hpe, H4. split.
    + intros [? ?]. by exists false.
    + intros ([] & Hf & ? & ?); [by rewrite E4 in Hf | done].
  - rewrite andb_true_iff, Z.eqb_eq, bool_decide_eq_true, Hpe. split.
    + intros [? ?]. by exists true.
    + intros ([] & Hf & ? & ?); [done | by rewrite E6 in Hf].
  - split; [done|]. intros ([] & Hf & _); cbn in Hf; congruence.
Qed.

(** ** The shape of an address *)
(** How an address comes to be, and how it changes afterwards. *)
Inductive addr_ctor : Type :=
  | CPort (port : Z) (loopbackOnly ipv6 : bool)
  | CIp (ip : list byte) (port : Z) (ipv6 : bool)
  | CIn (addr : list byte)                        (** sockaddr_in *)
  | CIn6 (addr6 : list byte).                     (** sockaddr_in6 *)
Inductive addr_op : Type :=
  | OScope (scope_id : Z)
  | OResolve (hostname : list byte)
  | OAssign (addr6 : list byte).
Section Shape.
Context (pton ntop : bool -> list byte -> option (list byte)).
Context (gethostbyname : list byte -> option (Z * Z * list byte)).
Definition construct (c : addr_ctor) (junk : list byte) : list byte :=
  match c with
  | CPort port loopbackOnly ipv6 => InetAddress_port port loopbackOnly ipv6 junk
  | CIp ip port ipv6 => InetAddress_ip pton ip port ipv6 junk
  | CIn addr => InetAddress_in addr junk
  | CIn6 addr6 => InetAddress_in6 addr6 junk
  end.
Definition exec_addr (o : addr_op) (a : list byte) : outcome (list byte) :=
  match o with
  | OScope id => Ok (SetScopeId id a)
  | OResolve h => '(_, a) ← Resolve gethostbyname h a; Ok a
  | OAssign b => Ok (SetSockAddrInet6 b a)
  end.
(** 28 bytes that are a sockaddr_in6 or begin with a sockaddr_in. *)
Definition shape (v6 : bool) (a : list byte) : Prop := zlen a = sizeof_in6 /\ Family a = family_of v6.
(** The structures given have the size of their type; they are typed when their family is
    one of the two. *)
Definition ctor_ok (c : addr_ctor) : Prop :=
  match c with CIn addr => zlen addr = sizeof_in | CIn6 addr6 => zlen addr6 = sizeof_in6 | _ => True end.
Definition addr_op_ok (o : addr_op) : Prop := match o with OAssign b => zlen b = sizeof_in6 | _ => True end.
Definition typed_ctor (c : addr_ctor) : Prop :=
  match c with CIn b | CIn6 b => exists v6, Family b = family_of v6 | _ => True end.
Definition typed_op (o : addr_op) : Prop := match o with OAssign b => exists v6, Family b = family_of v6 | _ => True end.

(** inet_pton fills in an address of its family; inet_ntop prints any such address
    within the length its family needs; the resolver gives IPv4 addresses. *)
Definition pton_ok : Prop := forall v6 ip b, pton v6 ip = Some b -> zlen b = addr_len v6.
Definition ntop_ok : Prop := forall v6 b, zlen b = addr_len v6 ->
  exists ip, ntop v6 b = Some ip /\ zlen ip < (if v6 then INET6_ADDRSTRLEN else INET_ADDRSTRLEN).
Definition resolver_ok : Prop := forall h t l a, gethostbyname h = Some (t, l, a) -> t = AF_INET /\ l = 4 /\ 4 <= zlen a.

Lemma shape_splice v6 off d (a : list byte) : shape v6 a -> 2 <= off -> off + zlen d <= sizeof_in6 -> shape v6 (zsplice off d a).
Proof.
  unfold shape, sizeof_in6. intros [Hl Hf] Ho Hd. pose proof (zlen_nonneg d). split; [rewrite zlen_zsplice; lia|].
  unfold Family in *. by rewrite load_splice_before by lia.
Qed.
Lemma shape_store v6 off n w (a : list byte) : shape v6 a -> 2 <= off -> off + Z.of_nat n <= sizeof_in6 -> shape v6 (store off n w a).
Proof. intros. apply shape_splice; [done | done | by rewrite zlen_le_split]. Qed.
Lemma shape_family v6 (a : list byte) : zlen a = sizeof_in6 -> shape v6 (store 0 2 (family_of v6) a).
Proof.
  unfold shape, sizeof_in6. intros Hl. split; [rewrite zlen_store; lia|]. unfold Family. rewrite load_store; [done | lia | lia |]. by destruct v6.
Qed.
Lemma Family_splice_front d (a : list byte) : 2 <= zlen d -> Family (zsplice 0 d a) = Family d.
Proof.
  intros Hd. destruct d as [|x [|y d]]; [done | done | reflexivity].
Qed.
Lemma construct_shape c junk : pton_ok -> ctor_ok c -> typed_ctor c -> zlen junk = sizeof_in6 -> exists v6, shape v6 (construct c junk).
Proof.
  intros Hpton Hc Ht Hj.
  assert (Hz : forall n, 0 <= n <= sizeof_in6 -> zlen (MemZero n junk) = sizeof_in6) by (intros; rewrite zlen_MemZero; lia).
  destruct c as [port lo ipv6|ip port ipv6|addr|addr6]; cbn [construct ctor_ok typed_ctor] in *.
  - exists ipv6. unfold InetAddress_port. destruct ipv6.
    + apply shape_store; [|lia | done]. apply shape_splice; [|lia | by destruct lo]. by apply (shape_family true), Hz.
    + apply shape_store; [|lia | done]. apply shape_store; [|lia | done]. by apply (shape_family false), Hz.
  - unfold InetAddress_ip. destruct (ipv6 || _); [exists true; unfold fromIpPort6 | exists false; unfold fromIpPort4].
    + assert (S : shape true (store 2 2 (HostToNetwork16 port) (store 0 2 AF_INET6 (MemZero sizeof_in6 junk))))
        by (apply shape_store; [by apply (shape_family true), Hz | lia | done]).
      destruct (pton true ip) as [b|] eqn:Eb; [|done]. apply Hpton in Eb. apply shape_splice; [done | lia | by rewrite Eb].
    + assert (S : shape false (store 2 2 (HostToNetwork16 port) (store 0 2 AF_INET (MemZero sizeof_in junk))))
        by (apply shape_store; [by apply (shape_family false), Hz | lia | done]).
      destruct (pton false ip) as [b|] eqn:Eb; [|done]. apply Hpton in Eb. apply shape_splice; [done | lia | by rewrite Eb].
  - destruct Ht as [v6 Hf]. exists v6. unfold InetAddress_in. unfold sizeof_in in Hc. split; [rewrite zlen_zsplice; unfold sizeof_in6 in *; lia|].
    rewrite Family_splice_front; [done | lia].
  - destruct Ht as [v6 Hf]. exists v6. unfold InetAddress_in6. unfold sizeof_in6 in Hc. split; [rewrite zlen_zsplice; unfold sizeof_in6 in *; lia|].
    rewrite Family_splice_front; [done | lia].
Qed.
Lemma construct_length c junk : pton_ok -> ctor_ok c -> zlen junk = sizeof_in6 -> zlen (construct c junk) = sizeof_in6.
Proof.
  intros Hpton Hc Hj. destruct c as [port lo ipv6|ip port ipv6|addr|addr6].
  1,2: by match goal with |- zlen (construct ?c _) = _ => destruct (construct_shape c junk Hpton I I Hj) as (? & ? & _) end.
  all: unfold construct, InetAddress_in, InetAddress_in6; cbn in Hc; unfold sizeof_in, sizeof_in6 in *; rewrite zlen_zsplice; lia.
Qed.
Lemma exec_addr_Ok o (a : list byte) : resolver_ok -> zlen a = sizeof_in6 -> addr_op_ok o ->
  exists a', exec_addr o a = Ok a' /\ zlen a' = sizeof_in6 /\ ((exists v6, shape v6 a) -> typed_op o -> exists v6, shape v6 a').
Proof.
  intros Hr Hl Ho. destruct o as [id|h|b]; cbn.
  - eexists. split; [done|]. unfold SetScopeId. unfold sizeof_in6 in *. split; [case_match; [rewrite zlen_store; lia | done]|].
    intros [v6 S] _. exists v6. case_match; [by apply shape_store | done].
  - unfold Resolve. destruct (gethostbyname h) as [[[t l] x]|] eqn:E; [|by eexists].
    destruct (Hr h t l x E) as (-> & -> & Hx). cbn. eexists. split; [done|].
    assert (Hx4 : zlen (ztake 4 x) = 4) by (rewrite zlen_ztake; lia). unfold sizeof_in6 in *.
    split; [rewrite zlen_zsplice; lia|]. intros [v6 S] _. exists v6. apply shape_splice; [done | lia | unfold sizeof_in6; lia].
  - eexists. split; [done|]. split; [done|]. intros _ [v6 Hf]. by exists v6.
Qed.
Lemma exec_addrs_Ok l (a : list byte) : resolver_ok -> zlen a = sizeof_in6 -> Forall addr_op_ok l ->
  exists a', ofold exec_addr l a = Ok a' /\ zlen a' = sizeof_in6 /\ ((exists v6, shape v6 a) -> Forall typed_op l -> exists v6, shape v6 a').
Proof.
  intros Hr. revert a. induction l as [|o l IH]; intros a Hl Hops; [by exists a|]. inversion Hops; subst.
  destruct (exec_addr_Ok o a) as (a1 & E & Hl1 & Ht1); [done..|]. cbn. rewrite E. cbn [mbind outcome_bind].
  destruct (IH a1) as (a' & E' & Hl' & Ht'); [done..|]. exists a'. split; [done|]. split; [done|].
  intros S Ht. inversion Ht; subst. apply Ht'; [by apply Ht1 | done].
Qed.
(** An address of neither family prints as a port alone. *)
Lemma toIpPort_none (a : list byte) : Family a <> AF_INET -> Family a <> AF_INET6 ->
  exists p, dec_value p = Port a /\ ToIp ntop a = Ok [] /\ ToIpPort ntop a = Ok (ip_port_text false [] p).
Proof.
  intros H4%Z.eqb_neq H6%Z.eqb_neq. destruct (Convert_digits 5 (Port a)) as (p & E & Hp & Hv).
  { lia. } { unfold Port. pose proof (bswap_range 2 (PortNetEndian a)). unfold NetworkToHost16. lia. }
  { unfold Port. pose proof (bswap_range 2 (PortNetEndian a)). unfold NetworkToHost16. lia. }
  exists p. split; [done|]. unfold ToIp, ToIpPort, toIpPort, toIp, ip_port_text. rewrite H4, H6, E. split; [done|].
  cbn [mbind outcome_bind]. change (zlen []) with 0. cbn [massert mbind outcome_bind app]. cbn -[ztake chars]. rewrite ztake_all; [done|].
  rewrite zlen_app. change (zlen (chars ":")) with 1. lia.
Qed.
End Shape.

(** C34: what an address can be and what its accessors do.  An [InetAddress] is built by any
    of its four constructors, on whatever memory, and then assigned to, resolved into
    or given a scope.  It is 28 bytes; its port is 16 bits; [ToIp] returns and
    [ToIpPort] is that text, in brackets for IPv6, with the port uncut: the text that
    inet_ntop gives for the address bytes of its family when this is AF_INET or AF_INET6,
    nothing when it is neither (as when getsockname failed and left the structure zero);
    [Ipv4NetEndian] returns the four bytes when the family is AF_INET and fails its
    assertion otherwise.  The family is one of the two whenever every structure given to
    the constructor or assigned since had one of them; the constructors from a port or
    from text always set one.  (inet_pton fills in addresses of its family, inet_ntop
    prints within the length for it, and the resolver gives IPv4 addresses.) *)
Theorem InetAddress_typed pton ntop gethostbyname c ops (junk : list byte) :
  pton_ok pton -> ntop_ok ntop -> resolver_ok gethostbyname -> zlen junk = sizeof_in6 -> ctor_ok c -> Forall addr_op_ok ops ->
  exists a ip p, ofold (exec_addr gethostbyname) ops (construct pton c junk) = Ok a /\
    zlen a = sizeof_in6 /\ 0 <= Port a < 2 ^ 16 /\ dec_value p = Port a /\
    ToIp ntop a = Ok ip /\ ToIpPort ntop a = Ok (ip_port_text (bool_decide (Family a = AF_INET6)) ip p) /\
    (if decide (Family a = AF_INET) then ntop false (zslice 4 4 a) = Some ip
     else if decide (Family a = AF_INET6) then ntop true (zslice 8 16 a) = Some ip else ip = []) /\
    Ipv4NetEndian a = (if decide (Family a = AF_INET) then Ok (le_combine (zslice 4 4 a)) else Fault (Assertion "Family() == AF_INET")) /\
    (typed_ctor c -> Forall typed_op ops -> Family a = AF_INET \/ Family a = AF_INET6).
Proof.
  intros Hpton Hntop Hr Hj Hc Hops. pose proof (construct_length pton c junk Hpton Hc Hj) as L0.
  destruct (exec_addrs_Ok gethostbyname ops _ Hr L0 Hops) as (a & E & Hl & Ht).
  assert (HP : 0 <= Port a < 2 ^ 16) by apply (bswap_range 2). destruct HP as [HP1 HP2].
  assert (Htyped : typed_ctor c -> Forall typed_op ops -> Family a = AF_INET \/ Family a = AF_INET6).
  { intros Htc Hto. destruct Ht as ([|] & _ & Hf); [by apply construct_shape | done | by right | by left]. }
  assert (Hip : forall v6, Family a = family_of v6 -> exists ip p, ntop v6 (zslice (addr_off v6) (addr_len v6) a) = Some ip /\ dec_value p = Port a /\
    ToIp ntop a = Ok ip /\ ToIpPort ntop a = Ok (ip_port_text v6 ip p)).
  { intros v6 Hf. destruct (Hntop v6 (zslice (addr_off v6) (addr_len v6) a)) as (ip & Hip & Hlen).
    { apply zlen_zslice; unfold sizeof_in6 in Hl; destruct v6; cbn; lia. }
    destruct (toIpPort_text ntop v6 a ip Hf Hip Hlen) as (p & _ & Hv & ? & ?). by exists ip, p. }
  unfold Ipv4NetEndian. destruct (decide (Family a = AF_INET)) as [H4|H4]; [|destruct (decide (Family a = AF_INET6)) as [H6|H6]].
  - destruct (Hip false H4) as (ip & p & ? & ? & ? & ?). exists a, ip, p. rewrite bool_decide_false by (by rewrite H4). rewrite H4.
    split_and!; try done. by left.
  - destruct (Hip true H6) as (ip & p & ? & ? & ? & ?). exists a, ip, p. rewrite bool_decide_true by done. rewrite H6.
    split_and!; try done. by right.
  - destruct (toIpPort_none ntop a H4 H6) as (p & ? & ? & ?). exists a, [], p. rewrite bool_decide_false by done.
    rewrite (proj2 (Z.eqb_neq _ _) H4), !(decide_False (P := Family a = AF_INET)), (decide_False (P := Family a = AF_INET6)) by done. by split_and!.
Qed.
(** An IPv6 address of a port, into which a name is resolved. *)
Definition ex_ntop (v6 : bool) (b : list byte) : option (list byte) := Some (if v6 then chars "::" else chars "1.2.3.4").
Definition ex_resolver (h : list byte) : option (Z * Z * list byte) := Some (AF_INET, 4, ex_ip).
Lemma InetAddress_typed_witness :
  exists a p, ofold (exec_addr ex_resolver) [OScope 3; OResolve (chars "localhost")] (construct (fun _ _ => None) (CPort 80 true true) (replicate 28 Byte.xff)) = Ok a /\
    Family a = AF_INET6 /\ ToIpPort ex_ntop a = Ok (ip_port_text true (chars "::") p) /\ Ipv4NetEndian a = Fault (Assertion "Family() == AF_INET").
Proof.
  destruct (InetAddress_typed (fun _ _ => None) ex_ntop ex_resolver (CPort 80 true true) [OScope 3; OResolve (chars "localhost")] (replicate 28 Byte.xff))
    as (a & ip & p & E & _ & _ & _ & _ & Ht & Hip & H4 & _).
  - intros v6 ip b [=].
  - intros v6 b _. exists (if v6 then chars "::" else chars "1.2.3.4"). split; [reflexivity|]. destruct v6; vm_compute; reflexivity.
  - intros h t l a [= <- <- <-]. split; [reflexivity|]. split; [reflexivity|]. vm_compute. discriminate.
  - reflexivity.
  - exact I.
  - repeat constructor.
  - exists a, p. split; [exact E|]. assert (Hf : Family a = AF_INET6) by (vm_compute in E; injection E as <-; vm_compute; reflexivity).
    rewrite Hf in Ht, Hip, H4. cbn in Hip. injection Hip as <-. split; [exact Hf|]. split; [exact Ht | exact H4].
Defined.
(** When getsockname(2) fails, [GetLocalAddr] hands a structure of zeros to the constructor:
    the address has no family and prints as a port without an address. *)
Lemma local_addr_unknown : let a := InetAddress_in6 (replicate 28 Byte.x00) (replicate 28 Byte.xff) in
  Family a = 0 /\ ToIp ex_ntop a = Ok [] /\ ToIpPort ex_ntop a = Ok (chars ":0") /\ Ipv4NetEndian a = Fault (Assertion "Family() == AF_INET").
Proof. repeat split; vm_compute; reflexivity. Qed.
(** Resolving into an IPv6 address reports success and leaves the address as it was:
    the four bytes land in the flow label. *)
Lemma Resolve_ignores_ipv6 : exists a',
  Resolve ex_resolver (chars "localhost") (InetAddress_port 80 false true (replicate 28 Byte.xff)) = Ok (true, a') /\
  Family a' = AF_INET6 /\ sin6_addr a' = in6addr_any /\ load 4 4 a' = 0x0100007f.
Proof. eexists. split; [vm_compute; reflexivity|]. repeat split; vm_compute; reflexivity. Qed.
