(* ===== verification/Socket.v ===== *)
(** * Sockets (src/src/network/Socket.h, Socket.cc, SocketOps.h, SocketOps.cc)

    [Sockets::...] wrap one system call each and decide what happens when it fails;
    [Socket] owns a descriptor and closes it when it is destroyed.  The system calls are
    a record of operations on a kernel state; an error is its number.  The casts between
    sockaddr types have no effect on the bytes. *)
From S2P Require Import Prelude LogStream CString NetAddress.

Definition SOCK_STREAM : Z := 1.
Definition SOCK_NONBLOCK : Z := 0x800.
Definition SOCK_CLOEXEC : Z := 0x80000.
Definition IPPROTO_TCP : Z := 6.
Definition SOL_SOCKET : Z := 1.
Definition SO_REUSEADDR : Z := 2.
Definition SO_KEEPALIVE : Z := 9.
Definition SO_REUSEPORT : Z := 15.
Definition TCP_NODELAY : Z := 1.
Definition SOMAXCONN : Z := 4096.

(** The counters of struct tcp_info that are printed. *)
Record tcp_info : Type := mkTcpInfo {
  tcpi_retransmits : Z; tcpi_rto : Z; tcpi_ato : Z; tcpi_snd_mss : Z; tcpi_rcv_mss : Z; tcpi_lost : Z;
  tcpi_retrans : Z; tcpi_rtt : Z; tcpi_rttvar : Z; tcpi_snd_ssthresh : Z; tcpi_snd_cwnd : Z; tcpi_total_retrans : Z;
}.

Record calls (K : Type) : Type := mkCalls {
  sys_socket : Z -> Z -> Z -> K -> (Z + Z) * K;
  sys_bind : Z -> list byte -> Z -> K -> option Z * K;          (** [None] is success *)
  sys_listen : Z -> Z -> K -> option Z * K;
  sys_accept4 : Z -> Z -> K -> (Z + Z * list byte) * K;         (** the descriptor and the address of the peer *)
  sys_connect : Z -> list byte -> Z -> K -> option Z * K;
  sys_close : Z -> K -> option Z * K;
  sys_shutdown_wr : Z -> K -> option Z * K;
  sys_so_error : Z -> K -> (Z + Z) * K;
  sys_getsockname : Z -> K -> Z + list byte;
  sys_getpeername : Z -> K -> Z + list byte;
  sys_setsockopt : Z -> Z -> Z -> Z -> K -> option Z * K;       (** descriptor, level, option, value *)
  sys_tcp_info : Z -> K -> option tcp_info;
}.
Arguments sys_socket {K}. Arguments sys_bind {K}. Arguments sys_listen {K}. Arguments sys_accept4 {K}.
Arguments sys_connect {K}. Arguments sys_close {K}. Arguments sys_shutdown_wr {K}. Arguments sys_so_error {K}.
Arguments sys_getsockname {K}. Arguments sys_getpeername {K}. Arguments sys_setsockopt {K}. Arguments sys_tcp_info {K}.

(** ** Accepting *)
(** Expected errors come back; any other ends the process. *)
Definition expected : list Z := [EAGAIN; ECONNABORTED; EINTR; EPROTO; EPERM; EMFILE].
Definition unexpected : list Z := [EBADF; EFAULT; EINVAL; ENFILE; ENOBUFS; ENOMEM; ENOTSOCK; EOPNOTSUPP].
Definition check_accept {A} (r : Z + A) : outcome (Z + A) :=
  match r with
  | inr connfd => Ok (inr connfd)
  | inl savedErrno =>
      if decide (savedErrno ∈ expected) then Ok (inl savedErrno)
      else if decide (savedErrno ∈ unexpected) then Fault (LogFatal "unexpected error of ::accept")
      else Fault (LogFatal "unknown error of ::accept")
  end.

Section SocketOps.
Context {K : Type} (sys : calls K).

Definition CreateNonblockingOrDie (family : Z) (k : K) : outcome (Z * K) :=
  match sys_socket sys family (Z.lor SOCK_STREAM (Z.lor SOCK_NONBLOCK SOCK_CLOEXEC)) IPPROTO_TCP k with
  | (inr sockfd, k) => Ok (sockfd, k)
  | (inl _, _) => Fault (LogFatal "sockets::createNonblockingOrDie")
  end.
Definition BindOrDie (sockfd : Z) (addr : list byte) (k : K) : outcome K :=
  match sys_bind sys sockfd addr sizeof_in6 k with
  | (None, k) => Ok k
  | (Some _, _) => Fault (LogFatal "sockets::bindOrDie")
  end.
Definition ListenOrDie (sockfd : Z) (k : K) : outcome K :=
  match sys_listen sys sockfd SOMAXCONN k with
  | (None, k) => Ok k
  | (Some _, _) => Fault (LogFatal "sockets::listenOrDie")
  end.
(** The address is written into [addr] from its start; at most its own size. *)
Definition accept (sockfd : Z) (addr : list byte) (k : K) : outcome ((Z + Z) * list byte * K) :=
  let '(r, k) := sys_accept4 sys sockfd (Z.lor SOCK_NONBLOCK SOCK_CLOEXEC) k in
  r ← check_accept r;
  match r with
  | inr (connfd, peer) => Ok (inr connfd, zsplice 0 (ztake (zlen addr) peer) addr, k)
  | inl errno => Ok (inl errno, addr, k)
  end.
Definition connect (sockfd : Z) (addr : list byte) (k : K) : option Z * K := sys_connect sys sockfd addr sizeof_in6 k.
(** A failed close or shutdown is logged. *)
Definition close (sockfd : Z) (k : K) : K := snd (sys_close sys sockfd k).
Definition shutdownWrite (sockfd : Z) (k : K) : K := snd (sys_shutdown_wr sys sockfd k).
Definition getSocketError (sockfd : Z) (k : K) : Z * K :=
  match sys_so_error sys sockfd k with (inl errno, k) => (errno, k) | (inr optval, k) => (optval, k) end.
Definition getLocalAddr (sockfd : Z) (k : K) : list byte :=
  let localaddr := MemZero sizeof_in6 (replicate 28 Byte.x00) in
  match sys_getsockname sys sockfd k with inr a => zsplice 0 (ztake sizeof_in6 a) localaddr | inl _ => localaddr end.
Definition getPeerAddr (sockfd : Z) (k : K) : list byte :=
  let peeraddr := MemZero sizeof_in6 (replicate 28 Byte.x00) in
  match sys_getpeername sys sockfd k with inr a => zsplice 0 (ztake sizeof_in6 a) peeraddr | inl _ => peeraddr end.

(** ** Members of [Socket] *)
Definition nonValidSocketFd : Z := -1.
Definition BindAddress (sockfd_ : Z) (addr : list byte) (k : K) : outcome K := BindOrDie sockfd_ addr k.
Definition Listen (sockfd_ : Z) (k : K) : outcome K := ListenOrDie sockfd_ k.
Definition Accept (sockfd_ : Z) (peeraddr : list byte) (k : K) : outcome ((Z + Z) * list byte * K) :=
  '((r, addr), k) ← accept sockfd_ (replicate 28 Byte.x00) k;
  Ok (match (r : Z + Z) with
      | inr connfd => (inr connfd, SetSockAddrInet6 addr peeraddr, k)
      | inl e => (inl e, peeraddr, k)
      end).
Definition ShutdownWrite (sockfd_ : Z) (k : K) : K := shutdownWrite sockfd_ k.
Definition optval (on : bool) : Z := if on then 1 else 0.
Definition SetTcpNoDelay (sockfd_ : Z) (on : bool) (k : K) : K :=
  snd (sys_setsockopt sys sockfd_ IPPROTO_TCP TCP_NODELAY (optval on) k).
Definition SetReuseAddr (sockfd_ : Z) (on : bool) (k : K) : K :=
  snd (sys_setsockopt sys sockfd_ SOL_SOCKET SO_REUSEADDR (optval on) k).
Definition SetReusePort (sockfd_ : Z) (on : bool) (k : K) : K :=
  snd (sys_setsockopt sys sockfd_ SOL_SOCKET SO_REUSEPORT (optval on) k).
Definition SetKeepAlive (sockfd_ : Z) (on : bool) (k : K) : K :=
  snd (sys_setsockopt sys sockfd_ SOL_SOCKET SO_KEEPALIVE (optval on) k).

Definition GetTcpInfo (sockfd_ : Z) (k : K) : option tcp_info := sys_tcp_info sys sockfd_ k.
(** The label and the counter of each conversion. *)
Definition tcp_fields (i : tcp_info) : list (list byte * Z) :=
  [(chars "unrecovered=", tcpi_retransmits i); (chars " rto=", tcpi_rto i); (chars " ato=", tcpi_ato i);
   (chars " snd_mss=", tcpi_snd_mss i); (chars " rcv_mss=", tcpi_rcv_mss i); (chars " lost=", tcpi_lost i);
   (chars " retrans=", tcpi_retrans i); (chars " rtt=", tcpi_rtt i); (chars " rttvar=", tcpi_rttvar i);
   (chars " sshthresh=", tcpi_snd_ssthresh i); (chars " cwnd=", tcpi_snd_cwnd i); (chars " total_retrans=", tcpi_total_retrans i)].
Fixpoint print_fields (l : list (list byte * Z)) : outcome (list byte) :=
  match l with
  | [] => Ok []
  | (label, v) :: l => d ← Convert (u32 v); rest ← print_fields l; Ok (label ++ d ++ rest)
  end.
Definition GetTcpInfoString (sockfd_ : Z) (buf : list byte) (len : Z) (k : K) : outcome (bool * list byte) :=
  match GetTcpInfo sockfd_ k with
  | Some tcpi => s ← print_fields (tcp_fields tcpi); '(buf, _) ← snprintf buf len s; Ok (true, buf)
  | None => Ok (false, buf)
  end.
End SocketOps.

(** C40: what [Socket::Accept] does with every result of accept4(2).  On success it
    returns the descriptor and [peeraddr] is the address the kernel gave, the rest of its
    28 bytes zero.  EPERM (1), EINTR (4), EAGAIN (11), EMFILE (24), EPROTO (71) and
    ECONNABORTED (103), which can happen in normal operation, come back to the caller with
    [peeraddr] untouched; EBADF (9), ENOMEM (12), EFAULT (14), EINVAL (22), ENFILE (23),
    ENOTSOCK (88), EOPNOTSUPP (95) and ENOBUFS (105) end the process as unexpected, every
    other number as unknown.  (The comment in Socket.h promises -1 for every error.) *)
Theorem Accept_contract {K} (sys : calls K) fd peeraddr k :
  match sys_accept4 sys fd (Z.lor SOCK_NONBLOCK SOCK_CLOEXEC) k with
  | (inr (connfd, a), k') => zlen a <= 28 ->
      Accept sys fd peeraddr k = Ok (inr connfd, a ++ replicate (28 - length a) Byte.x00, k')
  | (inl e, k') =>
      if decide (e ∈ [1; 4; 11; 24; 71; 103]) then Accept sys fd peeraddr k = Ok (inl e, peeraddr, k')
      else if decide (e ∈ [9; 12; 14; 22; 23; 88; 95; 105]) then
        Accept sys fd peeraddr k = Fault (LogFatal "unexpected error of ::accept")
      else Accept sys fd peeraddr k = Fault (LogFatal "unknown error of ::accept")
  end.
Proof.
  unfold Accept, accept. destruct (sys_accept4 sys fd _ k) as [[e|[connfd a]] k'].
  - unfold check_accept.
    assert (H1 : e ∈ expected <-> e ∈ [1; 4; 11; 24; 71; 103]) by (unfold expected; rewrite !elem_of_cons; unfold EAGAIN, ECONNABORTED, EINTR, EPROTO, EPERM, EMFILE; tauto).
    assert (H2 : e ∈ unexpected <-> e ∈ [9; 12; 14; 22; 23; 88; 95; 105])
      by (unfold unexpected; rewrite !elem_of_cons; unfold EBADF, EFAULT, EINVAL, ENFILE, ENOBUFS, ENOMEM, ENOTSOCK, EOPNOTSUPP; tauto).
    destruct (decide (e ∈ expected)) as [He|He]; [rewrite decide_True by (by apply H1); done | rewrite decide_False by (by rewrite <- H1)].
    destruct (decide (e ∈ unexpected)) as [Hu|Hu]; [rewrite decide_True by (by apply H2); done | rewrite decide_False by (by rewrite <- H2); done].
  - intros Ha. cbn [check_accept mbind outcome_bind]. unfold SetSockAddrInet6. rewrite zlen_replicate, ztake_all by lia.
    do 3 f_equal. unfold zsplice. change (ztake 0 (replicate 28 Byte.x00)) with (@nil byte). cbn [app]. f_equal.
    unfold zdrop. rewrite drop_replicate. f_equal. unfold zlen. lia.
Qed.
(** A kernel with a script of answers. *)
Definition script : calls (list (Z + Z * list byte)) :=
  {| sys_socket _ _ _ k := (inr 3, k); sys_bind _ _ _ k := (None, k); sys_listen _ _ k := (None, k);
     sys_accept4 _ _ k := match k with r :: k => (r, k) | [] => (inl EAGAIN, []) end;
     sys_connect _ _ _ k := (None, k); sys_close _ k := (None, k); sys_shutdown_wr _ k := (None, k);
     sys_so_error _ k := (inr 0, k); sys_getsockname _ _ := inl EBADF; sys_getpeername _ _ := inl EBADF;
     sys_setsockopt _ _ _ _ k := (None, k); sys_tcp_info _ _ := None |}.
Lemma Accept_contract_witness :
  Accept script 4 [] [inr (9, [Byte.x02; Byte.x00])] = Ok (inr 9, [Byte.x02; Byte.x00] ++ replicate 26 Byte.x00, []) /\
  Accept script 4 [] [inl EMFILE] = Ok (inl EMFILE, [], []) /\
  Accept script 4 [] [inl ENFILE] = Fault (LogFatal "unexpected error of ::accept").
Proof.
  split; [|split].
  - apply (Accept_contract script 4 [] [inr (9, [Byte.x02; Byte.x00])]). vm_compute. discriminate.
  - exact (Accept_contract script 4 [] [inl EMFILE]).
  - exact (Accept_contract script 4 [] [inl ENFILE]).
Defined.

(** The report is printed whole into the 1024 bytes that a connection has for it. *)
Lemma print_fields_Ok l : Forall (fun x => no_nul x.1) l ->
  exists s, print_fields l = Ok s /\ no_nul s /\ zlen s <= foldr (fun x n => zlen x.1 + 10 + n) 0 l.
Proof.
  induction 1 as [|[label v] l Hn _ (s & IH & Hs & Hl)]; [exists []; split_and!; [done | unfold no_nul; set_solver | done]|].
  cbn [print_fields foldr fst]. pose proof (u32_range v). destruct (Convert_digits 10 (u32 v)) as (d & Ed & Ld & _); [lia | lia | lia |].
  rewrite Ed, IH. cbn [mbind outcome_bind]. eexists. split; [reflexivity|]. rewrite !no_nul_app, !zlen_app. split; [|cbn in *; lia].
  split_and!; [done | by eapply Convert_no_nul | done].
Qed.
Lemma GetTcpInfoString_whole {K} (sys : calls K) fd k i : sys_tcp_info sys fd k = Some i ->
  exists s buf, print_fields (tcp_fields i) = Ok s /\ cstr buf = s /\
    GetTcpInfoString sys fd (replicate 1024 Byte.x00) 1024 k = Ok (true, buf).
Proof.
  intros Hi. unfold GetTcpInfoString, GetTcpInfo. rewrite Hi.
  destruct (print_fields_Ok (tcp_fields i)) as (s & E & Hn & Hl); [repeat (constructor; [no_nul_lit|]); constructor|].
  assert (Hsum : foldr (fun x n => zlen x.1 + 10 + n) 0 (tcp_fields i) = 220) by (vm_compute; reflexivity). rewrite Hsum in Hl.
  rewrite E. cbn [mbind outcome_bind]. assert (L : zlen (replicate 1024 Byte.x00) = 1024) by done.
  replace (snprintf (replicate 1024 Byte.x00) 1024) with (snprintf (replicate 1024 Byte.x00) (zlen (replicate 1024 Byte.x00))) by done.
  rewrite snprintf_fits by lia. cbn [mbind outcome_bind]. eexists _, _. split; [done|]. split; [|done]. by apply cstr_app.
Qed.

(** ** Ownership *)
(** The [Socket] objects that are alive, and the descriptors closed so far. *)
Record store_t : Type := mkStore { objs : gmap nat Z; closed : list Z }.
Inductive sock_op : Type :=
  | Construct (o : nat) (fd : Z)
  | MoveConstruct (o from : nat)
  | MoveAssign (o from : nat)
  | Destroy (o : nat).
Definition sock_exec (op : sock_op) (s : store_t) : outcome store_t :=
  match op with
  | Construct o fd => Ok (mkStore (<[o := fd]> (objs s)) (closed s))
  | MoveConstruct o from | MoveAssign o from =>
      match objs s !! from with
      | Some fd => Ok (mkStore (<[from := nonValidSocketFd]> (<[o := fd]> (objs s))) (closed s))
      | None => Fault (Undefined "move from a destroyed Socket")
      end
  | Destroy o =>
      match objs s !! o with
      | Some fd => Ok (mkStore (delete o (objs s)) (if fd =? nonValidSocketFd then closed s else closed s ++ [fd]))
      | None => Fault (Undefined "destroyed twice")
      end
  end.

(** The descriptors the living objects own. *)
Definition valid (fd : Z) : list Z := if fd =? nonValidSocketFd then [] else [fd].
Definition owned (m : gmap nat Z) : list Z := map_to_list m ≫= fun x => valid x.2.
(** Which uses keep every descriptor owned by one object: descriptors come fresh
    from the kernel, an object is moved into only while it owns nothing, and not into
    itself. *)
Definition op_ok (op : sock_op) (s : store_t) : bool :=
  match op with
  | Construct o fd => bool_decide (objs s !! o = None) && (0 <=? fd) && bool_decide (fd ∉ owned (objs s))
  | MoveConstruct o from => bool_decide (objs s !! o = None) && bool_decide (is_Some (objs s !! from))
  | MoveAssign o from => bool_decide (o <> from) && bool_decide (objs s !! o = Some nonValidSocketFd) && bool_decide (is_Some (objs s !! from))
  | Destroy o => bool_decide (is_Some (objs s !! o))
  end.
Definition handed_out (op : sock_op) : list Z := match op with Construct _ fd => [fd] | _ => [] end.
Fixpoint ops_ok (ops : list sock_op) (s : store_t) : bool :=
  match ops with
  | [] => true
  | op :: ops => op_ok op s && match sock_exec op s with Ok s' => ops_ok ops s' | Fault _ => true end
  end.

Lemma owned_insert m o fd : m !! o = None -> owned (<[o := fd]> m) ≡ₚ valid fd ++ owned m.
Proof. intros H. unfold owned. by rewrite map_to_list_insert. Qed.
Lemma owned_delete m o fd : m !! o = Some fd -> owned m ≡ₚ valid fd ++ owned (delete o m).
Proof. intros H. rewrite <- (insert_delete_id m o fd H) at 1. apply owned_insert, lookup_delete_eq. Qed.
Lemma owned_update m o fd fd' : m !! o = Some fd' -> valid fd' ++ owned (<[o := fd]> m) ≡ₚ valid fd ++ owned m.
Proof.
  intros H. rewrite (owned_delete m o fd' H), <- insert_delete_eq, owned_insert by apply lookup_delete_eq.
  rewrite !app_assoc. f_equiv. apply Permutation_app_comm.
Qed.
Lemma move_owned m o from fd : o <> from -> m !! from = Some fd -> (m !! o = None \/ m !! o = Some nonValidSocketFd) ->
  owned (<[from := nonValidSocketFd]> (<[o := fd]> m)) ≡ₚ owned m.
Proof.
  intros Hne Hf Ho. apply (Permutation_app_inv_l (valid fd)). rewrite owned_update by (by rewrite lookup_insert_ne).
  cbn [valid nonValidSocketFd Z.eqb Pos.eqb app]. destruct Ho as [Ho|Ho]; [by rewrite owned_insert|].
  pose proof (owned_update m o fd _ Ho) as H. done.
Qed.

Lemma sock_exec_ok op s : op_ok op s = true -> exists s', sock_exec op s = Ok s' /\
  (owned (objs s') ++ closed s' ≡ₚ handed_out op ++ owned (objs s) ++ closed s) /\ (NoDup (owned (objs s)) -> NoDup (owned (objs s'))).
Proof.
  destruct op as [o fd|o from|o from|o]; cbn [op_ok sock_exec handed_out]; rewrite ?andb_true_iff, ?bool_decide_eq_true, ?Z.leb_le.
  - intros [[Ho Hfd] Hin]. eexists. split; [done|]. cbn. rewrite owned_insert by done. unfold valid, nonValidSocketFd.
    destruct (Z.eqb_spec fd (-1)); [lia|]. cbn. split; [done|]. intros Hn. by constructor.
  - intros [Ho [fd Hf]]. rewrite Hf. eexists. split; [done|]. cbn. rewrite (move_owned _ o from fd); [done | congruence | done | by left].
  - intros [[Hne Ho] [fd Hf]]. rewrite Hf. eexists. split; [done|]. cbn. rewrite (move_owned _ o from fd); [done | done | done | by right].
  - intros [fd Hf]. rewrite Hf. eexists. split; [done|]. cbn. pose proof (owned_delete _ _ _ Hf) as Hp. split.
    + rewrite Hp. unfold valid. case_if; cbn; [done|]. rewrite app_assoc. rewrite Permutation_app_comm. done.
    + rewrite Hp. intros Hn. apply NoDup_app in Hn. by destruct Hn as (_ & _ & ?).
Qed.

(** Descriptors are closed exactly once.  Whatever sequence of construction, moves
    and destruction the program performs on [Socket] objects, as long as an object
    that owns a descriptor is not assigned to: no two objects own the same descriptor,
    every descriptor taken over is owned by a living object or was closed, once,
    and when all objects are gone all of them are closed. *)
Theorem sockets_closed_once ops :
  ops_ok ops (mkStore ∅ []) = true ->
  exists s, ofold sock_exec ops (mkStore ∅ []) = Ok s /\ NoDup (owned (objs s)) /\
    owned (objs s) ++ closed s ≡ₚ concat (handed_out <$> ops) /\
    (objs s = ∅ -> closed s ≡ₚ concat (handed_out <$> ops)).
Proof.
  assert (H : forall s, ops_ok ops s = true -> NoDup (owned (objs s)) -> exists s', ofold sock_exec ops s = Ok s' /\
    NoDup (owned (objs s')) /\ owned (objs s') ++ closed s' ≡ₚ concat (handed_out <$> ops) ++ owned (objs s) ++ closed s).
  { induction ops as [|op ops IH]; intros s Hok Hn; cbn [ofold fmap list_fmap concat]; [by exists s|].
    cbn [ops_ok] in Hok. apply andb_true_iff in Hok as [Hop Hok]. destruct (sock_exec_ok op s Hop) as (s1 & E & Hp & Hd). rewrite E in *.
    cbn [mbind outcome_bind]. destruct (IH s1 Hok (Hd Hn)) as (s' & -> & Hn' & Hp'). exists s'. split_and!; [done..|].
    rewrite Hp', Hp. rewrite !app_assoc. do 2 f_equiv. apply Permutation_app_comm. }
  intros Hok. destruct (H _ Hok) as (s & E & Hn & Hp); [constructor|].
  change (owned (objs (mkStore ∅ []))) with (@nil Z) in Hp. cbn [closed app] in Hp. rewrite app_nil_r in Hp.
  exists s. split_and!; [done..|]. intros He. rewrite He in Hp. exact Hp.
Qed.
Lemma sockets_closed_once_witness :
  exists s, ofold sock_exec [Construct 0 7; Construct 1 8; MoveConstruct 2 0; MoveAssign 0 1; Destroy 0; Destroy 1; Destroy 2]
      (mkStore ∅ []) = Ok s /\ closed s ≡ₚ [7; 8].
Proof.
  destruct (sockets_closed_once [Construct 0 7; Construct 1 8; MoveConstruct 2 0; MoveAssign 0 1; Destroy 0; Destroy 1; Destroy 2])
    as (s & E & _ & _ & Hc); [vm_compute; reflexivity|].
  exists s. split; [exact E|]. apply Hc. clear Hc. vm_compute in E. injection E as <-. vm_compute. reflexivity.
Defined.

(** Assigning to a [Socket] that owns a descriptor loses that descriptor: the move
    assignment overwrites it without closing. *)
Lemma move_assign_leaks : exists s,
  ofold sock_exec [Construct 0 7; Construct 1 8; MoveAssign 0 1; Destroy 0; Destroy 1] (mkStore ∅ []) = Ok s /\
  objs s = ∅ /\ closed s = [8].
Proof. eexists. split; [vm_compute; reflexivity|]. split; vm_compute; reflexivity. Qed.
