(* ===== verification/Time.v ===== *)
(** * Time (src/src/unix/Time.h, Time.cc, Duration.h, Duration.cc)

    [Timestamp] is its one field, an [int64_t] of microseconds; [Duration] an
    [int64_t] of nanoseconds.  [double] is the IEEE binary64 format of the
    Standard Library's executable specification ([spec_float], 53 bits of
    precision), so conversions and rounding are those of the machine. *)
From Stdlib Require Export SpecFloat.
From S2P Require Import Prelude LogStream.

(** ** double *)
Definition double : Type := spec_float.
Definition dmul (x y : double) : double := SFmul 53 1024 x y.
Definition ddiv (x y : double) : double := SFdiv 53 1024 x y.
Definition dlt (x y : double) : bool := SFltb x y.
Definition d0 : double := S754_zero false.
(** [static_cast<double>] of an integer, rounded to nearest even. *)
Definition double_of_Z (z : Z) : double := binary_normalize 53 1024 z 0 false.

(** [static_cast<int64_t>] of a double: towards zero, undefined when the value
    does not fit. *)
Definition int64_of_double (d : double) : outcome Z :=
  match d with
  | S754_zero _ => Ok 0
  | S754_finite s m e =>
      let v := if 0 <=? e then Z.shiftl (Zpos m) e else Z.shiftr (Zpos m) (- e) in
      sint_checked 64 (if s then - v else v)
  | _ => Fault (Undefined "double to int64_t")
  end.

(** ** Timestamp *)
Abbreviation Timestamp := Z (only parsing).
Definition kMicroSecondsPerSecond : Z := 1000 * 1000.

Definition Timestamp_default : Timestamp := 0.
Definition Invalid : Timestamp := Timestamp_default.
Definition Valid (t : Timestamp) : bool := 0 <? t.
Definition Swap (t that : Timestamp) : Timestamp * Timestamp := (that, t).
Definition MicroSecondsSinceEpoch (t : Timestamp) : Z := t.
Definition SecondsSinceEpoch (t : Timestamp) : Z := Z.quot t kMicroSecondsPerSecond.

Definition FromUnixTime (t microseconds : Z) : outcome Timestamp :=
  s ← sint_checked 64 (t * kMicroSecondsPerSecond);
  sint_checked 64 (s + microseconds).

(** [Now] reads the clock with gettimeofday(2): [tv] is what it stored. *)
Definition Now (tv : Z * Z) : outcome Timestamp :=
  s ← sint_checked 64 (fst tv * kMicroSecondsPerSecond);
  sint_checked 64 (s + snd tv).

Definition Timestamp_lt (lhs rhs : Timestamp) : bool := lhs <? rhs.
Definition Timestamp_eq (lhs rhs : Timestamp) : bool := lhs =? rhs.

Definition TimeDifference (high low : Timestamp) : outcome double :=
  diff ← sint_checked 64 (high - low);
  Ok (ddiv (double_of_Z diff) (double_of_Z kMicroSecondsPerSecond)).

Definition AddTime (timestamp : Timestamp) (seconds : double) : outcome Timestamp :=
  delta ← int64_of_double (dmul seconds (double_of_Z kMicroSecondsPerSecond));
  sint_checked 64 (timestamp + delta).

(** [%0<w>d]: the numeral padded with zeros after the sign up to width [w]. *)
Definition pad0 (w : Z) (s : list byte) : list byte :=
  match s with
  | c :: t =>
      if decide (c = Byte.x2d)
      then c :: replicate (Z.to_nat (w - zlen s)) Byte.x30 ++ t
      else replicate (Z.to_nat (w - zlen s)) Byte.x30 ++ s
  | [] => replicate (Z.to_nat w) Byte.x30
  end.

(** Seconds as [PRId64], a dot, microseconds as [%06] [PRId64]; printf's decimal
    conversion prints the numeral of [Convert], and the text is cut to the 31
    characters the buffer holds. *)
Definition ToString (t : Timestamp) : outcome (list byte) :=
  let seconds := Z.quot t kMicroSecondsPerSecond in
  let microseconds := Z.rem t kMicroSecondsPerSecond in
  s ← Convert seconds;
  u ← Convert microseconds;
  Ok (ztake 31 (s ++ chars "." ++ pad0 6 u)).

(** [std::chrono::microseconds] held by a [system_clock] time point, whose tick
    is the nanosecond. *)
Definition ToChronoSysTime (t : Timestamp) : outcome Z := sint_checked 64 (t * 1000).

(** ** Duration *)
Module Duration.

Definition kNanosecond : Z := 1.
Definition kMicrosecond : Z := 1000 * kNanosecond.
Definition kMillisecond : Z := 1000 * kMicrosecond.
Definition kSecond : Z := 1000 * kMillisecond.
Definition kMinute : Z := 60 * kSecond.
Definition kHour : Z := 60 * kMinute.

Record timeval : Type := mkTimeval { tv_sec : Z; tv_usec : Z }.

Definition of_timeval (t : timeval) : outcome Z :=
  s ← sint_checked 64 (tv_sec t * kSecond);
  u ← sint_checked 64 (tv_usec t * kMicrosecond);
  sint_checked 64 (s + u).
Definition of_nanoseconds (nanoseconds : Z) : Z := nanoseconds.
Definition of_seconds (seconds : double) : outcome Z :=
  int64_of_double (dmul seconds (double_of_Z kSecond)).

Definition Nanoseconds (ns_ : Z) : Z := ns_.
Definition Seconds (ns_ : Z) : double := ddiv (double_of_Z ns_) (double_of_Z kSecond).
Definition Milliseconds (ns_ : Z) : double := ddiv (double_of_Z ns_) (double_of_Z kMillisecond).
Definition Microseconds (ns_ : Z) : double := ddiv (double_of_Z ns_) (double_of_Z kMicrosecond).
Definition Minutes (ns_ : Z) : double := ddiv (double_of_Z ns_) (double_of_Z kMinute).
Definition Hours (ns_ : Z) : double := ddiv (double_of_Z ns_) (double_of_Z kHour).

Definition To (ns_ : Z) : timeval :=
  mkTimeval (Z.quot ns_ kSecond) (Z.quot (Z.rem ns_ kSecond) kMicrosecond).
Definition TimeVal (ns_ : Z) : timeval := To ns_.

Definition IsZero (ns_ : Z) : bool := ns_ =? 0.
Definition lt (a b : Z) : bool := a <? b.
Definition le (a b : Z) : bool := a <=? b.
Definition gt (a b : Z) : bool := a >? b.
Definition ge (a b : Z) : bool := a >=? b.
Definition eq (a b : Z) : bool := a =? b.
Definition add (a b : Z) : outcome Z := sint_checked 64 (a + b).
Definition sub (a b : Z) : outcome Z := sint_checked 64 (a - b).
Definition mul (a n : Z) : outcome Z := sint_checked 64 (a * n).
Definition div (a n : Z) : outcome Z :=
  if n =? 0 then Fault (Undefined "division by zero") else sint_checked 64 (Z.quot a n).

End Duration.

(** ** Properties *)

Lemma sint_checked_Ok w z : - 2 ^ (w - 1) <= z < 2 ^ (w - 1) -> sint_checked w z = Ok z.
Proof.
  intros. unfold sint_checked, in_sint.
  rewrite (proj2 (Z.leb_le _ _)), (proj2 (Z.ltb_lt _ _)) by lia. done.
Qed.
Lemma sint_checked_inv w z z' : sint_checked w z = Ok z' -> z' = z /\ - 2 ^ (w - 1) <= z < 2 ^ (w - 1).
Proof.
  unfold sint_checked, in_sint. case_if; [|done]. intros [= ->]. bool_to_prop. done.
Qed.

Lemma dec_nat_app s t : dec_nat (s ++ t) = dec_nat s * 10 ^ zlen t + dec_nat t.
Proof.
  unfold dec_nat. rewrite foldl_app. generalize (foldl (fun a c => 10 * a + digit_of c) 0 s).
  induction t as [|c t IH] using rev_ind; intros a.
  - cbn. rewrite Z.pow_0_r. lia.
  - rewrite !foldl_snoc, IH, zlen_app. change (zlen [c]) with 1.
    rewrite Z.pow_add_r by (lia || apply zlen_nonneg). lia.
Qed.

Lemma dec_nat_zeros n s : dec_nat (replicate n Byte.x30 ++ s) = dec_nat s.
Proof.
  rewrite dec_nat_app.
  assert (dec_nat (replicate n Byte.x30) = 0) as ->; [|lia].
  induction n; [done|]. rewrite replicate_S_end, dec_nat_app, IHn. done.
Qed.

Lemma canonical_value s : canonical s -> dec_value s = dec_nat s /\ (forall c, head s = Some c -> c <> Byte.x2d).
Proof.
  intros (Hne & Hd & _). destruct s as [|c t]; [done|]. inversion Hd; subst.
  pose proof (digit_not_minus c H1). unfold dec_value. rewrite decide_False by done.
  split; [done|]. cbn. congruence.
Qed.

Lemma Convert_nonneg n v :
  0 <= v < 10 ^ Z.of_nat n -> (0 < n <= 20)%nat ->
  exists s, Convert v = Ok s /\ canonical s /\ zlen s <= Z.of_nat n /\ dec_nat s = v.
Proof.
  intros Hv Hn. assert (10 ^ Z.of_nat n <= 10 ^ 20) by (apply Z.pow_le_mono_r; lia).
  destruct (convert_loop_spec n v) as (s & E & Hval & Hf & Hl & Hne & Hlast); [lia|lia|].
  apply (convert_loop_le n 20) in E; [|lia].
  unfold Convert. rewrite E, (proj2 (Z.ltb_ge v 0)) by lia. cbn [mbind outcome_bind].
  eexists; split; [done|]. rewrite lsb_value_reverse, <- foldl_dec in Hval.
  split_and!; [| unfold zlen; rewrite length_reverse; lia | lia].
  apply reverse_canonical; try done. intros L. by apply Hlast.
Qed.

Lemma pad0_canonical s w : canonical s -> pad0 w s = replicate (Z.to_nat (w - zlen s)) Byte.x30 ++ s.
Proof.
  intros Hs. destruct (canonical_value s Hs) as [_ Hh]. destruct s as [|c t]; [by destruct Hs|].
  unfold pad0. rewrite decide_False; [done|]. by apply Hh.
Qed.

(** [Timestamp::ToString] prints seconds and microseconds faithfully.  For
    every non-negative time the text is a canonical numeral, a dot and exactly
    six digits, untruncated by the 32-byte buffer, and reading the two numerals
    back gives the microsecond count. *)
Theorem Timestamp_ToString_roundtrip t :
  0 <= t < 2 ^ 63 ->
  exists s u, ToString t = Ok (s ++ chars "." ++ u) /\ canonical s /\
    zlen u = 6 /\ Forall is_digit u /\ dec_nat s * kMicroSecondsPerSecond + dec_nat u = t.
Proof.
  intros Ht. unfold ToString, kMicroSecondsPerSecond.
  rewrite Z.quot_div_nonneg, Z.rem_mod_nonneg by lia.
  change (1000 * 1000) with 1000000.
  pose proof (Z.mod_pos_bound t 1000000). pose proof (Z.div_mod t 1000000).
  assert (0 <= t / 1000000 < 10 ^ 13) by (split; [|apply Z.div_lt_upper_bound]; lia).
  destruct (Convert_nonneg 13 (t / 1000000)) as (s & -> & Hs & Ls & Vs); [lia|lia|].
  destruct (Convert_nonneg 6 (t mod 1000000)) as (u & -> & Hu & Lu & Vu); [lia|lia|].
  cbn [mbind outcome_bind]. rewrite (pad0_canonical u) by done.
  set (z := replicate (Z.to_nat (6 - zlen u)) Byte.x30).
  assert (Lz : zlen (z ++ u) = 6) by (subst z; rewrite zlen_app, zlen_replicate; lia).
  exists s, (z ++ u). split_and!; try done.
  - f_equal. apply ztake_all. rewrite !zlen_app. change (zlen (chars ".")) with 1.
    rewrite zlen_app in Lz. lia.
  - apply Forall_app; split; [|apply Hu]. apply Forall_replicate. by vm_compute.
  - subst z. rewrite dec_nat_zeros. lia.
Qed.

Lemma Timestamp_ToString_roundtrip_witness :
  ToString 1660000000000042 = Ok (chars "1660000000.000042") /\
  exists s u, ToString 1660000000000042 = Ok (s ++ chars "." ++ u) /\
    dec_nat s * kMicroSecondsPerSecond + dec_nat u = 1660000000000042.
Proof.
  split; [by vm_compute|].
  destruct (Timestamp_ToString_roundtrip 1660000000000042) as (s & u & E & _ & _ & _ & V); [lia|].
  exists s, u. split; [exact E | exact V].
Defined.

(** A [Duration] survives the trip through [struct timeval] up to the
    microsecond.  For every non-negative duration the fields are normalised
    (0 <= tv_usec < 10^6), rebuilding from them loses less than a microsecond
    and never gains, and a duration that is a whole number of microseconds comes
    back unchanged. *)
Theorem Duration_timeval_roundtrip ns :
  0 <= ns < 2 ^ 63 ->
  let tv := Duration.TimeVal ns in
  0 <= Duration.tv_usec tv < 1000000 /\ 0 <= Duration.tv_sec tv /\
  exists ns', Duration.of_timeval tv = Ok ns' /\ 0 <= ns - ns' < Duration.kMicrosecond /\
    (ns mod Duration.kMicrosecond = 0 -> ns' = ns).
Proof.
  intros Hns. unfold Duration.TimeVal, Duration.To, Duration.of_timeval.
  cbn [Duration.tv_sec Duration.tv_usec].
  unfold Duration.kSecond, Duration.kMillisecond, Duration.kMicrosecond, Duration.kNanosecond.
  change (1000 * 1) with 1000. change (1000 * (1000 * 1000)) with 1000000000.
  rewrite (Z.quot_div_nonneg ns), (Z.rem_mod_nonneg ns) by lia.
  pose proof (Z.mod_pos_bound ns 1000000000). pose proof (Z.div_mod ns 1000000000).
  rewrite Z.quot_div_nonneg by lia.
  pose proof (Z.mod_pos_bound (ns mod 1000000000) 1000).
  pose proof (Z.div_mod (ns mod 1000000000) 1000).
  assert (ns mod 1000 = (ns mod 1000000000) mod 1000) as ->.
  { change 1000000000 with (1000 * 1000000). rewrite Z.rem_mul_r by lia.
    rewrite Z.mul_comm, Z_mod_plus_full, Z.mod_mod; lia. }
  rewrite !sint_checked_Ok by lia. cbn [mbind outcome_bind]. rewrite !sint_checked_Ok by lia.
  split_and!; try lia. eexists; split; [done|]. split; intros; lia.
Qed.

Lemma Duration_timeval_roundtrip_witness :
  Duration.TimeVal 1003254213 = Duration.mkTimeval 1 3254 /\
  exists ns', Duration.of_timeval (Duration.TimeVal 1003254213) = Ok ns' /\
    0 <= 1003254213 - ns' < Duration.kMicrosecond.
Proof.
  split; [by vm_compute|].
  destruct (Duration_timeval_roundtrip 1003254213) as (_ & _ & ns' & E & H & _); [lia|].
  exists ns'. split; [exact E | exact H].
Defined.
