(* ===== verification/Float.v ===== *)
(** * Rounding of doubles

    Accuracy of the operations on [double] (Time.v) that the sources use: the
    conversion of an integer and the division are within half a unit in the last place,
    that is, a relative error of 2^-53.  Values are rationals. *)
From Stdlib Require Import QArith Qabs Qpower Lqa SetoidTactics.
From S2P Require Import Prelude LogStream Time.
Open Scope Z_scope.

(** ** Digits *)
Lemma digits2_bound p : 2 ^ (Z.pos (digits2_pos p) - 1) <= Z.pos p < 2 ^ Z.pos (digits2_pos p).
Proof.
  induction p as [p IH|p IH|]; cbn [digits2_pos]; [| |cbn; lia];
    rewrite Pos2Z.inj_succ; set (d := Z.pos (digits2_pos p)) in *; assert (0 < d) by (unfold d; lia);
    replace (Z.succ d - 1) with (Z.succ (d - 1)) by lia; rewrite !Z.pow_succ_r by lia; lia.
Qed.
Lemma Zdigits2_unique m d : 0 < d -> 2 ^ (d - 1) <= m < 2 ^ d -> Zdigits2 m = d.
Proof.
  intros Hd [Hl Hu]. assert (0 < m) by (pose proof (Z.pow_pos_nonneg 2 (d - 1) ltac:(lia) ltac:(lia)); lia).
  destruct m as [|p|]; try lia. cbn [Zdigits2]. pose proof (digits2_bound p) as [Hl' Hu'].
  set (k := Z.pos (digits2_pos p)) in *. assert (0 < k) by (unfold k; lia).
  destruct (Z.lt_trichotomy k d) as [Hlt|[->|Hlt]]; [|done|].
  - pose proof (Z.pow_le_mono_r 2 k (d - 1) ltac:(lia) ltac:(lia)). lia.
  - pose proof (Z.pow_le_mono_r 2 d (k - 1) ltac:(lia) ltac:(lia)). lia.
Qed.

(** ** Shifting with a rounding and a sticky bit *)
(** The record stands for the rational P / Q: its integer part, whether the rest is
    at least a half, and whether it is something else than 0 and a half. *)
Definition repr (x : shr_record) (P Q : Z) : Prop :=
  0 <= shr_m x /\ shr_m x * Q <= P < (shr_m x + 1) * Q /\
  shr_r x = (Q <=? 2 * (P - shr_m x * Q)) /\
  shr_s x = negb ((P - shr_m x * Q =? 0) || (2 * (P - shr_m x * Q) =? Q)).

Lemma repr_intro m r s P Q : 0 <= m -> m * Q <= P < (m + 1) * Q ->
  (r = true <-> Q <= 2 * (P - m * Q)) -> (s = true <-> P - m * Q <> 0 /\ 2 * (P - m * Q) <> Q) ->
  repr (Build_shr_record m r s) P Q.
Proof.
  intros Hm Hb Hr Hs. split; [done|]. split; [done|]. cbn. split; apply eq_true_iff_eq.
  - by rewrite Z.leb_le.
  - rewrite negb_true_iff, orb_false_iff, !Z.eqb_neq. done.
Qed.
Lemma repr_elim m r s P Q : repr (Build_shr_record m r s) P Q ->
  0 <= m /\ m * Q <= P < (m + 1) * Q /\ (r = true <-> Q <= 2 * (P - m * Q)) /\
  (s = true <-> P - m * Q <> 0 /\ 2 * (P - m * Q) <> Q).
Proof.
  intros (Hm & Hb & Hr & Hs). cbn in *. split; [done|]. split; [done|]. split.
  - by rewrite Hr, Z.leb_le.
  - by rewrite Hs, negb_true_iff, orb_false_iff, !Z.eqb_neq.
Qed.
Lemma shr_1_half m r s : 0 <= m -> exists h (b : bool), m = 2 * h + Z.b2z b /\ 0 <= h /\
  shr_1 (Build_shr_record m r s) = Build_shr_record h b (r || s).
Proof.
  intros Hm. destruct m as [|[p|p|]|]; try lia; cbn [shr_1].
  - by exists 0, false.
  - exists (Z.pos p), true. cbn. split_and!; [lia | lia | done].
  - exists (Z.pos p), false. cbn. split_and!; [lia | lia | done].
  - by exists 0, true.
Qed.
Lemma repr_shr_1 x P Q : 0 < Q -> repr x P Q -> repr (shr_1 x) P (Q * 2).
Proof.
  destruct x as [m r s]. intros HQ (Hm & Hb & Hr & Hs)%repr_elim.
  assert (Hor : (r || s) = true <-> P - m * Q <> 0) by (rewrite orb_true_iff, Hr, Hs; clear -Hb HQ; lia).
  destruct (shr_1_half m r s Hm) as (h & b & -> & Hh & ->). clear Hr Hs.
  assert (E : (2 * h + Z.b2z b) * Q = 2 * (h * Q) + (if b then Q else 0)) by (destruct b; cbn; ring).
  assert (E1 : (2 * h + Z.b2z b + 1) * Q = 2 * (h * Q) + (if b then Q else 0) + Q) by (destruct b; cbn; ring).
  rewrite E, E1 in *. clear E E1.
  apply repr_intro; [done | | |]; rewrite ?Hor; clear Hor;
    replace (h * (Q * 2)) with (2 * (h * Q)) by ring; replace ((h + 1) * (Q * 2)) with (2 * (h * Q) + 2 * Q) by ring;
    generalize dependent (h * Q); intros z Hz; clear -HQ Hz; destruct b; try (split; intros; (discriminate || lia || done)); lia.
Qed.
Lemma iter_shr p : forall x P Q, 0 < Q -> repr x P Q -> repr (iter_pos shr_1 p x) P (Q * 2 ^ Z.pos p).
Proof.
  induction p as [p IH|p IH|]; intros x P Q HQ Hx; cbn [iter_pos].
  - pose proof (Z.pow_pos_nonneg 2 (Z.pos p) ltac:(lia) ltac:(lia)).
    replace (Q * 2 ^ Z.pos p~1) with (Q * 2 * 2 ^ Z.pos p * 2 ^ Z.pos p).
    + apply IH; [nia|]. apply IH; [lia|]. by apply repr_shr_1.
    + rewrite Pos2Z.inj_xI. replace (2 * Z.pos p + 1) with (1 + Z.pos p + Z.pos p) by lia. rewrite !Z.pow_add_r by lia. ring.
  - pose proof (Z.pow_pos_nonneg 2 (Z.pos p) ltac:(lia) ltac:(lia)).
    replace (Q * 2 ^ Z.pos p~0) with (Q * 2 ^ Z.pos p * 2 ^ Z.pos p).
    + apply IH; [nia|]. by apply IH.
    + rewrite (Pos2Z.inj_xO p), <- Z.add_diag, Z.pow_add_r by lia. ring.
  - by apply repr_shr_1.
Qed.
Lemma shr_repr x P Q e n : 0 < Q -> 0 <= n -> repr x P Q -> exists y, shr x e n = (y, e + n) /\ repr y P (Q * 2 ^ n).
Proof.
  intros HQ Hn Hx. destruct n as [|p|]; [| |lia]; cbn [shr].
  - exists x. rewrite Z.add_0_r, Z.pow_0_r, Z.mul_1_r. done.
  - eexists. split; [reflexivity|]. by apply iter_shr.
Qed.
(** Rounding to nearest is within a half. *)
Lemma round_repr x P Q : 0 < Q -> repr x P Q ->
  let N := round_nearest_even (shr_m x) (loc_of_shr_record x) in
  shr_m x <= N <= shr_m x + 1 /\ 2 * Z.abs (N * Q - P) <= Q.
Proof.
  destruct x as [m r s]. intros HQ (Hm & Hb & Hr & Hs)%repr_elim. cbn [shr_m loc_of_shr_record].
  assert (Hr' : r = false -> 2 * (P - m * Q) < Q) by (intros ->; apply Z.nle_gt; intros H; by apply Hr in H).
  assert (Hs' : s = false -> P - m * Q = 0 \/ 2 * (P - m * Q) = Q).
  { intros ->. destruct (decide (P - m * Q = 0)), (decide (2 * (P - m * Q) = Q)); try tauto. destruct Hs as [_ Hs]. by discriminate Hs. }
  destruct r, s; cbn [round_nearest_even].
  - apply proj1 in Hr. specialize (Hr eq_refl). lia.
  - specialize (Hs' eq_refl). apply proj1 in Hr. specialize (Hr eq_refl). case_if; lia.
  - specialize (Hr' eq_refl). lia.
  - specialize (Hs' eq_refl). specialize (Hr' eq_refl). lia.
Qed.

(** ** Rounding a value of at least 53 bits *)
Lemma fexp_53 d e : -1074 <= d + e - 53 -> fexp 53 1024 (d + e) - e = d - 53.
Proof. intros H. unfold fexp, emin. lia. Qed.
Lemma shr_exact N e n : 0 <= N -> 0 <= n -> exists y, shr (Build_shr_record N false false) e n = (y, e + n) /\ repr y N (2 ^ n).
Proof.
  intros HN Hn. destruct (shr_repr (Build_shr_record N false false) N 1 e n) as (y & -> & Hy); [lia | done | |].
  - apply repr_intro; [done | lia | |]; rewrite Z.mul_1_r, Z.sub_diag; split; intros; (discriminate || lia || tauto).
  - exists y. split; [done|]. by rewrite Z.mul_1_l in Hy.
Qed.

Lemma round_aux_spec mx ex lx P Q n :
  0 < Q -> repr (shr_record_of_loc mx lx) P Q -> 0 <= n -> 2 ^ (52 + n) <= mx < 2 ^ (53 + n) -> -1074 <= ex + n <= 970 ->
  exists N m e, binary_round_aux 53 1024 false mx ex lx = S754_finite false m e /\ 2 ^ 52 <= N <= 2 ^ 53 /\
    2 * Z.abs (N * (Q * 2 ^ n) - P) <= Q * 2 ^ n /\
    (Z.pos m = N /\ N < 2 ^ 53 /\ e = ex + n \/ Z.pos m = 2 ^ 52 /\ N = 2 ^ 53 /\ e = ex + n + 1).
Proof.
  intros HQ Hrepr Hn Hmx Hex. unfold binary_round_aux, shr_fexp.
  pose proof (Z.pow_pos_nonneg 2 n ltac:(lia) Hn) as Hpow.
  rewrite (Zdigits2_unique mx (53 + n)) by (replace (53 + n - 1) with (52 + n) by lia; lia).
  rewrite fexp_53 by lia. replace (53 + n - 53) with n by lia.
  destruct (shr_repr _ P Q ex n HQ Hn Hrepr) as (y & -> & Hy).
  assert (HQn : 0 < Q * 2 ^ n) by nia. destruct (round_repr y P (Q * 2 ^ n) HQn Hy) as [HN Herr].
  set (N := round_nearest_even (shr_m y) (loc_of_shr_record y)) in *.
  assert (Hy52 : 2 ^ 52 <= shr_m y < 2 ^ 53).
  { destruct Hy as (_ & Hb & _). destruct Hrepr as (_ & Hmb & _). assert (Em : shr_m (shr_record_of_loc mx lx) = mx) by (destruct lx as [|[]]; done).
    rewrite Em in Hmb. rewrite !Z.pow_add_r in Hmx by lia. split; nia. }
  destruct (Z.eq_dec N (2 ^ 53)) as [EN|EN].
  - rewrite EN. change (Zdigits2 (2 ^ 53)) with 54. rewrite fexp_53 by lia. change (54 - 53) with 1.
    cbn [shr_record_of_loc shr iter_pos]. change (shr_1 (Build_shr_record (2 ^ 53) false false)) with (Build_shr_record (2 ^ 52) false false).
    cbn [shr_m]. change (2 ^ 52) with (Z.pos (2 ^ 52)%positive). rewrite (proj2 (Z.leb_le _ _)) by lia.
    exists (2 ^ 53), (2 ^ 52)%positive, (ex + n + 1). split; [done|]. split; [lia|]. rewrite <- EN. split; [done|]. right. by split_and!.
  - rewrite (Zdigits2_unique N 53) by lia. rewrite fexp_53 by lia. cbn [shr_record_of_loc]. change (53 - 53) with 0. cbn [shr shr_m].
    destruct N as [|m|] eqn:EN'; try lia. rewrite (proj2 (Z.leb_le _ _)) by lia.
    exists (Z.pos m), m, (ex + n). split; [done|]. split; [lia|]. split; [done|]. left. split_and!; [done | lia | done].
Qed.

(** ** Values *)
Open Scope Q_scope.
#[local] Instance Qeq_default : SetoidTactics.DefaultRelation Qeq | 1 := {}.
Definition dval (m : positive) (e : Z) : Q := inject_Z (Z.pos m) * (2 # 1) ^ e.
Definition ulp53 : Q := 1 # 9007199254740992.
(** The double [d] is within half a unit in the last place of [V], with a full mantissa. *)
Definition near (d : double) (V : Q) (m : positive) (e : Z) : Prop :=
  d = S754_finite false m e /\ (2 ^ 52 <= Z.pos m < 2 ^ 53)%Z /\ Qabs (dval m e - V) <= ulp53 * dval m e.

Lemma pow2_pos e : 0 < (2 # 1) ^ e.
Proof. apply Qpower_0_lt. reflexivity. Qed.
Lemma pow2_add a b : (2 # 1) ^ (a + b) == (2 # 1) ^ a * (2 # 1) ^ b.
Proof. apply Qpower_plus. discriminate. Qed.
Lemma pow2_Z n : (0 <= n)%Z -> (2 # 1) ^ n == inject_Z (2 ^ n).
Proof. intros H. symmetry. apply (Zpower_Qpower 2 n H). Qed.
Lemma inject_Z_abs z : Qabs (inject_Z z) == inject_Z (Z.abs z).
Proof. done. Qed.

Lemma half_ulp N w q V P : (2 ^ 52 <= N)%Z -> 0 < w -> (0 < q)%Z -> V * inject_Z q == inject_Z P * w ->
  (2 * Z.abs (N * q - P) <= q)%Z -> Qabs (inject_Z N * w - V) <= ulp53 * (inject_Z N * w).
Proof.
  intros HN Hw Hq HV Herr. assert (Hq' : 0 < inject_Z q) by (change 0 with (inject_Z 0); rewrite <- Zlt_Qlt; done).
  assert (H1 : Qabs (inject_Z N * w - V) <= (1 # 2) * w).
  { apply (Qmult_lt_0_le_reg_r _ _ (inject_Z q) Hq').
    setoid_replace (Qabs (inject_Z N * w - V) * inject_Z q) with (Qabs (inject_Z (N * q - P)) * w).
    - rewrite inject_Z_abs. assert (H2 : (2 # 1) * inject_Z (Z.abs (N * q - P)) <= inject_Z q).
      { change (2 # 1) with (inject_Z 2). rewrite <- inject_Z_mult, <- Zle_Qle. done. }
      setoid_replace ((1 # 2) * w * inject_Z q) with (((1 # 2) * inject_Z q) * w) by ring. apply Qmult_le_compat_r; [lra | lra].
    - assert (E1 : Qabs (inject_Z N * w - V) * inject_Z q == Qabs ((inject_Z N * w - V) * inject_Z q)).
      { setoid_rewrite Qabs_Qmult. setoid_rewrite (Qabs_pos (inject_Z q)); [|lra]. reflexivity. }
      assert (E2 : Qabs (inject_Z (N * q - P)) * w == Qabs (inject_Z (N * q - P) * w)).
      { setoid_rewrite Qabs_Qmult. setoid_rewrite (Qabs_pos w); [|lra]. reflexivity. }
      setoid_rewrite E1. setoid_rewrite E2. apply Qabs_wd. unfold Z.sub.
      setoid_rewrite inject_Z_plus. setoid_rewrite inject_Z_mult. setoid_rewrite inject_Z_opp.
      setoid_replace ((inject_Z N * w - V) * inject_Z q) with (inject_Z N * w * inject_Z q - V * inject_Z q) by ring.
      setoid_rewrite HV. ring. }
  assert (H2 : inject_Z (2 ^ 52) * w <= inject_Z N * w) by (apply Qmult_le_compat_r; [rewrite <- Zle_Qle; done | lra]).
  change (inject_Z (2 ^ 52)) with (4503599627370496 # 1) in H2. unfold ulp53. lra.
Qed.

Lemma round_aux_near mx ex lx P Q n V :
  (0 < Q)%Z -> repr (shr_record_of_loc mx lx) P Q -> (0 <= n)%Z -> (2 ^ (52 + n) <= mx < 2 ^ (53 + n))%Z -> (-1074 <= ex + n <= 970)%Z ->
  V * inject_Z Q == inject_Z P * (2 # 1) ^ ex ->
  exists m e, near (binary_round_aux 53 1024 false mx ex lx) V m e /\ (ex + n <= e <= ex + n + 1)%Z.
Proof.
  intros HQ Hr Hn Hm He HV. destruct (round_aux_spec mx ex lx P Q n HQ Hr Hn Hm He) as (N & m & e & E & HN & Herr & Hme).
  pose proof (Z.pow_pos_nonneg 2 n ltac:(lia) Hn) as Hpow.
  assert (Hval : dval m e == inject_Z N * (2 # 1) ^ (ex + n)).
  { unfold dval. destruct Hme as [(-> & _ & ->)|(Em & -> & ->)]; [reflexivity|]. rewrite Em.
    setoid_rewrite (pow2_add (ex + n) 1). change (inject_Z (2 ^ 53)) with (inject_Z (2 ^ 52) * (2 # 1)). change ((2 # 1) ^ 1) with (2 # 1). ring. }
  exists m, e. split; [|lia]. split; [done|]. split; [lia|]. setoid_rewrite Hval. apply (half_ulp N _ (Q * 2 ^ n) V P); try done; try lia.
  - apply pow2_pos.
  - setoid_rewrite inject_Z_mult. setoid_rewrite pow2_add. setoid_rewrite <- (pow2_Z n Hn). setoid_replace (V * (inject_Z Q * (2 # 1) ^ n)) with (V * inject_Z Q * (2 # 1) ^ n) by ring.
    setoid_rewrite HV. ring.
Qed.

Lemma shl_value p q : (Z.pos (Pos.iter xO p q) = Z.pos p * 2 ^ Z.pos q)%Z.
Proof.
  induction q as [|q IH] using Pos.peano_ind; [cbn; lia|]. rewrite Pos.iter_succ, Pos2Z.inj_xO, IH, Pos2Z.inj_succ, Z.pow_succ_r by lia. ring.
Qed.
Lemma repr_exact m : (0 <= m)%Z -> repr (shr_record_of_loc m loc_Exact) m 1.
Proof. intros Hm. apply repr_intro; [done | lia | |]; rewrite Z.mul_1_r, Z.sub_diag; split; intros; (discriminate || lia || tauto). Qed.

(** [static_cast<double>] of a positive 64-bit integer. *)
Lemma double_of_Z_near s : (0 < s < 2 ^ 63)%Z ->
  exists m e, near (double_of_Z s) (inject_Z s) m e /\ (-52 <= e <= 11)%Z.
Proof.
  intros Hs. destruct s as [|p|]; try lia. unfold double_of_Z, binary_normalize, binary_round.
  pose proof (digits2_bound p) as Hd. set (d := Z.pos (digits2_pos p)) in *. assert (Hd0 : (0 < d)%Z) by (unfold d; lia).
  assert (Hd63 : (d <= 63)%Z).
  { destruct (Z.le_gt_cases d 63) as [|Hgt]; [done|]. pose proof (Z.pow_le_mono_r 2 63 (d - 1) ltac:(lia) ltac:(lia)). lia. }
  rewrite Z.add_0_r. assert (Ef : fexp 53 1024 d = (d - 53)%Z) by (unfold fexp, emin; lia). rewrite Ef. unfold shl_align. rewrite Z.sub_0_r.
  destruct (d - 53)%Z as [|q|q] eqn:Eq.
  - destruct (round_aux_near (Z.pos p) 0 loc_Exact (Z.pos p) 1 0 (inject_Z (Z.pos p))) as (m & e & Hnear & He);
      [lia | apply repr_exact; lia | lia | replace d with 53%Z in Hd by lia; lia | lia | reflexivity |]. exists m, e. split; [done | lia].
  - destruct (round_aux_near (Z.pos p) 0 loc_Exact (Z.pos p) 1 (Z.pos q) (inject_Z (Z.pos p))) as (m & e & Hnear & He);
      [lia | apply repr_exact; lia | lia | replace (52 + Z.pos q)%Z with (d - 1)%Z by lia; replace (53 + Z.pos q)%Z with d by lia; lia | lia | reflexivity |].
    exists m, e. split; [done | lia].
  - destruct (round_aux_near (Z.pos (Pos.iter xO p q)) (Z.neg q) loc_Exact (Z.pos (Pos.iter xO p q)) 1 0 (inject_Z (Z.pos p))) as (m & e & Hnear & He);
      [lia | apply repr_exact; lia | lia | | lia | |].
    + rewrite shl_value, !Z.add_0_r. assert (E1 : (2 ^ 52 = 2 ^ (d - 1) * 2 ^ Z.pos q)%Z) by (rewrite <- Z.pow_add_r by lia; f_equal; lia).
      assert (E2 : (2 ^ 53 = 2 ^ d * 2 ^ Z.pos q)%Z) by (rewrite <- Z.pow_add_r by lia; f_equal; lia).
      pose proof (Z.pow_pos_nonneg 2 (Z.pos q) ltac:(lia) ltac:(lia)). rewrite E1, E2. split; [apply Z.mul_le_mono_nonneg_r; lia | apply Z.mul_lt_mono_pos_r; lia].
    + rewrite shl_value. setoid_rewrite inject_Z_mult. setoid_rewrite <- (pow2_Z (Z.pos q) ltac:(lia)).
      setoid_replace (inject_Z (Z.pos p) * (2 # 1) ^ Z.pos q * (2 # 1) ^ Z.neg q) with (inject_Z (Z.pos p) * ((2 # 1) ^ Z.pos q * (2 # 1) ^ Z.neg q)) by ring.
      setoid_rewrite <- pow2_add. replace (Z.pos q + Z.neg q)%Z with 0%Z by lia. reflexivity.
    + exists m, e. split; [done | lia].
Qed.

(** Division of two doubles with full mantissas and moderate exponents. *)
Lemma new_location_repr q r m2 : (0 < m2)%Z -> (0 <= q)%Z -> (0 <= r < m2)%Z -> repr (shr_record_of_loc q (new_location m2 r)) (q * m2 + r) m2.
Proof.
  intros Hm Hq Hr. unfold new_location, new_location_even, new_location_odd.
  assert (Hev : (Z.even m2 = true -> exists h, m2 = 2 * h)%Z) by (intros E; apply Z.even_spec in E as [h ->]; by exists h).
  assert (Hod : (Z.even m2 = false -> exists h, m2 = 2 * h + 1)%Z).
  { intros E. assert (Z.odd m2 = true) as [h ->]%Z.odd_spec by (rewrite <- Z.negb_even, E; done). by exists h. }
  destruct (Z.even m2) eqn:Ev, (Z.eqb_spec r 0) as [->|Hr0].
  - apply repr_intro; try lia; split; intros; (discriminate || lia).
  - destruct (Z.compare_spec (2 * r) m2); cbn [shr_record_of_loc]; apply repr_intro; try lia; split; intros; (discriminate || lia || done).
  - apply repr_intro; try lia; split; intros; (discriminate || lia).
  - destruct (Hod eq_refl) as [h Eh].
    destruct (Z.compare_spec (2 * r + 1) m2); cbn [shr_record_of_loc]; apply repr_intro; try lia; split; intros; (discriminate || lia || done).
Qed.

Lemma dval_pos m e : 0 < dval m e.
Proof. apply Qmult_lt_0_compat; [done | apply pow2_pos]. Qed.
Lemma div_core_full m1 e1 m2 e2 : (2 ^ 52 <= m1 < 2 ^ 53)%Z -> (2 ^ 52 <= m2 < 2 ^ 53)%Z -> (-1021 <= e1 - e2)%Z ->
  SFdiv_core_binary 53 1024 m1 e1 m2 e2 = (m1 * 2 ^ 53 / m2, e1 - e2 - 53, new_location m2 ((m1 * 2 ^ 53) mod m2))%Z.
Proof.
  intros H1 H2 He. unfold SFdiv_core_binary. rewrite !(Zdigits2_unique _ 53) by lia.
  replace (fexp 53 1024 (53 + e1 - (53 + e2))) with (e1 - e2 - 53)%Z by (unfold fexp, emin; lia).
  rewrite Z.min_l by lia. replace (e1 - e2 - (e1 - e2 - 53))%Z with 53%Z by lia. rewrite Z.shiftl_mul_pow2 by lia.
  unfold Z.div, Z.modulo. by destruct (Z.div_eucl (m1 * 2 ^ 53) m2).
Qed.
Lemma ddiv_near m1 e1 m2 e2 : (2 ^ 52 <= Z.pos m1 < 2 ^ 53)%Z -> (2 ^ 52 <= Z.pos m2 < 2 ^ 53)%Z -> (-1021 <= e1 - e2 <= 970)%Z ->
  exists m e, near (ddiv (S754_finite false m1 e1) (S754_finite false m2 e2)) (dval m1 e1 / dval m2 e2) m e /\ (e1 - e2 - 53 <= e <= e1 - e2 - 51)%Z.
Proof.
  intros H1 H2 He. unfold ddiv. cbn [SFdiv]. rewrite div_core_full by (done || lia). cbn [xorb].
  set (x := (Z.pos m1 * 2 ^ 53)%Z). assert (Hx : (0 < x)%Z) by (unfold x; lia).
  pose proof (Z.mod_pos_bound x (Z.pos m2) ltac:(lia)) as Hr. pose proof (Z.div_mod x (Z.pos m2) ltac:(lia)) as Hdm.
  set (q := (x / Z.pos m2)%Z) in *. set (r := (x mod Z.pos m2)%Z) in *.
  assert (Hq : (2 ^ 52 <= q < 2 ^ 54)%Z) by (unfold x in *; split; nia).
  assert (Hrepr : repr (shr_record_of_loc q (new_location (Z.pos m2) r)) x (Z.pos m2)).
  { replace x with (q * Z.pos m2 + r)%Z by lia. apply new_location_repr; lia. }
  assert (HV : dval m1 e1 / dval m2 e2 * inject_Z (Z.pos m2) == inject_Z x * (2 # 1) ^ (e1 - e2 - 53)).
  { pose proof (dval_pos m2 e2) as Hp2. apply (Qmult_inj_r _ _ (dval m2 e2)); [lra|].
    setoid_replace (dval m1 e1 / dval m2 e2 * inject_Z (Z.pos m2) * dval m2 e2) with (dval m1 e1 * inject_Z (Z.pos m2)) by (field; lra).
    assert (Ex : inject_Z x == inject_Z (Z.pos m1) * (2 # 1) ^ 53) by (unfold x; rewrite inject_Z_mult; reflexivity).
    unfold dval. setoid_rewrite Ex.
    setoid_replace (inject_Z (Z.pos m1) * (2 # 1) ^ 53 * (2 # 1) ^ (e1 - e2 - 53) * (inject_Z (Z.pos m2) * (2 # 1) ^ e2)) with (inject_Z (Z.pos m1) * inject_Z (Z.pos m2) * ((2 # 1) ^ 53 * (2 # 1) ^ (e1 - e2 - 53) * (2 # 1) ^ e2)) by ring.
    assert (Ep : (2 # 1) ^ 53 * (2 # 1) ^ (e1 - e2 - 53) * (2 # 1) ^ e2 == (2 # 1) ^ e1).
    { rewrite <- (pow2_add 53 (e1 - e2 - 53)), <- (pow2_add _ e2). replace (53 + (e1 - e2 - 53) + e2)%Z with e1 by lia. reflexivity. }
    setoid_rewrite Ep. ring. }
  destruct (Z.lt_ge_cases q (2 ^ 53)) as [Hlt|Hge].
  - destruct (round_aux_near q (e1 - e2 - 53) _ x (Z.pos m2) 0 _ ltac:(lia) Hrepr ltac:(lia) ltac:(lia) ltac:(lia) HV) as (m & e & Hn & He'). exists m, e. split; [done | lia].
  - destruct (round_aux_near q (e1 - e2 - 53) _ x (Z.pos m2) 1 _ ltac:(lia) Hrepr ltac:(lia) ltac:(lia) ltac:(lia) HV) as (m & e & Hn & He'). exists m, e. split; [done | lia].
Qed.

(** ** An integer divided by an integer that a double holds exactly *)
Definition exact (D : Z) : Prop := (0 < D)%Z /\
  exists m e, double_of_Z D = S754_finite false m e /\ (2 ^ 52 <= Z.pos m < 2 ^ 53)%Z /\ (-52 <= e <= 11)%Z /\ dval m e == inject_Z D.

Lemma quot_near s D : (0 < s < 2 ^ 63)%Z -> exact D ->
  exists m e, ddiv (double_of_Z s) (double_of_Z D) = S754_finite false m e /\ (-116 <= e <= 12)%Z /\
    Qabs (dval m e * inject_Z D - inject_Z s) <= (1 # 2251799813685248) * inject_Z s.
Proof.
  intros Hs (HD & m2 & e2 & E2 & Hm2 & He2 & HvD). destruct (double_of_Z_near s Hs) as (m1 & e1 & (E1 & Hm1 & Hn1) & He1).
  rewrite E1, E2. destruct (ddiv_near m1 e1 m2 e2 Hm1 Hm2 ltac:(lia)) as (m & e & (E & Hm & Hn) & He).
  exists m, e. split; [done|]. split; [lia|].
  assert (HDQ : 0 < inject_Z D) by (change 0 with (inject_Z 0); rewrite <- Zlt_Qlt; done).
  pose proof (dval_pos m e) as Hv. pose proof (dval_pos m1 e1) as Hv1. apply Qabs_Qle_condition in Hn, Hn1.
  assert (Hq : dval m1 e1 / dval m2 e2 * inject_Z D == dval m1 e1) by (setoid_rewrite HvD; field; lra).
  set (v := dval m e) in *. set (v1 := dval m1 e1) in *. set (V := v1 / dval m2 e2) in *. destruct Hn as [Hl Hu].
  apply (Qmult_le_compat_r _ _ (inject_Z D)) in Hl, Hu; [|lra..].
  assert (Hl' : - (ulp53 * (v * inject_Z D)) <= v * inject_Z D - v1) by (setoid_rewrite <- Hq; lra).
  assert (Hu' : v * inject_Z D - v1 <= ulp53 * (v * inject_Z D)) by (setoid_rewrite <- Hq; lra).
  assert (Hw : 0 < v * inject_Z D) by (by apply Qmult_lt_0_compat).
  clear Hl Hu Hq. clearbody v v1. set (w := v * inject_Z D) in *. clearbody w. apply Qabs_Qle_condition. unfold ulp53 in *. lra.
Qed.

(** Rounding a fraction to the nearest integer, ties to even. *)
Definition round_half_even (num den : Z) : Z :=
  (let q := num / den in let r := num mod den in
   if 2 * r <? den then q else if den <? 2 * r then q + 1 else if Z.even q then q else q + 1)%Z.
Lemma round_half_even_near num den : (0 < den)%Z -> (2 * Z.abs (round_half_even num den * den - num) <= den)%Z.
Proof.
  intros Hd. unfold round_half_even. pose proof (Z.div_mod num den ltac:(lia)) as E. pose proof (Z.mod_pos_bound num den Hd) as Hr.
  set (q := (num / den)%Z) in *. set (r := (num mod den)%Z) in *.
  assert (E1 : (q * den - num = - r)%Z) by lia. assert (E2 : ((q + 1) * den - num = den - r)%Z) by lia.
  repeat case_match; rewrite ?E1, ?E2; lia.
Qed.

(** The digits of the quotient after [p] decimals: [N] is its nearest multiple of 10^-p,
    up to the rounding of the conversion and of the division. *)
Definition scaled (m : positive) (e p : Z) : Z :=
  (if 0 <=? e then Z.pos m * 2 ^ e * 10 ^ p else round_half_even (Z.pos m * 10 ^ p) (2 ^ (- e)))%Z.
Lemma scaled_near m e p : (0 <= p)%Z -> Qabs (inject_Z (scaled m e p) - dval m e * inject_Z (10 ^ p)) <= 1 # 2.
Proof.
  intros Hp. unfold scaled, dval. destruct (Z.leb_spec 0 e) as [He|He].
  - rewrite !inject_Z_mult. setoid_rewrite (pow2_Z e He). apply Qabs_Qle_condition. lra.
  - set (num := (Z.pos m * 10 ^ p)%Z). set (den := (2 ^ (- e))%Z). assert (Hd : (0 < den)%Z) by (apply Z.pow_pos_nonneg; lia).
    pose proof (round_half_even_near num den Hd) as Hr. set (N := round_half_even num den) in *.
    assert (HdQ : 0 < inject_Z den) by (change 0 with (inject_Z 0); rewrite <- Zlt_Qlt; done).
    assert (Ed : (2 # 1) ^ e * inject_Z den == 1).
    { unfold den. rewrite <- (pow2_Z (- e) ltac:(lia)), <- (pow2_add e (- e)). by rewrite Z.add_opp_diag_r. }
    assert (En : inject_Z (Z.pos m) * (2 # 1) ^ e * inject_Z (10 ^ p) * inject_Z den == inject_Z num).
    { unfold num. rewrite inject_Z_mult. setoid_replace (inject_Z (Z.pos m) * (2 # 1) ^ e * inject_Z (10 ^ p) * inject_Z den) with (inject_Z (Z.pos m) * inject_Z (10 ^ p) * ((2 # 1) ^ e * inject_Z den)) by ring.
      setoid_rewrite Ed. ring. }
    assert (Hz : (- den <= 2 * (N * den - num) <= den)%Z) by lia. destruct Hz as [Hzl Hzu].
    rewrite Zle_Qle in Hzl, Hzu. unfold Z.sub in Hzl, Hzu. rewrite !inject_Z_mult, !inject_Z_plus, !inject_Z_mult, inject_Z_opp in Hzu. rewrite !inject_Z_mult, !inject_Z_plus, !inject_Z_mult, !inject_Z_opp in Hzl.
    change (inject_Z 2) with (2 # 1) in *. set (X := inject_Z (Z.pos m) * (2 # 1) ^ e * inject_Z (10 ^ p)) in *.
    apply Qabs_Qle_condition. split; apply (Qmult_lt_0_le_reg_r _ _ (inject_Z den) HdQ);
      setoid_replace ((inject_Z N - X) * inject_Z den) with (inject_Z N * inject_Z den - X * inject_Z den) by ring; setoid_rewrite En; lra.
Qed.

Lemma quot_scaled s D p : (0 < s < 2 ^ 63)%Z -> exact D -> (0 <= p)%Z ->
  exists m e, ddiv (double_of_Z s) (double_of_Z D) = S754_finite false m e /\
    (2 ^ 52 * Z.abs (scaled m e p * D - s * 10 ^ p) <= 2 ^ 51 * D + 2 * (s * 10 ^ p))%Z.
Proof.
  intros Hs HD Hp. destruct (quot_near s D Hs HD) as (m & e & E & _ & Hn). exists m, e. split; [done|].
  pose proof (scaled_near m e p Hp) as Hsc. set (N := scaled m e p) in *. destruct HD as [HD _].
  apply Qabs_Qle_condition in Hn, Hsc. destruct Hn as [Hn1 Hn2], Hsc as [Hs1 Hs2].
  assert (HDQ : 0 <= inject_Z D) by (change 0 with (inject_Z 0); rewrite <- Zle_Qle; lia).
  assert (HpQ : 0 <= inject_Z (10 ^ p)) by (change 0 with (inject_Z 0); rewrite <- Zle_Qle; lia).
  apply (Qmult_le_compat_r _ _ (inject_Z D)) in Hs1, Hs2; [|done..]. apply (Qmult_le_compat_r _ _ (inject_Z (10 ^ p))) in Hn1, Hn2; [|done..].
  set (v := dval m e) in *. set (d := inject_Z D) in *. set (t := inject_Z (10 ^ p)) in *. set (x := inject_Z s) in *.
  assert (Hl : - (2251799813685248 # 1) * d - (2 # 1) * (x * t) <= (4503599627370496 # 1) * (inject_Z N * d - x * t)) by lra.
  assert (Hu : (4503599627370496 # 1) * (inject_Z N * d - x * t) <= (2251799813685248 # 1) * d + (2 # 1) * (x * t)) by lra.
  assert (Hzl : (- (2251799813685248 * D + 2 * (s * 10 ^ p)) <= 4503599627370496 * (N * D - s * 10 ^ p))%Z).
  { rewrite Zle_Qle. unfold Z.sub. rewrite !inject_Z_opp, !inject_Z_mult, !inject_Z_plus, !inject_Z_opp, !inject_Z_mult. fold d t x. 
    change (inject_Z 2251799813685248) with (2251799813685248 # 1). change (inject_Z 4503599627370496) with (4503599627370496 # 1). change (inject_Z 2) with (2 # 1). lra. }
  assert (Hzu : (4503599627370496 * (N * D - s * 10 ^ p) <= 2251799813685248 * D + 2 * (s * 10 ^ p))%Z).
  { rewrite Zle_Qle. unfold Z.sub. rewrite !inject_Z_mult, !inject_Z_plus, !inject_Z_opp, !inject_Z_mult. fold d t x. 
    change (inject_Z 2251799813685248) with (2251799813685248 # 1). change (inject_Z 4503599627370496) with (4503599627370496 # 1). change (inject_Z 2) with (2 # 1). lra. }
  lia.
Qed.
