(* ===== verification/Calendar.v ===== *)
(** * Calendar dates ([Timestamp::ToFormattedString] of src/src/unix/Time.cc)

    gmtime_r and the formats of printf and strftime that the code uses.  [gmtime]
    counts in years that begin in March, so that the leap day comes last; [days_of] is
    the Gregorian calendar as it is defined, month by month, and shows that the
    fields are right. *)
From S2P Require Import Prelude LogStream CString Time.

(** ** The calendar *)
Definition is_leap (y : Z) : bool := (y mod 4 =? 0) && (negb (y mod 100 =? 0) || (y mod 400 =? 0)).
Definition month_days : list Z := [31; 28; 31; 30; 31; 30; 31; 31; 30; 31; 30; 31].
(** Days from 1 January to the first of month [m] (1..12). *)
Definition month_offset (y m : Z) : Z :=
  foldr Z.add 0 (ztake (m - 1) month_days) + (if (2 <? m) && is_leap y then 1 else 0).
(** Days from 1 January of the year 1 to 1 January of [y]. *)
Definition days_before_year (y : Z) : Z := 365 * (y - 1) + (y - 1) / 4 - (y - 1) / 100 + (y - 1) / 400.
(** Days from 1970-01-01 to the date. *)
Definition days_of (y m d : Z) : Z := days_before_year y - days_before_year 1970 + month_offset y m + d - 1.

(** ** gmtime_r *)
Record tm : Type := mkTm {
  tm_year : Z;         (** years since 1900 *)
  tm_mon : Z;          (** 0..11 *)
  tm_mday : Z;         (** 1..31 *)
  tm_hour : Z;
  tm_min : Z;
  tm_sec : Z;
}.
(** Month (1..12) and day of the [doy]th day since 1 March. *)
Definition month_of (doy : Z) : Z := let mp := (5 * doy + 2) / 153 in if mp <? 10 then mp + 3 else mp - 9.
Definition mday_of (doy : Z) : Z := doy - (153 * ((5 * doy + 2) / 153) + 2) / 5 + 1.
(** Day [z] since 1970-01-01: 719468 days lie between it and 1 March of the year 0;
    400 years have 146097 days, 100 years 36524 or one more, 4 years 1461. *)
Definition civil (z : Z) : Z * Z * Z :=
  let z := z + 719468 in
  let era := z / 146097 in
  let doe := z mod 146097 in
  let c := Z.min (doe / 36524) 3 in
  let doc := doe - c * 36524 in
  let q := doc / 1461 in
  let doq := doc - q * 1461 in
  let r := Z.min (doq / 365) 3 in
  let doy := doq - r * 365 in
  let y := 400 * era + 100 * c + 4 * q + r in
  let m := month_of doy in
  (if m <=? 2 then y + 1 else y, m, mday_of doy).
Definition gmtime (t : Z) : tm :=
  let days := t / 86400 in
  let secs := t mod 86400 in
  let '(y, m, d) := civil days in
  mkTm (y - 1900) (m - 1) d (secs / 3600) (secs / 60 mod 60) (secs mod 60).

(** ** Formats *)
(** [%0<w>d] and [%<w>d]. *)
Definition fmt0 (w : Z) (v : Z) : outcome (list byte) := s ← Convert v; Ok (pad0 w s).
Definition fmt_sp (w : Z) (v : Z) : outcome (list byte) :=
  s ← Convert v; Ok (replicate (Z.to_nat (w - zlen s)) Byte.x20 ++ s).

(** "%4d%02d%02d %02d:%02d:%02d" of the fields. *)
Definition date_text (tmTime : tm) : outcome (list byte) :=
  y ← fmt_sp 4 (tm_year tmTime + 1900);
  mo ← fmt0 2 (tm_mon tmTime + 1);
  d ← fmt0 2 (tm_mday tmTime);
  h ← fmt0 2 (tm_hour tmTime);
  mi ← fmt0 2 (tm_min tmTime);
  s ← fmt0 2 (tm_sec tmTime);
  Ok (y ++ mo ++ d ++ chars " " ++ h ++ chars ":" ++ mi ++ chars ":" ++ s).

Definition ToFormattedString (showMicroseconds : bool) (t : Timestamp) : outcome (list byte) :=
  let seconds := Z.quot t kMicroSecondsPerSecond in
  let tmTime := gmtime seconds in
  date ← date_text tmTime;
  if showMicroseconds then
    u ← fmt0 6 (Z.rem t kMicroSecondsPerSecond);
    Ok (ztake 63 (date ++ chars "." ++ u))
  else Ok (ztake 63 date).

(** strftime with the format ".%Y%m%d-%H%M%S." of the log files, in a buffer of 32
    characters. *)
Definition strftime_log (t : Z) : outcome (list byte) :=
  let tm := gmtime t in
  y ← Convert (tm_year tm + 1900);
  mo ← fmt0 2 (tm_mon tm + 1);
  d ← fmt0 2 (tm_mday tm);
  h ← fmt0 2 (tm_hour tm);
  mi ← fmt0 2 (tm_min tm);
  s ← fmt0 2 (tm_sec tm);
  Ok (ztake 31 (chars "." ++ y ++ mo ++ d ++ chars "-" ++ h ++ mi ++ s ++ chars ".")).

(** ** gmtime is right *)
(** Linear arithmetic with division by constants. *)
Ltac dlia := Z.to_euclidean_division_equations; lia.

Lemma div_pred y n : 0 < n -> y / n - (y - 1) / n = if y mod n =? 0 then 1 else 0.
Proof.
  intros Hn. pose proof (Z.div_mod y n ltac:(lia)) as E. pose proof (Z.mod_pos_bound y n Hn).
  destruct (Z.eqb_spec (y mod n) 0) as [E0|E0].
  - assert ((y - 1) / n = y / n - 1); [|lia]. symmetry. apply (Z.div_unique _ _ _ (n - 1)); lia.
  - assert ((y - 1) / n = y / n); [|lia]. symmetry. apply (Z.div_unique _ _ _ (y mod n - 1)); lia.
Qed.
Lemma days_before_succ y : days_before_year (y + 1) = days_before_year y + 365 + (if is_leap y then 1 else 0).
Proof.
  unfold days_before_year, is_leap. replace (y + 1 - 1) with y by lia.
  pose proof (div_pred y 4 ltac:(lia)). pose proof (div_pred y 100 ltac:(lia)). pose proof (div_pred y 400 ltac:(lia)).
  assert (y mod 100 = 0 -> y mod 4 = 0) by dlia. assert (y mod 400 = 0 -> y mod 100 = 0) by dlia.
  generalize dependent (y / 4). generalize dependent (y / 100). generalize dependent (y / 400). intros.
  destruct (Z.eqb_spec (y mod 4) 0), (Z.eqb_spec (y mod 100) 0), (Z.eqb_spec (y mod 400) 0); cbn [andb orb negb] in *; lia.
Qed.

(** All days of a year that begins in March. *)
Definition doy_ok (doy : Z) : bool :=
  let m := month_of doy in let d := mday_of doy in
  (1 <=? m) && (m <=? 12) && (1 <=? d) && (d <=? 31) && Bool.eqb (m <=? 2) (306 <=? doy) &&
  (foldr Z.add 0 (ztake (m - 1) month_days) + d - 1 =? if m <=? 2 then doy - 306 else doy + 59).
Lemma doy_all doy : 0 <= doy <= 365 -> doy_ok doy = true.
Proof.
  intros H. assert (Hall : forallb (fun n => doy_ok (Z.of_nat n)) (seq 0 366) = true) by (vm_compute; reflexivity).
  rewrite forallb_forall in Hall. rewrite <- (Z2Nat.id doy) by lia. apply Hall. apply in_seq. lia.
Qed.

Lemma civil_spec z : let '(y, m, d) := civil z in
  days_of y m d = z /\ 1 <= m <= 12 /\ 1 <= d <= 31 /\ (0 <= z < 2932897 -> 1970 <= y <= 9999).
Proof.
  unfold civil. set (w := z + 719468). set (era := w / 146097). set (doe := w mod 146097).
  set (c := Z.min (doe / 36524) 3). set (doc := doe - c * 36524). set (q := doc / 1461). set (doq := doc - q * 1461).
  set (r := Z.min (doq / 365) 3). set (doy := doq - r * 365). set (y := 400 * era + 100 * c + 4 * q + r).
  assert (Hw : w = 146097 * era + doe /\ 0 <= doe < 146097) by (unfold era, doe; dlia).
  assert (Hc : 0 <= c <= 3 /\ 0 <= doc <= 36524 /\ (doc = 36524 -> c = 3)) by (unfold doc, c; dlia).
  assert (Hq : 0 <= q <= 24 /\ 0 <= doq <= 1460) by (unfold doq, q; dlia).
  assert (Hr : 0 <= r <= 3 /\ 0 <= doy <= 365) by (unfold doy, r; dlia).
  assert (Hy : days_before_year (y + 1) = 365 * y + (100 * era + 25 * c + q) - (4 * era + c) + era).
  { unfold days_before_year. replace (y + 1 - 1) with y by lia. unfold y. clearbody era c q r. clear -Hc Hq Hr. dlia. }
  pose proof (doy_all doy ltac:(lia)) as Hok. unfold doy_ok in Hok.
  set (m := month_of doy) in *. set (d := mday_of doy) in *.
  apply andb_true_iff in Hok as [Hok Hsum]. apply Z.eqb_eq in Hsum.
  rewrite !andb_true_iff, !Z.leb_le, eqb_true_iff in Hok. destruct Hok as [[[[? ?] ?] ?] Hmd].
  unfold days_of, month_offset. change (days_before_year 1970) with 719162.
  assert (Hz : z = 365 * y + (100 * era + 25 * c + q) - (4 * era + c) + era + doy - 719468) by (unfold y, doy, doq, doc in *; lia).
  clearbody era c q r doy m d.
  destruct (Z.leb_spec m 2) as [Hm|Hm]; destruct (Z.ltb_spec 2 m); try lia; cbn [andb];
    destruct (Z.leb_spec 306 doy); try discriminate Hmd.
  - split_and!; try lia.
  - rewrite days_before_succ in Hy. split_and!; try lia.
Qed.

(** The instant the fields stand for. *)
Definition instant (x : tm) : Z :=
  days_of (tm_year x + 1900) (tm_mon x + 1) (tm_mday x) * 86400 + tm_hour x * 3600 + tm_min x * 60 + tm_sec x.
Lemma gmtime_spec t : let x := gmtime t in
  instant x = t /\ 0 <= tm_mon x <= 11 /\ 1 <= tm_mday x <= 31 /\ 0 <= tm_hour x < 24 /\ 0 <= tm_min x < 60 /\
  0 <= tm_sec x < 60.
Proof.
  unfold gmtime, instant. pose proof (civil_spec (t / 86400)) as Hc. destruct (civil (t / 86400)) as [[y m] d].
  destruct Hc as (Hd & Hm & Hmd & _). cbn. replace (y - 1900 + 1900) with y by lia. replace (m - 1 + 1) with m by lia.
  rewrite Hd. pose proof (Z.div_mod t 86400 ltac:(lia)) as Et. pose proof (Z.mod_pos_bound t 86400 ltac:(lia)) as Hs.
  generalize dependent (t mod 86400). intros s Et Hs. clear Hd. generalize dependent (t / 86400). intros. dlia.
Qed.

(** The first second whose year has five digits. *)
Definition year_10000 : Z := 253402300800.
Lemma gmtime_year t : 0 <= t < year_10000 -> 1970 <= tm_year (gmtime t) + 1900 <= 9999.
Proof.
  unfold year_10000. intros Ht. unfold gmtime. pose proof (civil_spec (t / 86400)) as Hc.
  destruct (civil (t / 86400)) as [[y m] d]. destruct Hc as (_ & _ & _ & Hy). cbn.
  assert (0 <= t / 86400 < 2932897) by (split; [|apply Z.div_lt_upper_bound]; dlia). specialize (Hy H). lia.
Qed.

(** ** The text determines the instant *)
Lemma fmt0_Ok (k : nat) v : (0 < k <= 20)%nat -> 0 <= v < 10 ^ Z.of_nat k ->
  exists s, fmt0 (Z.of_nat k) v = Ok s /\ zlen s = Z.of_nat k /\ dec_nat s = v.
Proof.
  intros Hk Hv. destruct (Convert_nonneg k v) as (s & E & Hc & Hl & Hd); [done..|]. unfold fmt0. rewrite E.
  cbn [mbind outcome_bind]. rewrite pad0_canonical by done. eexists. split; [done|].
  rewrite zlen_app, zlen_replicate, dec_nat_zeros. split; [lia | done].
Qed.
(** A numeral of four digits fills its field. *)
Lemma Convert_year y : 1970 <= y <= 9999 -> exists s, Convert y = Ok s /\ zlen s = 4 /\ dec_nat s = y.
Proof.
  intros Hy. destruct (Convert_nonneg 4 y) as (s & E & Hc & Hl & Hd); [lia | lia |]. exists s. split_and!; try done.
  destruct (Z.le_gt_cases (zlen s) 3) as [Hlt|]; [exfalso | lia].
  assert (dec_nat s < 10 ^ 3); [|lia]. destruct Hc as (_ & Hdig & _). clear -Hlt Hdig.
  assert (Hb : forall u, Forall is_digit u -> 0 <= dec_nat u < 10 ^ zlen u).
  { induction u as [|c u IH] using rev_ind; intros Hf; [done|]. apply Forall_app in Hf as [Hf Hc].
    inversion Hc as [|? ? Hd _]; subst. unfold is_digit in Hd. specialize (IH Hf). rewrite dec_nat_app, zlen_app.
    change (zlen [c]) with 1. change (dec_nat [c]) with (10 * 0 + digit_of c).
    rewrite Z.pow_add_r by (lia || apply zlen_nonneg). lia. }
  specialize (Hb s Hdig). pose proof (Z.pow_le_mono_r 10 (zlen s) 3 ltac:(lia) Hlt). lia.
Qed.

(** The fields of an instant as text. *)
Record fields (x : tm) (y mo d h mi s : list byte) : Prop := {
  f_year : zlen y = 4 /\ dec_nat y = tm_year x + 1900;
  f_mon : zlen mo = 2 /\ dec_nat mo = tm_mon x + 1;
  f_mday : zlen d = 2 /\ dec_nat d = tm_mday x;
  f_hour : zlen h = 2 /\ dec_nat h = tm_hour x;
  f_min : zlen mi = 2 /\ dec_nat mi = tm_min x;
  f_sec : zlen s = 2 /\ dec_nat s = tm_sec x;
}.
Lemma fields_Ok t : 0 <= t < year_10000 -> let x := gmtime t in
  exists y mo d h mi s, fields x y mo d h mi s /\ Convert (tm_year x + 1900) = Ok y /\ fmt0 2 (tm_mon x + 1) = Ok mo /\
    fmt0 2 (tm_mday x) = Ok d /\ fmt0 2 (tm_hour x) = Ok h /\ fmt0 2 (tm_min x) = Ok mi /\ fmt0 2 (tm_sec x) = Ok s.
Proof.
  intros Ht. cbv zeta. pose proof (gmtime_spec t) as (_ & Hmo & Hd & Hh & Hmi & Hs). pose proof (gmtime_year t Ht) as Hy.
  generalize dependent (gmtime t). intros x Hmo Hd Hh Hmi Hs Hy.
  destruct (Convert_year _ Hy) as (y & ? & ? & ?).
  destruct (fmt0_Ok 2 (tm_mon x + 1)) as (mo & ? & ? & ?); [lia | cbn; lia |].
  destruct (fmt0_Ok 2 (tm_mday x)) as (d & ? & ? & ?); [lia | cbn; lia |].
  destruct (fmt0_Ok 2 (tm_hour x)) as (h & ? & ? & ?); [lia | cbn; lia |].
  destruct (fmt0_Ok 2 (tm_min x)) as (mi & ? & ? & ?); [lia | cbn; lia |].
  destruct (fmt0_Ok 2 (tm_sec x)) as (s & ? & ? & ?); [lia | cbn; lia |].
  exists y, mo, d, h, mi, s. split; [by split|]. by split_and!.
Qed.
Lemma date_text_Ok t : 0 <= t < year_10000 -> exists y mo d h mi s, fields (gmtime t) y mo d h mi s /\
  date_text (gmtime t) = Ok (y ++ mo ++ d ++ chars " " ++ h ++ chars ":" ++ mi ++ chars ":" ++ s).
Proof.
  intros Ht. destruct (fields_Ok t Ht) as (y & mo & d & h & mi & s & Hf & Ey & Emo & Ed & Eh & Emi & Es).
  exists y, mo, d, h, mi, s. split; [done|]. destruct Hf as [[Ly _] _ _ _ _ _]. unfold date_text, fmt_sp.
  rewrite Ey, Emo, Ed, Eh, Emi, Es. cbn [mbind outcome_bind]. rewrite Ly.
  change (replicate (Z.to_nat (4 - 4)) Byte.x20 ++ y) with y. done.
Qed.
Lemma fmt0_no_nul w v s : fmt0 w v = Ok s -> no_nul s.
Proof.
  unfold fmt0, pad0, no_nul. intros E. inv_ok. apply Convert_no_nul in E0. unfold no_nul in E0.
  assert (Hz : forall k, Byte.x00 ∉ replicate k Byte.x30) by (intros k; rewrite elem_of_replicate; by intros [? _]).
  destruct a as [|c a]; [apply Hz|]. pose proof (Hz (Z.to_nat (w - zlen (c :: a)))). case_decide; set_solver.
Qed.
Lemma fmt_sp_no_nul w v s : fmt_sp w v = Ok s -> no_nul s.
Proof.
  unfold fmt_sp. intros E. inv_ok. apply Convert_no_nul in E0. apply no_nul_app. split; [|done].
  unfold no_nul. rewrite elem_of_replicate. by intros [? _].
Qed.
Lemma date_text_no_nul x s : date_text x = Ok s -> no_nul s.
Proof.
  unfold date_text. intros E. inv_ok. rewrite !no_nul_app, ?no_nul_cons, ?no_nul_app, ?no_nul_cons, ?no_nul_app, ?no_nul_cons.
  split_and!; eauto using fmt0_no_nul, fmt_sp_no_nul; done.
Qed.
Definition text_instant (y mo d h mi s : list byte) : Z :=
  days_of (dec_nat y) (dec_nat mo) (dec_nat d) * 86400 + dec_nat h * 3600 + dec_nat mi * 60 + dec_nat s.
Lemma fields_text x y mo d h mi s : fields x y mo d h mi s -> text_instant y mo d h mi s = instant x.
Proof. intros [[_ Hy] [_ Hmo] [_ Hd] [_ Hh] [_ Hmi] [_ Hs]]. unfold text_instant, instant. congruence. Qed.
Lemma gmtime_instant t : instant (gmtime t) = t.
Proof. exact (proj1 (gmtime_spec t)). Qed.
Lemma fields_instant t y mo d h mi s : fields (gmtime t) y mo d h mi s -> text_instant y mo d h mi s = t.
Proof. intros H. rewrite (fields_text _ _ _ _ _ _ _ H). apply gmtime_instant. Qed.

(** [ToFormattedString] prints the right date.  For every time from 1970 to the
    year 9999 the text has the fixed layout "yyyymmdd hh:mm:ss.uuuuuu", nothing is cut
    off, and reading the six date fields with the Gregorian calendar and adding the
    microseconds gives the time stamp back. *)
Theorem ToFormattedString_date t :
  0 <= t < year_10000 * kMicroSecondsPerSecond ->
  exists y mo d h mi s u,
    ToFormattedString true t = Ok (y ++ mo ++ d ++ chars " " ++ h ++ chars ":" ++ mi ++ chars ":" ++ s ++ chars "." ++ u) /\
    zlen y = 4 /\ zlen mo = 2 /\ zlen d = 2 /\ zlen h = 2 /\ zlen mi = 2 /\ zlen s = 2 /\ zlen u = 6 /\
    text_instant y mo d h mi s * kMicroSecondsPerSecond + dec_nat u = t.
Proof.
  unfold kMicroSecondsPerSecond. change (1000 * 1000) with 1000000. intros Ht.
  assert (Hq : 0 <= Z.quot t 1000000 < year_10000).
  { rewrite Z.quot_div_nonneg by lia. split; [apply Z.div_pos; lia | apply Z.div_lt_upper_bound; lia]. }
  destruct (date_text_Ok _ Hq) as (y & mo & d & h & mi & s & Hf & Edate).
  destruct (fmt0_Ok 6 (Z.rem t 1000000)) as (u & Eu & Lu & Du).
  { lia. } { rewrite Z.rem_mod_nonneg by lia. pose proof (Z.mod_pos_bound t 1000000 ltac:(lia)). cbn. lia. }
  exists y, mo, d, h, mi, s, u. rewrite (fields_instant _ _ _ _ _ _ _ Hf). destruct Hf as [[Ly _] [Lmo _] [Ld _] [Lh _] [Lmi _] [Ls _]].
  split; [|split_and!; try done; rewrite Du; symmetry; rewrite Z.mul_comm; apply Z.quot_rem; lia].
  unfold ToFormattedString, kMicroSecondsPerSecond. change (1000 * 1000) with 1000000.
  rewrite Edate. cbn [mbind outcome_bind]. change (Z.of_nat 6) with 6 in Eu. rewrite Eu. cbn [mbind outcome_bind]. rewrite ztake_all.
  - by rewrite <- !app_assoc.
  - rewrite !zlen_app, Ly, Lmo, Ld, Lh, Lmi, Ls, Lu.
    change (zlen (chars " ")) with 1. change (zlen (chars ":")) with 1. change (zlen (chars ".")) with 1. lia.
Qed.
Lemma ToFormattedString_date_witness :
  ToFormattedString true 1660000000000042 = Ok (chars "20220808 23:06:40.000042") /\
  exists y mo d h mi s u,
    ToFormattedString true 1660000000000042 =
      Ok (y ++ mo ++ d ++ chars " " ++ h ++ chars ":" ++ mi ++ chars ":" ++ s ++ chars "." ++ u) /\
    text_instant y mo d h mi s * kMicroSecondsPerSecond + dec_nat u = 1660000000000042.
Proof.
  split; [vm_compute; reflexivity|].
  destruct (ToFormattedString_date 1660000000000042) as (y & mo & d & h & mi & s & u & E & _ & _ & _ & _ & _ & _ & _ & H);
    [unfold year_10000, kMicroSecondsPerSecond; lia|].
  exists y, mo, d, h, mi, s, u. split; [exact E | exact H].
Defined.

(** Splitting a text at a known length. *)
Lemma app_inj_zlen {A} (a b c d : list A) : zlen a = zlen c -> a ++ b = c ++ d -> a = c /\ b = d.
Proof. unfold zlen. intros Hl E. apply app_inj_1 in E; [done | lia]. Qed.

Lemma strftime_log_Ok t : 0 <= t < year_10000 -> exists y mo d h mi s,
  strftime_log t = Ok (chars "." ++ y ++ mo ++ d ++ chars "-" ++ h ++ mi ++ s ++ chars ".") /\ fields (gmtime t) y mo d h mi s.
Proof.
  intros Ht. destruct (fields_Ok t Ht) as (y & mo & d & h & mi & s & Hf & Ey & Emo & Ed & Eh & Emi & Es).
  exists y, mo, d, h, mi, s. split; [|done]. unfold strftime_log. rewrite Ey, Emo, Ed, Eh, Emi, Es. cbn [mbind outcome_bind].
  rewrite ztake_all; [done|]. destruct Hf as [[Ly _] [Lmo _] [Ld _] [Lh _] [Lmi _] [Ls _]].
  rewrite !zlen_app, Ly, Lmo, Ld, Lh, Lmi, Ls. change (zlen (chars ".")) with 1. change (zlen (chars "-")) with 1. lia.
Qed.
(** Different seconds have different texts. *)
Lemma strftime_log_inj t t' x : 0 <= t < year_10000 -> 0 <= t' < year_10000 ->
  strftime_log t = Ok x -> strftime_log t' = Ok x -> t = t'.
Proof.
  intros Ht Ht' E E'. destruct (strftime_log_Ok t Ht) as (y & mo & d & h & mi & s & F & Hf).
  destruct (strftime_log_Ok t' Ht') as (y' & mo' & d' & h' & mi' & s' & F' & Hf').
  rewrite E in F. rewrite E' in F'. injection F as ->. injection F' as EQ.
  pose proof (fields_instant _ _ _ _ _ _ _ Hf) as <-. pose proof (fields_instant _ _ _ _ _ _ _ Hf') as <-.
  destruct Hf as [[Ly _] [Lmo _] [Ld _] [Lh _] [Lmi _] [Ls _]], Hf' as [[Ly' _] [Lmo' _] [Ld' _] [Lh' _] [Lmi' _] [Ls' _]].
  apply app_inj_zlen in EQ as [<- EQ]; [|congruence]. apply app_inj_zlen in EQ as [<- EQ]; [|congruence].
  apply app_inj_zlen in EQ as [<- EQ]; [|congruence]. injection EQ as EQ.
  apply app_inj_zlen in EQ as [<- EQ]; [|congruence]. apply app_inj_zlen in EQ as [<- EQ]; [|congruence].
  by apply app_inj_zlen in EQ as [<- _]; [|congruence].
Qed.
