(* ===== verification/FormatSize.v ===== *)
(** * Quantities in SI and IEC units (FormatSi and FormatIec of src/src/log/LogStream.cc)

    Both convert the quantity to [double], divide it by a power of 1000 or 1024 and
    print the quotient with [%.2f], [%.1f] or [%.0f].  The conversion, the division and
    the product are those of IEEE binary64 (Time.v, Float.v); [%.pf] prints the exact
    value of the double rounded to [p] decimals, ties to even.  The quotients are below
    2^63, so the numerals of the whole part are 64-bit. *)
From S2P Require Import Prelude LogStream CString Time Float Calendar.
Open Scope Z_scope.

(** ** [%.pf] *)
Definition fixed (p N : Z) : outcome (list byte) :=
  ip ← Convert (N / 10 ^ p);
  if p =? 0 then Ok ip else fp ← fmt0 p (N mod 10 ^ p); Ok (ip ++ chars "." ++ fp).
Definition signed (neg : bool) (s : list byte) : list byte := if neg then Byte.x2d :: s else s.
Definition fmt_f (p : Z) (d : double) : outcome (list byte) :=
  match d with
  | S754_zero neg => s ← fixed p 0; Ok (signed neg s)
  | S754_finite neg m e => s ← fixed p (scaled m e p); Ok (signed neg s)
  | S754_infinity neg => Ok (signed neg (chars "inf"))
  | S754_nan => Ok (chars "nan")
  end.

(** [snprintf(buf, sizeof(buf), "%.pf<unit>", d)], then [return buf;] as a string. *)
Definition print_f (buf : list byte) (p : Z) (d : double) (unit : list byte) : outcome (list byte) :=
  s ← fmt_f p d; '(b, _) ← snprintf buf 64 (s ++ unit); Ok (cstr b).
Definition print_d (buf : list byte) (s : Z) : outcome (list byte) :=
  t ← Convert s; '(b, _) ← snprintf buf 64 t; Ok (cstr b).

(** ** FormatSi; [buf] is the uninitialised local array *)
Definition FormatSi (buf : list byte) (s : Z) : outcome (list byte) :=
  let n := double_of_Z s in
  let by_ z := ddiv n (double_of_Z z) in
  if s <? 1000 then print_d buf s
  else if s <? 9995 then print_f buf 2 (by_ (10 ^ 3)) (chars "k")
  else if s <? 99950 then print_f buf 1 (by_ (10 ^ 3)) (chars "k")
  else if s <? 999500 then print_f buf 0 (by_ (10 ^ 3)) (chars "k")
  else if s <? 9995000 then print_f buf 2 (by_ (10 ^ 6)) (chars "M")
  else if s <? 99950000 then print_f buf 1 (by_ (10 ^ 6)) (chars "M")
  else if s <? 999500000 then print_f buf 0 (by_ (10 ^ 6)) (chars "M")
  else if s <? 9995000000 then print_f buf 2 (by_ (10 ^ 9)) (chars "G")
  else if s <? 99950000000 then print_f buf 1 (by_ (10 ^ 9)) (chars "G")
  else if s <? 999500000000 then print_f buf 0 (by_ (10 ^ 9)) (chars "G")
  else if s <? 9995000000000 then print_f buf 2 (by_ (10 ^ 12)) (chars "T")
  else if s <? 99950000000000 then print_f buf 1 (by_ (10 ^ 12)) (chars "T")
  else if s <? 999500000000000 then print_f buf 0 (by_ (10 ^ 12)) (chars "T")
  else if s <? 9995000000000000 then print_f buf 2 (by_ (10 ^ 15)) (chars "P")
  else if s <? 99950000000000000 then print_f buf 1 (by_ (10 ^ 15)) (chars "P")
  else if s <? 999500000000000000 then print_f buf 0 (by_ (10 ^ 15)) (chars "P")
  else print_f buf 2 (by_ (10 ^ 18)) (chars "E").

(** ** FormatIec: the thresholds are products of doubles *)
Definition d1024 : double := double_of_Z 1024.
Definition d9_995 : double := ddiv (double_of_Z 9995) (double_of_Z 1000).
Definition d99_95 : double := ddiv (double_of_Z 9995) (double_of_Z 100).
Definition d1023_5 : double := ddiv (double_of_Z 10235) (double_of_Z 10).
Definition FormatIec (buf : list byte) (s : Z) : outcome (list byte) :=
  let n := double_of_Z s in
  let ki := d1024 in
  let mi := dmul ki d1024 in
  let gi := dmul mi d1024 in
  let ti := dmul gi d1024 in
  let pi := dmul ti d1024 in
  let ei := dmul pi d1024 in
  if dlt n ki then print_d buf s
  else if dlt n (dmul ki d9_995) then print_f buf 2 (ddiv n ki) (chars "Ki")
  else if dlt n (dmul ki d99_95) then print_f buf 1 (ddiv n ki) (chars "Ki")
  else if dlt n (dmul ki d1023_5) then print_f buf 0 (ddiv n ki) (chars "Ki")
  else if dlt n (dmul mi d9_995) then print_f buf 2 (ddiv n mi) (chars "Mi")
  else if dlt n (dmul mi d99_95) then print_f buf 1 (ddiv n mi) (chars "Mi")
  else if dlt n (dmul mi d1023_5) then print_f buf 0 (ddiv n mi) (chars "Mi")
  else if dlt n (dmul gi d9_995) then print_f buf 2 (ddiv n gi) (chars "Gi")
  else if dlt n (dmul gi d99_95) then print_f buf 1 (ddiv n gi) (chars "Gi")
  else if dlt n (dmul gi d1023_5) then print_f buf 0 (ddiv n gi) (chars "Gi")
  else if dlt n (dmul ti d9_995) then print_f buf 2 (ddiv n ti) (chars "Ti")
  else if dlt n (dmul ti d99_95) then print_f buf 1 (ddiv n ti) (chars "Ti")
  else if dlt n (dmul ti d1023_5) then print_f buf 0 (ddiv n ti) (chars "Ti")
  else if dlt n (dmul pi d9_995) then print_f buf 2 (ddiv n pi) (chars "Pi")
  else if dlt n (dmul pi d99_95) then print_f buf 1 (ddiv n pi) (chars "Pi")
  else if dlt n (dmul pi d1023_5) then print_f buf 0 (ddiv n pi) (chars "Pi")
  else if dlt n (dmul ei d9_995) then print_f buf 2 (ddiv n ei) (chars "Ei")
  else print_f buf 1 (ddiv n ei) (chars "Ei").

(** Samples of both. *)
Definition buf64 : list byte := replicate 64 Byte.xff.
Example FormatSi_samples :
  FormatSi buf64 (-5) = Ok (chars "-5") /\ FormatSi buf64 999 = Ok (chars "999") /\ FormatSi buf64 1000 = Ok (chars "1.00k") /\
  FormatSi buf64 9994 = Ok (chars "9.99k") /\ FormatSi buf64 9995 = Ok (chars "10.0k") /\ FormatSi buf64 99949 = Ok (chars "99.9k") /\
  FormatSi buf64 99950 = Ok (chars "100k") /\ FormatSi buf64 (2 ^ 63 - 1) = Ok (chars "9.22E").
Proof. repeat split; vm_compute; reflexivity. Qed.
Example FormatIec_samples :
  FormatIec buf64 1023 = Ok (chars "1023") /\ FormatIec buf64 1024 = Ok (chars "1.00Ki") /\ FormatIec buf64 10235 = Ok (chars "10.0Ki") /\
  FormatIec buf64 (1024 * 1024 - 1) = Ok (chars "1.00Mi") /\ FormatIec buf64 (2 ^ 63 - 1) = Ok (chars "8.00Ei").
Proof. repeat split; vm_compute; reflexivity. Qed.

(** ** What the texts say *)
(** The text is a whole part, [p] decimals behind a point (none when [p] is 0) and the
    unit; read without the point it is the numeral [N]. *)
Definition point (fp : list byte) : list byte := match fp with [] => [] | _ => chars "." end.
Definition reads (t : list byte) (p N : Z) (unit : list byte) : Prop :=
  exists ip fp, t = ip ++ point fp ++ fp ++ unit /\ canonical ip /\ Forall is_digit fp /\ zlen fp = p /\
    dec_nat ip * 10 ^ p + dec_nat fp = N /\ (forall k : nat, (0 < k <= 20)%nat -> N < 10 ^ (Z.of_nat k + p) -> zlen ip <= Z.of_nat k).

Lemma fmt0_decimals (p : nat) v : (0 < p <= 20)%nat -> 0 <= v < 10 ^ Z.of_nat p ->
  exists s, fmt0 (Z.of_nat p) v = Ok s /\ zlen s = Z.of_nat p /\ dec_nat s = v /\ Forall is_digit s.
Proof.
  intros Hp Hv. destruct (Convert_nonneg p v) as (s & E & Hc & Hl & Hv'); [done..|]. unfold fmt0. rewrite E.
  cbn [mbind outcome_bind]. rewrite pad0_canonical by done.
  eexists. split; [done|]. rewrite zlen_app, zlen_replicate, dec_nat_zeros. split; [lia|]. split; [done|].
  apply Forall_app. split; [|apply Hc]. apply Forall_replicate. unfold is_digit, digit_of. cbn. lia.
Qed.
Lemma fixed_reads (p : nat) N unit : (p <= 2)%nat -> 0 <= N < 10 ^ (20 + Z.of_nat p) ->
  exists t, fixed (Z.of_nat p) N = Ok t /\ reads (t ++ unit) (Z.of_nat p) N unit /\ zlen t <= 23.
Proof.
  intros Hp HN. assert (Hpp : 0 < 10 ^ Z.of_nat p) by (apply Z.pow_pos_nonneg; lia).
  assert (Hq : forall k, 0 <= k -> N < 10 ^ (k + Z.of_nat p) -> 0 <= N / 10 ^ Z.of_nat p < 10 ^ k).
  { intros k Hk Hlt. rewrite Z.pow_add_r in Hlt by lia. split; [apply Z.div_pos; lia | apply Z.div_lt_upper_bound; lia]. }
  destruct (Convert_nonneg 20 (N / 10 ^ Z.of_nat p)) as (ip & Ei & Hc & Hl & Hi); [apply (Hq 20); lia | lia |].
  assert (Hlen : forall k : nat, (0 < k <= 20)%nat -> N < 10 ^ (Z.of_nat k + Z.of_nat p) -> zlen ip <= Z.of_nat k).
  { intros k Hk Hlt. destruct (Convert_nonneg k (N / 10 ^ Z.of_nat p)) as (ip' & Ei' & _ & Hl' & _); [apply Hq; lia | lia |]. congruence. }
  pose proof (Z.div_mod N (10 ^ Z.of_nat p) ltac:(lia)) as Hdm. unfold fixed. rewrite Ei. cbn [mbind outcome_bind].
  destruct p as [|p'].
  - exists ip. split; [done|]. split; [|lia]. exists ip, []. cbn [point app]. split_and!; try done. change (10 ^ Z.of_nat 0) with 1 in *. rewrite Z.mod_1_r in Hdm. change (dec_nat []) with 0. lia.
  - rewrite (proj2 (Z.eqb_neq _ 0)) by lia. destruct (fmt0_decimals (S p') (N mod 10 ^ Z.of_nat (S p'))) as (fp & -> & Lf & Hf & Hd); [lia | apply Z.mod_pos_bound; lia |].
    cbn [mbind outcome_bind]. eexists. split; [done|]. split; [|rewrite !zlen_app; change (zlen (chars ".")) with 1; lia].
    exists ip, fp. destruct fp as [|c fp]; [done|]. cbn [point]. split; [by rewrite <- !app_assoc|]. split_and!; try done. lia.
Qed.

Lemma reads_no_nul t p N unit : no_nul unit -> reads t p N unit -> no_nul t.
Proof.
  intros Hu (ip & fp & -> & (_ & Hi & _) & Hf & _). rewrite !no_nul_app. split_and!; try done; try by apply digits_no_nul.
  destruct fp; [intros Hin; inversion Hin | cbn [point]; no_nul_lit].
Qed.

(** The quotient printed by one branch, within half a unit of its last decimal up to
    the rounding of the two operations on doubles. *)
Lemma print_f_quot buf s D (p : nat) unit : zlen buf = 64 -> 0 < s < 2 ^ 63 -> exact D -> (p <= 2)%nat -> no_nul unit -> zlen unit <= 2 ->
  exists t N, print_f buf (Z.of_nat p) (ddiv (double_of_Z s) (double_of_Z D)) unit = Ok t /\ reads t (Z.of_nat p) N unit /\
    2 ^ 52 * Z.abs (N * D - s * 10 ^ Z.of_nat p) <= 2 ^ 51 * D + 2 * (s * 10 ^ Z.of_nat p).
Proof.
  intros Hb Hs HD Hp Hu Lu. destruct (quot_scaled s D (Z.of_nat p) Hs HD ltac:(lia)) as (m & e & E & Hacc).
  set (N := scaled m e (Z.of_nat p)) in *. destruct HD as [HD _].
  assert (H10 : 1 <= 10 ^ Z.of_nat p <= 100) by (destruct p as [|[|[|]]]; cbn; lia).
  assert (HN : 0 <= N).
  { unfold N, scaled. case_match; [lia|]. unfold round_half_even. assert (0 <= Z.pos m * 10 ^ Z.of_nat p / 2 ^ (- e)) by (apply Z.div_pos; lia). repeat case_match; lia. }
  assert (HN' : N < 10 ^ (20 + Z.of_nat p)) by (rewrite Z.pow_add_r by lia; nia).
  destruct (fixed_reads p N unit Hp ltac:(lia)) as (t & Et & Hr & Lt). exists (t ++ unit), N. split; [|done].
  unfold print_f. rewrite E. cbn [fmt_f]. fold N. rewrite Et. cbn [mbind outcome_bind signed]. rewrite <- Hb.
  rewrite snprintf_fits by (rewrite zlen_app; lia). cbn [mbind outcome_bind]. rewrite cstr_app; [done|]. by eapply reads_no_nul.
Qed.

Lemma exact_powers : exact (10 ^ 3) /\ exact (10 ^ 6) /\ exact (10 ^ 9) /\ exact (10 ^ 12) /\ exact (10 ^ 15) /\ exact (10 ^ 18).
Proof.
  split_and!; (split; [done|]; eexists _, _; split; [vm_compute; reflexivity|]; split; [lia|]; split; [lia|]; vm_compute; reflexivity).
Qed.
Definition iec_unit (j : Z) : Z := 1024 ^ j.
Lemma exact_iec : exact (iec_unit 1) /\ exact (iec_unit 2) /\ exact (iec_unit 3) /\ exact (iec_unit 4) /\ exact (iec_unit 5) /\ exact (iec_unit 6).
Proof.
  split_and!; (split; [done|]; eexists _, _; split; [vm_compute; reflexivity|]; split; [lia|]; split; [lia|]; vm_compute; reflexivity).
Qed.

(** The unit a suffix stands for. *)
Definition si_units : list (list byte * Z) :=
  [([], 1); (chars "k", 10 ^ 3); (chars "M", 10 ^ 6); (chars "G", 10 ^ 9); (chars "T", 10 ^ 12); (chars "P", 10 ^ 15); (chars "E", 10 ^ 18)].
Definition iec_units : list (list byte * Z) :=
  [([], 1); (chars "Ki", iec_unit 1); (chars "Mi", iec_unit 2); (chars "Gi", iec_unit 3); (chars "Ti", iec_unit 4); (chars "Pi", iec_unit 5); (chars "Ei", iec_unit 6)].

(** The text denotes a multiple [N] of 10^-p units that is nearest to [s], up to the
    rounding of the double arithmetic (one part in 2^51). *)
Definition denotes (units : list (list byte * Z)) (s : Z) (t : list byte) (p N D : Z) : Prop :=
  exists unit, (unit, D) ∈ units /\ reads t p N unit /\
    2 ^ 52 * Z.abs (N * D - s * 10 ^ p) <= 2 ^ 51 * D + 2 * (s * 10 ^ p).

Lemma print_d_denotes units buf s : zlen buf = 64 -> 0 <= s < 10 ^ 19 -> ([], 1) ∈ units ->
  exists t, print_d buf s = Ok t /\ denotes units s t 0 s 1 /\ (s < 1024 -> zlen t <= 4).
Proof.
  intros Hb Hs Hu. destruct (Convert_nonneg 19 s) as (t & E & Hc & Hl & Hv); [lia | lia |]. exists t.
  unfold print_d. rewrite E. cbn [mbind outcome_bind]. rewrite <- Hb, snprintf_fits by lia. cbn [mbind outcome_bind].
  rewrite cstr_app by (apply digits_no_nul, Hc). split; [done|].
  assert (Hk : forall k : nat, (0 < k <= 20)%nat -> s < 10 ^ Z.of_nat k -> zlen t <= Z.of_nat k).
  { intros k Hk Hlt. destruct (Convert_nonneg k s) as (t' & E' & _ & Hl' & _); [lia | lia | congruence]. }
  split; [|intros H; apply (Hk 4%nat); lia]. exists []. split; [done|]. split; [|lia].
  exists t, []. cbn [point app]. rewrite app_nil_r. change (dec_nat []) with 0. change (10 ^ 0) with 1. split_and!; try done; [lia|].
  intros k Hk' Hlt. apply (Hk k Hk'). by rewrite Z.add_0_r in Hlt.
Qed.
Lemma reads_length t p N unit (k : nat) : reads t p N unit -> (0 < k <= 20)%nat -> N < 10 ^ (Z.of_nat k + p) ->
  zlen t <= Z.of_nat k + 1 + p + zlen unit /\ (p = 0 -> zlen t <= Z.of_nat k + zlen unit).
Proof.
  intros (ip & fp & -> & _ & _ & <- & _ & Hk) Hk0 HN. specialize (Hk k Hk0 HN). rewrite !zlen_app. pose proof (zlen_nonneg fp).
  split; [|intros ->%zlen_zero; cbn [point]; rewrite zlen_nil; lia].
  destruct fp; cbn [point]; [rewrite zlen_nil; lia | change (zlen (chars ".")) with 1; lia].
Qed.

(** One branch of FormatSi: its thresholds are [99.95 D <= s 10^p < 999.5 D]. *)
Lemma si_branch buf s D p unit : zlen buf = 64 -> 0 < s < 2 ^ 63 -> exact D -> 0 <= p <= 2 ->
  no_nul unit -> zlen unit = 1 -> (unit, D) ∈ si_units -> 1999 * D <= 20 * (s * 10 ^ p) -> 2 * (s * 10 ^ p) < 1999 * D ->
  exists t N, print_f buf (p) (ddiv (double_of_Z s) (double_of_Z D)) unit = Ok t /\ denotes si_units s t (p) N D /\ zlen t <= 6 /\ 100 <= N <= 1000 /\
    (s * 10 ^ p < 2 ^ 50 -> zlen t <= 5 /\ 2 * Z.abs (N * D - s * 10 ^ p) <= D /\ 100 <= N <= 999).
Proof.
  intros Hb Hs HD Hp Hu Lu Hin Hlo Hhi. rewrite <- (Z2Nat.id p) in * by lia. set (p' := Z.to_nat p) in *. assert (Hp' : (p' <= 2)%nat) by lia. clearbody p'.
  destruct (print_f_quot buf s D p' unit Hb Hs HD Hp' Hu ltac:(lia)) as (t & N & E & Hr & Hacc).
  exists t, N. split; [done|]. split; [by exists unit|]. destruct HD as [HD _]. set (x := s * 10 ^ Z.of_nat p') in *.
  assert (HN : 100 <= N <= 1000) by (split; nia). split; [|split; [done|]].
  - destruct p' as [|[|[|]]]; [pose proof (reads_length _ _ _ _ 4 Hr ltac:(lia) ltac:(cbn; lia)) as H | pose proof (reads_length _ _ _ _ 3 Hr ltac:(lia) ltac:(cbn; lia)) as H |
      pose proof (reads_length _ _ _ _ 2 Hr ltac:(lia) ltac:(cbn; lia)) as H | lia]; lia.
  - intros Hx. assert (Hhalf : 2 * Z.abs (N * D - x) <= D) by lia. assert (HN' : 100 <= N <= 999) by (split; [lia | nia]). split; [|done].
    destruct p' as [|[|[|]]]; [pose proof (reads_length _ _ _ _ 3 Hr ltac:(lia) ltac:(cbn; lia)) as H | pose proof (reads_length _ _ _ _ 2 Hr ltac:(lia) ltac:(cbn; lia)) as H |
      pose proof (reads_length _ _ _ _ 1 Hr ltac:(lia) ltac:(cbn; lia)) as H | lia]; lia.
Qed.

(** C37: [FormatSi] prints the quantity with three significant digits.  For every
    non-negative [int64_t] [s] it returns a text of at most 6 characters that denotes, with
    its suffix, [N] units of [10^-p D] such that [s] is at most half such a unit away, up
    to the rounding of the [double] operations (a relative 2^-51); from 1000 on [N] is
    between 100 and 1000.  Below 999.5 T this is exact: the text has at most 5 characters,
    [N] is nearest to the quantity, and from 1000 on it has exactly three digits.  Above,
    it can be 1000, printed with one digit too many ([FormatSi_double_rounding]).  The
    content of the local array is irrelevant. *)
Theorem FormatSi_rounds buf s : zlen buf = 64 -> 0 <= s < 2 ^ 63 ->
  exists t p N D, FormatSi buf s = Ok t /\ denotes si_units s t p N D /\ zlen t <= 6 /\ (1000 <= s -> 100 <= N <= 1000) /\
    (s < 999500000000000 -> zlen t <= 5 /\ 2 * Z.abs (N * D - s * 10 ^ p) <= D /\ (1000 <= s -> 100 <= N <= 999)).
Proof.
  intros Hb Hs. destruct exact_powers as (X3 & X6 & X9 & X12 & X15 & X18). unfold FormatSi. cbv zeta.
  destruct (Z.ltb_spec s 1000) as [H0|H0].
  { destruct (print_d_denotes si_units buf s Hb ltac:(lia)) as (t & E & Hd & Hl); [set_solver|].
    exists t, 0, s, 1. split; [done|]. split; [done|]. specialize (Hl ltac:(lia)). split; [lia|]. split; [lia|]. intros _. split_and!; lia. }
  repeat match goal with
  | |- context [if s <? ?z then print_f buf ?p _ ?u else _] =>
      destruct (Z.ltb_spec s z);
      [lazymatch goal with |- context [ddiv _ (double_of_Z ?D)] =>
        destruct (si_branch buf s D p u Hb ltac:(lia) ltac:(assumption) ltac:(lia) ltac:(no_nul_lit) eq_refl ltac:(set_solver) ltac:(lia) ltac:(lia)) as (t & N & E & Hd & Hl & HN & Hx);
        exists t, p, N, D end; split; [exact E|]; split; [exact Hd|]; split; [exact Hl|]; split; [by intros _|];
       intros Hlt; destruct Hx as (? & ? & ?); [lia|]; split_and!; tauto|]
  end.
  destruct (si_branch buf s (10 ^ 18) 2 (chars "E") Hb ltac:(lia) X18 ltac:(lia) ltac:(no_nul_lit) eq_refl ltac:(set_solver) ltac:(lia) ltac:(lia)) as (t & N & E & Hd & Hl & HN & Hx).
  exists t, 2, N, (10 ^ 18). split; [exact E|]. split; [exact Hd|]. split; [exact Hl|]. split; [by intros _|]. intros. lia.
Qed.

Lemma FormatSi_rounds_witness : FormatSi buf64 999499 = Ok (chars "999k") /\ exists p N D,
  denotes si_units 999499 (chars "999k") p N D /\ 2 * Z.abs (N * D - 999499 * 10 ^ p) <= D /\ 100 <= N <= 999.
Proof.
  split; [vm_compute; reflexivity|]. destruct (FormatSi_rounds buf64 999499) as (t & p & N & D & E & Hd & _ & _ & Hx); [reflexivity | lia |].
  assert (Ht : t = chars "999k") by (assert (E' : FormatSi buf64 999499 = Ok (chars "999k")) by (vm_compute; reflexivity); congruence). subst t. exists p, N, D. split; [done|].
  destruct Hx as (_ & Hn & H3); [lia|]. split; [done|]. apply H3. lia.
Defined.

(** Above 2^53 the conversion to [double] rounds first, and the text can be six
    characters: the thresholds are not tight there. *)
Lemma FormatSi_double_rounding : FormatSi buf64 99949999999999999 = Ok (chars "100.0P").
Proof. vm_compute. reflexivity. Qed.

(** [FormatIec] is as accurate: its units are powers of 1024, on which the division is
    exact. *)
Lemma FormatIec_denotes buf s : zlen buf = 64 -> 0 <= s < 2 ^ 63 ->
  exists t p N D, FormatIec buf s = Ok t /\ denotes iec_units s t p N D.
Proof.
  intros Hb Hs. destruct exact_iec as (X1 & X2 & X3 & X4 & X5 & X6).
  assert (Hd : exists t p N D, print_d buf s = Ok t /\ denotes iec_units s t p N D).
  { destruct (print_d_denotes iec_units buf s Hb ltac:(lia)) as (t & E & Hd & _); [set_solver|]. by exists t, 0, s, 1. }
  destruct (Z.eq_dec s 0) as [->|Hs0]; [exact Hd|]. unfold FormatIec. cbv zeta.
  change (dmul (dmul (dmul (dmul (dmul d1024 d1024) d1024) d1024) d1024) d1024) with (double_of_Z (iec_unit 6)).
  change (dmul (dmul (dmul (dmul d1024 d1024) d1024) d1024) d1024) with (double_of_Z (iec_unit 5)).
  change (dmul (dmul (dmul d1024 d1024) d1024) d1024) with (double_of_Z (iec_unit 4)).
  change (dmul (dmul d1024 d1024) d1024) with (double_of_Z (iec_unit 3)).
  change (dmul d1024 d1024) with (double_of_Z (iec_unit 2)). change d1024 with (double_of_Z (iec_unit 1)).
  assert (Hq : forall D p u, exact D -> 0 <= p <= 2 -> no_nul u -> zlen u = 2 -> (u, D) ∈ iec_units ->
    exists t p' N D', print_f buf p (ddiv (double_of_Z s) (double_of_Z D)) u = Ok t /\ denotes iec_units s t p' N D').
  { intros D p u HD Hp Hu Lu Hin. destruct (print_f_quot buf s D (Z.to_nat p) u Hb ltac:(lia) HD ltac:(lia) Hu ltac:(lia)) as (t & N & E & Hr & Ha).
    rewrite Z2Nat.id in * by lia. exists t, p, N, D. split; [done|]. by exists u. }
  destruct (dlt _ _); [exact Hd|].
  repeat (destruct (dlt _ _); [apply Hq; [assumption | lia | no_nul_lit | reflexivity | set_solver]|]).
  apply Hq; [assumption | lia | no_nul_lit | reflexivity | set_solver].
Qed.
