(* ===== verification/Thread.v ===== *)
(** * Threads and latches (src/src/unix/Thread.h, Thread.cc)

    The thread-local identity of a thread, [CountDownLatch] over a mutex and a
    condition variable, and [Thread], whose [Start] waits on a latch until the new
    thread has stored its id.  The source spells several members in two ways
    ([std::conditional.wait] for [condition_.wait], [std::count] for [count_],
    [countDown] for [CountDown], ...); the members declared in the header are meant.

    A condition variable is two sets of threads: those that sleep and those that were
    notified, or woke up by themselves, and have yet to take the mutex again. *)
From S2P Require Import Prelude LogStream CString Time Calendar.

(** ** Identity of the current thread *)
Record tls : Type := mkTls {
  tCachedThreadId : Z;
  tTreadIdString : list byte;      (** char[32] *)
  tTreadIdStringLen : Z;
  tThreadName : list byte;
}.
Definition new_tls : tls := mkTls 0 (replicate 32 Byte.x00) 6 (chars "unknown").

Section Identity.
(** What gettid and getpid return in this thread. *)
Variables (gettid getpid : Z).

Definition GetTidAndCache (t : tls) : outcome tls :=
  if tCachedThreadId t =? 0 then
    s ← fmt_sp 5 gettid;
    '(buf, len) ← snprintf (tTreadIdString t) 32 (s ++ chars " ");
    Ok (mkTls gettid buf len (tThreadName t))
  else Ok t.
Definition Tid (t : tls) : outcome (Z * tls) :=
  t ← (if tCachedThreadId t =? 0 then GetTidAndCache t else Ok t); Ok (tCachedThreadId t, t).
Definition IsMainThread (t : tls) : outcome (bool * tls) := '(id, t) ← Tid t; Ok (id =? getpid, t).
End Identity.

Definition TidString (t : tls) : list byte := tTreadIdString t.
Definition TidStringLength (t : tls) : Z := tTreadIdStringLen t.
Definition Name (t : tls) : list byte := tThreadName t.

(** The timespec that nanosleep is given. *)
Definition SleepUsec (usec : Z) : Z * Z :=
  (Z.quot usec 1000000, Z.rem usec 1000000 * 1000).

(** ** CountDownLatch *)
Record CountDownLatch : Type := mkLatch {
  count_ : Z;
  sleeping : gset nat;     (** in [condition_.wait], not notified *)
  woken : gset nat;        (** about to test the predicate again *)
}.
Definition new_CountDownLatch (count : Z) : CountDownLatch := mkLatch count ∅ ∅.

(** [Wait] of thread [t]: with the mutex held, return or go to sleep. *)
Definition Wait (t : nat) (l : CountDownLatch) : CountDownLatch * bool :=
  if count_ l =? 0 then (l, true) else (mkLatch (count_ l) ({[t]} ∪ sleeping l) (woken l), false).
(** The condition variable lets [t] test the predicate again. *)
Definition Wait_again (t : nat) (l : CountDownLatch) : CountDownLatch * bool :=
  Wait t (mkLatch (count_ l) (sleeping l) (woken l ∖ {[t]})).
Definition notify_all (l : CountDownLatch) : CountDownLatch := mkLatch (count_ l) ∅ (woken l ∪ sleeping l).
Definition CountDown (l : CountDownLatch) : outcome CountDownLatch :=
  c ← sint_checked 32 (count_ l - 1);
  let l := mkLatch c (sleeping l) (woken l) in
  Ok (if c =? 0 then notify_all l else l).
Definition GetCount (l : CountDownLatch) : Z := count_ l.

(** Any number of threads use a latch: who is inside [Wait], who came out, and how
    often it was counted down. *)
Record latch_sys : Type := mkLS {
  lat : CountDownLatch;
  inside : gset nat;
  passed : gset nat;
  counted : nat;
}.
Inductive latch_event : Type :=
  | LWait (t : nat)       (** calls [Wait] *)
  | LWake (t : nat)       (** wakes up without being notified *)
  | LRetry (t : nat)      (** holds the mutex again *)
  | LCount.               (** some thread calls [CountDown] *)

Definition settle (t : nat) (s : latch_sys) (r : CountDownLatch * bool) : latch_sys :=
  if r.2 then mkLS r.1 (inside s ∖ {[t]}) ({[t]} ∪ passed s) (counted s)
  else mkLS r.1 ({[t]} ∪ inside s) (passed s) (counted s).
(** [None]: the event cannot happen in this state. *)
Definition latch_step (e : latch_event) (s : latch_sys) : option (outcome latch_sys) :=
  match e with
  | LWait t => if decide (t ∈ inside s) then None else Some (Ok (settle t s (Wait t (lat s))))
  | LWake t => if decide (t ∈ sleeping (lat s))
               then Some (Ok (mkLS (mkLatch (count_ (lat s)) (sleeping (lat s) ∖ {[t]}) ({[t]} ∪ woken (lat s)))
                                   (inside s) (passed s) (counted s)))
               else None
  | LRetry t => if decide (t ∈ woken (lat s)) then Some (Ok (settle t s (Wait_again t (lat s)))) else None
  | LCount => Some (l ← CountDown (lat s); Ok (mkLS l (inside s) (passed s) (S (counted s))))
  end.

Inductive latch_reach (n : Z) : latch_sys -> Prop :=
  | latch_init : latch_reach n (mkLS (new_CountDownLatch n) ∅ ∅ 0)
  | latch_next e s s' : latch_reach n s -> latch_step e s = Some (Ok s') -> latch_reach n s'.

(** ** Thread *)
Record Thread : Type := mkThread {
  started_ : bool;
  thread_ : option bool;     (** [None] is nullptr, [Some j] a std::thread, joinable or not *)
  tid_ : Z;
  name_ : list byte;
  latch_ : CountDownLatch;
}.

(** The static counter and the default name; [fetch_add] returns the old value. *)
Definition SetDefaultName (numCreated : Z) (name : list byte) : outcome (Z * list byte) :=
  let num := numCreated in
  if decide (name = []) then
    d ← Convert num;
    '(buf, _) ← snprintf (replicate 32 Byte.x00) 32 (chars "Thread" ++ d);
    Ok (i32 (numCreated + 1), cstr buf)
  else Ok (i32 (numCreated + 1), name).
Definition new_Thread (numCreated : Z) (n : list byte) : outcome (Z * Thread) :=
  '(num, name) ← SetDefaultName numCreated n;
  Ok (num, mkThread false None 0 name (new_CountDownLatch 1)).
(** [std::atomic::load] must not be given memory_order_acq_rel. *)
Definition NumCreated (numCreated : Z) : outcome Z := Fault (Undefined "load with memory_order_acq_rel").

(** One [Thread] object, the thread that owns it and the thread it starts. *)
Inductive child_pc : Type :=
  | CNone        (** not started *)
  | CTid         (** [tid_ = Tid()] *)
  | CCount       (** [latch_.CountDown()] *)
  | CName        (** sets the name of the thread *)
  | CFunc        (** calls [func_] *)
  | CRun         (** inside [func_] *)
  | CDone.
#[global] Instance child_pc_eq_dec : EqDecision child_pc.
Proof. solve_decision. Defined.
Inductive owner_pc : Type :=
  | OIdle        (** outside of [Start] *)
  | OEnter       (** about to call [latch_.Wait()] *)
  | OBlocked.    (** inside of it *)
Record sys : Type := mkSys {
  obj : option Thread;     (** [None] once destroyed *)
  child : child_pc;
  child_tls : tls;
  owner : owner_pc;
  ran : nat;               (** how often [func_] returned *)
}.
Inductive result : Type := Returns | Throws (what : string) | ThrowsOther.
Inductive call : Type := CallStart (spawned : bool) | CallJoin | CallDestroy.
Inductive event : Type :=
  | ECall (c : call)            (** the owner calls a member *)
  | EOwner                      (** the owner goes on inside [Start] *)
  | EWake                       (** a wake-up nobody asked for *)
  | EChild (r : result).        (** the thread goes on; [r] is how [func_] ends *)

Section Runs.
(** The id the kernel gives the new thread. *)
Variable ktid : Z.

(** [Start] up to the wait.  Assigning [thread_] destroys the std::thread it had,
    which ends the program when that is joinable. *)
Definition Start (spawned : bool) (o : Thread) (s : sys) : outcome sys :=
  if spawned then
    match thread_ o with
    | Some true => Fault (Exception "std::terminate: joinable std::thread destroyed")
    | _ => Ok (mkSys (Some (mkThread true (Some true) (tid_ o) (name_ o) (latch_ o))) CTid new_tls OEnter (ran s))
    end
  else Fault (Exception "std::system_error").
(** [None]: blocked until the thread is done. *)
Definition Join (o : Thread) (s : sys) : option (outcome sys) :=
  match thread_ o with
  | None => Some (Fault (Undefined "thread_ is null"))
  | Some false => Some (Fault (Assertion "thread_->joinable()"))
  | Some true =>
      match child s with
      | CDone => Some (Ok (mkSys (Some (mkThread (started_ o) (Some false) (tid_ o) (name_ o) (latch_ o)))
                                 CDone (child_tls s) (owner s) (ran s)))
      | _ => None
      end
  end.
(** The destructor detaches a running thread. *)
Definition Destroy (o : Thread) (s : sys) : outcome sys :=
  if started_ o then
    match thread_ o with
    | None => Fault (Undefined "thread_ is null")
    | Some _ => Ok (mkSys None (child s) (child_tls s) (owner s) (ran s))
    end
  else Ok (mkSys None (child s) (child_tls s) (owner s) (ran s)).

Definition with_obj (s : sys) (k : Thread -> option (outcome sys)) : option (outcome sys) :=
  match obj s with Some o => k o | None => Some (Fault (Undefined "destroyed Thread")) end.
Definition set_latch (l : CountDownLatch) (o : Thread) : Thread :=
  mkThread (started_ o) (thread_ o) (tid_ o) (name_ o) l.
(** The owner after it tested the predicate. *)
Definition owner_test (o : Thread) (s : sys) (r : CountDownLatch * bool) : sys :=
  mkSys (Some (set_latch r.1 o)) (child s) (child_tls s) (if r.2 then OIdle else OBlocked) (ran s).

(** The lambda [Start] hands to std::thread; it refers to the object. *)
Definition child_step (r : result) (s : sys) : option (outcome sys) :=
  match child s with
  | CNone | CDone => None
  | CTid => with_obj s (fun o => Some (
      '(id, t) ← Tid ktid (child_tls s);
      Ok (mkSys (Some (mkThread (started_ o) (thread_ o) id (name_ o) (latch_ o))) CCount t (owner s) (ran s))))
  | CCount => with_obj s (fun o => Some (
      l ← CountDown (latch_ o);
      Ok (mkSys (Some (set_latch l o)) CName (child_tls s) (owner s) (ran s))))
  | CName => with_obj s (fun o => Some (
      let t := child_tls s in
      let name := if decide (name_ o = []) then chars "rnetThread" else name_ o in
      Ok (mkSys (obj s) CFunc (mkTls (tCachedThreadId t) (tTreadIdString t) (tTreadIdStringLen t) name) (owner s) (ran s))))
  | CFunc => with_obj s (fun o => Some (Ok (mkSys (obj s) CRun (child_tls s) (owner s) (ran s))))
  | CRun =>
      match r with
      | Returns => Some (Ok (mkSys (obj s) CDone (child_tls s) (owner s) (S (ran s))))
      | Throws what => with_obj s (fun _ => Some (Fault (Exception what)))
      | ThrowsOther => with_obj s (fun _ => Some (Fault (Exception "unexpected exception")))
      end
  end.

Definition step (e : event) (s : sys) : option (outcome sys) :=
  match e with
  | ECall c =>
      match owner s with
      | OIdle => with_obj s (fun o =>
          match c with
          | CallStart spawned => Some (Start spawned o s)
          | CallJoin => Join o s
          | CallDestroy => Some (Destroy o s)
          end)
      | _ => None
      end
  | EOwner =>
      match owner s with
      | OIdle => None
      | OEnter => with_obj s (fun o => Some (Ok (owner_test o s (Wait 0 (latch_ o)))))
      | OBlocked => with_obj s (fun o =>
          if decide (0%nat ∈ woken (latch_ o)) then Some (Ok (owner_test o s (Wait_again 0 (latch_ o)))) else None)
      end
  | EWake =>
      match owner s with
      | OBlocked => with_obj s (fun o =>
          let l := latch_ o in
          if decide (0%nat ∈ sleeping l) then
            Some (Ok (mkSys (Some (set_latch (mkLatch (count_ l) (sleeping l ∖ {[0%nat]}) ({[0%nat]} ∪ woken l)) o))
                            (child s) (child_tls s) (owner s) (ran s)))
          else None)
      | _ => None
      end
  | EChild r => child_step r s
  end.

(** What the owner has to keep to: start once, join a started thread once, and destroy
    the object only before it is started or after it is joined. *)
Definition allowed (e : event) (s : sys) : bool :=
  match e, obj s with
  | ECall (CallStart _), Some o => bool_decide (thread_ o = None)
  | ECall CallJoin, Some o => bool_decide (thread_ o = Some true)
  | ECall CallDestroy, Some o => bool_decide (thread_ o <> Some true)
  | ECall _, None => false
  | _, _ => true
  end.

Definition init (o : Thread) : sys := mkSys (Some o) CNone new_tls OIdle 0.
Inductive reach (o : Thread) : sys -> Prop :=
  | reach_init : reach o (init o)
  | reach_next e s s' : reach o s -> allowed e s = true -> step e s = Some (Ok s') -> reach o s'.
End Runs.

(** ** Identity *)
(** The cache of a thread: empty, or the id, as text of the length noted. *)
Definition tls_ok (ktid : Z) (t : tls) : Prop :=
  zlen (tTreadIdString t) = 32 /\
  (tCachedThreadId t = 0 \/
   tCachedThreadId t = ktid /\ exists s rest, tTreadIdString t = (s ++ chars " ") ++ Byte.x00 :: rest /\
     fmt_sp 5 ktid = Ok s /\ no_nul s /\ tTreadIdStringLen t = zlen s + 1 /\ 5 <= zlen s <= 11).

(** [%5d] of a positive id. *)
Lemma fmt_tid k : 0 < k < 2 ^ 31 -> exists s, fmt_sp 5 k = Ok s /\ no_nul s /\ 5 <= zlen s <= 11 /\
  exists sp d, s = sp ++ d /\ Forall (eq Byte.x20) sp /\ canonical d /\ dec_nat d = k.
Proof.
  intros Hk. destruct (Convert_nonneg 10 k) as (d & E & Hc & Hl & Hd); [lia | lia |].
  unfold fmt_sp. rewrite E. cbn [mbind outcome_bind]. eexists. split; [done|].
  assert (Hsp : Forall (eq Byte.x20) (replicate (Z.to_nat (5 - zlen d)) Byte.x20)) by (by apply Forall_replicate).
  split_and!.
  - apply no_nul_app. split; [|apply digits_no_nul, Hc]. unfold no_nul. rewrite elem_of_replicate. by intros [? _].
  - rewrite zlen_app, zlen_replicate. lia.
  - rewrite zlen_app, zlen_replicate. lia.
  - by exists (replicate (Z.to_nat (5 - zlen d)) Byte.x20), d.
Qed.

Lemma Tid_ok k t : 0 < k < 2 ^ 31 -> tls_ok k t ->
  exists t', Tid k t = Ok (k, t') /\ tls_ok k t' /\ tCachedThreadId t' = k /\ tThreadName t' = tThreadName t.
Proof.
  intros Hk [Hl Hc]. unfold Tid, GetTidAndCache. destruct (Z.eqb_spec (tCachedThreadId t) 0) as [E0|E0].
  - destruct (fmt_tid k Hk) as (s & E & Hn & Hs & _). rewrite E. cbn [mbind outcome_bind].
    replace (snprintf (tTreadIdString t) 32) with (snprintf (tTreadIdString t) (zlen (tTreadIdString t))) by (by rewrite Hl).
    rewrite snprintf_fits by (rewrite zlen_app; change (zlen (chars " ")) with 1; lia). cbn [mbind outcome_bind].
    eexists. split; [done|]. split_and!; try done. split; cbn [tTreadIdString tCachedThreadId tTreadIdStringLen].
    + rewrite zlen_app, zlen_cons, zlen_zdrop, zlen_app. change (zlen (chars " ")) with 1. lia.
    + right. split; [done|]. eexists s, _. split_and!; try done; [rewrite zlen_app; change (zlen (chars " ")) with 1; lia | lia | lia].
  - destruct Hc as [?|Hc]; [done|]. exists t. cbn. destruct Hc as (Hk' & Hc). rewrite Hk'. split_and!; try done.
    split; [done|]. by right.
Qed.

(** ** The latch *)
Record latch_inv (n : Z) (s : latch_sys) : Prop := {
  li_count : count_ (lat s) = n - Z.of_nat (counted s);
  li_inside : inside s = sleeping (lat s) ∪ woken (lat s);
  li_disjoint : sleeping (lat s) ## woken (lat s);
  li_open : count_ (lat s) = 0 -> sleeping (lat s) = ∅;
  li_passed : passed s <> ∅ -> n <= Z.of_nat (counted s);
}.

Lemma CountDown_cases l l' : CountDown l = Ok l' ->
  count_ l' = count_ l - 1 /\
  (count_ l' = 0 /\ sleeping l' = ∅ /\ woken l' = woken l ∪ sleeping l \/
   count_ l' <> 0 /\ sleeping l' = sleeping l /\ woken l' = woken l).
Proof.
  unfold CountDown, sint_checked. case_if; cbn; [|done]. intros [= <-]. case_if; cbn; split; auto.
Qed.

(** Set equations that need a case distinction on [t]. *)
Ltac set_cases t := set_unfold; let x := fresh "x" in intros x; destruct (decide (x = t)); naive_solver.

Lemma settle_inv n t s l : latch_inv n s -> t ∉ sleeping (lat s) -> count_ l = count_ (lat s) ->
  sleeping l = sleeping (lat s) -> woken l = woken (lat s) ∖ {[t]} -> latch_inv n (settle t s (Wait t l)).
Proof.
  intros [Hc Hi Hd Ho Hp] Ht Ec Es Ew. unfold settle, Wait. destruct (Z.eqb_spec (count_ l) 0) as [E|E].
  - specialize (Ho ltac:(lia)). split; cbn; rewrite ?Ec, ?Es, ?Ew, ?Hi, ?Ho; try done; [clear; set_solver | lia].
  - split; cbn; rewrite ?Ec, ?Es, ?Ew, ?Hi; try done; [clear -Ht; set_cases t | clear -Hd Ht; set_solver | lia].
Qed.

Lemma latch_inv_reach n s : 0 <= n -> latch_reach n s -> latch_inv n s.
Proof.
  intros Hn. induction 1 as [|e s s' Hr IH Hs]; [split; cbn; done || set_solver by lia|].
  destruct e as [t|t|t|]; cbn [latch_step] in Hs; try case_decide as Hd; simplify_eq.
  - apply settle_inv; try done; pose proof (li_inside _ _ IH) as Hi; set_solver.
  - destruct IH as [Hc Hi Hdis Ho Hp]. split; cbn; try done.
    + rewrite Hi. clear -Hd. set_cases t.
    + clear -Hdis. set_solver.
    + intros E. rewrite (Ho E). clear. set_solver.
  - apply settle_inv; try done. pose proof (li_disjoint _ _ IH). set_solver.
  - inv_ok. destruct (CountDown_cases _ _ E) as (Ec & Hcase). destruct IH as [Hc Hi Hdis Ho Hp]. split; cbn; [lia| | | |].
    + rewrite Hi. destruct Hcase as [(_ & -> & ->)|(_ & -> & ->)]; clear; set_solver.
    + destruct Hcase as [(_ & -> & ->)|(_ & -> & ->)]; [clear; set_solver | done].
    + intros E0. destruct Hcase as [(_ & -> & _)|(? & _ & _)]; done.
    + intros Hne. specialize (Hp Hne). lia.
Qed.

(** A latch opens exactly when it was counted down as often as it was told to, and
    then lets everybody through.  In every interleaving of any number of threads, with
    wake-ups nobody asked for: the counter is the initial count less the calls of
    [CountDown]; no thread leaves [Wait] before the last of them; and from that
    call on nobody sleeps any more, and every thread inside [Wait] leaves it with the
    next step it makes. *)
Theorem latch_opens n s :
  0 <= n < 2 ^ 31 -> latch_reach n s ->
  GetCount (lat s) = n - Z.of_nat (counted s) /\
  (passed s <> ∅ -> n <= Z.of_nat (counted s)) /\
  (Z.of_nat (counted s) = n -> sleeping (lat s) = ∅ /\
     forall t, t ∈ inside s -> exists s', latch_step (LRetry t) s = Some (Ok s') /\ t ∈ passed s').
Proof.
  intros [Hn _] Hr. destruct (latch_inv_reach n s Hn Hr) as [Hc Hi Hd Ho Hp]. split_and!; try done.
  intros Hz. specialize (Ho ltac:(lia)). split; [done|]. intros t Ht. cbn.
  rewrite decide_True by set_solver. unfold Wait_again, Wait. cbn.
  rewrite (proj2 (Z.eqb_eq _ _)) by lia. eexists. split; [done|]. cbn. set_solver.
Qed.

Definition latch_run (es : list latch_event) (s : latch_sys) : option (outcome latch_sys) :=
  foldl (fun r e => match r with Some (Ok s) => latch_step e s | _ => r end) (Some (Ok s)) es.
Lemma latch_run_reach n es s : latch_reach n s -> match latch_run es s with Some (Ok s') => latch_reach n s' | _ => True end.
Proof.
  revert s. induction es as [|e es IH] using rev_ind; intros s Hs; [done|]. unfold latch_run. rewrite foldl_app. cbn.
  fold (latch_run es s). specialize (IH s Hs). destruct (latch_run es s) as [[s1|]|]; try done.
  destruct (latch_step e s1) as [[s2|]|] eqn:E; try done. by apply (latch_next n e s1).
Qed.
Lemma latch_opens_witness :
  exists s, latch_run [LWait 1; LCount; LWake 1; LWait 2; LRetry 1; LCount]
      (mkLS (new_CountDownLatch 2) ∅ ∅ 0) = Some (Ok s) /\
    GetCount (lat s) = 0 /\ exists s', latch_step (LRetry 1) s = Some (Ok s') /\ 1%nat ∈ passed s'.
Proof.
  set (es := [LWait 1; LCount; LWake 1; LWait 2; LRetry 1; LCount]). set (s0 := mkLS (new_CountDownLatch 2) ∅ ∅ 0).
  pose proof (latch_run_reach 2 es s0 (latch_init 2)) as Hr.
  destruct (latch_run es s0) as [[s|]|] eqn:E; [|discriminate (eq_trans (eq_sym E) ltac:(vm_compute; reflexivity))..].
  assert (Hin : counted s = 2%nat /\ 1%nat ∈ inside s).
  { revert E. clear. vm_compute. intros [= <-]. by split; vm_compute. }
  exists s. split; [done|]. destruct (latch_opens 2 s) as (Hc & _ & Ho); [lia | done |].
  split; [rewrite Hc; destruct Hin as [-> _]; done|]. destruct Hin as [Hk Hi]. apply (proj2 (Ho ltac:(lia))). exact Hi.
Defined.

(** A latch that is counted down once more than it was told to closes for ever: a
    thread that calls [Wait] then sleeps, and nothing but 2^32 further calls would
    let it pass. *)
Lemma latch_overrun_blocks t : exists s, latch_run [LCount; LCount; LWait t] (mkLS (new_CountDownLatch 1) ∅ ∅ 0) = Some (Ok s) /\
  t ∈ sleeping (lat s) /\ count_ (lat s) = -1.
Proof. eexists. split; [reflexivity|]. cbn. split; [set_solver | done]. Qed.

(** ** Start and Join *)
Definition waiting (s : sys) (l : CountDownLatch) : Prop :=
  count_ l = match child s with CTid | CCount => 1 | _ => 0 end /\
  match owner s with
  | OIdle => count_ l = 0 /\ sleeping l = ∅ /\ woken l = ∅
  | OEnter => sleeping l = ∅ /\ woken l = ∅
  | OBlocked => (count_ l = 1 /\ sleeping l = {[0%nat]} /\ woken l = ∅) \/ (sleeping l = ∅ /\ woken l = {[0%nat]})
  end.
Definition sys_inv (ktid : Z) (s : sys) : Prop :=
  tls_ok ktid (child_tls s) /\ ran s = match child s with CDone => 1%nat | _ => 0%nat end /\
  match obj s with
  | None => owner s = OIdle /\ (child s = CNone \/ child s = CDone)
  | Some o =>
      match thread_ o with
      | None => started_ o = false /\ child s = CNone /\ owner s = OIdle /\ latch_ o = new_CountDownLatch 1
      | Some j => started_ o = true /\ child s <> CNone /\ (child s <> CTid -> tid_ o = ktid) /\ waiting s (latch_ o) /\
                  (j = false -> child s = CDone /\ owner s = OIdle)
      end
  end.

Section Proofs.
Context (ktid : Z) (Hk : 0 < ktid < 2 ^ 31).

Lemma new_tls_ok : tls_ok ktid new_tls.
Proof. split; [done | by left]. Qed.

(** What a step may do to a state. *)
Definition step_ok (e : event) (s : sys) (r : outcome sys) : Prop :=
  match r with
  | Ok s' => sys_inv ktid s'
  | Fault _ => e = ECall (CallStart false) \/ child s = CRun /\ exists x, e = EChild x /\ x <> Returns
  end.

Lemma call_ok c s r : sys_inv ktid s -> allowed (ECall c) s = true -> step ktid (ECall c) s = Some r -> step_ok (ECall c) s r.
Proof.
  intros (Ht & Hran & Ho) Ha E. cbn in *. destruct (owner s) eqn:Eo; try done. unfold with_obj in E.
  destruct (obj s) as [o|] eqn:Eobj; [|by destruct c].
  destruct c as [spawned| |].
  - apply bool_decide_eq_true in Ha. rewrite Ha in Ho. destruct Ho as (Hst & Hc & _ & Hl). unfold Start in E. rewrite Ha in E.
    destruct spawned; simplify_eq; [|by left]. split; [apply new_tls_ok|]. cbn. rewrite Hran, Hc. split_and!; try done.
    rewrite Hl. by split.
  - apply bool_decide_eq_true in Ha. rewrite Ha in Ho. destruct Ho as (Hst & Hc & Htid & Hw & _). unfold Join in E. rewrite Ha in E.
    destruct (child s) eqn:Ec; simplify_eq. unfold sys_inv, waiting in *. cbn in *. rewrite Ec, Eo in *. split_and!; try done; apply Hw.
  - apply bool_decide_eq_true in Ha. unfold Destroy in E.
    assert (child s = CNone \/ child s = CDone) as Hc.
    { destruct (thread_ o) as [[]|]; [done | | by left; destruct Ho as (_ & ? & _)]. right. by destruct Ho as (_ & _ & _ & _ & [? _]). }
    destruct (started_ o) eqn:Es.
    + destruct (thread_ o) as [j|]; [|destruct Ho as (? & _); congruence]. simplify_eq. split; [done|]. by split.
    + simplify_eq. split; [done|]. by split.
Qed.

(** The object while the owner waits. *)
Lemma started_inv s o : sys_inv ktid s -> obj s = Some o -> child s <> CNone \/ owner s <> OIdle ->
  exists j, thread_ o = Some j /\ started_ o = true /\ child s <> CNone /\ (child s <> CTid -> tid_ o = ktid) /\
    waiting s (latch_ o) /\ (j = false -> child s = CDone /\ owner s = OIdle).
Proof.
  intros (_ & _ & Ho) Eo Hs. rewrite Eo in Ho. destruct (thread_ o) as [j|]; [by exists j|].
  exfalso. destruct Ho as (_ & ? & ? & _). by destruct Hs.
Qed.
Lemma alive_inv s : sys_inv ktid s -> owner s <> OIdle \/ (child s <> CNone /\ child s <> CDone) -> exists o, obj s = Some o.
Proof. intros (_ & _ & Ho) Hs. destruct (obj s) as [o|]; [by exists o|]. exfalso. destruct Ho as (? & [?|?]), Hs as [?|[? ?]]; done. Qed.
(** The invariant of a started thread, put together again. *)
Lemma sys_inv_intro s o j : tls_ok ktid (child_tls s) -> ran s = match child s with CDone => 1%nat | _ => 0%nat end ->
  obj s = Some o -> thread_ o = Some j -> started_ o = true -> child s <> CNone -> (child s <> CTid -> tid_ o = ktid) ->
  waiting s (latch_ o) -> (j = false -> child s = CDone /\ owner s = OIdle) -> sys_inv ktid s.
Proof. intros ? ? Eo Et. intros. split; [done|]. split; [done|]. by rewrite Eo, Et. Qed.

Lemma owner_ok e s r : e = EOwner \/ e = EWake -> sys_inv ktid s -> step ktid e s = Some r -> step_ok e s r.
Proof.
  intros He Hinv E. assert (Hidle : owner s <> OIdle) by (destruct He as [->| ->]; cbn in E; by destruct (owner s)).
  destruct (alive_inv s Hinv (or_introl Hidle)) as [o Eo].
  destruct (started_inv s o Hinv Eo (or_intror Hidle)) as (j & Ej & Hst & Hc & Htid & Hw & Hj). destruct Hinv as (Ht & Hr & _).
  assert (Hj' : j = false -> False) by (intros Hf; by destruct (Hj Hf)).
  assert (exists l ow, r = Ok (mkSys (Some (set_latch l o)) (child s) (child_tls s) ow (ran s)) /\
    waiting (mkSys (Some (set_latch l o)) (child s) (child_tls s) ow (ran s)) l) as (l & ow & -> & Hw').
  { destruct Hw as [Hcnt Hw]. destruct He as [->| ->]; cbn in E; unfold with_obj in E; rewrite ?Eo in E; destruct (owner s) eqn:Eow; try done.
    - simplify_eq. unfold owner_test, Wait. destruct Hw as [Hs Hwk]. destruct (Z.eqb_spec (count_ (latch_ o)) 0) as [Ez|Ez]; cbn; eexists _, _;
        (split; [reflexivity|]); (split; [done|]); cbn; [done | left]. rewrite Hs, Hwk. split_and!; [by destruct (child s) | set_solver | done].
    - case_decide as Hin; simplify_eq. destruct Hw as [(_ & _ & Hwk)|[Hs Hwk]]; [rewrite Hwk in Hin; set_solver|].
      unfold owner_test, Wait_again, Wait. cbn. destruct (Z.eqb_spec (count_ (latch_ o)) 0) as [Ez|Ez]; cbn; eexists _, _;
        (split; [reflexivity|]); (split; [done|]); cbn; [split_and!; try done; rewrite Hwk; set_solver | left].
      rewrite Hs, Hwk. split_and!; [by destruct (child s) | set_solver | set_solver].
    - case_decide as Hin; simplify_eq. destruct Hw as [(Hc1 & Hs & Hwk)|[Hs Hwk]]; [|rewrite Hs in Hin; set_solver].
      eexists _, _; (split; [reflexivity|]); (split; [done|]); cbn. right. rewrite Hs, Hwk. split; set_solver. }
  by apply (sys_inv_intro _ (set_latch l o) true); cbn; try done; destruct j.
Qed.

Lemma child_ok x s r : sys_inv ktid s -> step ktid (EChild x) s = Some r -> step_ok (EChild x) s r.
Proof.
  intros Hinv E. cbn in E. unfold child_step in E.
  assert (Hrun : child s <> CNone /\ child s <> CDone) by (by destruct (child s)).
  destruct (alive_inv s Hinv (or_intror Hrun)) as [o Eo].
  destruct (started_inv s o Hinv Eo (or_introl (proj1 Hrun))) as (j & Ej & Hst & Hc & Htid & Hw & Hj). destruct Hinv as (Ht & Hr & _).
  assert (j = true) as -> by (destruct j; [done|]; destruct (Hj eq_refl), Hrun; done).
  unfold with_obj in E. rewrite Eo in E. destruct Hw as [Hcnt Hw]. destruct (child s) eqn:Ec; try done; simplify_eq.
  - destruct (Tid_ok ktid _ Hk Ht) as (t' & -> & Ht' & _). cbn.
    by apply (sys_inv_intro _ (mkThread (started_ o) (thread_ o) ktid (name_ o) (latch_ o)) true).
  - assert (CountDown (latch_ o) = Ok (mkLatch 0 ∅ (woken (latch_ o) ∪ sleeping (latch_ o)))) as ->.
    { unfold CountDown. by rewrite Hcnt. }
    cbn. apply (sys_inv_intro _ (set_latch (mkLatch 0 ∅ (woken (latch_ o) ∪ sleeping (latch_ o))) o) true); try done; cbn.
    { intros _. by apply Htid. }
    split; [done|]. cbn. destruct (owner s).
    + destruct Hw as (? & Hs & Hwk). rewrite Hs, Hwk. split_and!; try done; set_solver.
    + destruct Hw as (Hs & Hwk). rewrite Hs, Hwk. split; [done | set_solver].
    + right. split; [done|]. destruct Hw as [(_ & Hs & Hwk)|[Hs Hwk]]; rewrite Hs, Hwk; set_solver.
  - apply (sys_inv_intro _ o true); try done; cbn. intros _; by apply Htid.
  - apply (sys_inv_intro _ o true); try done; cbn. intros _; by apply Htid.
  - destruct x; simplify_eq; try (by right; split; [|eexists]). apply (sys_inv_intro _ o true); try done; cbn; [by rewrite Hr | intros _; by apply Htid].
Qed.

Lemma step_inv e s r : sys_inv ktid s -> allowed e s = true -> step ktid e s = Some r -> step_ok e s r.
Proof. destruct e; eauto using call_ok, owner_ok, child_ok. Qed.
Lemma init_inv num n num' o : new_Thread num n = Ok (num', o) -> sys_inv ktid (init o).
Proof. unfold new_Thread. intros E. inv_ok. split; [apply new_tls_ok | by cbn]. Qed.
Lemma reach_inv num n num' o s : new_Thread num n = Ok (num', o) -> reach ktid o s -> sys_inv ktid s.
Proof.
  intros Hn. induction 1 as [|e s s' Hr IH Ha E]; [by eapply init_inv|]. by apply (step_inv e s (Ok s')).
Qed.
End Proofs.

(** A sequence of events, stopped by a fault or an event that cannot happen. *)
Fixpoint run (ktid : Z) (es : list event) (s : sys) : option (outcome sys) :=
  match es with
  | [] => Some (Ok s)
  | e :: es => match step ktid e s with Some (Ok s') => run ktid es s' | r => r end
  end.
Fixpoint run_allowed (ktid : Z) (es : list event) (s : sys) : bool :=
  match es with
  | [] => true
  | e :: es => allowed e s && match step ktid e s with Some (Ok s') => run_allowed ktid es s' | _ => true end
  end.
Lemma run_reach ktid o es s s' : reach ktid o s -> run_allowed ktid es s = true -> run ktid es s = Some (Ok s') -> reach ktid o s'.
Proof.
  revert s. induction es as [|e es IH]; intros s Hr Ha E; cbn in *; [by simplify_eq|]. apply andb_true_iff in Ha as [Ha Hrest].
  destruct (step ktid e s) as [[s1|]|] eqn:Es; try done. apply (IH s1); try done. by apply (reach_next ktid o e s).
Qed.

(** C35: starting and joining a thread.  As long as the owner starts the thread once,
    joins it before it destroys the object, and does not join it twice, then in every
    interleaving of owner and thread, with wake-ups nobody asked for: nothing
    undefined happens and no assertion fails, the program can only be ended by the
    thread function throwing or by the system refusing a thread; when [Start] has
    returned, [tid_] is the kernel's id of the new thread; when [Join] has returned, the
    thread function has run, once. *)
Theorem thread_start_join ktid num n num' o s :
  0 < ktid < 2 ^ 31 -> new_Thread num n = Ok (num', o) -> reach ktid o s ->
  (forall e f, allowed e s = true -> step ktid e s = Some (Fault f) ->
     e = ECall (CallStart false) \/ child s = CRun /\ exists x, e = EChild x /\ x <> Returns) /\
  (forall th, obj s = Some th -> thread_ th <> None -> owner s = OIdle -> tid_ th = ktid) /\
  (forall th, obj s = Some th -> thread_ th = Some false -> ran s = 1%nat).
Proof.
  intros Hk Hn Hr. pose proof (reach_inv ktid Hk _ _ _ _ _ Hn Hr) as Hinv. split_and!.
  - intros e f Ha E. exact (step_inv ktid Hk e s (Fault f) Hinv Ha E).
  - intros th Eo Et Eow. destruct Hinv as (_ & _ & Ho). rewrite Eo in Ho. destruct (thread_ th) as [j|]; [|done].
    destruct Ho as (_ & _ & Htid & [Hc Hw] & _). rewrite Eow in Hw. destruct Hw as [Hz _]. apply Htid. intros E. rewrite E in Hc. lia.
  - intros th Eo Et. destruct Hinv as (_ & Hran & Ho). rewrite Eo, Et in Ho. destruct Ho as (_ & _ & _ & _ & Hj).
    destruct (Hj eq_refl) as [Ec _]. by rewrite Hran, Ec.
Qed.

Lemma thread_start_join_witness :
  exists num o s, new_Thread 6 [] = Ok (num, o) /\ name_ o = chars "Thread6" /\
    run 4711 [ECall (CallStart true); EOwner; EChild Returns; EWake; EOwner; EChild Returns; EOwner; EChild Returns;
              EChild Returns; EChild Returns; ECall CallJoin] (init o) = Some (Ok s) /\
    ran s = 1%nat /\ exists th, obj s = Some th /\ tid_ th = 4711.
Proof.
  destruct (new_Thread 6 []) as [[num o]|] eqn:En; [|discriminate (eq_trans (eq_sym En) ltac:(vm_compute; reflexivity))].
  assert (Ho : name_ o = chars "Thread6" /\ started_ o = false /\ thread_ o = None /\ tid_ o = 0 /\ latch_ o = new_CountDownLatch 1).
  { clear -En. vm_compute in En. injection En as <- <-. by vm_compute. }
  destruct o as [st th tid nm la]. cbn in Ho. destruct Ho as (-> & -> & -> & -> & ->).
  eexists num, _, _. split; [reflexivity|]. split; [reflexivity|]. split; [vm_compute; reflexivity|].
  match goal with |- ran ?s = _ /\ _ => set (s1 := s) end.
  assert (Hr : reach 4711 (mkThread false None 0 (chars "Thread6") (new_CountDownLatch 1)) s1).
  { eapply (run_reach _ _ [ECall (CallStart true); EOwner; EChild Returns; EWake; EOwner; EChild Returns; EOwner; EChild Returns;
              EChild Returns; EChild Returns; ECall CallJoin]); [apply reach_init | vm_compute; reflexivity | vm_compute; reflexivity]. }
  destruct (thread_start_join 4711 6 [] num _ s1 ltac:(lia) En Hr) as (_ & Ht & Hj).
  split; [eapply Hj; reflexivity|]. eexists. split; [reflexivity|]. eapply Ht; [reflexivity | discriminate | reflexivity].
Defined.

(** *** Start returns *)
Section Progress.
Context (ktid : Z) (Hk : 0 < ktid < 2 ^ 31).

Lemma child_counts s : sys_inv ktid s -> child s = CTid \/ child s = CCount -> exists s',
  step ktid (EChild Returns) s = Some (Ok s') /\ owner s' = owner s /\
  child s' = (if decide (child s = CTid) then CCount else CName).
Proof.
  intros Hinv Hc. destruct (alive_inv ktid s Hinv) as [o Eo]; [right; by destruct Hc as [->| ->]|].
  destruct (started_inv ktid s o Hinv Eo) as (j & _ & _ & _ & _ & [Hcnt _] & _); [left; by destruct Hc as [->| ->]|].
  cbn. unfold child_step, with_obj. rewrite Eo. destruct Hc as [Ec|Ec]; rewrite Ec in *.
  - destruct (Tid_ok ktid _ Hk (proj1 Hinv)) as (t & -> & _). by eexists.
  - unfold CountDown. rewrite Hcnt. by eexists.
Qed.
Lemma owner_returns s : sys_inv ktid s -> owner s <> OIdle -> child s <> CTid -> child s <> CCount -> exists s' th,
  step ktid EOwner s = Some (Ok s') /\ owner s' = OIdle /\ obj s' = Some th /\ tid_ th = ktid.
Proof.
  intros Hinv How H1 H2. destruct (alive_inv ktid s Hinv) as [o Eo]; [by left|].
  destruct (started_inv ktid s o Hinv Eo) as (j & _ & _ & _ & Htid & [Hcnt Hw] & _); [by right|]. specialize (Htid H1).
  assert (Hz : count_ (latch_ o) = 0) by (by destruct (child s)).
  cbn. unfold with_obj. rewrite Eo. destruct (owner s); [done| |].
  - unfold owner_test, Wait. rewrite Hz. cbn. by eexists _, _.
  - destruct Hw as [(? & _)|[_ Hwk]]; [lia|]. rewrite Hwk, decide_True by set_solver.
    unfold owner_test, Wait_again, Wait. cbn. rewrite Hz. cbn. by eexists _, _.
Qed.
Lemma run_app es es' s s' : run ktid es s = Some (Ok s') -> run ktid (es ++ es') s = run ktid es' s'.
Proof.
  revert s. induction es as [|e es IH]; intros s E; cbn in *; [by simplify_eq|].
  destruct (step ktid e s) as [[s1|]|]; try done. by apply IH.
Qed.
Lemma step_inv_Ok e s s' : sys_inv ktid s -> allowed e s = true -> step ktid e s = Some (Ok s') -> sys_inv ktid s'.
Proof. intros Hi Ha E. exact (step_inv ktid Hk e s (Ok s') Hi Ha E). Qed.
Lemma child_opens s : sys_inv ktid s -> owner s <> OIdle -> exists es s', (length es <= 2)%nat /\ Forall (eq (EChild Returns)) es /\
  run ktid es s = Some (Ok s') /\ sys_inv ktid s' /\ owner s' = owner s /\ child s' <> CTid /\ child s' <> CCount.
Proof.
  intros Hinv How. destruct (decide (child s = CTid)) as [E|E].
  - destruct (child_counts s Hinv (or_introl E)) as (s1 & E1 & O1 & C1). rewrite decide_True in C1 by done.
    pose proof (step_inv_Ok (EChild Returns) s s1 Hinv eq_refl E1) as Hinv1.
    destruct (child_counts s1 Hinv1 (or_intror C1)) as (s2 & E2 & O2 & C2). rewrite decide_False in C2 by congruence.
    exists [EChild Returns; EChild Returns], s2. split; [cbn; lia|]. split; [by repeat constructor|].
    cbn [run]. rewrite E1, E2. split_and!; try done; [by apply (step_inv_Ok (EChild Returns) s1) | congruence..].
  - destruct (decide (child s = CCount)) as [E'|E'].
    + destruct (child_counts s Hinv (or_intror E')) as (s1 & E1 & O1 & C1). rewrite decide_False in C1 by done.
      exists [EChild Returns], s1. split; [cbn; lia|]. split; [by repeat constructor|]. cbn [run]. rewrite E1.
      split_and!; try done; [by apply (step_inv_Ok (EChild Returns) s) | congruence..].
    + exists [], s. split; [cbn; lia|]. by split_and!.
Qed.
End Progress.

(** [Start] returns.  Whatever the owner, the thread and the condition variable have
    done since [Start] was called, at most two more steps of the new thread and one of
    the owner end it, with the id of the thread stored: the two never wait for each
    other. *)
Theorem start_returns ktid num n num' o s :
  0 < ktid < 2 ^ 31 -> new_Thread num n = Ok (num', o) -> reach ktid o s -> owner s <> OIdle ->
  exists es s' th, (length es <= 2)%nat /\ Forall (eq (EChild Returns)) es /\
    run ktid (es ++ [EOwner]) s = Some (Ok s') /\ owner s' = OIdle /\ obj s' = Some th /\ tid_ th = ktid.
Proof.
  intros Hk Hn Hr How. pose proof (reach_inv ktid Hk _ _ _ _ _ Hn Hr) as Hinv.
  destruct (child_opens ktid Hk s Hinv How) as (es & s1 & Hl & Hf & E1 & Hinv1 & O1 & N1 & N2).
  destruct (owner_returns ktid s1 Hinv1 ltac:(congruence) N1 N2) as (s2 & th & E2 & O2 & Eo & Et).
  exists es, s2, th. split_and!; try done. rewrite (run_app ktid es [EOwner] s s1 E1). cbn [run]. by rewrite E2.
Qed.
Lemma start_returns_witness :
  exists num o s es s' th, new_Thread 0 (chars "io") = Ok (num, o) /\
    run 4711 [ECall (CallStart true); EOwner; EWake; EOwner] (init o) = Some (Ok s) /\ owner s = OBlocked /\
    run 4711 (es ++ [EOwner]) s = Some (Ok s') /\ owner s' = OIdle /\ obj s' = Some th /\ tid_ th = 4711.
Proof.
  set (o := mkThread false None 0 (chars "io") (new_CountDownLatch 1)). set (es0 := [ECall (CallStart true); EOwner; EWake; EOwner]).
  assert (En : new_Thread 0 (chars "io") = Ok (1, o)) by (vm_compute; reflexivity).
  destruct (run 4711 es0 (init o)) as [[s|]|] eqn:E; [|discriminate (eq_trans (eq_sym E) ltac:(vm_compute; reflexivity))..].
  assert (Hb : owner s = OBlocked). { clear -E. vm_compute in E. by injection E as <-. }
  assert (Hr : reach 4711 o s). { apply (run_reach 4711 o es0 (init o)); [apply reach_init | vm_compute; reflexivity | exact E]. }
  destruct (start_returns 4711 0 (chars "io") 1 o s ltac:(lia) En Hr ltac:(by rewrite Hb)) as (es & s' & th & _ & _ & E' & O' & Eo & Et).
  exists 1, o, s, es, s', th. by split_and!.
Defined.

(** An owner that destroys a started [Thread] without joining it leaves the thread
    with a dangling [this]: the destructor detaches it, and the thread then reads
    [name_] and [func_] of the object that is gone. *)
Lemma detached_thread_dangles o :
  new_Thread 0 (chars "io") = Ok (1, o) ->
  run 4711 [ECall (CallStart true); EChild Returns; EChild Returns; EOwner; ECall CallDestroy; EChild Returns] (init o) =
    Some (Fault (Undefined "destroyed Thread")).
Proof. intros E. vm_compute in E. injection E as <-. vm_compute. reflexivity. Qed.

(** Threads without a name of their own get different names. *)
Lemma default_names_differ n m n' m' o p : 0 <= n < 2 ^ 31 -> 0 <= m < 2 ^ 31 ->
  new_Thread n [] = Ok (n', o) -> new_Thread m [] = Ok (m', p) -> name_ o = name_ p -> n = m.
Proof.
  assert (H : forall k k' t, 0 <= k < 2 ^ 31 -> new_Thread k [] = Ok (k', t) -> exists d, name_ t = chars "Thread" ++ d /\ dec_nat d = k).
  { intros k k' t Hk E. unfold new_Thread, SetDefaultName in E. destruct (Convert_nonneg 10 k) as (d & Ed & Hc & Hl & Hd); [lia | lia |].
    rewrite decide_True in E by done. rewrite Ed in E. cbn [mbind outcome_bind] in E.
    change 32 with (zlen (replicate 32 Byte.x00)) in E at 1.
    rewrite snprintf_fits in E by (rewrite zlen_app, zlen_replicate; change (zlen (chars "Thread")) with 6; lia).
    cbn [mbind outcome_bind] in E. rewrite cstr_app in E by (apply no_nul_app; split; [by apply (bool_decide_eq_true_1 _); vm_compute | apply digits_no_nul, Hc]).
    injection E as _ <-. by exists d. }
  intros Hn Hm En Em E. destruct (H _ _ _ Hn En) as (d & E1 & <-), (H _ _ _ Hm Em) as (d' & E2 & <-).
  rewrite E1, E2 in E. by apply app_inv_head in E as ->.
Qed.

(** [SleepUsec] passes a valid timespec that stands for the time asked for. *)
Lemma SleepUsec_valid usec : 0 <= usec ->
  let '(sec, nsec) := SleepUsec usec in 0 <= sec /\ 0 <= nsec < 1000000000 /\ sec * 1000000000 + nsec = usec * 1000.
Proof.
  intros H. unfold SleepUsec. rewrite Z.quot_div_nonneg, Z.rem_mod_nonneg by lia. dlia.
Qed.
