(* ===== verification/Logger.v ===== *)
(** * Log lines (src/src/log/Logger.h, Logger.cc)

    A [Logger] lives for one statement: its constructor prints the time, the thread
    and the level into a [LogStream], the statement appends its items, and the
    destructor appends the source position and hands the line to the global output
    function.  The text of the current second and of the thread id are cached per
    thread. *)
From S2P Require Import Prelude SizedBuffer LogStream CString Time Calendar Thread.

(** ** Levels *)
Inductive LogLevel : Type := trace | debug | info | warn | error | fatal | numLogLevels.
#[global] Instance LogLevel_eq_dec : EqDecision LogLevel.
Proof. solve_decision. Defined.
Definition level_Z (l : LogLevel) : Z :=
  match l with trace => 0 | debug => 1 | info => 2 | warn => 3 | error => 4 | fatal => 5 | numLogLevels => 6 end.
(** The table, indexed by the level; each name is a terminated string. *)
Definition logLevelName (l : LogLevel) : outcome (list byte) :=
  match l with
  | trace => Ok (chars "TRACE " ++ [Byte.x00])
  | debug => Ok (chars "DEBUG " ++ [Byte.x00])
  | info => Ok (chars "INFO  " ++ [Byte.x00])
  | warn => Ok (chars "WARN  " ++ [Byte.x00])
  | error => Ok (chars "ERROR " ++ [Byte.x00])
  | fatal => Ok (chars "FATAL " ++ [Byte.x00])
  | numLogLevels => Fault (Undefined "logLevelName[level]")
  end.
(** [env]: the environment variables that are set. *)
Definition InitLogLevel (getenv : string -> bool) : LogLevel :=
  if getenv "LOG_TRACE"%string then trace else if getenv "LOG_DEBUG"%string then debug else info.

(** ** Source files *)
(** [data_] is the array from the pointer on. *)
Record SourceFile : Type := mkSourceFile { data_ : list byte; size_ : Z }.
Definition strrchr (a : list byte) (c : byte) : option Z := rfind_char c (cstr a).
(** The constructor for arrays; [N] is the length of [arr]. *)
Definition SourceFile_array (arr : list byte) : SourceFile :=
  match strrchr arr Byte.x2f with
  | Some slash => mkSourceFile (zdrop (slash + 1) arr) (i32 (zlen arr - 1 - (slash + 1)))
  | None => mkSourceFile arr (zlen arr - 1)
  end.
(** The constructor for pointers. *)
Definition SourceFile_ptr (filename : list byte) : outcome SourceFile :=
  let data := match strrchr filename Byte.x2f with
              | Some slash => zdrop (slash + 1) filename
              | None => filename
              end in
  n ← strlen data; Ok (mkSourceFile data (i32 n)).

(** ** Texts of known length *)
(** [T(str, len)] and its insertion. *)
Definition put_T (str : list byte) (len : Z) (b : SizedBuffer) : outcome SizedBuffer :=
  n ← strlen str;
  _ ← massert (n =? len) "strlen( str ) == len";
  s ← read_from 0 len str;
  Append s b.
Definition put_SourceFile (v : SourceFile) (b : SizedBuffer) : outcome SizedBuffer :=
  s ← read_from 0 (size_ v) (data_ v); Append s b.
(** [Fmt]: a number formatted into 32 characters; [s] is what the format makes. *)
Definition new_Fmt (s : list byte) : outcome (list byte * Z) :=
  '(buf, len) ← snprintf (replicate 32 Byte.x00) 32 s;
  _ ← massert (len <? 32) "static_cast< size_t >( length_ ) < sizeof buf_";
  Ok (buf, len).

(** ** Lines *)
(** The variables of a thread. *)
Record logger_tls : Type := mkLTls {
  tTimeBuf : list byte;        (** 512 characters *)
  tLastSecond : Z;
  thread_tls : tls;
}.
Definition new_logger_tls : logger_tls := mkLTls (replicate 512 Byte.x00) 0 new_tls.
Record Impl : Type := mkImpl {
  time_ : Timestamp;
  stream_ : SizedBuffer;
  level_ : LogLevel;
  line_ : Z;
  basename_ : SourceFile;
}.
Definition set_stream (b : SizedBuffer) (x : Impl) : Impl := mkImpl (time_ x) b (level_ x) (line_ x) (basename_ x).

Section Log.
Context {double float : Type}.
Variable fmt_g : double -> list byte.
Variable double_of_float : float -> double.
(** strerror_r, gettid. *)
Variable strerror : Z -> list byte.
Variable ktid : Z.

Definition ins : item -> SizedBuffer -> outcome SizedBuffer := put fmt_g double_of_float.

Definition FormatTime (x : Impl) (st : logger_tls) : outcome (Impl * logger_tls) :=
  let seconds := Z.quot (time_ x) kMicroSecondsPerSecond in
  let microseconds := i32 (Z.rem (time_ x) kMicroSecondsPerSecond) in
  st ← (if seconds =? tLastSecond st then Ok st else
          s ← date_text (gmtime seconds);
          '(buf, len) ← snprintf (tTimeBuf st) 512 s;
          _ ← massert (len =? 17) "len == 17";
          Ok (mkLTls buf seconds (thread_tls st)));
  u ← fmt0 6 microseconds;
  '(us, len) ← new_Fmt (chars "." ++ u ++ chars "Z ");
  _ ← massert (len =? 9) "us.Length() == 9";
  b ← put_T (tTimeBuf st) 17 (stream_ x);
  b ← put_T us 9 b;
  Ok (set_stream b x, st).

Definition new_Impl (level : LogLevel) (savedErrno : Z) (file : SourceFile) (line : Z) (now : Timestamp) (st : logger_tls)
    : outcome (Impl * logger_tls) :=
  '(x, st) ← FormatTime (mkImpl now (new_SizedBuffer kSmallSize) level line file) st;
  '(_, t) ← Tid ktid (thread_tls st);
  b ← put_T (TidString t) (TidStringLength t) (stream_ x);
  name ← logLevelName level;
  b ← put_T name 6 b;
  b ← (if savedErrno =? 0 then Ok b
       else ofold ins [ICString (Some (strerror savedErrno)); ICString (Some (chars " (errno=")); IInt32 savedErrno;
                       ICString (Some (chars ") "))] b);
  Ok (set_stream b x, mkLTls (tTimeBuf st) (tLastSecond st) t).

Definition Finish (x : Impl) : outcome Impl :=
  b ← ins (ICString (Some (chars " - "))) (stream_ x);
  b ← put_SourceFile (basename_ x) b;
  b ← ofold ins [IChar Byte.x3a; IInt32 (line_ x); IChar Byte.x0a] b;
  Ok (set_stream b x).

(** ** The global hooks *)
Context {W : Type}.
Record globals : Type := mkGlobals {
  globalLogLevel : LogLevel;
  globalOutput : list byte -> W -> outcome W;
  globalFlush : W -> outcome W;
}.
Definition SetLogLevel (level : LogLevel) (g : globals) : globals := mkGlobals level (globalOutput g) (globalFlush g).
Definition SetOutput (out : list byte -> W -> outcome W) (g : globals) : globals :=
  mkGlobals (globalLogLevel g) out (globalFlush g).
Definition SetFlush (flush : W -> outcome W) (g : globals) : globals :=
  mkGlobals (globalLogLevel g) (globalOutput g) flush.

(** ~Logger: the flag tells that it ended in [abort]. *)
Definition destroy_Logger (g : globals) (x : Impl) (w : W) : outcome (W * bool) :=
  x ← Finish x;
  line ← SizedBuffer.ToString (stream_ x);
  w ← globalOutput g line w;
  if decide (level_ x = fatal) then w ← globalFlush g w; Ok (w, true) else Ok (w, false).

(** The log statements: which constructor the macro calls, and whether it asks for
    the level first.  [__FILE__] is a terminated array, [__func__] a string. *)
Inductive macro : Type :=
  LOG_TRACE | LOG_DEBUG | LOG_INFO | LOG_WARN | LOG_ERROR | LOG_FATAL | LOG_SYSERR | LOG_SYSFATAL.
Definition macro_level (m : macro) : LogLevel :=
  match m with
  | LOG_TRACE => trace | LOG_DEBUG => debug | LOG_INFO => info | LOG_WARN => warn
  | LOG_ERROR | LOG_SYSERR => error | LOG_FATAL | LOG_SYSFATAL => fatal
  end.
Definition enabled (m : macro) (g : globals) : bool :=
  match m with
  | LOG_TRACE | LOG_DEBUG | LOG_INFO => level_Z (globalLogLevel g) <=? level_Z (macro_level m)
  | _ => true
  end.
Definition new_Logger (m : macro) (file : SourceFile) (line : Z) (func : list byte) (errno : Z) (now : Timestamp) (st : logger_tls)
    : outcome (Impl * logger_tls) :=
  match m with
  | LOG_TRACE | LOG_DEBUG =>
      '(x, st) ← new_Impl (macro_level m) 0 file line now st;
      b ← ofold ins [ICString (Some func); IChar Byte.x20] (stream_ x);
      Ok (set_stream b x, st)
  | LOG_SYSERR | LOG_SYSFATAL => new_Impl (macro_level m) errno file line now st
  | _ => new_Impl (macro_level m) 0 file line now st
  end.
Definition log (g : globals) (m : macro) (file : list byte) (line : Z) (func : list byte) (errno : Z) (now : Timestamp)
    (items : list item) (st : logger_tls) (w : W) : outcome (W * logger_tls * bool) :=
  if enabled m g then
    f ← SourceFile_ptr file;
    '(x, st) ← new_Logger m f line func errno now st;
    b ← ofold ins items (stream_ x);
    '(w, aborted) ← destroy_Logger g (set_stream b x) w;
    Ok (w, st, aborted)
  else Ok (w, st, false).

(** [CheckNotNull]: a null pointer ([true]) is reported and ends the program. *)
Definition CheckNotNull (g : globals) (file : list byte) (line : Z) (names : list byte) (null : bool) (now : Timestamp)
    (st : logger_tls) (w : W) : outcome (W * logger_tls * bool) :=
  if null then log g LOG_FATAL file line [] 0 now [ICString (Some names)] st w else Ok (w, st, false).
End Log.
Arguments globals : clear implicits.

(** ** Base names *)
(** The file name behind the last slash. *)
Definition base_of (file : list byte) : list byte :=
  match rfind_char Byte.x2f file with Some i => zdrop (i + 1) file | None => file end.

Lemma zdrop_app_cons {A} (a b : list A) c d : zdrop (zlen a + 1) (a ++ c :: b ++ d) = b ++ d.
Proof.
  change (c :: b ++ d) with ([c] ++ b ++ d). rewrite app_assoc. replace (zlen a + 1) with (zlen (a ++ [c])) by (rewrite zlen_app; done).
  apply zdrop_app_len.
Qed.
Lemma base_of_cases file : no_nul file ->
  (exists i, strrchr (file ++ [Byte.x00]) Byte.x2f = Some i /\ zdrop (i + 1) (file ++ [Byte.x00]) = base_of file ++ [Byte.x00] /\
     zlen file - (i + 1) = zlen (base_of file)) \/
  strrchr (file ++ [Byte.x00]) Byte.x2f = None /\ base_of file = file.
Proof.
  intros Hn. unfold strrchr, base_of. rewrite cstr_app by done.
  destruct (rfind_char_cases Byte.x2f file) as [H|(a & b & -> & Hb)].
  - right. by rewrite (proj2 (rfind_char_None _ _) H).
  - left. exists (zlen a). rewrite rfind_char_app by done. split; [done|].
    pose proof (zdrop_app_cons a b Byte.x2f []) as E. rewrite !app_nil_r in E. rewrite E. split.
    + rewrite <- app_assoc. cbn [app]. apply zdrop_app_cons.
    + rewrite zlen_app, zlen_cons. lia.
Qed.
Lemma base_of_no_nul file : no_nul file -> no_nul (base_of file) /\ zlen (base_of file) <= zlen file.
Proof.
  intros Hn. unfold base_of. destruct (rfind_char Byte.x2f file) as [i|]; [|done]. rewrite zlen_zdrop.
  pose proof (zlen_nonneg file). split; [|lia].
  unfold no_nul, zdrop in *. intros Hx. apply Hn. eapply elem_of_submseteq; [exact Hx | apply submseteq_drop].
Qed.

Lemma SourceFile_ptr_Ok file : no_nul file -> zlen file < 2 ^ 31 ->
  SourceFile_ptr (file ++ [Byte.x00]) = Ok (mkSourceFile (base_of file ++ [Byte.x00]) (zlen (base_of file))).
Proof.
  intros Hn Hl. destruct (base_of_no_nul file Hn) as [Hb Hbl]. pose proof (zlen_nonneg (base_of file)).
  unfold SourceFile_ptr. destruct (base_of_cases file Hn) as [(i & -> & -> & _)|[-> E]]; rewrite ?E in *;
    rewrite strlen_app by done; cbn; unfold i32; rewrite sint_small by lia; done.
Qed.

(** The constructor of [SourceFile] that works from the size of an array
    computes what the one does that measures the string: the part of the name behind
    its last slash, and its length. *)
Theorem SourceFile_basename file :
  no_nul file -> zlen file < 2 ^ 31 ->
  SourceFile_ptr (file ++ [Byte.x00]) = Ok (SourceFile_array (file ++ [Byte.x00])) /\
  SourceFile_array (file ++ [Byte.x00]) = mkSourceFile (base_of file ++ [Byte.x00]) (zlen (base_of file)) /\
  (Byte.x2f ∉ base_of file) /\ (exists dir, file = dir ++ base_of file /\ (dir <> [] -> last dir = Some Byte.x2f)).
Proof.
  intros Hn Hl. rewrite SourceFile_ptr_Ok by done. destruct (base_of_no_nul file Hn) as [Hb Hbl]. pose proof (zlen_nonneg (base_of file)).
  assert (E : SourceFile_array (file ++ [Byte.x00]) = mkSourceFile (base_of file ++ [Byte.x00]) (zlen (base_of file))).
  { unfold SourceFile_array. rewrite zlen_app. change (zlen [Byte.x00]) with 1.
    destruct (base_of_cases file Hn) as [(i & -> & -> & Hi)|[-> E]].
    - replace (zlen file + 1 - 1 - (i + 1)) with (zlen (base_of file)) by lia. unfold i32. rewrite sint_small by lia. done.
    - rewrite E. f_equal. lia. }
  rewrite E. split_and!; try done; unfold base_of.
  - destruct (rfind_char_cases Byte.x2f file) as [H1|(a & b & -> & H1)].
    + by rewrite (proj2 (rfind_char_None _ _) H1).
    + rewrite rfind_char_app by done. pose proof (zdrop_app_cons a b Byte.x2f []) as E1. rewrite !app_nil_r in E1. by rewrite E1.
  - destruct (rfind_char_cases Byte.x2f file) as [H1|(a & b & -> & H1)].
    + rewrite (proj2 (rfind_char_None _ _) H1). by exists [].
    + rewrite rfind_char_app by done. pose proof (zdrop_app_cons a b Byte.x2f []) as E1. rewrite !app_nil_r in E1. rewrite E1.
      exists (a ++ [Byte.x2f]). rewrite <- app_assoc. split; [done|]. intros _. by rewrite last_snoc.
Qed.
Lemma SourceFile_basename_witness :
  SourceFile_ptr (chars "src/log/Logger.cc" ++ [Byte.x00]) = Ok (SourceFile_array (chars "src/log/Logger.cc" ++ [Byte.x00])) /\
  base_of (chars "src/log/Logger.cc") = chars "Logger.cc".
Proof.
  split; [|vm_compute; reflexivity]. apply (SourceFile_basename (chars "src/log/Logger.cc")); [no_nul_lit | vm_compute; reflexivity].
Defined.

(** ** The caches *)
Definition cache_ok (ktid : Z) (st : logger_tls) : Prop :=
  zlen (tTimeBuf st) = 512 /\ tls_ok ktid (thread_tls st) /\
  (tLastSecond st = 0 \/ exists date rest, date_text (gmtime (tLastSecond st)) = Ok date /\ zlen date = 17 /\
     tTimeBuf st = date ++ Byte.x00 :: rest).
Lemma new_logger_tls_ok ktid : cache_ok ktid new_logger_tls.
Proof. split; [done|]. split; [apply new_tls_ok | by left]. Qed.

(** The times the program can log: from the second after the epoch to the year 9999. *)
Definition time_ok (t : Timestamp) : Prop := kMicroSecondsPerSecond <= t < year_10000 * kMicroSecondsPerSecond.

Lemma date_text_17 t : 0 <= t < year_10000 -> exists date, date_text (gmtime t) = Ok date /\ zlen date = 17 /\ no_nul date.
Proof.
  intros Ht. destruct (date_text_Ok t Ht) as (y & mo & d & h & mi & s & Hf & E). eexists. split; [done|].
  split; [|by eapply date_text_no_nul]. destruct Hf as [[Ly _] [Lmo _] [Ld _] [Lh _] [Lmi _] [Ls _]].
  rewrite !zlen_app, Ly, Lmo, Ld, Lh, Lmi, Ls. change (zlen (chars " ")) with 1. change (zlen (chars ":")) with 1. lia.
Qed.

Section Lines.
Context {double float : Type}.
Variable fmt_g : double -> list byte.
Variable double_of_float : float -> double.
Variable strerror : Z -> list byte.
Context (ktid : Z) (Hk : 0 < ktid < 2 ^ 31).
Context {W : Type}.
Abbreviation ins := (ins fmt_g double_of_float).

(** A text of known length is inserted like any other text. *)
Lemma put_T_text s rest len b : no_nul s -> zlen s = len -> put_T (s ++ Byte.x00 :: rest) len b = ins (IString s) b.
Proof.
  intros Hn <-. pose proof (zlen_nonneg s). unfold put_T. rewrite strlen_app by done. cbn [mbind outcome_bind].
  rewrite Z.eqb_refl. cbn [massert]. pose proof (zlen_nonneg rest).
  rewrite read_from_Ok by (rewrite ?zlen_app, ?zlen_cons; lia). unfold zslice. rewrite zdrop_0, ztake_app_len. done.
Qed.
Lemma put_SourceFile_text base b : put_SourceFile (mkSourceFile (base ++ [Byte.x00]) (zlen base)) b = ins (IString base) b.
Proof.
  pose proof (zlen_nonneg base). unfold put_SourceFile. cbn [size_ data_].
  rewrite read_from_Ok by (rewrite ?zlen_app; change (zlen [Byte.x00]) with 1; lia). unfold zslice. rewrite zdrop_0, ztake_app_len. done.
Qed.

Lemma new_Fmt_Ok s : zlen s < 32 -> exists rest, new_Fmt s = Ok (s ++ Byte.x00 :: rest, zlen s).
Proof.
  intros Hs. unfold new_Fmt. assert (zlen (replicate 32 Byte.x00) = 32) as L by done.
  replace (snprintf (replicate 32 Byte.x00) 32) with (snprintf (replicate 32 Byte.x00) (zlen (replicate 32 Byte.x00))) by done.
  rewrite snprintf_fits by lia. cbn [mbind outcome_bind]. rewrite (proj2 (Z.ltb_lt _ _) Hs). by eexists.
Qed.

(** What [FormatTime] prints. *)
Definition time_items (date u : list byte) : list (@item double float) :=
  [IString date; IString (chars "." ++ u ++ chars "Z ")].
Lemma FormatTime_items x st : time_ok (time_ x) -> cache_ok ktid st ->
  exists date u st', date_text (gmtime (time_ x / kMicroSecondsPerSecond)) = Ok date /\
    fmt0 6 (time_ x mod kMicroSecondsPerSecond) = Ok u /\ cache_ok ktid st' /\ thread_tls st' = thread_tls st /\
    FormatTime x st = (b ← ofold ins (time_items date u) (stream_ x); Ok (set_stream b x, st')).
Proof.
  unfold time_ok, kMicroSecondsPerSecond. change (1000 * 1000) with 1000000. intros Ht (Hl & Htls & Hc).
  unfold FormatTime, kMicroSecondsPerSecond. change (1000 * 1000) with 1000000. set (t := time_ x) in *.
  rewrite Z.quot_div_nonneg, Z.rem_mod_nonneg by lia. pose proof (Z.mod_pos_bound t 1000000 ltac:(lia)) as Hm.
  assert (Hs : 1 <= t / 1000000 < year_10000) by (split; [apply Z.div_le_lower_bound; lia | apply Z.div_lt_upper_bound; lia]).
  unfold i32. rewrite sint_small by lia.
  destruct (fmt0_Ok 6 (t mod 1000000)) as (u & Eu & Lu & _); [lia | cbn; lia |]. change (Z.of_nat 6) with 6 in *.
  destruct (date_text_17 (t / 1000000) ltac:(lia)) as (date & Ed & Ld & Nd).
  assert (exists rest, let st' := mkLTls (date ++ Byte.x00 :: rest) (t / 1000000) (thread_tls st) in cache_ok ktid st' /\
    (if t / 1000000 =? tLastSecond st then Ok st else
       s ← date_text (gmtime (t / 1000000)); '(buf, len) ← snprintf (tTimeBuf st) 512 s;
       _ ← massert (len =? 17) "len == 17"; Ok (mkLTls buf (t / 1000000) (thread_tls st))) = Ok st') as (rest & Hst' & E).
  { destruct (Z.eqb_spec (t / 1000000) (tLastSecond st)) as [El|El].
    - destruct Hc as [?|(date' & rest & Ed' & Ld' & Eb)]; [lia|]. rewrite <- El in Ed'. assert (date' = date) as -> by congruence.
      exists rest. split; [|destruct st; cbn in *; by subst]. split; [by rewrite <- Hl, <- Eb|]. split; [done|]. right. by exists date, rest.
    - rewrite Ed. cbn [mbind outcome_bind]. rewrite <- Hl. rewrite snprintf_fits by lia. cbn [mbind outcome_bind]. rewrite Ld. cbn [Z.eqb Pos.eqb massert].
      eexists. split; [|reflexivity]. split; [|split; [done|right; by eexists _, _]]. cbn [tTimeBuf].
      rewrite zlen_app, zlen_cons, zlen_zdrop. lia. }
  exists date, u. eexists. split; [done|]. split; [done|]. split; [exact Hst'|]. split; [done|]. rewrite E. cbn [mbind outcome_bind]. rewrite Eu. cbn [mbind outcome_bind].
  assert (Lus : zlen (chars "." ++ u ++ chars "Z ") = 9) by (rewrite !zlen_app, Lu; done).
  assert (Nus : no_nul (chars "." ++ u ++ chars "Z ")).
  { rewrite !no_nul_app. split_and!; [no_nul_lit | by eapply fmt0_no_nul | no_nul_lit]. }
  destruct (new_Fmt_Ok (chars "." ++ u ++ chars "Z ")) as [rest' ->]; [lia|]. rewrite Lus. cbn [mbind outcome_bind].
  cbn [Z.eqb Pos.eqb massert mbind outcome_bind tTimeBuf]. rewrite put_T_text by done.
  unfold time_items. cbn [ofold].
  destruct (ins (IString date) (stream_ x)); cbn [mbind outcome_bind]; [|done]. rewrite put_T_text by done.
  by destruct (ins (IString (chars "." ++ u ++ chars "Z ")) a).
Qed.

Lemma obind_assoc {A B C} (m : outcome A) (f : A -> outcome B) (h : B -> outcome C) :
  ((m ≫= f) ≫= h) = (m ≫= fun x => f x ≫= h).
Proof. by destruct m. Qed.

(** ** The text of a line *)
Definition level_text (m : macro) : list byte :=
  match macro_level m with
  | trace => chars "TRACE " | debug => chars "DEBUG " | info => chars "INFO  "
  | warn => chars "WARN  " | error => chars "ERROR " | _ => chars "FATAL "
  end.
Definition errno_items (savedErrno : Z) : list (@item double float) :=
  if savedErrno =? 0 then []
  else [ICString (Some (strerror savedErrno)); ICString (Some (chars " (errno=")); IInt32 savedErrno; ICString (Some (chars ") "))].
(** What the constructor prints after the level. *)
Definition extra_items (m : macro) (func : list byte) (errno : Z) : list (@item double float) :=
  match m with
  | LOG_TRACE | LOG_DEBUG => [ICString (Some func); IChar Byte.x20]
  | LOG_SYSERR | LOG_SYSFATAL => errno_items errno
  | _ => []
  end.
Definition header (m : macro) (date u tid func : list byte) (errno : Z) : list item :=
  time_items date u ++ [IString (tid ++ chars " "); IString (level_text m)] ++ extra_items m func errno.
Definition trailer (file : list byte) (line : Z) : list (@item double float) :=
  [ICString (Some (chars " - ")); IString (base_of file); IChar Byte.x3a; IInt32 line; IChar Byte.x0a].

Lemma put_level m b : (name ← logLevelName (macro_level m); put_T name 6 b) = ins (IString (level_text m)) b.
Proof. destruct m; cbn [macro_level logLevelName mbind outcome_bind level_text]; apply put_T_text; (no_nul_lit || done). Qed.

Lemma new_Impl_items m savedErrno file line now st : time_ok now -> cache_ok ktid st ->
  exists date u tid st', date_text (gmtime (now / kMicroSecondsPerSecond)) = Ok date /\
    fmt0 6 (now mod kMicroSecondsPerSecond) = Ok u /\ fmt_sp 5 ktid = Ok tid /\ cache_ok ktid st' /\
    new_Impl fmt_g double_of_float strerror ktid (macro_level m) savedErrno file line now st =
      (b ← ofold ins (time_items date u ++ [IString (tid ++ chars " "); IString (level_text m)] ++ errno_items savedErrno)
             (new_SizedBuffer kSmallSize);
       Ok (mkImpl now b (macro_level m) line file, st')).
Proof.
  intros Ht Hc. destruct (FormatTime_items (mkImpl now (new_SizedBuffer kSmallSize) (macro_level m) line file) st Ht Hc)
    as (date & u & st1 & Ed & Eu & Hc1 & Htls & E). destruct Hc1 as (Hl1 & Ht1 & Hd1).
  destruct (Tid_ok ktid (thread_tls st1) Hk Ht1) as (t' & Et & Htls' & Eid & _).
  pose proof Htls' as [_ [?|(_ & s & rest & Es & Ef & Hn & Elen & _)]]; [lia|].
  exists date, u, s, (mkLTls (tTimeBuf st1) (tLastSecond st1) t'). split_and!; try done.
  unfold new_Impl. rewrite E. rewrite ofold_app, !obind_assoc. cbn [stream_].
  destruct (ofold ins (time_items date u) (new_SizedBuffer kSmallSize)) as [b|]; cbn [mbind outcome_bind]; [|done].
  rewrite Et. cbn [mbind outcome_bind]. unfold TidString, TidStringLength. rewrite Es, Elen.
  rewrite put_T_text; [|apply no_nul_app; split; [done | no_nul_lit] | rewrite zlen_app; done].
  cbn [ofold app]. rewrite !obind_assoc. cbn [stream_ set_stream].
  destruct (ins (IString (s ++ chars " ")) b) as [b1|]; cbn [mbind outcome_bind]; [|done].
  pose proof (put_level m b1) as El. destruct (logLevelName (macro_level m)) as [name|] eqn:En; cbn [mbind outcome_bind] in *.
  - rewrite El. destruct (ins (IString (level_text m)) b1) as [b2|]; cbn [mbind outcome_bind]; [|done]. unfold errno_items. by case_if.
  - by rewrite <- El.
Qed.

Lemma new_Logger_items m file line func errno now st : time_ok now -> cache_ok ktid st ->
  exists date u tid st', date_text (gmtime (now / kMicroSecondsPerSecond)) = Ok date /\
    fmt0 6 (now mod kMicroSecondsPerSecond) = Ok u /\ fmt_sp 5 ktid = Ok tid /\ cache_ok ktid st' /\
    new_Logger fmt_g double_of_float strerror ktid m file line func errno now st =
      (b ← ofold ins (header m date u tid func errno) (new_SizedBuffer kSmallSize);
       Ok (mkImpl now b (macro_level m) line file, st')).
Proof.
  intros Ht Hc.
  destruct (new_Impl_items m (match m with LOG_SYSERR | LOG_SYSFATAL => errno | _ => 0 end) file line now st Ht Hc)
    as (date & u & tid & st' & Ed & Eu & Et & Hc' & E).
  exists date, u, tid, st'. split_and!; try done. unfold new_Logger, header, extra_items.
  destruct m; try (change (errno_items 0) with (@nil (@item double float)) in E); rewrite ?app_nil_r in E; rewrite E; try done.
  all: rewrite app_assoc, (ofold_app _ _ [ICString (Some func); _]), !obind_assoc.
  all: match goal with |- context [ofold ins ?l ?b] => destruct (ofold ins l b) as [b1|] end; done.
Qed.

(** The end of a statement: the line is handed over, a fatal one is flushed. *)
Definition emit (g : globals W) (m : macro) (line : list byte) (st : logger_tls) (w : W) : outcome (W * logger_tls * bool) :=
  w ← globalOutput g line w;
  if decide (macro_level m = fatal) then w ← globalFlush g w; Ok (w, st, true) else Ok (w, st, false).

Lemma Finish_items now b m line file :
  Finish fmt_g double_of_float (mkImpl now b (macro_level m) line (mkSourceFile (base_of file ++ [Byte.x00]) (zlen (base_of file)))) =
    (b ← ofold ins (trailer file line) b; Ok (mkImpl now b (macro_level m) line (mkSourceFile (base_of file ++ [Byte.x00]) (zlen (base_of file))))).
Proof.
  unfold Finish, trailer. cbn [stream_ basename_ line_ ofold]. rewrite !obind_assoc.
  destruct (ins (ICString (Some (chars " - "))) b) as [b1|]; cbn [mbind outcome_bind]; [|done].
  rewrite put_SourceFile_text, !obind_assoc. destruct (ins (IString (base_of file)) b1); done.
Qed.

Hypothesis fmt_g_short : forall v, zlen (fmt_g v) < kMaxNumericSize.

Lemma log_emits (g : globals W) m file line func errno now items st w :
  time_ok now -> cache_ok ktid st -> no_nul file -> zlen file < 2 ^ 31 -> - 2 ^ 31 <= line < 2 ^ 31 -> - 2 ^ 31 <= errno < 2 ^ 31 ->
  Forall item_ok items -> enabled m g = true ->
  exists date u tid st', date_text (gmtime (now / kMicroSecondsPerSecond)) = Ok date /\
    fmt0 6 (now mod kMicroSecondsPerSecond) = Ok u /\ fmt_sp 5 ktid = Ok tid /\ cache_ok ktid st' /\
    log fmt_g double_of_float strerror ktid g m (file ++ [Byte.x00]) line func errno now items st w =
      emit g m (foldl (print fmt_g double_of_float kSmallSize) [] (header m date u tid func errno ++ items ++ trailer file line)) st' w.
Proof.
  intros Ht Hc Hn Hf Hline Herr Hitems Hen.
  destruct (new_Logger_items m (mkSourceFile (base_of file ++ [Byte.x00]) (zlen (base_of file))) line func errno now st Ht Hc)
    as (date & u & tid & st' & Ed & Eu & Et & Hc' & E).
  exists date, u, tid, st'. split_and!; try done.
  assert (Hall : Forall item_ok (header m date u tid func errno ++ items ++ trailer file line)).
  { rewrite !Forall_app. split_and!; [|done|].
    - unfold header, extra_items, errno_items. destruct m; cbn; try case_if; repeat (constructor; [done || lia|]); constructor.
    - repeat (constructor; [done || (cbn; lia)|]). constructor. }
  destruct (put_all fmt_g double_of_float fmt_g_short _ (new_SizedBuffer kSmallSize)
    (proj1 (new_SizedBuffer_wf kSmallSize ltac:(unfold kSmallSize; lia))) Hall) as (b & Eb & Hb & _ & Etext).
  rewrite (proj2 (new_SizedBuffer_wf kSmallSize ltac:(unfold kSmallSize; lia))) in Etext.
  change (zlen (SizedBuffer.data_ (new_SizedBuffer kSmallSize))) with kSmallSize in Etext.
  rewrite <- Etext. clear Etext. unfold log. rewrite Hen, SourceFile_ptr_Ok by done. cbn [mbind outcome_bind]. rewrite E.
  rewrite ofold_app in Eb. change (put fmt_g double_of_float) with ins in Eb. rewrite !obind_assoc.
  destruct (ofold ins (header m date u tid func errno) (new_SizedBuffer kSmallSize)) as [b1|]; cbn [mbind outcome_bind] in *; [|done].
  cbn [stream_]. rewrite ofold_app in Eb. destruct (ofold ins items b1) as [b2|]; cbn [mbind outcome_bind] in *; [|done].
  unfold destroy_Logger, set_stream. cbn [time_ level_ line_ basename_]. rewrite Finish_items, Eb. cbn [mbind outcome_bind stream_].
  rewrite ToString_spec by done. cbn [mbind outcome_bind]. unfold emit. destruct (globalOutput g (text b) w) as [w'|]; cbn [mbind outcome_bind level_]; [|done].
  case_decide; [|done]. by destruct (globalFlush g w').
Qed.

(** Nothing leaves the buffer before it is full. *)
Lemma print_short size t xs : zlen t < size -> (forall x, In x xs -> item_ok x) -> zlen (foldl (print fmt_g double_of_float size) t xs) < size.
Proof.
  revert t. induction xs as [|x xs IH]; intros t Ht Hx; cbn; [done|]. apply IH; [|intros; apply Hx; by right].
  unfold print. destruct (Z.leb_spec (item_room fmt_g double_of_float x) (size - zlen t)) as [Hr|]; [|done]. rewrite zlen_app.
  assert (Hx0 : item_ok x) by (apply Hx; by left).
  assert (HC : forall v, - 2 ^ 63 <= v < 2 ^ 64 -> zlen (match Convert v with Ok s => s | Fault _ => [] end) <= 20).
  { intros v Hv. destruct (Convert_Ok v Hv) as (s0 & -> & Hl & _). done. }
  destruct x as [| | | | | | |v|v|v| |[]| | |]; cbn [item_room item_text item_ok] in *; unfold kMaxNumericSize in *; try lia;
    try (match goal with |- context [Convert ?v] => specialize (HC v ltac:(lia)) end; lia).
  - destruct (ConvertHex_Ok v Hx0) as (s0 & -> & Hl & _). rewrite zlen_app. change (zlen (chars "0x")) with 2. lia.
  - specialize (fmt_g_short (double_of_float v)). lia.
  - specialize (fmt_g_short v). lia.
  - change (zlen (@nil byte)) with 0. lia.
Qed.
Lemma line_short m date u tid func errno items file line : 
  - 2 ^ 31 <= line < 2 ^ 31 -> - 2 ^ 31 <= errno < 2 ^ 31 -> Forall item_ok items ->
  zlen (foldl (print fmt_g double_of_float kSmallSize) [] (header m date u tid func errno ++ items ++ trailer file line)) < kSmallSize.
Proof.
  intros Hl He Hi. apply print_short; [done|]. apply List.Forall_forall. rewrite !Forall_app. split_and!; [|done|].
  - unfold header, extra_items, errno_items. destruct m; cbn; try case_if; repeat (constructor; [done || lia|]); constructor.
  - repeat (constructor; [done || (cbn; lia)|]). constructor.
Qed.
End Lines.

(** The text between level and message. *)
Definition extra_text (strerror : Z -> list byte) (m : macro) (func : list byte) (errno : Z) : list byte :=
  match m with
  | LOG_TRACE | LOG_DEBUG => func ++ chars " "
  | LOG_SYSERR | LOG_SYSFATAL =>
      if errno =? 0 then []
      else strerror errno ++ chars " (errno=" ++ match Convert errno with Ok s => s | Fault _ => [] end ++ chars ") "
  | _ => []
  end.

(** C30: a log statement writes one line, in the format of the library.  For every
    statement made between 1970 and 9999, in a thread whose caches are in order: if its
    level is switched off nothing happens; otherwise no assertion fails, the output
    function is called once, and a fatal statement flushes and aborts after that.  When
    the complete line is no longer than [kSmallSize - kMaxNumericSize] bytes (otherwise
    its end is missing: [long_message_runs_on]) it reads: date and time of the statement, microseconds,
    thread id, level, function name or error text, the items, and the base name
    and line number of the source.  The caches stay in order. *)
Theorem log_line {double float W : Type} (fmt_g : double -> list byte) (double_of_float : float -> double) strerror ktid
    (g : globals W) m file line func errno now items st w :
  (forall v, zlen (fmt_g v) < kMaxNumericSize) -> 0 < ktid < 2 ^ 31 -> time_ok now -> cache_ok ktid st ->
  no_nul file -> zlen file < 2 ^ 31 -> - 2 ^ 31 <= line < 2 ^ 31 -> - 2 ^ 31 <= errno < 2 ^ 31 -> Forall item_ok items ->
  if enabled m g then
    exists date u tid ln st' text,
      date_text (gmtime (now / kMicroSecondsPerSecond)) = Ok date /\ fmt0 6 (now mod kMicroSecondsPerSecond) = Ok u /\
      fmt_sp 5 ktid = Ok tid /\ Convert line = Ok ln /\ cache_ok ktid st' /\
      log fmt_g double_of_float strerror ktid g m (file ++ [Byte.x00]) line func errno now items st w = emit g m text st' w /\
      zlen text < kSmallSize /\
      let full := date ++ chars "." ++ u ++ chars "Z " ++ tid ++ chars " " ++ level_text m ++ extra_text strerror m func errno ++
                  concat (item_text fmt_g double_of_float <$> items) ++ chars " - " ++ base_of file ++ chars ":" ++ ln ++ [Byte.x0a] in
      zlen full + kMaxNumericSize <= kSmallSize -> text = full
  else log fmt_g double_of_float strerror ktid g m (file ++ [Byte.x00]) line func errno now items st w = Ok (w, st, false).
Proof.
  intros Hg Hk Ht Hc Hn Hf Hl He Hi. destruct (enabled m g) eqn:En; [|unfold log; by rewrite En].
  destruct (log_emits fmt_g double_of_float strerror ktid Hk Hg g m file line func errno now items st w)
    as (date & u & tid & st' & Ed & Eu & Et & Hc' & E); try done.
  destruct (Convert_Ok line ltac:(lia)) as (ln & El & _).
  exists date, u, tid, ln, st'. eexists. split_and!; try done.
  - by apply line_short.
  - intros full Hfull.
    assert (Efull : concat (item_text fmt_g double_of_float <$> (header strerror m date u tid func errno ++ items ++ trailer file line)) = full).
    { unfold full, header, trailer, time_items, extra_items, errno_items, extra_text. rewrite !fmap_app, !concat_app.
      cbn [fmap list_fmap concat item_text]. rewrite El. destruct m; try case_if; cbn [fmap list_fmap concat item_text app];
        rewrite ?app_nil_r, <- ?app_assoc; done. }
    rewrite <- Efull in *. apply (print_fits fmt_g double_of_float kSmallSize []). done.
Qed.

(** Output that collects lines, for examples. *)
Definition ex_globals : globals (list (list byte)) := mkGlobals info (fun l w => Ok (w ++ [l])) (fun w => Ok w).
Definition ex_fmt (_ : unit) : list byte := chars "0.5".
Definition ex_float (u : unit) : unit := u.
Definition ex_strerror (_ : Z) : list byte := chars "Connection refused".
Lemma log_line_witness :
  exists st', log ex_fmt ex_float ex_strerror 4711 ex_globals LOG_SYSERR (chars "src/net/Acceptor.cc" ++ [Byte.x00]) 61 [] 111 1660000000000042
      [ICString (Some (chars "accept ")); IInt32 (-7)] new_logger_tls [] =
    Ok ([chars "20220808 23:06:40.000042Z  4711 ERROR Connection refused (errno=111) accept -7 - Acceptor.cc:61" ++ [Byte.x0a]], st', false).
Proof.
  pose proof (log_line ex_fmt ex_float ex_strerror 4711 ex_globals LOG_SYSERR (chars "src/net/Acceptor.cc") 61 [] 111 1660000000000042
    [ICString (Some (chars "accept ")); IInt32 (-7)] new_logger_tls []) as H. cbn [enabled ex_globals] in H.
  destruct H as (date & u & tid & ln & st' & text & Ed & Eu & Et & El & _ & E & _ & Hfull).
  - intros v. vm_compute. reflexivity.
  - lia.
  - unfold time_ok, year_10000, kMicroSecondsPerSecond. lia.
  - apply new_logger_tls_ok.
  - no_nul_lit.
  - vm_compute. reflexivity.
  - lia.
  - lia.
  - repeat (constructor; [done || (cbn; lia)|]). constructor.
  - vm_compute in Ed, Eu, Et, El. injection Ed as <-. injection Eu as <-. injection Et as <-. injection El as <-.
    rewrite Hfull in E by (vm_compute; discriminate). exists st'. rewrite E. vm_compute. reflexivity.
Defined.

(** ** A sequence of statements in one thread *)
Section Statements.
Context {double float W : Type}.
Variable fmt_g : double -> list byte.
Variable double_of_float : float -> double.
Variable strerror : Z -> list byte.
Variable ktid : Z.
Variable g : globals W.

Record statement : Type := mkStatement {
  s_macro : macro; s_file : list byte; s_line : Z; s_func : list byte; s_errno : Z; s_now : Timestamp;
  s_items : list (@item double float);
}.
Definition log_one (s : statement) : logger_tls -> W -> outcome (W * logger_tls * bool) :=
  log fmt_g double_of_float strerror ktid g (s_macro s) (s_file s ++ [Byte.x00]) (s_line s) (s_func s) (s_errno s) (s_now s) (s_items s).
(** The statements run in order until one aborts. *)
Fixpoint log_all (ss : list statement) (st : logger_tls) (w : W) : outcome (W * bool) :=
  match ss with
  | [] => Ok (w, false)
  | s :: ss => '((w, st), aborted) ← log_one s st w; if (aborted : bool) then Ok (w, true) else log_all ss st w
  end.
(** The same without caches: every statement formats its date and thread id anew. *)
Fixpoint log_uncached (ss : list statement) (w : W) : outcome (W * bool) :=
  match ss with
  | [] => Ok (w, false)
  | s :: ss => '((w, _), aborted) ← log_one s new_logger_tls w; if (aborted : bool) then Ok (w, true) else log_uncached ss w
  end.
Definition statement_ok (s : statement) : Prop :=
  time_ok (s_now s) /\ no_nul (s_file s) /\ zlen (s_file s) < 2 ^ 31 /\ - 2 ^ 31 <= s_line s < 2 ^ 31 /\
  - 2 ^ 31 <= s_errno s < 2 ^ 31 /\ Forall item_ok (s_items s).

End Statements.

(** What a statement prints depends neither on the caches nor on where its line goes. *)
Lemma log_one_same {double float W W' : Type} (fmt_g : double -> list byte) (double_of_float : float -> double) strerror ktid
    (g : globals W) (g' : globals W') (s : @statement double float) st st' w w' :
  (forall v, zlen (fmt_g v) < kMaxNumericSize) -> 0 < ktid < 2 ^ 31 -> globalLogLevel g' = globalLogLevel g ->
  statement_ok s -> cache_ok ktid st -> cache_ok ktid st' ->
  exists st1 st2, cache_ok ktid st1 /\ cache_ok ktid st2 /\
    (log_one fmt_g double_of_float strerror ktid g s st w = Ok (w, st1, false) /\
     log_one fmt_g double_of_float strerror ktid g' s st' w' = Ok (w', st2, false) \/
     exists text, log_one fmt_g double_of_float strerror ktid g s st w = emit g (s_macro s) text st1 w /\
       log_one fmt_g double_of_float strerror ktid g' s st' w' = emit g' (s_macro s) text st2 w').
Proof.
  intros Hg Hk Hlv (Ht & Hn & Hf & Hl & He & Hi) Hc Hc'. unfold log_one.
  assert (En' : enabled (s_macro s) g' = enabled (s_macro s) g) by (unfold enabled; by rewrite Hlv).
  destruct (enabled (s_macro s) g) eqn:En.
  - destruct (log_emits fmt_g double_of_float strerror ktid Hk Hg g (s_macro s) (s_file s) (s_line s) (s_func s) (s_errno s) (s_now s)
      (s_items s) st w) as (d & u & t & st1 & Ed & Eu & Et & Hc1 & E1); try done.
    destruct (log_emits fmt_g double_of_float strerror ktid Hk Hg g' (s_macro s) (s_file s) (s_line s) (s_func s) (s_errno s) (s_now s)
      (s_items s) st' w') as (d' & u' & t' & st2 & Ed' & Eu' & Et' & Hc2 & E2); try done.
    rewrite Ed in Ed'. rewrite Eu in Eu'. rewrite Et in Et'. simplify_eq. exists st1, st2. split_and!; [done..|]. right. eexists. by split.
  - exists st, st'. split_and!; [done..|]. left. unfold log. by rewrite En, En'.
Qed.

(** C36: the thread-local caches are transparent.  Any sequence of log statements of a
    thread, whatever their times (the clock may stand still, jump or go back), produces
    the same calls of the output and flush functions and ends the program at the same
    statement as if date and thread id were formatted anew for every line. *)
Theorem log_cache_transparent {double float W : Type} (fmt_g : double -> list byte) (double_of_float : float -> double) strerror ktid
    (g : globals W) (ss : list (@statement double float)) st w :
  (forall v, zlen (fmt_g v) < kMaxNumericSize) -> 0 < ktid < 2 ^ 31 -> cache_ok ktid st -> Forall statement_ok ss ->
  log_all fmt_g double_of_float strerror ktid g ss st w = log_uncached fmt_g double_of_float strerror ktid g ss w.
Proof.
  intros Hg Hk Hc Hs. revert st w Hc. induction Hs as [|s ss Hs0 Hss IH]; intros st w Hc; cbn [log_all log_uncached]; [done|].
  destruct (log_one_same fmt_g double_of_float strerror ktid g g s st new_logger_tls w w Hg Hk eq_refl Hs0 Hc (new_logger_tls_ok ktid))
    as (st1 & st2 & Hc1 & _ & [[-> ->]|(text & -> & ->)]).
  - cbn [mbind outcome_bind]. by apply IH.
  - unfold emit. destruct (globalOutput g text w) as [w1|]; cbn [mbind outcome_bind]; [|done]. case_decide.
    + by destruct (globalFlush g w1).
    + cbn [mbind outcome_bind]. by apply IH.
Qed.
Lemma log_cache_transparent_witness :
  let s n : @statement unit unit := mkStatement LOG_INFO (chars "main.cc") 3 [] 0 n [ICString (Some (chars "tick"))] in
  log_all ex_fmt ex_float ex_strerror 7 ex_globals [s 1660000000000042; s 1660000000999999; s 1660000001000000; s 1660000000500000] new_logger_tls [] =
  log_uncached ex_fmt ex_float ex_strerror 7 ex_globals [s 1660000000000042; s 1660000000999999; s 1660000001000000; s 1660000000500000] [].
Proof.
  intros s. apply (log_cache_transparent ex_fmt ex_float ex_strerror 7 ex_globals).
  - intros v. vm_compute. reflexivity.
  - lia.
  - apply new_logger_tls_ok.
  - assert (Hs : forall n, time_ok n -> statement_ok (s n)).
    { intros n Hn. split; [done|]. split; [no_nul_lit|]. split; [vm_compute; reflexivity|]. split; [cbn; lia|]. split; [cbn; lia|].
      by repeat constructor. }
    repeat (constructor; [apply Hs; unfold time_ok, year_10000, kMicroSecondsPerSecond; lia|]). constructor.
Defined.

(** The caches start out as if second 0 had been formatted, but the buffer is empty: a
    statement made in the very first second of 1970 fails the assertion of [T]. *)
Lemma epoch_second_asserts :
  log ex_fmt ex_float ex_strerror 7 ex_globals LOG_INFO (chars "main.cc" ++ [Byte.x00]) 3 [] 0 42 [] new_logger_tls [] =
    Fault (Assertion "strlen( str ) == len").
Proof. vm_compute. reflexivity. Qed.
(** A message that leaves no room loses the source position and the end of line. *)
Lemma long_message_runs_on :
  exists line st, log ex_fmt ex_float ex_strerror 7 ex_globals LOG_INFO (chars "main.cc" ++ [Byte.x00]) 3 [] 0 1660000000000042
      [IString (replicate 4057 Byte.x61)] new_logger_tls [] = Ok ([line], st, false) /\ last line = Some Byte.x61.
Proof. eexists _, _. split; vm_compute; reflexivity. Qed.

(** ** The hooks a program starts with
    stdout of the C library: [shown] is what fflush(3) has certainly written out, [held]
    what was handed over since.  [fwrite] tells how many bytes a call takes. *)
Record stdout_t : Type := mkStdout { shown : list byte; held : list byte }.
Definition WriteStdout (fwrite : list byte -> Z) (buf : list byte) (w : stdout_t) : outcome stdout_t :=
  Ok (mkStdout (shown w) (held w ++ ztake (fwrite buf) buf)).
Definition FlushStdout (w : stdout_t) : outcome stdout_t := Ok (mkStdout (shown w ++ held w) []).
Definition default_globals (fwrite : list byte -> Z) (level : LogLevel) : globals stdout_t :=
  mkGlobals level (WriteStdout fwrite) FlushStdout.

(** The lines of a program as its hooks get them, one by one. *)
Definition lines_globals (level : LogLevel) : globals (list (list byte)) :=
  mkGlobals level (fun line w => Ok (w ++ [line])) (fun w => Ok w).

(** A program that logs to stdout prints its lines whole and in order, and if a fatal
    statement ends it, none of them is left behind in the buffer of the C library. *)
Theorem stdout_complete {double float : Type} (fmt_g : double -> list byte) (double_of_float : float -> double) strerror ktid
    fwrite level (ss : list (@statement double float)) w lines ended :
  (forall v, zlen (fmt_g v) < kMaxNumericSize) -> 0 < ktid < 2 ^ 31 -> Forall statement_ok ss ->
  (forall d, fwrite d = zlen d) ->
  log_all fmt_g double_of_float strerror ktid (lines_globals level) ss new_logger_tls [] = Ok (lines, ended) ->
  exists w', log_all fmt_g double_of_float strerror ktid (default_globals fwrite level) ss new_logger_tls w = Ok (w', ended) /\
    shown w' ++ held w' = shown w ++ held w ++ concat lines /\ (ended = true -> held w' = []).
Proof.
  intros Hg Hk Hs Hfw.
  enough (Hgen : forall ls st st', cache_ok ktid st -> cache_ok ktid st' ->
      log_all fmt_g double_of_float strerror ktid (lines_globals level) ss st ls = Ok (lines, ended) ->
      exists w' rest, lines = ls ++ rest /\
        log_all fmt_g double_of_float strerror ktid (default_globals fwrite level) ss st' w = Ok (w', ended) /\
        shown w' ++ held w' = shown w ++ held w ++ concat rest /\ (ended = true -> held w' = [])).
  { intros E. destruct (Hgen [] _ _ (new_logger_tls_ok ktid) (new_logger_tls_ok ktid) E) as (w' & rest & -> & H). by exists w'. }
  revert w. induction Hs as [|s ss Hs0 Hss IH]; intros w ls st st' Hc Hc' E; cbn [log_all] in *.
  - injection E as <- <-. exists w, []. by rewrite !app_nil_r.
  - destruct (log_one_same fmt_g double_of_float strerror ktid (lines_globals level) (default_globals fwrite level) s st st' ls w
      Hg Hk eq_refl Hs0 Hc Hc') as (st1 & st2 & Hc1 & Hc2 & [[E1 E2]|(text & E1 & E2)]); rewrite E1 in E; rewrite E2.
    + cbn [mbind outcome_bind] in *. by apply (IH w ls st1 st2).
    + unfold emit in *. cbn [globalOutput globalFlush lines_globals default_globals WriteStdout mbind outcome_bind] in *.
      rewrite Hfw, ztake_all by lia. case_decide; cbn [mbind outcome_bind FlushStdout shown held] in *.
      * injection E as <- <-. eexists _, [text]. split_and!; [done | done | | done]. cbn. by rewrite !app_nil_r.
      * destruct (IH (mkStdout (shown w) (held w ++ text)) _ st1 st2 Hc1 Hc2 E) as (w' & rest & -> & E' & Hw & Hh).
        exists w', (text :: rest). split_and!; [by rewrite <- app_assoc | done | | done]. rewrite Hw. cbn. by rewrite <- !app_assoc.
Qed.
Lemma stdout_complete_witness :
  let s m : @statement unit unit := mkStatement m (chars "main.cc") 3 [] 0 1660000000000042 [ICString (Some (chars "tick"))] in
  exists w', log_all ex_fmt ex_float ex_strerror 7 (default_globals zlen info) [s LOG_INFO; s LOG_FATAL; s LOG_INFO] new_logger_tls (mkStdout [] []) =
      Ok (w', true) /\ shown w' =
    chars "20220808 23:06:40.000042Z     7 INFO  tick - main.cc:3" ++ [Byte.x0a] ++
    chars "20220808 23:06:40.000042Z     7 FATAL tick - main.cc:3" ++ [Byte.x0a] /\ held w' = [].
Proof.
  intros s. destruct (log_all ex_fmt ex_float ex_strerror 7 (lines_globals info) [s LOG_INFO; s LOG_FATAL; s LOG_INFO] new_logger_tls [])
    as [[lines ended]|] eqn:E; [|vm_compute in E; discriminate E].
  destruct (stdout_complete ex_fmt ex_float ex_strerror 7 zlen info [s LOG_INFO; s LOG_FATAL; s LOG_INFO] (mkStdout [] []) lines ended)
    as (w' & E' & Hw & Hh).
  - intros v. vm_compute. reflexivity.
  - lia.
  - assert (Hs : forall m, statement_ok (s m)).
    { intros m. split; [unfold time_ok, year_10000, kMicroSecondsPerSecond; cbn; lia|]. split; [no_nul_lit|]. split; [vm_compute; reflexivity|].
      split; [cbn; lia|]. split; [cbn; lia|]. by repeat constructor. }
    do 3 (constructor; [apply Hs|]). constructor.
  - done.
  - exact E.
  - exists w'. vm_compute in E. injection E as <- <-. specialize (Hh eq_refl). split; [exact E'|]. rewrite Hh in Hw |- *.
    rewrite app_nil_r in Hw. split; [|reflexivity]. rewrite Hw. vm_compute. reflexivity.
Defined.
