(* ===== verification/TimerQueue.v ===== *)
(** * Timers (src/src/network/Timer.h, Timer.cc, TimerId.h, TimerQueue.h, TimerQueue.cc)

    A [Timer*] is the address of an entry of [heap]; [new] picks a free address
    and [delete] removes the entry, so use after free and double deletion are
    visible as [Undefined].  [timers_] is the ordered [std::set<Entry>] as a
    strictly sorted list; [activeTimers_] and [cancelingTimers_], used only for
    membership, are finite sets.  Reads of the clock and the addresses [new]
    returns are arguments.  A timer callback is a name [CB]; the commands it
    issues on the queue are given by a program [prog], any function of the queue
    at the moment it runs. *)
From stdpp Require Import sorting.
From S2P Require Import Prelude Time.

Definition UINTPTR_MAX : Z := 2 ^ 64 - 1.

(** ** Ordered sets of entries *)

(** [std::pair<Timestamp, Timer*>], ordered lexicographically. *)
Abbreviation Entry := (Timestamp * Z)%type (only parsing).
Definition Entry_lt (a b : Entry) : Prop := a.1 < b.1 \/ (a.1 = b.1 /\ a.2 < b.2).
Definition Entry_ltb (a b : Entry) : bool := (a.1 <? b.1) || ((a.1 =? b.1) && (a.2 <? b.2)).

(** [std::set::insert]: the new set, and whether the entry was not there. *)
Fixpoint set_insert (e : Entry) (l : list Entry) : list Entry * bool :=
  match l with
  | [] => ([e], true)
  | x :: t =>
      if decide (e = x) then (l, false)
      else if Entry_ltb e x then (e :: l, true)
      else let '(t', b) := set_insert e t in (x :: t', b)
  end.
(** [std::set::erase(key)]: the new set, and the number of entries removed. *)
Definition set_erase (e : Entry) (l : list Entry) : list Entry * Z :=
  (filter (fun x => x <> e) l, if decide (e ∈ l) then 1 else 0).
(** The entries before [lower_bound(e)], and those from it on. *)
Fixpoint lower_bound (e : Entry) (l : list Entry) : list Entry * list Entry :=
  match l with
  | [] => ([], [])
  | x :: t => if Entry_ltb x e then let '(a, b) := lower_bound e t in (x :: a, b) else ([], l)
  end.

Section TimerQueue.
Context {CB : Type}.

Record Timer : Type := mkTimer {
  callback : CB;
  expiration_ : Timestamp;
  interval : double;
  repeat : bool;
  sequence : Z;
}.

Definition new_Timer (cb : CB) (when : Timestamp) (interval : double) (seq : Z) : Timer :=
  mkTimer cb when interval (dlt d0 interval) seq.

Definition Restart (now : Timestamp) (t : Timer) : outcome Timer :=
  if repeat t then
    e ← AddTime now (interval t);
    Ok (mkTimer (callback t) e (interval t) (repeat t) (sequence t))
  else Ok (mkTimer (callback t) Invalid (interval t) (repeat t) (sequence t)).

Record TimerId : Type := mkTimerId { timer_ : Z; sequence_ : Z }.

Record timespec : Type := mkTimespec { tv_sec : Z; tv_nsec : Z }.

Record TimerQueue : Type := mkTQ {
  heap : gmap Z Timer;
  sNumCreated : Z;
  timers_ : list Entry;
  activeTimers_ : gset (Z * Z);
  callingExpiredTimers_ : bool;
  cancelingTimers_ : gset (Z * Z);
  timerfd_ : option timespec;      (** the last value given to timerfd_settime *)
}.

Definition new_TimerQueue : TimerQueue := mkTQ ∅ 0 [] ∅ false ∅ None.

Definition set_heap h q := mkTQ h (sNumCreated q) (timers_ q) (activeTimers_ q)
  (callingExpiredTimers_ q) (cancelingTimers_ q) (timerfd_ q).
Definition set_timers l a q := mkTQ (heap q) (sNumCreated q) l a
  (callingExpiredTimers_ q) (cancelingTimers_ q) (timerfd_ q).
Definition set_calling c q := mkTQ (heap q) (sNumCreated q) (timers_ q) (activeTimers_ q)
  c (cancelingTimers_ q) (timerfd_ q).
Definition set_canceling c q := mkTQ (heap q) (sNumCreated q) (timers_ q) (activeTimers_ q)
  (callingExpiredTimers_ q) c (timerfd_ q).
Definition set_timerfd v q := mkTQ (heap q) (sNumCreated q) (timers_ q) (activeTimers_ q)
  (callingExpiredTimers_ q) (cancelingTimers_ q) v.

(** [*p], and [delete p]. *)
Definition deref (p : Z) (q : TimerQueue) : outcome Timer :=
  match heap q !! p with Some t => Ok t | None => Fault (Undefined "use after free") end.
Definition free (p : Z) (q : TimerQueue) : outcome TimerQueue :=
  match heap q !! p with
  | Some _ => Ok (set_heap (delete p (heap q)) q)
  | None => Fault (Undefined "double delete")
  end.

Definition sizes_agree (q : TimerQueue) : outcome unit :=
  massert (zlen (timers_ q) =? Z.of_nat (size (activeTimers_ q)))
    "timers_.size() == activeTimers_.size()".

(** [clock] is the time [Timestamp::Now()] reads. *)
Definition HowMuchTimeFromNow (when clock : Timestamp) : outcome timespec :=
  microseconds ← sint_checked 64 (when - clock);
  let microseconds := if microseconds <? 100 then 100 else microseconds in
  Ok (mkTimespec (Z.quot microseconds kMicroSecondsPerSecond)
        (Z.rem microseconds kMicroSecondsPerSecond * 1000)).

Definition ResetTimerfd (expiration clock : Timestamp) (q : TimerQueue) : outcome TimerQueue :=
  newValue ← HowMuchTimeFromNow expiration clock;
  Ok (set_timerfd (Some newValue) q).

Definition Insert (timer : Z) (q : TimerQueue) : outcome (bool * TimerQueue) :=
  sizes_agree q;;
  t ← deref timer q;
  let when := expiration_ t in
  let earliestChanged :=
    match timers_ q with [] => true | it :: _ => when <? it.1 end in
  let '(l, success) := set_insert (when, timer) (timers_ q) in
  massert success "success";;
  let a := (timer, sequence t) in
  massert (bool_decide (a ∉ activeTimers_ q)) "success";;
  let q' := set_timers l ({[a]} ∪ activeTimers_ q) q in
  sizes_agree q';;
  Ok (earliestChanged, q').

Definition AddTimerInLoop (timer clock : Z) (q : TimerQueue) : outcome TimerQueue :=
  r ← Insert timer q;
  if (fst r : bool) then
    t ← deref timer (snd r);
    ResetTimerfd (expiration_ t) clock (snd r)
  else Ok (snd r).

(** [new Timer(...)]: [addr] is the address the allocator returns; the sequence
    number is the counter before the increment. *)
Definition AllocTimer (addr : Z) (cb : CB) (when : Timestamp) (interval : double)
    (q : TimerQueue) : TimerQueue :=
  let t := new_Timer cb when interval (sNumCreated q) in
  mkTQ (<[addr:=t]> (heap q)) (sNumCreated q + 1) (timers_ q) (activeTimers_ q)
    (callingExpiredTimers_ q) (cancelingTimers_ q) (timerfd_ q).

(** [AddTimer] called in the loop thread, where [RunInLoop] runs
    [AddTimerInLoop] at once. *)
Definition AddTimer (addr : Z) (cb : CB) (when : Timestamp) (interval : double)
    (clock : Timestamp) (q : TimerQueue) : outcome (TimerId * TimerQueue) :=
  let q1 := AllocTimer addr cb when interval q in
  q2 ← AddTimerInLoop addr clock q1;
  Ok (mkTimerId addr (sNumCreated q), q2).

Definition CancelInLoop (timerId : TimerId) (q : TimerQueue) : outcome TimerQueue :=
  sizes_agree q;;
  let timer := (timer_ timerId, sequence_ timerId) in
  q' ← (if decide (timer ∈ activeTimers_ q) then
          t ← deref timer.1 q;
          let '(l, n) := set_erase (expiration_ t, timer.1) (timers_ q) in
          massert (n =? 1) "n == 1";;
          q1 ← free timer.1 (set_timers l (activeTimers_ q) q);
          Ok (set_timers l (activeTimers_ q ∖ {[timer]}) q1)
        else if callingExpiredTimers_ q then
          Ok (set_canceling ({[timer]} ∪ cancelingTimers_ q) q)
        else Ok q);
  sizes_agree q';;
  Ok q'.
(** [Cancel] called in the loop thread. *)
Definition Cancel (timerId : TimerId) (q : TimerQueue) : outcome TimerQueue :=
  CancelInLoop timerId q.

(** One round of the loop that drops an expired entry from [activeTimers_]. *)
Definition deactivate (it : Entry) (q : TimerQueue) : outcome TimerQueue :=
  t ← deref it.2 q;
  let timer := (it.2, sequence t) in
  massert (bool_decide (timer ∈ activeTimers_ q)) "n == 1";;
  Ok (set_timers (timers_ q) (activeTimers_ q ∖ {[timer]}) q).

Definition GetExpired (now : Timestamp) (q : TimerQueue) : outcome (list Entry * TimerQueue) :=
  sizes_agree q;;
  let sentry := (now, UINTPTR_MAX) in
  let '(expired, rest) := lower_bound sentry (timers_ q) in
  massert (match rest with [] => true | it :: _ => now <? it.1 end)
    "end == timers_.end() || now < end->first";;
  let q1 := set_timers rest (activeTimers_ q) q in
  q2 ← ofold deactivate expired q1;
  sizes_agree q2;;
  Ok (expired, q2).

(** One round of the loop of [Reset]: re-arm a repeating timer nobody
    cancelled, delete any other. *)
Definition reset_one (now : Timestamp) (it : Entry) (q : TimerQueue) : outcome TimerQueue :=
  t ← deref it.2 q;
  let timer := (it.2, sequence t) in
  if repeat t && bool_decide (timer ∉ cancelingTimers_ q) then
    t' ← Restart now t;
    r ← Insert it.2 (set_heap (<[it.2:=t']> (heap q)) q);
    Ok (snd r)
  else free it.2 q.

Definition Reset (expired : list Entry) (now clock : Timestamp) (q : TimerQueue)
    : outcome TimerQueue :=
  q1 ← ofold (reset_one now) expired q;
  nextExpire ← (match timers_ q1 with
                | [] => Ok Timestamp_default
                | it :: _ => t ← deref it.2 q1; Ok (expiration_ t)
                end);
  if Valid nextExpire then ResetTimerfd nextExpire clock q1 else Ok q1.

(** ** What callbacks do *)
Inductive timer_op : Type :=
  | OpAdd (addr : Z) (cb : CB) (when : Timestamp) (interval : double) (clock : Timestamp)
  | OpCancel (id : TimerId).

Definition exec_op (o : timer_op) (q : TimerQueue) : outcome TimerQueue :=
  match o with
  | OpAdd addr cb when interval clock => r ← AddTimer addr cb when interval clock q; Ok (snd r)
  | OpCancel id => Cancel id q
  end.

(** [it.second->Run()] for one expired entry: the state is the queue with the
    callbacks that have been called so far. *)
Definition run_one (prog : CB -> TimerQueue -> list timer_op) (it : Entry)
    (s : list CB * TimerQueue) : outcome (list CB * TimerQueue) :=
  let '(ran, q) := s in
  t ← deref it.2 q;
  q' ← ofold exec_op (prog (callback t) q) q;
  Ok (ran ++ [callback t], q').

(** The alarm: [now] and [clock] are the two readings of the clock.  The
    callbacks called on the way are returned with the queue. *)
Definition HandleRead (prog : CB -> TimerQueue -> list timer_op) (now clock : Timestamp)
    (q : TimerQueue) : outcome (list CB * TimerQueue) :=
  r ← GetExpired now q;
  let expired := fst r in
  let q1 := set_canceling ∅ (set_calling true (snd r)) in
  s ← ofold (run_one prog) expired ([], q1);
  q3 ← Reset expired now clock (set_calling false (snd s));
  Ok (fst s, q3).

(** ** The invariant *)

(** What [AddTimer] may be given: the period of a repeating timer converts to
    less than 2^61 microseconds (some 73000 years). *)
Definition delay (interval : double) : outcome Z :=
  int64_of_double (dmul interval (double_of_Z kMicroSecondsPerSecond)).
Definition interval_ok (i : double) : Prop :=
  dlt d0 i = true -> exists d, delay i = Ok d /\ 0 <= d < 2 ^ 61.
Definition time_ok (w : Timestamp) : Prop := - 2 ^ 62 < w < 2 ^ 62.

Record timer_ok (n p : Z) (t : Timer) : Prop := mk_timer_ok {
  ok_addr : 0 < p < UINTPTR_MAX;
  ok_seq : 0 <= sequence t < n;
  ok_time : time_ok (expiration_ t);
  ok_repeat : repeat t = dlt d0 (interval t);
  ok_interval : interval_ok (interval t);
}.

(** [F] lists the timers in flight: those that expired and whose fate [Reset] has not
    decided, and those another thread made and [AddTimerInLoop] has not inserted. *)
Record inv (F : list Z) (q : TimerQueue) : Prop := mk_inv {
  inv_sorted : StronglySorted Entry_lt (timers_ q);
  inv_entry : forall w p, (w, p) ∈ timers_ q ->
    exists t, heap q !! p = Some t /\ expiration_ t = w /\ p ∉ F;
  inv_active : forall p s, (p, s) ∈ activeTimers_ q <->
    exists t, heap q !! p = Some t /\ sequence t = s /\ (expiration_ t, p) ∈ timers_ q;
  inv_size : zlen (timers_ q) = Z.of_nat (size (activeTimers_ q));
  inv_flight : NoDup F /\ forall p, p ∈ F -> is_Some (heap q !! p);
  inv_live : forall p t, heap q !! p = Some t -> p ∈ F \/ (expiration_ t, p) ∈ timers_ q;
  inv_timer : forall p t, heap q !! p = Some t -> timer_ok (sNumCreated q) p t;
  inv_count : 0 <= sNumCreated q;
}.

(** ** Ordered sets *)
Lemma Entry_ltb_spec a b : Entry_ltb a b = true <-> Entry_lt a b.
Proof. unfold Entry_ltb, Entry_lt. rewrite orb_true_iff, andb_true_iff. lia. Qed.
Lemma Entry_ltb_false a b : Entry_ltb a b = false -> a <> b -> Entry_lt b a.
Proof.
  intros E N. destruct a as [w p], b as [w' p']. unfold Entry_ltb, Entry_lt in *. cbn in *.
  assert (w <> w' \/ p <> p') by (destruct (decide (w = w')), (decide (p = p')); subst; auto; congruence).
  apply orb_false_iff in E as [E1 E2]. apply andb_false_iff in E2. lia.
Qed.
#[local] Instance Entry_lt_trans : Transitive Entry_lt.
Proof. intros a b c. unfold Entry_lt. lia. Qed.
Lemma Entry_lt_irrefl a : ~ Entry_lt a a.
Proof. unfold Entry_lt. lia. Qed.

Lemma set_insert_new e l :
  StronglySorted Entry_lt l -> e ∉ l ->
  exists l', set_insert e l = (l', true) /\ StronglySorted Entry_lt l' /\ l' ≡ₚ e :: l.
Proof.
  induction l as [|x l IH]; intros Hs Hn; cbn.
  - eexists; split; [done|]. split; [repeat constructor | done].
  - rewrite not_elem_of_cons in Hn. destruct Hn as [Hne Hn].
    rewrite decide_False by done. apply StronglySorted_inv in Hs as [Hs Hx].
    destruct (Entry_ltb e x) eqn:E.
    + eexists; split; [done|]. split; [|done]. apply Entry_ltb_spec in E.
      constructor; [by constructor|]. constructor; [done|].
      eapply Forall_impl; [done|]. intros y Hy. cbn in Hy. by etrans.
    + destruct (IH Hs Hn) as (l' & -> & Hs' & Hp).
      eexists; split; [done|]. split.
      * constructor; [done|]. rewrite Hp. constructor; [|done].
        by apply Entry_ltb_false.
      * rewrite Hp. apply Permutation_swap.
Qed.

Lemma set_erase_in e l : e ∈ l -> NoDup l ->
  exists l', set_erase e l = (l', 1) /\ l ≡ₚ e :: l' /\ e ∉ l'.
Proof.
  intros Hin Hnd. unfold set_erase. rewrite decide_True by done.
  eexists; split; [done|]. split; [|by rewrite list_elem_of_filter; intros [? _]].
  apply NoDup_Permutation; [done| |].
  - constructor; [by rewrite list_elem_of_filter; intros [? _] | by apply NoDup_filter].
  - intros x. rewrite elem_of_cons, list_elem_of_filter. destruct (decide (x = e)) as [->|]; tauto.
Qed.

Lemma StronglySorted_filter (P : Entry -> Prop) `{!forall x, Decision (P x)} l :
  StronglySorted Entry_lt l -> StronglySorted Entry_lt (filter P l).
Proof.
  induction 1 as [|x l Hs IH Hx]; [constructor|].
  rewrite filter_cons. destruct (decide (P x)); [|done]. constructor; [done|].
  rewrite Forall_forall in *. intros y [_ Hy]%list_elem_of_filter. auto.
Qed.
Lemma StronglySorted_NoDup l : StronglySorted Entry_lt l -> NoDup l.
Proof.
  induction 1 as [|x l Hs IH Hx]; constructor; [|done].
  intros Hin. rewrite Forall_forall in Hx. by apply (Entry_lt_irrefl x), Hx.
Qed.

(** In a sorted set [lower_bound] splits off the due entries. *)
Lemma lower_bound_due now l :
  StronglySorted Entry_lt l -> (forall e, e ∈ l -> e.2 < UINTPTR_MAX) ->
  lower_bound (now, UINTPTR_MAX) l =
    (filter (fun e => e.1 <= now) l, filter (fun e => now < e.1) l).
Proof.
  induction 1 as [|x l Hs IH Hx]; intros Hp; cbn [lower_bound]; [done|].
  assert (Hpx := Hp x ltac:(left)). rewrite Forall_forall in Hx.
  destruct (Entry_ltb x (now, UINTPTR_MAX)) eqn:E.
  - apply Entry_ltb_spec in E. unfold Entry_lt in E; cbn in E.
    rewrite IH by (intros; apply Hp; by right). rewrite !filter_cons.
    rewrite decide_True, decide_False by lia. done.
  - assert (now < x.1).
    { destruct (decide (now < x.1)); [done|]. exfalso.
      rewrite (proj2 (Entry_ltb_spec x _)) in E; [done|]. unfold Entry_lt; cbn. lia. }
    rewrite !filter_cons. rewrite decide_False, decide_True by lia.
    assert (Hl : forall y, y ∈ l -> now < y.1).
    { intros y Hy%Hx. unfold Entry_lt in Hy. lia. }
    f_equal; [symmetry | f_equal; symmetry].
    + apply filter_none. intros y Hy%Hl. lia.
    + apply filter_all. intros y Hy%Hl. lia.
Qed.

(** ** Moves of one timer between the heap, the flight list and the set *)
Lemma inv_ptr_once F q w w' p : inv F q -> (w, p) ∈ timers_ q -> (w', p) ∈ timers_ q -> w = w'.
Proof.
  intros I H1 H2. destruct (inv_entry _ _ I _ _ H1) as (t & E & <- & _).
  destruct (inv_entry _ _ I _ _ H2) as (t' & E' & <- & _). congruence.
Qed.
Lemma inv_sizes F q : inv F q -> sizes_agree q = Ok tt.
Proof. intros I. apply massert_true, Z.eqb_eq, (inv_size _ _ I). Qed.
Lemma inv_flight_not_entry F q p w : inv (p :: F) q -> (w, p) ∉ timers_ q.
Proof.
  intros I Hin. destruct (inv_entry _ _ I _ _ Hin) as (t & _ & _ & Hn). apply Hn. left.
Qed.

(** Arming a timer in flight: what [Insert] does. *)
Lemma inv_arm F q p t l :
  inv (p :: F) q -> heap q !! p = Some t ->
  StronglySorted Entry_lt l -> l ≡ₚ (expiration_ t, p) :: timers_ q ->
  ((p, sequence t) ∉ activeTimers_ q) /\
  inv F (set_timers l ({[(p, sequence t)]} ∪ activeTimers_ q) q).
Proof.
  intros I Hp Hs Hl.
  assert (Hn : (p, sequence t) ∉ activeTimers_ q).
  { rewrite (inv_active _ _ I). intros (t' & E & _ & Hin). by eapply inv_flight_not_entry. }
  destruct (inv_flight _ _ I) as [[HpF HF]%NoDup_cons Hsome].
  split; [done|]. split; cbn.
  - done.
  - intros w x. rewrite Hl, elem_of_cons. intros [[= -> ->]|Hin]; [eauto|].
    destruct (inv_entry _ _ I _ _ Hin) as (t' & ? & ? & Hx). exists t'. set_solver.
  - intros x s. rewrite elem_of_union, elem_of_singleton, (inv_active _ _ I). setoid_rewrite Hl.
    setoid_rewrite elem_of_cons. split.
    + intros [[= -> ->]|(t' & ? & ? & ?)]; eauto 10.
    + intros (t' & E & <- & [[= ? ->]|Hin]); [left; congruence | right; eauto].
  - rewrite Hl, zlen_cons, (inv_size _ _ I), size_union by set_solver.
    rewrite size_singleton. lia.
  - split; [done|]. intros x Hx. apply Hsome. by right.
  - intros x t' E. rewrite Hl, elem_of_cons.
    destruct (inv_live _ _ I _ _ E) as [[->|?]%elem_of_cons|?]; [|by left|by right; right].
    right; left. congruence.
  - apply (inv_timer _ _ I).
  - apply (inv_count _ _ I).
Qed.

(** Disarming: the reverse move, of [CancelInLoop]. *)
Lemma inv_disarm F q p t l :
  inv F q -> heap q !! p = Some t -> timers_ q ≡ₚ (expiration_ t, p) :: l ->
  StronglySorted Entry_lt l ->
  inv (p :: F) (set_timers l (activeTimers_ q ∖ {[(p, sequence t)]}) q).
Proof.
  intros I Hp Hl Hs.
  assert (Hin : (expiration_ t, p) ∈ timers_ q) by (rewrite Hl; left).
  destruct (inv_entry _ _ I _ _ Hin) as (t0 & E0 & _ & HpF).
  assert (Hnd := StronglySorted_NoDup _ (inv_sorted _ _ I)). rewrite Hl in Hnd.
  apply NoDup_cons in Hnd as [Hnl _].
  assert (Hother : forall w, (w, p) ∉ l).
  { intros w Hw. apply Hnl. replace (expiration_ t) with w; [done|].
    eapply inv_ptr_once; [done| |done]. rewrite Hl. by right. }
  destruct (inv_flight _ _ I) as [HF Hsome].
  assert (Ha : (p, sequence t) ∈ activeTimers_ q) by (apply (inv_active _ _ I); eauto).
  split; cbn.
  - done.
  - intros w x Hx. destruct (inv_entry _ _ I w x) as (t' & ? & ? & ?); [rewrite Hl; by right|].
    exists t'. rewrite not_elem_of_cons. repeat split; [done..| |done]. intros ->. by eapply Hother.
  - intros x s. rewrite elem_of_difference, elem_of_singleton, (inv_active _ _ I). setoid_rewrite Hl.
    setoid_rewrite elem_of_cons. split.
    + intros [(t' & E & <- & [[= ? ->]|?]) Hne]; [|eauto]. congruence.
    + intros (t' & E & <- & Hx). split; [eauto|]. intros [= -> ?]. by eapply Hother.
  - pose proof (inv_size _ _ I) as Hsz. rewrite Hl, zlen_cons in Hsz.
    rewrite size_difference by set_solver. rewrite size_singleton. pose proof (zlen_nonneg l). lia.
  - split; [by constructor|]. intros x [->|Hx]%elem_of_cons; [eauto | by apply Hsome].
  - intros x t' E. rewrite elem_of_cons. destruct (inv_live _ _ I _ _ E) as [?|Hx]; [tauto|].
    rewrite Hl, elem_of_cons in Hx. destruct Hx as [[= _ ->]|?]; tauto.
  - apply (inv_timer _ _ I).
  - apply (inv_count _ _ I).
Qed.

Lemma inv_free F q p : inv (p :: F) q ->
  exists q', free p q = Ok q' /\ q' = set_heap (delete p (heap q)) q /\ inv F q'.
Proof.
  intros I. destruct (inv_flight _ _ I) as [[HpF HF]%NoDup_cons Hsome].
  destruct (Hsome p ltac:(left)) as [t Hp]. unfold free. rewrite Hp.
  eexists; split; [done|]. split; [done|].
  assert (Hne : forall x w, (w, x) ∈ timers_ q -> p <> x).
  { intros x w Hx ->. by eapply inv_flight_not_entry. }
  split; cbn.
  - apply (inv_sorted _ _ I).
  - intros w x Hx. destruct (inv_entry _ _ I _ _ Hx) as (t' & ? & ? & ?).
    exists t'. rewrite lookup_delete_ne by eauto. set_solver.
  - intros x s. rewrite (inv_active _ _ I). split; intros (t' & E & ? & Hx); exists t'.
    + rewrite lookup_delete_ne by eauto. done.
    + rewrite lookup_delete_ne in E by eauto. done.
  - apply (inv_size _ _ I).
  - split; [done|]. intros x Hx. rewrite lookup_delete_ne by set_solver. apply Hsome. by right.
  - intros x t' [Hx E]%lookup_delete_Some.
    destruct (inv_live _ _ I _ _ E) as [[->|?]%elem_of_cons|?]; [done | tauto..].
  - intros x t' [Hx E]%lookup_delete_Some. by apply (inv_timer _ _ I).
  - apply (inv_count _ _ I).
Qed.

(** Replacing the contents of a timer in flight; also how a fresh address enters
    the flight list. *)
Lemma inv_put F F0 q p t n :
  inv F0 q -> F0 = p :: F \/ (F0 = F /\ heap q !! p = None) ->
  sNumCreated q <= n -> timer_ok n p t ->
  inv (p :: F) (mkTQ (<[p:=t]> (heap q)) n (timers_ q) (activeTimers_ q)
                  (callingExpiredTimers_ q) (cancelingTimers_ q) (timerfd_ q)).
Proof.
  intros I HF0 Hn Ht. destruct (inv_flight _ _ I) as [HF Hsome].
  assert (Hne : forall x w, (w, x) ∈ timers_ q -> p <> x).
  { intros x w Hx ->. destruct (inv_entry _ _ I _ _ Hx) as (t' & ? & _ & Hx').
    destruct HF0 as [->|[_ ?]]; [apply Hx'; left | congruence]. }
  assert (HFF : forall x, x ∈ p :: F <-> x = p \/ x ∈ F0).
  { intros x. rewrite elem_of_cons. destruct HF0 as [->|[-> _]]; [rewrite elem_of_cons|]; tauto. }
  assert (HpF : p ∉ F).
  { destruct HF0 as [->|[-> E]]; [by apply NoDup_cons in HF as [??]|].
    intros Hin%Hsome. rewrite E in Hin. by destruct Hin. }
  split; cbn.
  - apply (inv_sorted _ _ I).
  - intros w x Hx. destruct (inv_entry _ _ I _ _ Hx) as (t' & ? & ? & ?).
    exists t'. rewrite lookup_insert_ne, HFF by eauto. repeat split; [done..|].
    intros [->|?]; [by eapply Hne | done].
  - intros x s. rewrite (inv_active _ _ I). split; intros (t' & E & ? & Hx); exists t'.
    + rewrite lookup_insert_ne by eauto. done.
    + rewrite lookup_insert_ne in E by eauto. done.
  - apply (inv_size _ _ I).
  - split; [constructor; [done|]; destruct HF0 as [->|[-> _]]; [by apply NoDup_cons in HF as [??]|done]|].
    intros x. destruct (decide (x = p)) as [->|?]; [by rewrite lookup_insert_eq|].
    rewrite lookup_insert_ne by done. intros [?|?]%HFF; [done | by apply Hsome].
  - intros x t' [[<- _]|[Hx E]]%lookup_insert_Some; [left; left|].
    destruct (inv_live _ _ I _ _ E); [left; apply HFF; by right | by right].
  - intros x t' [[<- <-]|[Hx E]]%lookup_insert_Some; [done|].
    destruct (inv_timer _ _ I _ _ E); split; try done. lia.
  - pose proof (inv_count _ _ I). lia.
Qed.

(** ** The operations *)
Lemma inv_ext F q q' :
  inv F q -> heap q' = heap q -> sNumCreated q' = sNumCreated q ->
  timers_ q' = timers_ q -> activeTimers_ q' = activeTimers_ q -> inv F q'.
Proof. intros [] E1 E2 E3 E4. split; rewrite ?E1, ?E2, ?E3, ?E4; done. Qed.

Lemma HowMuchTimeFromNow_Ok when clock :
  time_ok when -> time_ok clock ->
  exists ts, HowMuchTimeFromNow when clock = Ok ts /\
    0 <= tv_sec ts /\ 0 <= tv_nsec ts < 10 ^ 9 /\
    1000000 * tv_sec ts + tv_nsec ts / 1000 = Z.max 100 (when - clock).
Proof.
  unfold time_ok. intros Hw Hc. unfold HowMuchTimeFromNow.
  rewrite sint_checked_Ok by (cbn; lia). cbn [mbind outcome_bind].
  eexists; split; [done|]. cbn [tv_sec tv_nsec].
  set (m := if when - clock <? 100 then 100 else when - clock).
  assert (Hm : m = Z.max 100 (when - clock)) by (subst m; case_if; lia).
  unfold kMicroSecondsPerSecond. rewrite Z.quot_div_nonneg, Z.rem_mod_nonneg by lia.
  rewrite Z.div_mul by lia. pose proof (Z.mod_pos_bound m (1000 * 1000) ltac:(lia)).
  pose proof (Z.div_mod m (1000 * 1000) ltac:(lia)). pose proof (Z.div_pos m (1000 * 1000)). lia.
Qed.

Lemma ResetTimerfd_Ok e clock q : time_ok e -> time_ok clock ->
  exists ts, HowMuchTimeFromNow e clock = Ok ts /\
    ResetTimerfd e clock q = Ok (set_timerfd (Some ts) q).
Proof.
  intros He Hc. destruct (HowMuchTimeFromNow_Ok e clock He Hc) as (ts & E & _).
  exists ts. split; [done|]. unfold ResetTimerfd. by rewrite E.
Qed.

Lemma Insert_Ok F q p t :
  inv (p :: F) q -> heap q !! p = Some t ->
  exists l, let q' := set_timers l ({[(p, sequence t)]} ∪ activeTimers_ q) q in
    Insert p q = Ok (match timers_ q with [] => true | it :: _ => expiration_ t <? it.1 end, q') /\
    inv F q' /\ l ≡ₚ (expiration_ t, p) :: timers_ q.
Proof.
  intros I Hp.
  destruct (set_insert_new (expiration_ t, p) (timers_ q)) as (l & E & Hs & Hl);
    [apply (inv_sorted _ _ I) | by eapply inv_flight_not_entry|].
  destruct (inv_arm F q p t l I Hp Hs Hl) as [Hn I'].
  exists l. split; [|done]. unfold Insert, deref.
  rewrite (inv_sizes _ _ I), Hp. cbn [mbind outcome_bind]. rewrite E.
  cbn [massert mbind outcome_bind]. rewrite bool_decide_true by done. cbn [massert mbind outcome_bind].
  by rewrite (inv_sizes _ _ I').
Qed.

(** What the caller of [AddTimer] owes: the allocator returns a free, non-null
    address, times are within 2^62 microseconds of the epoch. *)
Definition op_ok (o : timer_op) (q : TimerQueue) : Prop :=
  match o with
  | OpAdd addr cb when interval clock =>
      heap q !! addr = None /\ 0 < addr < UINTPTR_MAX /\
      time_ok when /\ time_ok clock /\ interval_ok interval
  | OpCancel _ => True
  end.

Lemma inv_perm F F' q : F ≡ₚ F' -> inv F q -> inv F' q.
Proof.
  intros HF []. assert (HFF : forall p, p ∈ F <-> p ∈ F') by (intros p; by rewrite HF). split; try done.
  - intros w p (t & ? & ? & ?)%inv_entry0. exists t. rewrite <- HFF. done.
  - destruct inv_flight0 as [Hn Hs]. split; [by rewrite <- HF|]. intros p Hp. apply Hs. by apply HFF.
  - intros p t Ht. rewrite <- HFF. by apply inv_live0.
Qed.
Lemma AllocTimer_Ok F q addr cb when interval :
  inv F q -> heap q !! addr = None -> 0 < addr < UINTPTR_MAX -> time_ok when -> interval_ok interval ->
  inv (addr :: F) (AllocTimer addr cb when interval q).
Proof.
  intros I Hfree Ha Hw Hi. eapply inv_put; [done | by right | lia |]. pose proof (inv_count _ _ I).
  split; cbn; [done | lia | done..].
Qed.
(** [AddTimerInLoop] inserts a timer in flight. *)
Lemma AddTimerInLoop_Ok F q p t clock :
  inv (p :: F) q -> heap q !! p = Some t -> time_ok clock ->
  exists q', AddTimerInLoop p clock q = Ok q' /\ inv F q' /\ heap q' = heap q /\ sNumCreated q' = sNumCreated q /\
    timers_ q' ≡ₚ (expiration_ t, p) :: timers_ q /\
    callingExpiredTimers_ q' = callingExpiredTimers_ q /\ cancelingTimers_ q' = cancelingTimers_ q /\
    (match timers_ q with [] => true | it :: _ => expiration_ t <? it.1 end = true ->
     exists ts, HowMuchTimeFromNow (expiration_ t) clock = Ok ts /\ timerfd_ q' = Some ts).
Proof.
  intros I Hp Hc. destruct (Insert_Ok F q p t I Hp) as (l & E & I2 & Hl).
  unfold AddTimerInLoop. rewrite E. cbn [mbind outcome_bind fst snd]. unfold deref. cbn [heap set_timers].
  rewrite Hp. cbn [mbind outcome_bind].
  destruct (ResetTimerfd_Ok (expiration_ t) clock (set_timers l ({[(p, sequence t)]} ∪ activeTimers_ q) q)) as (ts & Ets & Er);
    [by apply (inv_timer _ _ I p t) | done|].
  destruct (match timers_ q with [] => true | it :: _ => expiration_ t <? it.1 end).
  - rewrite Er. eexists; split; [done|]. split; [by eapply inv_ext|]. cbn. eauto 10.
  - eexists; split; [done|]. split; [done|]. cbn. repeat split; done.
Qed.
Lemma AddTimer_Ok F q addr cb when interval clock :
  inv F q -> op_ok (OpAdd addr cb when interval clock) q ->
  exists q', AddTimer addr cb when interval clock q = Ok (mkTimerId addr (sNumCreated q), q') /\
    inv F q' /\
    heap q' = <[addr := new_Timer cb when interval (sNumCreated q)]> (heap q) /\
    sNumCreated q' = sNumCreated q + 1 /\
    timers_ q' ≡ₚ (when, addr) :: timers_ q /\
    callingExpiredTimers_ q' = callingExpiredTimers_ q /\
    cancelingTimers_ q' = cancelingTimers_ q /\
    (match timers_ q with [] => true | it :: _ => when <? it.1 end = true ->
     exists ts, HowMuchTimeFromNow when clock = Ok ts /\ timerfd_ q' = Some ts).
Proof.
  intros I (Hfree & Ha & Hw & Hc & Hi). pose proof (AllocTimer_Ok F q addr cb when interval I Hfree Ha Hw Hi) as I1.
  destruct (AddTimerInLoop_Ok F _ addr (new_Timer cb when interval (sNumCreated q)) clock I1)
    as (q' & E & I' & Hh & Hn & Ht & Hrest); [cbn; by rewrite lookup_insert_eq | done |].
  unfold AddTimer. rewrite E. eexists; split; [done|]. split; [done|]. by rewrite Hh, Hn, Ht.
Qed.

Lemma Cancel_Ok F q p s :
  inv F q ->
  exists q', Cancel (mkTimerId p s) q = Ok q' /\ inv F q' /\
    sNumCreated q' = sNumCreated q /\ callingExpiredTimers_ q' = callingExpiredTimers_ q /\
    if decide ((p, s) ∈ activeTimers_ q)
    then heap q' = delete p (heap q) /\ cancelingTimers_ q' = cancelingTimers_ q /\
         timers_ q' = filter (fun e => e.2 <> p) (timers_ q)
    else q' = if callingExpiredTimers_ q
              then set_canceling ({[(p, s)]} ∪ cancelingTimers_ q) q else q.
Proof.
  intros I. unfold Cancel, CancelInLoop. cbn [timer_ sequence_ fst].
  rewrite (inv_sizes _ _ I). cbn [mbind outcome_bind].
  destruct (decide ((p, s) ∈ activeTimers_ q)) as [Ha|Ha].
  - pose proof Ha as Ha'. apply (inv_active _ _ I) in Ha' as (t & Hp & <- & Hin).
    pose proof (StronglySorted_NoDup _ (inv_sorted _ _ I)) as Hnd.
    destruct (set_erase_in _ _ Hin Hnd) as (l & E & Hl & _).
    assert (El : l = filter (fun x => x <> (expiration_ t, p)) (timers_ q)).
    { by apply (f_equal fst) in E. }
    assert (Hs : StronglySorted Entry_lt l).
    { rewrite El. apply StronglySorted_filter, (inv_sorted _ _ I). }
    pose proof (inv_disarm F q p t l I Hp Hl Hs) as I1.
    destruct (inv_free _ _ _ I1) as (q2 & _ & E2 & I2).
    unfold deref. rewrite Hp. cbn [mbind outcome_bind]. rewrite E. cbn [massert mbind outcome_bind Z.eqb Pos.eqb].
    unfold free. cbn [heap set_timers]. rewrite Hp. cbn [mbind outcome_bind].
    replace (set_timers l _ _) with q2 by (by rewrite E2).
    rewrite (inv_sizes _ _ I2). cbn [mbind outcome_bind].
    exists q2. split; [done|]. split; [done|]. rewrite E2. cbn. repeat split.
    rewrite El. apply filter_ext_in. intros [w x] Hx. cbn. split; [|congruence].
    intros Hne ->. apply Hne. f_equal. by apply (inv_ptr_once F q _ _ p).
  - destruct (callingExpiredTimers_ q) eqn:Ec; cbn [mbind outcome_bind].
    + assert (I' : inv F (set_canceling ({[(p, s)]} ∪ cancelingTimers_ q) q)) by by eapply inv_ext.
      rewrite (inv_sizes _ _ I'). eexists; split; [done|]. cbn. auto.
    + rewrite (inv_sizes _ _ I). eexists; split; [done|]. auto.
Qed.

(** ** Expiry *)
Definition key (h : gmap Z Timer) (e : Entry) : Z * Z := (e.2, default 0 (sequence <$> h !! e.2)).

Lemma deactivate_Ok e q t :
  heap q !! e.2 = Some t -> (e.2, sequence t) ∈ activeTimers_ q ->
  deactivate e q = Ok (set_timers (timers_ q) (activeTimers_ q ∖ {[key (heap q) e]}) q).
Proof.
  intros Ht Ha. unfold deactivate, deref, key. rewrite Ht. cbn [mbind outcome_bind default option_fmap option_map].
  by rewrite bool_decide_true by done.
Qed.

Lemma deactivate_all L q :
  NoDup L.*2 ->
  (forall e, e ∈ L -> exists t, heap q !! e.2 = Some t /\ (e.2, sequence t) ∈ activeTimers_ q) ->
  ofold deactivate L q =
    Ok (set_timers (timers_ q) (activeTimers_ q ∖ list_to_set (key (heap q) <$> L)) q).
Proof.
  revert q; induction L as [|e L IH]; intros q Hnd Hin; cbn [ofold].
  - destruct q; cbn. by rewrite difference_empty_L.
  - apply NoDup_cons in Hnd as [Hne Hnd]. destruct (Hin e ltac:(left)) as (t & Ht & Ha).
    rewrite (deactivate_Ok e q t Ht Ha). cbn [mbind outcome_bind].
    rewrite IH; [|done|].
    + unfold set_timers; cbn. do 2 f_equal. set_solver.
    + cbn. intros e' He'. destruct (Hin e' ltac:(by right)) as (t' & Ht' & Ha').
      exists t'. split; [done|]. apply elem_of_difference. split; [done|].
      rewrite elem_of_singleton. intros [= Hx _]. apply Hne. rewrite <- Hx.
      by apply list_elem_of_fmap_2.
Qed.

Definition due (now : Timestamp) (l : list Entry) : list Entry := filter (fun e => e.1 <= now) l.

Lemma due_split now l : l ≡ₚ due now l ++ filter (fun e : Entry => now < e.1) l.
Proof.
  unfold due. rewrite <- (filter_app_complement (fun e : Entry => e.1 <= now) l) at 1.
  f_equiv. erewrite (filter_ext_in _ (fun e : Entry => now < e.1)); [done|]. intros; lia.
Qed.

(** Facts about the entries of a queue nobody is dispatching. *)
Lemma inv_entry_heap F q e : inv F q -> e ∈ timers_ q ->
  exists t, heap q !! e.2 = Some t /\ expiration_ t = e.1 /\ (e.2, sequence t) ∈ activeTimers_ q.
Proof.
  intros I. destruct e as [w p]. intros Hin. destruct (inv_entry _ _ I _ _ Hin) as (t & ? & <- & _).
  exists t. repeat split; [done..|]. apply (inv_active _ _ I). eauto.
Qed.
Lemma inv_ptrs_NoDup F q : inv F q -> NoDup (timers_ q).*2.
Proof.
  intros I. apply NoDup_fmap_2_strong; [|by apply StronglySorted_NoDup, (inv_sorted _ _ I)].
  intros [w x] [w' x'] H1 H2 [= ->]. f_equal. by apply (inv_ptr_once F q _ _ x').
Qed.
Lemma elem_keys F q L p s : inv F q -> (forall e, e ∈ L -> e ∈ timers_ q) ->
  (p, s) ∈ (list_to_set (key (heap q) <$> L) : gset (Z * Z)) <->
  exists w t, (w, p) ∈ L /\ heap q !! p = Some t /\ sequence t = s.
Proof.
  intros I HL. rewrite elem_of_list_to_set, list_elem_of_fmap. unfold key. split.
  - intros ([w x] & [= -> ->] & Hin). destruct (inv_entry_heap _ _ _ I (HL _ Hin)) as (t & Ht & _).
    cbn in Ht. exists w, t. by rewrite Ht.
  - intros (w & t & Hin & Ht & <-). exists (w, p). cbn. by rewrite Ht.
Qed.
Lemma size_keys F q L : inv F q -> NoDup L.*2 -> (forall e, e ∈ L -> e ∈ timers_ q) ->
  (list_to_set (key (heap q) <$> L) : gset (Z * Z)) ⊆ activeTimers_ q /\
  size (list_to_set (key (heap q) <$> L) : gset (Z * Z)) = length L.
Proof.
  intros I Hnd HL. split.
  - intros [p s] (w & t & Hin & Ht & <-)%(elem_keys F); [|done..].
    destruct (inv_entry_heap _ _ _ I (HL _ Hin)) as (t' & Ht' & _ & ?). cbn in *. congruence.
  - rewrite size_list_to_set, length_fmap; [done|].
    apply (NoDup_fmap_1 fst). by rewrite <- list_fmap_compose.
Qed.

(** Taking a batch [L] of entries out of the queue puts their timers in flight. *)
Lemma inv_expire F q L R :
  inv F q -> timers_ q ≡ₚ L ++ R -> StronglySorted Entry_lt R ->
  inv (L.*2 ++ F) (set_timers R (activeTimers_ q ∖ list_to_set (key (heap q) <$> L)) q).
Proof.
  intros I HL HR. assert (HinL : forall e, e ∈ L -> e ∈ timers_ q) by (intros e; rewrite HL; set_solver).
  assert (HinR : forall e, e ∈ R -> e ∈ timers_ q) by (intros e; rewrite HL; set_solver).
  pose proof (inv_ptrs_NoDup _ _ I) as Hnd. rewrite HL, fmap_app in Hnd.
  apply NoDup_app in Hnd as (HnL & Hdisj & _).
  assert (Hsep : forall w w' p, (w, p) ∈ L -> (w', p) ∈ R -> False).
  { intros w w' p H1 H2. apply (Hdisj p); [by apply (list_elem_of_fmap_2 snd L (w, p))|].
    by apply (list_elem_of_fmap_2 snd R (w', p)). }
  destruct (size_keys _ _ _ I HnL HinL) as [Hsub Hsz]. split; cbn.
  - done.
  - intros w p Hin. destruct (inv_entry _ _ I _ _ (HinR _ Hin)) as (t & ? & ? & ?).
    exists t. repeat split; [done..|]. intros [([w' x] & -> & HinL')%list_elem_of_fmap|?]%elem_of_app; eauto.
  - intros p s. rewrite elem_of_difference, (inv_active _ _ I), (elem_keys F) by done. split.
    + intros [(t & Ht & <- & Hin) Hn]. exists t. repeat split; [done..|].
      rewrite HL, elem_of_app in Hin. destruct Hin as [Hin|]; [|done]. destruct Hn; eauto 10.
    + intros (t & Ht & <- & Hin). split; [eauto 10|]. intros (w & t' & HinL' & _). eauto.
  - pose proof (inv_size _ _ I) as Hz. rewrite HL, zlen_app in Hz.
    rewrite size_difference by done. unfold zlen in *; lia.
  - destruct (inv_flight _ _ I) as [HF Hsome]. split.
    + apply NoDup_app. split_and!; [done | | done]. intros p ([w x] & -> & Hin)%list_elem_of_fmap.
      by destruct (inv_entry _ _ I _ _ (HinL _ Hin)) as (t & _ & _ & ?).
    + intros p [([w x] & -> & Hin)%list_elem_of_fmap|?]%elem_of_app; [|by apply Hsome].
      destruct (inv_entry_heap _ _ _ I (HinL _ Hin)) as (t & ? & _). eauto.
  - intros p t Ht. rewrite elem_of_app. destruct (inv_live _ _ I _ _ Ht) as [?|Hin]; [by left; right|].
    rewrite HL, elem_of_app in Hin. destruct Hin as [Hin|]; [left; left|by right].
    by apply (list_elem_of_fmap_2 snd L (expiration_ t, p)).
  - apply (inv_timer _ _ I).
  - apply (inv_count _ _ I).
Qed.

Lemma GetExpired_Ok F now q :
  inv F q ->
  exists q', GetExpired now q = Ok (due now (timers_ q), q') /\
    inv ((due now (timers_ q)).*2 ++ F) q' /\ heap q' = heap q /\ sNumCreated q' = sNumCreated q /\
    timers_ q' = filter (fun e => now < e.1) (timers_ q).
Proof.
  intros I. set (L := due now (timers_ q)). set (R := filter (fun e : Entry => now < e.1) (timers_ q)).
  assert (HL : timers_ q ≡ₚ L ++ R) by apply due_split.
  assert (HR : StronglySorted Entry_lt R) by apply StronglySorted_filter, (inv_sorted _ _ I).
  pose proof (inv_expire F q L R I HL HR) as I'.
  eexists; split; [|split; [exact I' | done]].
  unfold GetExpired. rewrite (inv_sizes _ _ I). cbn [mbind outcome_bind].
  rewrite lower_bound_due; [|apply (inv_sorted _ _ I)|].
  2:{ intros e (t & Ht & _)%(inv_entry_heap _ _ _ I). apply (inv_timer _ _ I) in Ht as []. lia. }
  fold (due now (timers_ q)). fold L R. rewrite massert_true.
  2:{ destruct R as [|x R'] eqn:ER; [done|]. apply Z.ltb_lt.
      assert (Hx : x ∈ R) by (rewrite ER; left). by apply list_elem_of_filter in Hx as [? _]. }
  cbn [mbind outcome_bind]. rewrite deactivate_all.
  - cbn [mbind outcome_bind set_timers heap timers_ activeTimers_]. unfold set_timers in *; cbn in *.
    by rewrite (inv_sizes _ _ I').
  - destruct (inv_flight _ _ I') as [[? _]%NoDup_app _]. done.
  - intros e He. destruct (inv_entry_heap _ _ e I) as (t & ? & _ & ?); [|eauto].
    rewrite HL. set_solver.
Qed.

(** ** Callbacks *)

(** What a run of callbacks leaves alone: the timers in flight, and the
    cancellations already noted. *)
Record keeps (F : list Z) (q q' : TimerQueue) : Prop := mk_keeps {
  keeps_heap : forall p, p ∈ F -> heap q' !! p = heap q !! p;
  keeps_calling : callingExpiredTimers_ q' = callingExpiredTimers_ q;
  keeps_canceling : cancelingTimers_ q ⊆ cancelingTimers_ q';
}.
#[local] Instance keeps_preorder F : PreOrder (keeps F).
Proof.
  split; [by split|]. intros x y z [H1 H2 H3] [K1 K2 K3]. split; [|congruence | set_solver].
  intros p Hp. by rewrite K1, H1.
Qed.

Lemma exec_op_Ok F q o :
  inv F q -> op_ok o q -> exists q', exec_op o q = Ok q' /\ inv F q' /\ keeps F q q'.
Proof.
  intros I Ho. destruct (inv_flight _ _ I) as [_ Hsome]. destruct o as [addr cb when i clock|[p s]]; cbn [exec_op].
  - destruct (AddTimer_Ok _ _ _ _ _ _ _ I Ho) as (q' & E & I' & Hh & _ & _ & Hc1 & Hc2 & _).
    rewrite E. eexists; split; [done|]. split; [done|]. split; cbn; [|congruence | set_solver].
    intros p Hp. rewrite Hh, lookup_insert_ne; [done|]. intros ->.
    destruct Ho as [Hn _]. apply Hsome in Hp. rewrite Hn in Hp. by destruct Hp.
  - destruct (Cancel_Ok F q p s I) as (q' & -> & I' & _ & Hc & Hd).
    eexists; split; [done|]. split; [done|].
    destruct (decide _) as [Ha|_].
    + destruct Hd as (Hh & Hcc & _). split; [|done | by rewrite Hcc].
      intros x Hx. rewrite Hh, lookup_delete_ne; [done|]. intros ->.
      apply (inv_active _ _ I) in Ha as (t & _ & _ & (_ & _ & _ & ?)%(inv_entry _ _ I)). done.
    + subst q'. destruct (callingExpiredTimers_ q) eqn:E; [|done]. split; cbn; set_solver.
Qed.

(** What a callback owes, along its whole run. *)
Fixpoint ops_ok (l : list timer_op) (q : TimerQueue) : Prop :=
  match l with
  | [] => True
  | o :: l' => op_ok o q /\ forall q', exec_op o q = Ok q' -> ops_ok l' q'
  end.
Definition prog_ok (prog : CB -> TimerQueue -> list timer_op) : Prop :=
  forall cb F q, inv F q -> ops_ok (prog cb q) q.

Lemma exec_ops_Ok F l q :
  inv F q -> ops_ok l q ->
  exists q', ofold exec_op l q = Ok q' /\ inv F q' /\ keeps F q q' /\
    (callingExpiredTimers_ q = true -> forall p s, p ∈ F -> OpCancel (mkTimerId p s) ∈ l ->
       (p, s) ∈ cancelingTimers_ q').
Proof.
  revert q; induction l as [|o l IH]; intros q I Ho; cbn [ofold].
  - exists q. split; [done|]. split; [done|]. split; [done|]. intros _ p s _ []%not_elem_of_nil.
  - destruct Ho as [Ho Hl]. destruct (exec_op_Ok F q o I Ho) as (q1 & E & I1 & K1).
    destruct (IH q1 I1 (Hl _ E)) as (q' & E' & I' & K' & Hc).
    rewrite E. cbn [mbind outcome_bind]. exists q'. split; [done|]. split; [done|].
    split; [by etrans|]. intros Hcall p s Hp [<-|Hin]%elem_of_cons.
    + apply (keeps_canceling _ _ _ K'). cbn in E.
      destruct (Cancel_Ok F q p s I) as (q2 & E2 & _ & _ & _ & Hd). rewrite E in E2. injection E2 as <-.
      destruct (decide _) as [Ha|_].
      * apply (inv_active _ _ I) in Ha as (t & _ & _ & (_ & _ & _ & ?)%(inv_entry _ _ I)). done.
      * rewrite Hcall in Hd. subst q1. cbn. set_solver.
    + apply Hc; [|done..]. by rewrite (keeps_calling _ _ _ K1).
Qed.

(** [cb] cancels the timer [(p, s)] whenever it runs. *)
Definition cancels (prog : CB -> TimerQueue -> list timer_op) (cb : CB) (p s : Z) : Prop :=
  forall q, OpCancel (mkTimerId p s) ∈ prog cb q.

(** The callbacks [cbs] are called one after the other, each performing its
    operations on the queue the previous one left. *)
Inductive calls (prog : CB -> TimerQueue -> list timer_op)
    : list CB -> TimerQueue -> TimerQueue -> Prop :=
  | calls_nil q : calls prog [] q q
  | calls_cons cb cbs q q1 q2 :
      ofold exec_op (prog cb q) q = Ok q1 -> calls prog cbs q1 q2 -> calls prog (cb :: cbs) q q2.

(** The callbacks of the timers that the entries [L] name. *)
Definition callbacks (h : gmap Z Timer) (L : list Entry) : list CB :=
  omap (fun e => callback <$> h !! e.2) L.

Lemma callbacks_ext h h' L :
  (forall e, e ∈ L -> h' !! e.2 = h !! e.2) -> callbacks h' L = callbacks h L.
Proof.
  induction L as [|e L IH]; intros H; cbn; [done|].
  rewrite H by left. fold (callbacks h' L) (callbacks h L).
  rewrite IH; [done|]. intros e' He'. apply H. by right.
Qed.

Lemma callbacks_length h L :
  (forall e, e ∈ L -> is_Some (h !! e.2)) -> length (callbacks h L) = length L.
Proof.
  induction L as [|e L IH]; intros H; cbn; [done|].
  destruct (H e ltac:(left)) as [t ->]. cbn. f_equal. apply IH. intros e' He'. apply H. by right.
Qed.

Lemma run_all_Ok prog F L ran q :
  prog_ok prog -> inv F q -> (forall e, e ∈ L -> e.2 ∈ F) ->
  exists q', ofold (run_one prog) L (ran, q) = Ok (ran ++ callbacks (heap q) L, q') /\
    calls prog (callbacks (heap q) L) q q' /\ inv F q' /\ keeps F q q' /\
    (callingExpiredTimers_ q = true ->
     forall e t p s, e ∈ L -> heap q !! e.2 = Some t -> p ∈ F -> cancels prog (callback t) p s ->
       (p, s) ∈ cancelingTimers_ q').
Proof.
  intros Hp. revert ran q; induction L as [|e L IH]; intros ran q I HL; cbn [ofold].
  - exists q. rewrite app_nil_r. split; [done|]. split; [constructor|]. do 2 (split; [done|]).
    intros _ ? ? ? ? []%not_elem_of_nil.
  - destruct (inv_flight _ _ I) as [_ Hsome]. destruct (Hsome e.2) as [t Ht]; [apply HL; left|].
    unfold run_one at 2, deref. cbn beta iota. rewrite Ht. cbn [mbind outcome_bind].
    destruct (exec_ops_Ok F (prog (callback t) q) q I (Hp _ _ _ I)) as (q1 & E1 & I1 & K1 & Hc1).
    rewrite E1. cbn [mbind outcome_bind].
    destruct (IH (ran ++ [callback t]) q1 I1) as (q' & E & HC & I' & K' & Hc'); [intros; apply HL; by right|].
    rewrite (callbacks_ext (heap q)) in E, HC by (intros e' He'; apply (keeps_heap _ _ _ K1), HL; by right).
    assert (Hcb : callbacks (heap q) (e :: L) = callback t :: callbacks (heap q) L).
    { unfold callbacks. cbn [omap list_omap]. by rewrite Ht. }
    exists q'. rewrite Hcb, E, <- app_assoc. split; [done|]. split; [by econstructor|].
    split; [done|]. split; [by etrans|].
    intros Hcall e' t' p s [->|He']%elem_of_cons Ht' HpF Hcan.
    + apply (keeps_canceling _ _ _ K'), Hc1; [done..|]. rewrite Ht in Ht'. injection Ht' as <-. apply Hcan.
    + eapply Hc'; [by rewrite (keeps_calling _ _ _ K1) | done | | done..].
      rewrite (keeps_heap _ _ _ K1); [done | apply HL; by right].
Qed.

(** ** Reset *)

(** What becomes of an expired timer: re-armed one period from [now], or deleted. *)
Definition fate (now : Timestamp) (canceled : gset (Z * Z)) (p : Z) (t : Timer) : option Timer :=
  if repeat t && bool_decide ((p, sequence t) ∉ canceled) then
    match delay (interval t) with
    | Ok d => Some (mkTimer (callback t) (now + d) (interval t) (repeat t) (sequence t))
    | Fault _ => None
    end
  else None.
Definition now_ok (now : Timestamp) : Prop := - 2 ^ 61 < now < 2 ^ 61.

Lemma reset_one_Ok F now w p t q :
  now_ok now -> inv (p :: F) q -> heap q !! p = Some t ->
  exists q', reset_one now (w, p) q = Ok q' /\ inv F q' /\
    heap q' = partial_alter (fun _ => fate now (cancelingTimers_ q) p t) p (heap q) /\
    cancelingTimers_ q' = cancelingTimers_ q.
Proof.
  intros Hnow I Hp. unfold reset_one, deref. cbn [snd]. rewrite Hp. cbn [mbind outcome_bind].
  unfold fate. destruct (repeat t && bool_decide _) eqn:Er.
  - apply andb_true_iff in Er as [Er _]. destruct (inv_timer _ _ I _ _ Hp) as [Ha Hsq Ht Hrep Hi].
    destruct Hi as (d & Hd & Hdr); [congruence|]. unfold now_ok in Hnow.
    set (t' := mkTimer (callback t) (now + d) (interval t) (repeat t) (sequence t)).
    assert (Hres : Restart now t = Ok t').
    { unfold Restart, AddTime. unfold delay in Hd. rewrite Er, Hd. cbn [mbind outcome_bind].
      rewrite sint_checked_Ok by (cbn; lia). by subst t'; rewrite <- Er. }
    rewrite Hres, Hd. cbn [mbind outcome_bind].
    assert (I1 : inv (p :: F) (set_heap (<[p:=t']> (heap q)) q)).
    { eapply (inv_put F (p :: F) q p t' (sNumCreated q)); [done | by left | lia |].
      split; cbn; [done..| unfold time_ok; lia | done | ]. intros _. eauto. }
    destruct (Insert_Ok F _ p t' I1) as (l & E & I2 & _); [by cbn; rewrite lookup_insert_eq|].
    rewrite E. eexists; split; [done|]. split; [done|]. done.
  - destruct (inv_free _ _ _ I) as (q' & -> & -> & I'). eexists; split; [done|]. done.
Qed.

Lemma reset_all_Ok F now L q :
  now_ok now -> inv (L.*2 ++ F) q ->
  exists q', ofold (reset_one now) L q = Ok q' /\ inv F q' /\
    cancelingTimers_ q' = cancelingTimers_ q /\
    (forall p, p ∉ L.*2 -> heap q' !! p = heap q !! p) /\
    (forall p t, p ∈ L.*2 -> heap q !! p = Some t ->
       heap q' !! p = fate now (cancelingTimers_ q) p t).
Proof.
  intros Hnow. revert q; induction L as [|[w x] L IH]; intros q I; cbn [ofold].
  - exists q. do 4 (split; [done|]). intros p t []%not_elem_of_nil.
  - destruct (inv_flight _ _ I) as [[Hx Hnd]%NoDup_cons Hsome]. destruct (Hsome x ltac:(left)) as [t Ht].
    destruct (reset_one_Ok (L.*2 ++ F) now w x t q Hnow I Ht) as (q1 & E & I1 & Hh & Hc).
    rewrite E. cbn [mbind outcome_bind].
    destruct (IH q1 I1) as (q' & E' & I' & Hc' & Hout & Hin). rewrite Hc in *.
    exists q'. split; [done|]. split; [done|]. split; [congruence|]. cbn [fmap list_fmap snd]. split.
    + intros p [Hpx Hp]%not_elem_of_cons. rewrite Hout, Hh, lookup_partial_alter_ne; done.
    + intros p tp Hp Htp. destruct (decide (p = x)) as [->|Hpx].
      * rewrite Hout, Hh, lookup_partial_alter_eq; [congruence|]. intros ?. apply Hx, elem_of_app. by left.
      * apply Hin; [set_solver|]. rewrite Hh, lookup_partial_alter_ne; done.
Qed.

(** The alarm is set for the first entry. *)
Definition alarm_set (clock : Timestamp) (q : TimerQueue) : Prop :=
  match timers_ q with
  | [] => True
  | it :: _ => 0 < it.1 -> exists ts, timerfd_ q = Some ts /\ 0 <= tv_nsec ts < 10 ^ 9 /\
      1000000 * tv_sec ts + tv_nsec ts / 1000 = Z.max 100 (it.1 - clock)
  end.

Lemma Reset_Ok F now clock L q :
  now_ok now -> time_ok clock -> inv (L.*2 ++ F) q ->
  exists q', Reset L now clock q = Ok q' /\ inv F q' /\ alarm_set clock q' /\
    cancelingTimers_ q' = cancelingTimers_ q /\
    (forall p, p ∉ L.*2 -> heap q' !! p = heap q !! p) /\
    (forall p t, p ∈ L.*2 -> heap q !! p = Some t ->
       heap q' !! p = fate now (cancelingTimers_ q) p t).
Proof.
  intros Hnow Hc I. destruct (reset_all_Ok F now L q Hnow I) as (q1 & E & I1 & Hcc & Hout & Hin).
  unfold Reset, alarm_set. rewrite E. cbn [mbind outcome_bind].
  destruct (timers_ q1) as [|it l] eqn:El.
  - cbn. exists q1. by rewrite El.
  - destruct (inv_entry_heap _ _ it I1) as (t & Ht & Hw & _); [rewrite El; left|].
    unfold deref. rewrite Ht. cbn [mbind outcome_bind].
    destruct (inv_timer _ _ I1 _ _ Ht) as [_ _ Hte _ _]. unfold Valid. rewrite Hw in *.
    destruct (HowMuchTimeFromNow_Ok _ clock Hte Hc) as (ts & Ets & _ & ?).
    case_if.
    + unfold ResetTimerfd. rewrite Ets. eexists; split; [done|]. split; [by eapply inv_ext|].
      cbn. rewrite El. eauto 10.
    + exists q1. rewrite El. do 2 (split; [done|]). split; [lia | done].
Qed.

(** The whole dispatch of one alarm. *)
Lemma HandleRead_Ok F prog now clock q :
  prog_ok prog -> now_ok now -> time_ok clock -> inv F q ->
  exists q1 q2 q',
    HandleRead prog now clock q = Ok (callbacks (heap q) (due now (timers_ q)), q') /\
    inv F q' /\ alarm_set clock q' /\
    (timers_ q1 = filter (fun e => now < e.1) (timers_ q) /\ heap q1 = heap q /\
     callingExpiredTimers_ q1 = true /\ cancelingTimers_ q1 = ∅) /\
    calls prog (callbacks (heap q) (due now (timers_ q))) q1 q2 /\
    cancelingTimers_ q' = cancelingTimers_ q2 /\
    (forall p, p ∉ (due now (timers_ q)).*2 -> heap q' !! p = heap q2 !! p) /\
    (forall w p t, (w, p) ∈ due now (timers_ q) -> heap q !! p = Some t ->
       heap q' !! p = fate now (cancelingTimers_ q') p t) /\
    (forall e t p s, e ∈ due now (timers_ q) -> heap q !! e.2 = Some t ->
       p ∈ (due now (timers_ q)).*2 -> cancels prog (callback t) p s -> (p, s) ∈ cancelingTimers_ q').
Proof.
  intros Hprog Hnow Hc I. destruct (GetExpired_Ok F now q I) as (q1 & E1 & I1 & Hh1 & _ & Ht1).
  set (L := due now (timers_ q)) in *.
  assert (I1' : inv (L.*2 ++ F) (set_canceling ∅ (set_calling true q1))) by by eapply inv_ext.
  destruct (run_all_Ok prog (L.*2 ++ F) L [] _ Hprog I1') as (q2 & E2 & HC & I2 & K2 & Hcan);
    [intros; apply elem_of_app; left; by apply list_elem_of_fmap_2|].
  destruct (Reset_Ok F now clock L (set_calling false q2) Hnow Hc) as (q3 & E3 & I3 & Hal & Hcc & Hout & Hin);
    [by eapply inv_ext|].
  cbn [heap set_canceling set_calling] in E2, HC. rewrite Hh1 in E2, HC.
  eexists _, q2, q3. unfold HandleRead. rewrite E1. cbn [mbind outcome_bind fst snd]. rewrite E2.
  cbn [mbind outcome_bind fst snd]. rewrite E3. do 3 (split; [done|]). split; [|split; [exact HC|]]; [done|].
  rewrite Hcc. split; [done|]. split; [exact Hout|]. split.
  - intros w p t Hp Ht. assert (Hp' : p ∈ L.*2) by by apply (list_elem_of_fmap_2 snd L (w, p)).
    apply Hin; [done|]. cbn. rewrite (keeps_heap _ _ _ K2) by (apply elem_of_app; by left). cbn. by rewrite Hh1.
  - intros e t p s He Ht Hp Hcb. cbn. eapply Hcan; [done | exact He | | apply elem_of_app; by left | done]. cbn. by rewrite Hh1.
Qed.

(** ** Whole runs *)
Inductive loop_op : Type :=
  | LoopOp (o : timer_op)
  | Alarm (now clock : Timestamp).
Definition exec_loop_op prog (o : loop_op) (q : TimerQueue) : outcome TimerQueue :=
  match o with
  | LoopOp o => exec_op o q
  | Alarm now clock => r ← HandleRead prog now clock q; Ok (snd r)
  end.
Definition loop_op_ok (o : loop_op) (q : TimerQueue) : Prop :=
  match o with
  | LoopOp o => op_ok o q
  | Alarm now clock => now_ok now /\ time_ok clock
  end.
Fixpoint loop_ops_ok prog (l : list loop_op) (q : TimerQueue) : Prop :=
  match l with
  | [] => True
  | o :: l' => loop_op_ok o q /\ forall q', exec_loop_op prog o q = Ok q' -> loop_ops_ok prog l' q'
  end.

Lemma inv_new : inv [] new_TimerQueue.
Proof.
  split; cbn; try done.
  - constructor.
  - intros w p []%not_elem_of_nil.
  - intros p s. split; [by intros ?%not_elem_of_empty|]. intros (t & E & _). by rewrite lookup_empty in E.
  - split; [constructor|]. intros p []%not_elem_of_nil.
Qed.

Lemma exec_loop_ops_Ok prog l q :
  prog_ok prog -> inv [] q -> loop_ops_ok prog l q ->
  exists q', ofold (exec_loop_op prog) l q = Ok q' /\ inv [] q'.
Proof.
  intros Hp. revert q; induction l as [|o l IH]; intros q I Hl; cbn [ofold]; [eauto|].
  destruct Hl as [Ho Hl].
  assert (exists q1, exec_loop_op prog o q = Ok q1 /\ inv [] q1) as (q1 & E & I1).
  { destruct o as [o|now clock]; cbn.
    - destruct (exec_op_Ok [] q o I Ho) as (q1 & ? & ? & _). eauto.
    - destruct Ho as [Hn Hc]. destruct (HandleRead_Ok [] prog now clock q Hp Hn Hc I) as (? & ? & q1 & -> & ? & _).
      cbn. eauto. }
  rewrite E. cbn [mbind outcome_bind]. apply IH; [done | by apply Hl].
Qed.

(** C8: from an empty queue, whatever sequence of additions, cancellations and
    alarms is run, and whatever the callbacks do, no assertion of the queue
    fails and no timer is used after it was deleted or deleted twice; at the end
    every timer still allocated is armed in [timers_] at its expiration and
    [activeTimers_] lists exactly these (nothing leaks, nothing dangles). *)
Theorem TimerQueue_safe prog l :
  prog_ok prog -> loop_ops_ok prog l new_TimerQueue ->
  exists q, ofold (exec_loop_op prog) l new_TimerQueue = Ok q /\
    StronglySorted Entry_lt (timers_ q) /\
    (forall w p, (w, p) ∈ timers_ q <-> exists t, heap q !! p = Some t /\ expiration_ t = w) /\
    (forall p s, (p, s) ∈ activeTimers_ q <-> exists t, heap q !! p = Some t /\ sequence t = s).
Proof.
  intros Hp Hl. destruct (exec_loop_ops_Ok prog l _ Hp inv_new Hl) as (q & E & I).
  assert (Hlive : forall p t, heap q !! p = Some t -> (expiration_ t, p) ∈ timers_ q).
  { intros p t Ht. by destruct (inv_live _ _ I p t Ht) as [[]%not_elem_of_nil|]. }
  exists q. split; [done|]. split; [apply (inv_sorted _ _ I)|]. split.
  - intros w p. split; [intros (t & ? & ? & _)%(inv_entry _ _ I); eauto|].
    intros (t & Ht & <-). auto.
  - intros p s. rewrite (inv_active _ _ I). split; [intros (t & ? & ? & _); eauto|].
    intros (t & Ht & <-). eauto.
Qed.

(** C9: the alarm at time [now] takes the entries whose expiration is not after
    [now] out of the queue and calls the callback of each of their timers, once
    and in the order of expiration, each acting on the queue the previous one
    left ([calls]; the list of the callbacks called is what [HandleRead]
    records).  Afterwards each of these timers is armed again one period after
    [now] when it repeats and no callback cancelled it meanwhile, and is deleted
    otherwise; the other timers are as the callbacks left them; and the timerfd
    is set to the delay to the first entry, at least 100 microseconds, when that
    entry's expiration is positive.  The callbacks keep [prog_ok] (fresh
    addresses, times and periods in range), and the queue was consistent. *)
Theorem HandleRead_runs_due prog now clock q :
  prog_ok prog -> now_ok now -> time_ok clock -> inv [] q ->
  let expired := filter (fun e => e.1 <= now) (timers_ q) in
  exists q1 q2 q',
    HandleRead prog now clock q = Ok (callbacks (heap q) expired, q') /\
    StronglySorted Entry_lt expired /\ length (callbacks (heap q) expired) = length expired /\
    (timers_ q1 = filter (fun e => now < e.1) (timers_ q) /\ heap q1 = heap q /\
     callingExpiredTimers_ q1 = true /\ cancelingTimers_ q1 = ∅) /\
    calls prog (callbacks (heap q) expired) q1 q2 /\
    (forall w p t, (w, p) ∈ timers_ q -> w <= now -> heap q !! p = Some t ->
       heap q' !! p = fate now (cancelingTimers_ q2) p t) /\
    (forall p, p ∉ expired.*2 -> heap q' !! p = heap q2 !! p) /\
    inv [] q' /\ alarm_set clock q'.
Proof.
  intros Hp Hn Hc I. cbn zeta.
  destruct (HandleRead_Ok [] prog now clock q Hp Hn Hc I)
    as (q1 & q2 & q' & E & I' & Hal & H1 & HC & Hcc & Hout & Hf & _).
  exists q1, q2, q'. split; [done|]. split; [apply StronglySorted_filter, (inv_sorted _ _ I)|].
  split; [|split; [done|]; split; [done|]; split; [|done]].
  - apply callbacks_length. intros e [_ (t & Ht & _)%(inv_entry_heap _ _ _ I)]%list_elem_of_filter. eauto.
  - rewrite <- Hcc. intros w p t Hin Hw. apply (Hf w). by apply list_elem_of_filter.
Qed.

(** A timer that another expired timer's callback, or its own, cancels
    during the dispatch is deleted at its end, even if it repeats: it never
    fires again. *)
Theorem cancel_during_dispatch prog now clock q wc pc tc w p t :
  prog_ok prog -> now_ok now -> time_ok clock -> inv [] q ->
  (wc, pc) ∈ timers_ q -> wc <= now -> heap q !! pc = Some tc ->
  (w, p) ∈ timers_ q -> w <= now -> heap q !! p = Some t ->
  cancels prog (callback tc) p (sequence t) ->
  exists r q', HandleRead prog now clock q = Ok (r, q') /\ heap q' !! p = None /\
    forall w', (w', p) ∉ timers_ q'.
Proof.
  intros Hp Hn Hc I Hic Hwc Htc Hin Hw Ht Hcan.
  destruct (HandleRead_Ok [] prog now clock q Hp Hn Hc I) as (q1 & q2 & q' & E & I' & _ & _ & _ & _ & _ & Hf & Hcc).
  assert (Hd : (w, p) ∈ due now (timers_ q)) by by apply list_elem_of_filter.
  assert (HN : heap q' !! p = None).
  { rewrite (Hf w p t Hd Ht). unfold fate. rewrite bool_decide_false; [by rewrite andb_false_r|].
    intros HH. apply HH. eapply (Hcc (wc, pc)); [by apply list_elem_of_filter | done | | done].
    by apply (list_elem_of_fmap_2 snd _ (w, p)). }
  eexists _, q'. split; [done|]. split; [done|].
  intros w' (t' & Ht' & _)%(inv_entry _ _ I'). congruence.
Qed.

(** Outside a dispatch, cancelling a TimerId removes the timer that has both
    its address and its sequence number and nothing else; an id whose timer is
    gone changes nothing, even if its address was given to a newer timer. *)
Theorem Cancel_exact q p s :
  inv [] q -> callingExpiredTimers_ q = false ->
  exists q', Cancel (mkTimerId p s) q = Ok q' /\ inv [] q' /\
    heap q' = filter (fun x => ~ (x.1 = p /\ sequence x.2 = s)) (heap q) /\
    (~ (exists t, heap q !! p = Some t /\ sequence t = s) -> q' = q).
Proof.
  intros I Hc. destruct (Cancel_Ok [] q p s I) as (q' & E & I' & _ & _ & Hd).
  exists q'. split; [done|]. split; [done|]. destruct (decide _) as [Ha|Ha].
  - pose proof Ha as (t & Ht & <- & _)%(inv_active _ _ I). split; [|intros []; eauto].
    destruct Hd as [-> _]. apply map_eq. intros x. apply option_eq. intros tx.
    rewrite lookup_delete_Some, map_lookup_filter_Some. cbn. split.
    + intros [Hx ?]. split; [done|]. by intros [-> _].
    + intros [Hx Hn]. split; [|done]. intros ->. apply Hn. split; congruence.
  - rewrite Hc in Hd. subst q'. split; [|done]. symmetry. apply map_filter_id.
    intros x t Ht. cbn. intros [-> Hs]. apply Ha, (inv_active _ _ I). exists t. repeat split; [done..|].
    by destruct (inv_live _ _ I _ _ Ht) as [[]%not_elem_of_nil|].
Qed.

End TimerQueue.
Arguments Timer : clear implicits.
Arguments TimerQueue : clear implicits.
Arguments timer_op : clear implicits.

(** ** A concrete queue

    Callback 0 does nothing; callback 1 cancels timer 16 of sequence 0;
    callback 2 adds a one-shot timer at address 64 if that is free. *)
Definition ex_prog (cb : nat) (q : TimerQueue nat) : list (timer_op nat) :=
  match cb with
  | 1%nat => [OpCancel (mkTimerId 16 0)]
  | 2%nat => match heap q !! 64 with None => [OpAdd 64 0%nat 900 d0 100] | Some _ => [] end
  | _ => []
  end.
Lemma ex_prog_ok : prog_ok ex_prog.
Proof.
  intros cb F q I. unfold ex_prog. destruct cb as [|[|[|cb]]]; cbn; try done.
  destruct (heap q !! 64) eqn:E; cbn; [done|]. split; [|done].
  unfold time_ok, interval_ok, UINTPTR_MAX. repeat split; try done; lia.
Qed.

Definition ex_half : double := S754_finite false 1 (-1).
Lemma ex_half_ok : interval_ok ex_half.
Proof. intros _. exists 500000. split; [vm_compute; done | lia]. Qed.
Lemma d0_ok : interval_ok d0.
Proof. intros [=]. Qed.

(** A repeating timer at 16, one that cancels it at 32, a one-shot at 48. *)
Definition ex_ops : list (loop_op (CB := nat)) :=
  [LoopOp (OpAdd 16 0%nat 300 ex_half 100); LoopOp (OpAdd 32 1%nat 200 ex_half 100);
   LoopOp (OpAdd 48 2%nat 1000 d0 100)].
Definition ex_queue : TimerQueue nat :=
  match ofold (exec_loop_op ex_prog) ex_ops new_TimerQueue with Ok q => q | Fault _ => new_TimerQueue end.

Ltac op_ok_ex :=
  cbn; unfold time_ok, now_ok, UINTPTR_MAX;
  repeat split; first [done | apply ex_half_ok | apply d0_ok | vm_compute; done | lia].

Lemma ex_ops_ok l : (l = [] \/ exists now clock, l = [Alarm now clock; LoopOp (OpCancel (mkTimerId 48 7))] /\
    now_ok now /\ time_ok clock) ->
  loop_ops_ok ex_prog (ex_ops ++ l) new_TimerQueue.
Proof.
  intros Hl. split; [op_ok_ex|]. intros q1 E1. vm_compute in E1. injection E1 as <-.
  split; [op_ok_ex|]. intros q2 E2. vm_compute in E2. injection E2 as <-.
  split; [op_ok_ex|]. intros q3 E3. clear E3.
  destruct Hl as [->|(now & clock & -> & ?)]; [done|]. by split.
Qed.

Lemma ex_queue_inv : inv [] ex_queue.
Proof.
  destruct (exec_loop_ops_Ok ex_prog ex_ops new_TimerQueue ex_prog_ok inv_new) as (q & E & I).
  - rewrite <- (app_nil_r ex_ops). apply ex_ops_ok. by left.
  - unfold ex_queue. by rewrite E.
Qed.

Lemma TimerQueue_safe_witness :
  exists q, ofold (exec_loop_op ex_prog)
      (ex_ops ++ [Alarm 500 600; LoopOp (OpCancel (mkTimerId 48 7))]) new_TimerQueue = Ok q /\
    timers_ q = [(1000, 48); (500500, 32)].
Proof.
  assert (H : loop_ops_ok ex_prog (ex_ops ++ [Alarm 500 600; LoopOp (OpCancel (mkTimerId 48 7))]) new_TimerQueue).
  { apply ex_ops_ok. right. exists 500, 600. unfold now_ok, time_ok. repeat split; lia. }
  destruct (TimerQueue_safe ex_prog _ ex_prog_ok H) as (q & E & _).
  exists q. split; [exact E|]. vm_compute in E. injection E as <-. reflexivity.
Defined.

Lemma HandleRead_runs_due_witness :
  exists q', HandleRead ex_prog 1000 1100 ex_queue = Ok ([1; 0; 2]%nat, q').
Proof.
  destruct (HandleRead_runs_due ex_prog 1000 1100 ex_queue ex_prog_ok) as (q1 & q2 & q' & E & _);
    [unfold now_ok; lia | unfold time_ok; lia | exact ex_queue_inv |].
  exists q'. rewrite E. vm_compute. reflexivity.
Defined.

Lemma cancel_during_dispatch_witness :
  exists r q', HandleRead ex_prog 500 600 ex_queue = Ok (r, q') /\ heap q' !! 16 = None.
Proof.
  destruct (cancel_during_dispatch ex_prog 500 600 ex_queue 200 32 (mkTimer 1%nat 200 ex_half true 1)
    300 16 (mkTimer 0%nat 300 ex_half true 0) ex_prog_ok) as (r & q' & E & H & _);
    [unfold now_ok; lia | unfold time_ok; lia | exact ex_queue_inv
    | change (timers_ ex_queue) with [(200, 32); (300, 16); (1000, 48)]; set_solver
    | lia | vm_compute; reflexivity
    | change (timers_ ex_queue) with [(200, 32); (300, 16); (1000, 48)]; set_solver
    | lia | vm_compute; reflexivity
    | intros q; cbn; left |].
  exists r, q'. split; [exact E | exact H].
Defined.

(** Address 48 with the sequence number of an older timer: nothing happens. *)
Lemma Cancel_exact_witness :
  exists q', Cancel (mkTimerId 48 1) ex_queue = Ok q' /\ q' = ex_queue.
Proof.
  destruct (Cancel_exact ex_queue 48 1 ex_queue_inv) as (q' & E & _ & _ & H); [vm_compute; reflexivity|].
  exists q'. split; [exact E|]. apply H. intros (t & Et & Es).
  assert (E48 : heap ex_queue !! 48 = Some (mkTimer 2%nat 1000 d0 false 2)) by (vm_compute; reflexivity).
  rewrite E48 in Et. injection Et as <-. discriminate Es.
Defined.
