(* ===== verification/TimerFd.v ===== *)
(** * The timer descriptor (the timerfd side of src/src/network/TimerQueue.cc)

    TimerQueue.v records what the queue gives to timerfd_settime(2).  Here the
    descriptor itself is part of the state: a one-shot alarm at a time of
    CLOCK_MONOTONIC, and the number of expirations a read(2) would return.  The queue
    computes the delay from the wall clock, which somebody may set, forward or back, at
    any time.  The loop thread adds, inserts and cancels timers and takes the alarm in
    pieces (the read of the clock and of the descriptor with [GetExpired], each callback,
    [Reset]), between which time passes, callbacks and other handlers call the queue,
    and other threads allocate timers that wait to be inserted. *)
From stdpp Require Import sorting.
From S2P Require Import Prelude Time TimerQueue.

Section TimerFd.
Context {CB : Type}.

(** ** The kernel *)
Record timerfd : Type := mkFd { deadline : option Z; ticks : Z }.
(** timerfd_settime(2) with a relative time: the old alarm and its expirations are
    forgotten. *)
Definition settime (mono : Z) (ts : timespec) (f : timerfd) : timerfd :=
  let ns := 10 ^ 9 * tv_sec ts + tv_nsec ts in
  mkFd (if ns =? 0 then None else Some (mono + ns)) 0.
Definition expire (mono : Z) (f : timerfd) : timerfd :=
  match deadline f with
  | Some d => if d <=? mono then mkFd None (ticks f + 1) else f
  | None => f
  end.
(** epoll(7) reports the descriptor as long as this holds. *)
Definition readable (f : timerfd) : bool := 0 <? ticks f.

(** ** State *)
(** An alarm under way: the time read at its start, the entries still to run and all
    that expired. *)
Record alarm : Type := mkAlarm { now_ : Timestamp; rest_ : list Entry; expired_ : list Entry }.
Record world : Type := mkWorld {
  queue : TimerQueue CB;
  fd : timerfd;
  mono : Z;                 (** CLOCK_MONOTONIC, nanoseconds *)
  offset : Z;               (** from it to the wall clock *)
  ahead : Z;                (** by how much the wall clock was set forward so far *)
  pending : list Z;         (** timers whose [AddTimerInLoop] is queued *)
  dispatch : option alarm;
  ran : list Entry;
  readErrors : Z;           (** reads that did not return 8 bytes *)
}.
Definition new_world (mono offset : Z) : world := mkWorld new_TimerQueue (mkFd None 0) mono offset 0 [] None [] 0.
Definition set_q x w := mkWorld x (fd w) (mono w) (offset w) (ahead w) (pending w) (dispatch w) (ran w) (readErrors w).
Definition set_fd x w := mkWorld (queue w) x (mono w) (offset w) (ahead w) (pending w) (dispatch w) (ran w) (readErrors w).
Definition set_pend x w := mkWorld (queue w) (fd w) (mono w) (offset w) (ahead w) x (dispatch w) (ran w) (readErrors w).
Definition set_dispatch x w := mkWorld (queue w) (fd w) (mono w) (offset w) (ahead w) (pending w) x (ran w) (readErrors w).
(** gettimeofday(2) in microseconds, and before it is cut to them. *)
Definition real (w : world) : Z := mono w + offset w.
Definition wall (w : world) : Timestamp := real w / 1000.

(** ** Steps *)
(** An operation of the queue, with the call of timerfd_settime it makes, if any. *)
Definition settle (op : TimerQueue CB -> outcome (TimerQueue CB)) (w : world) : outcome world :=
  q ← op (set_timerfd None (queue w));
  Ok (match timerfd_ q with
      | Some ts => set_fd (settime (mono w) ts (fd w)) (set_q q w)
      | None => set_q q w
      end).
(** The read that tells the kernel the alarm was taken: how many expirations, or
    [None] for EAGAIN, which is logged. *)
Definition ReadTimerfd (w : world) : option Z * world :=
  if readable (fd w) then (Some (ticks (fd w)), set_fd (mkFd (deadline (fd w)) 0) w)
  else (None, mkWorld (queue w) (fd w) (mono w) (offset w) (ahead w) (pending w) (dispatch w) (ran w) (readErrors w + 1)).

Inductive act : Type :=
  | TAdd (addr : Z) (cb : CB) (when : Timestamp) (interval : double)
  | TAlloc (addr : Z) (cb : CB) (when : Timestamp) (interval : double)   (** by another thread *)
  | TInsert                                                              (** the first queued functor *)
  | TCancel (id : TimerId)
  | TBegin | TRun | TEnd                                                 (** [HandleRead] *)
  | TPass (d : Z)
  | TSetClock (offset : Z).
Definition step (a : act) (w : world) : outcome world :=
  match a with
  | TAdd addr cb when interval => settle (fun q => r ← AddTimer addr cb when interval (wall w) q; Ok r.2) w
  | TAlloc addr cb when interval => Ok (set_pend (pending w ++ [addr]) (set_q (AllocTimer addr cb when interval (queue w)) w))
  | TInsert =>
      match pending w with
      | timer :: rest => settle (AddTimerInLoop timer (wall w)) (set_pend rest w)
      | [] => Ok w
      end
  | TCancel id => settle (CancelInLoop id) w
  | TBegin =>
      let now := wall w in
      let w := (ReadTimerfd w).2 in
      '(expired, q) ← GetExpired now (queue w);
      Ok (set_dispatch (Some (mkAlarm now expired expired)) (set_q (set_canceling ∅ (set_calling true q)) w))
  | TRun =>
      match dispatch w with
      | Some (mkAlarm now (it :: rest) expired) =>
          _ ← deref it.2 (queue w);
          Ok (mkWorld (queue w) (fd w) (mono w) (offset w) (ahead w) (pending w) (Some (mkAlarm now rest expired))
                (ran w ++ [it]) (readErrors w))
      | _ => Ok w
      end
  | TEnd =>
      match dispatch w with
      | Some a => settle (fun q => Reset (expired_ a) (now_ a) (wall w) (set_calling false q)) (set_dispatch None w)
      | None => Ok w
      end
  | TPass d =>
      Ok (mkWorld (queue w) (expire (mono w + d) (fd w)) (mono w + d) (offset w) (ahead w) (pending w) (dispatch w) (ran w) (readErrors w))
  | TSetClock off =>
      Ok (mkWorld (queue w) (fd w) (mono w) off (ahead w + Z.max 0 (off - offset w)) (pending w) (dispatch w) (ran w) (readErrors w))
  end.
Definition steps : list act -> world -> outcome world := ofold step.

(** ** Obligations: free addresses, times within bounds, the pieces of the alarm in order *)
Definition clock_ok (t : Z) : Prop := 1000 <= t < 1000 * 2 ^ 61.
Definition act_ok (a : act) (w : world) : Prop :=
  match a with
  | TAdd addr _ when interval | TAlloc addr _ when interval =>
      heap (queue w) !! addr = None /\ 0 < addr < UINTPTR_MAX /\ time_ok when /\ interval_ok interval
  | TInsert => pending w <> []
  | TCancel _ => True
  | TBegin => dispatch w = None
  | TRun => exists now it rest all, dispatch w = Some (mkAlarm now (it :: rest) all)
  | TEnd => exists now all, dispatch w = Some (mkAlarm now [] all)
  | TPass d => 0 <= d /\ clock_ok (real w + d)
  | TSetClock off => clock_ok (mono w + off)
  end.
Fixpoint acts_ok (l : list act) (w : world) : Prop :=
  match l with
  | [] => True
  | a :: l => act_ok a w /\ forall w', step a w = Ok w' -> acts_ok l w'
  end.

(** ** Invariant *)
(** The alarm has gone off, or goes off by the expiration [e] (which the clock can show
    for a microsecond before it is reached) or 100 microseconds from now, later only by
    what the clock was set forward. *)
Definition covered (e : Timestamp) (w : world) : Prop :=
  0 < ticks (fd w) \/
  exists d, deadline (fd w) = Some d /\ d + offset w <= Z.max (1000 * e + 999) (real w + 100000) + ahead w.
(** During an alarm only entries that were due at its start need the descriptor: [Reset]
    takes care of the others. *)
Definition needs (e : Timestamp) (w : world) : Prop :=
  match dispatch w with Some a => e <= now_ a | None => True end.
Definition flight (w : world) : list Z := match dispatch w with Some a => (expired_ a).*2 | None => [] end.
Record wbase (w : world) : Prop := {
  w_clock : clock_ok (real w);
  w_ahead : 0 <= ahead w;
  w_ticks : 0 <= ticks (fd w);
  w_alarm : forall a, dispatch w = Some a -> now_ok (now_ a) /\ 0 < now_ a /\ rest_ a ⊆ expired_ a;
}.
Record winv (w : world) : Prop := {
  w_base : wbase w;
  w_queue : inv (flight w ++ pending w) (queue w);
  w_cover : forall it, it ∈ timers_ (queue w) -> needs it.1 w -> covered it.1 w;
}.

(** ** Lemmas *)
Lemma HowMuchTimeFromNow_ns e clock ts : HowMuchTimeFromNow e clock = Ok ts ->
  10 ^ 9 * tv_sec ts + tv_nsec ts = 1000 * Z.max 100 (e - clock).
Proof.
  unfold HowMuchTimeFromNow. intros E. inv_ok. apply sint_checked_inv in E0 as [-> _]. cbn [tv_sec tv_nsec].
  pose proof (Z.quot_rem' (if e - clock <? 100 then 100 else e - clock) kMicroSecondsPerSecond).
  unfold kMicroSecondsPerSecond in *. case_if; lia.
Qed.
Lemma sorted_head (it : Entry) l x : StronglySorted Entry_lt (it :: l) -> x ∈ it :: l -> it.1 <= x.1.
Proof.
  intros [_ Hl]%StronglySorted_inv [->|Hx]%elem_of_cons; [lia|].
  rewrite Forall_forall in Hl. apply Hl in Hx. unfold Entry_lt in Hx. lia.
Qed.
Lemma covered_mono e e' w : e <= e' -> covered e w -> covered e' w.
Proof. intros He [?|(d & Hd & ?)]; [by left | right; exists d; split; [done | lia]]. Qed.
Lemma clock_now w : clock_ok (real w) -> now_ok (wall w) /\ 0 < wall w.
Proof. unfold clock_ok, now_ok, wall. intros H. split; [split|]; try (apply Z.div_lt_upper_bound; lia); Z.to_euclidean_division_equations; lia. Qed.
(** Setting the alarm for [e] covers it. *)
Lemma settime_covers e ts w q : HowMuchTimeFromNow e (wall w) = Ok ts -> 0 <= ahead w ->
  covered e (set_fd (settime (mono w) ts (fd w)) (set_q q w)).
Proof.
  intros Hns%HowMuchTimeFromNow_ns Ha. right. exists (mono w + 1000 * Z.max 100 (e - wall w)). unfold settime. cbn. cbn in Hns. rewrite Hns.
  destruct (Z.eqb_spec (1000 * Z.max 100 (e - wall w)) 0); [lia|]. split; [done|].
  unfold wall, real in *. cbn. Z.to_euclidean_division_equations; lia.
Qed.

(** What an operation of the queue has to establish. *)
Lemma settle_winv op w q : wbase w -> op (set_timerfd None (queue w)) = Ok q -> inv (flight w ++ pending w) q ->
  match timerfd_ q with
  | Some ts => exists e, HowMuchTimeFromNow e (wall w) = Ok ts /\ forall it, it ∈ timers_ q -> e <= it.1
  | None => forall it, it ∈ timers_ q -> needs it.1 w -> covered it.1 w
  end ->
  exists w', settle op w = Ok w' /\ winv w' /\ queue w' = q /\ dispatch w' = dispatch w /\ ran w' = ran w.
Proof.
  intros B E I Hc. unfold settle. rewrite E. cbn [mbind outcome_bind]. eexists. split; [done|].
  destruct (timerfd_ q) as [ts|] eqn:Ets.
  - destruct Hc as (e & Hts & Hmin). split; [|done]. split; [destruct B; by split | done|].
    intros it Hit _. apply (covered_mono e); [by apply Hmin|]. by apply settime_covers; [|apply B].
  - split; [|done]. split; [destruct B; by split | done | done].
Qed.
Lemma AddTimerInLoop_fd p (t : Timer CB) clock q q' : AddTimerInLoop p clock q = Ok q' -> heap q !! p = Some t ->
  match timers_ q with [] => true | it :: _ => expiration_ t <? it.1 end = false -> timerfd_ q' = timerfd_ q.
Proof.
  unfold AddTimerInLoop. intros E Hp He. apply bind_Ok in E as (r & Er & E). unfold Insert, deref in Er. rewrite Hp in Er.
  cbn [mbind outcome_bind] in Er. rewrite He in Er. destruct (set_insert _ _) as [l b]. inv_ok. cbn in E. by injection E as <-.
Qed.
(** Both ways to insert a timer. *)
Lemma insert_inv w (q : TimerQueue CB) p t : wbase w -> inv (p :: flight w ++ pending w) q -> heap q !! p = Some t -> timerfd_ q = None ->
  (forall it, it ∈ timers_ q -> needs it.1 w -> covered it.1 w) ->
  forall q', AddTimerInLoop p (wall w) q = Ok q' -> inv (flight w ++ pending w) q' /\
  match timerfd_ q' with
  | Some ts => exists e, HowMuchTimeFromNow e (wall w) = Ok ts /\ forall it, it ∈ timers_ q' -> e <= it.1
  | None => forall it, it ∈ timers_ q' -> needs it.1 w -> covered it.1 w
  end.
Proof.
  intros B I Hp Hn Hc q' E. destruct (clock_now w (w_clock _ B)) as [Hnow _].
  destruct (AddTimerInLoop_Ok _ q p t (wall w) I Hp) as (q1 & E1 & I1 & _ & _ & Ht & _ & _ & Hfd); [unfold now_ok in Hnow; split; lia|].
  rewrite E in E1. injection E1 as <-. split; [done|].
  pose proof (AddTimerInLoop_fd p t (wall w) q q' E Hp) as Hsame. pose proof (inv_sorted _ _ I) as Hs.
  destruct (match timers_ q with [] => true | it :: _ => expiration_ t <? it.1 end) eqn:Ee.
  - destruct Hfd as (ts & Hts & ->); [done|]. exists (expiration_ t). split; [done|]. intros it Hit. rewrite Ht in Hit.
    apply elem_of_cons in Hit as [->|Hit]; [cbn; lia|]. destruct (timers_ q) as [|h l]; [by apply not_elem_of_nil in Hit|].
    pose proof (sorted_head h l it Hs Hit). lia.
  - rewrite Hsame, Hn by done. intros it Hit Hneed. rewrite Ht in Hit. apply elem_of_cons in Hit as [->|Hit]; [|by apply Hc].
    cbn in *. destruct (timers_ q) as [|h l]; [done|]. apply Z.ltb_ge in Ee. apply (covered_mono h.1); [done|].
    apply Hc; [left|]. unfold needs in *. destruct (dispatch w); [lia | done].
Qed.

Lemma CancelInLoop_fd id (q q' : TimerQueue CB) : CancelInLoop id q = Ok q' -> timerfd_ q' = timerfd_ q /\ timers_ q' ⊆ timers_ q.
Proof.
  unfold CancelInLoop. intros E. apply bind_Ok in E as (_ & _ & E). apply bind_Ok in E as (q1 & E1 & E). inv_ok.
  destruct (decide _); [|destruct (callingExpiredTimers_ q); by inv_ok].
  apply bind_Ok in E1 as (t & _ & E1). unfold set_erase, free in E1. cbn [heap set_timers] in E1.
  destruct (heap q !! _) in E1; inv_ok. split; [done|]. intros x Hx. cbn in Hx. by apply list_elem_of_filter in Hx as [_ ?].
Qed.
Lemma Insert_fd p (q : TimerQueue CB) r : Insert p q = Ok r -> timerfd_ r.2 = timerfd_ q.
Proof. unfold Insert. intros E. inv_ok. destruct (set_insert _ _) as [l b]. inv_ok. done. Qed.
Lemma reset_fd now L (q q' : TimerQueue CB) : ofold (reset_one now) L q = Ok q' -> timerfd_ q' = timerfd_ q.
Proof.
  revert q. induction L as [|it L IH]; intros q E; cbn [ofold] in E; [by inv_ok|]. apply bind_Ok in E as (q1 & E1 & E). rewrite (IH _ E).
  unfold reset_one, free in E1. apply bind_Ok in E1 as (t & Et & E1). repeat case_match; inv_ok; try done.
  match goal with H : Insert _ _ = Ok _ |- _ => by apply Insert_fd in H end.
Qed.
(** [Reset] sets the alarm for the first entry unless that is not [Valid]. *)
Lemma Reset_fd L now clock (q q' : TimerQueue CB) : Reset L now clock q = Ok q' ->
  match timers_ q' with
  | it :: _ => forall t, heap q' !! it.2 = Some t -> if 0 <? expiration_ t then exists ts, HowMuchTimeFromNow (expiration_ t) clock = Ok ts /\ timerfd_ q' = Some ts
               else timerfd_ q' = timerfd_ q
  | [] => timerfd_ q' = timerfd_ q
  end.
Proof.
  unfold Reset, Valid. intros E. apply bind_Ok in E as (q1 & E1 & E). apply reset_fd in E1. apply bind_Ok in E as (e & E2 & E).
  destruct (timers_ q1) as [|it l] eqn:El; [injection E2 as <-; cbn in E; injection E as <-; by rewrite El|].
  unfold deref in E2. destruct (heap q1 !! it.2) as [t|] eqn:Et; [|done]. cbn [mbind outcome_bind] in E2. injection E2 as <-.
  destruct (0 <? expiration_ t) eqn:Ev; [unfold ResetTimerfd in E|]; inv_ok; cbn; rewrite El; intros t' Ht'; cbn in Ht'; rewrite Et in Ht'; injection Ht' as <-;
    rewrite Ev; [by eexists | done].
Qed.

(** ** Every step keeps the invariant *)
Lemma fate_later n now can p (t t' : Timer CB) : timer_ok n p t -> fate now can p t = Some t' -> now <= expiration_ t'.
Proof.
  intros [_ _ _ Hr Hi]. unfold fate. destruct (repeat t && _) eqn:E; [|done]. apply andb_true_iff in E as [E _].
  destruct Hi as (d & -> & ?); [congruence|]. intros [= <-]. cbn. lia.
Qed.
Lemma end_inv w now all : winv w -> dispatch w = Some (mkAlarm now [] all) -> exists w', step TEnd w = Ok w' /\ winv w' /\ dispatch w' = None /\ ran w' = ran w.
Proof.
  intros [B I C] Hd. destruct (w_alarm _ B _ Hd) as (Hn & Hpos & _). destruct (clock_now w (w_clock _ B)) as [Hwall _].
  set (w0 := set_dispatch None w). set (q0 := set_calling false (set_timerfd None (queue w))). cbn [step]. rewrite Hd. cbn [expired_ now_].
  unfold flight in I. rewrite Hd in I. cbn in I, Hn, Hpos.
  assert (I0 : inv (all.*2 ++ pending w) q0) by by eapply inv_ext.
  destruct (Reset_Ok (pending w) now (wall w) all q0 Hn) as (q' & E & I' & _ & _ & Hout & Hin); [unfold now_ok, time_ok in *; lia | done |].
  destruct (settle_winv (fun q => Reset all now (wall w) (set_calling false q)) w0 q') as (w' & Ew & W & _ & Hd' & Hr); [destruct B; by split | done | done | | by exists w'].
  pose proof (Reset_fd all now (wall w) q0 q' E) as Hfd. pose proof (inv_sorted _ _ I') as Hs.
  destruct (timers_ q') as [|it l] eqn:El.
  { cbn in Hfd. rewrite Hfd. intros it []%not_elem_of_nil. }
  destruct (inv_entry_heap _ _ it I') as (t & Ht & Hexp & _); [rewrite El; left|]. specialize (Hfd t Ht).
  destruct (Z.ltb_spec 0 (expiration_ t)) as [Hv|Hv].
  - destruct Hfd as (ts & Hts & ->). exists (expiration_ t). split; [done|]. intros x Hx. rewrite Hexp. by apply (sorted_head it l).
  - cbn in Hfd. rewrite Hfd. intros x Hx _. apply (covered_mono it.1); [by apply (sorted_head it l)|].
    destruct it as [e p]. cbn in *. subst e. change (covered (expiration_ t) w). apply (C (expiration_ t, p)); cbn; [|unfold needs; rewrite Hd; cbn; lia].
    destruct (inv_entry _ _ I' (expiration_ t) p) as (_ & _ & _ & Hnp); [rewrite El; left|].
    destruct (decide (p ∈ all.*2)) as [Hp|Hp].
    + destruct (inv_flight _ _ I0) as [_ Hsome]. destruct (Hsome p) as [t0 Ht0]; [apply elem_of_app; by left|].
      rewrite (Hin p t0 Hp Ht0) in Ht. pose proof (fate_later _ _ _ _ _ _ (inv_timer _ _ I0 p t0 Ht0) Ht). lia.
    + rewrite (Hout p Hp) in Ht. destruct (inv_live _ _ I0 p t Ht) as [[?|?]%elem_of_app|?]; done.
Qed.
Lemma begin_inv w : winv w -> dispatch w = None ->
  exists w', step TBegin w = Ok w' /\ winv w' /\ ran w' = ran w /\
    let L := due (wall w) (timers_ (queue w)) in dispatch w' = Some (mkAlarm (wall w) L L).
Proof.
  intros [B I C] Hd. destruct (clock_now w (w_clock _ B)) as [Hwall Hpos]. unfold flight in I. rewrite Hd in I. cbn [app] in I.
  destruct (GetExpired_Ok (pending w) (wall w) (queue w) I) as (q' & E & I' & _ & _ & Ht). cbn [step]. set (L := due _ _) in *.
  assert (Hr : exists f n, (ReadTimerfd w).2 = mkWorld (queue w) f (mono w) (offset w) (ahead w) (pending w) (dispatch w) (ran w) n /\ 0 <= ticks f).
  { unfold ReadTimerfd. pose proof (w_ticks _ B). destruct (readable (fd w)); (eexists _, _; split; [reflexivity|]; cbn; lia). }
  destruct Hr as (f & n & -> & Hf). cbn [queue]. rewrite E. cbn [mbind outcome_bind]. eexists. split; [done|]. split; [|done].
  split; [destruct B; split; cbn; try done | |].
  - intros a [= <-]. done.
  - cbn. by eapply inv_ext.
  - cbn. rewrite Ht. intros it [Hlate _]%list_elem_of_filter Hneed. unfold needs in Hneed. cbn in Hneed. lia.
Qed.
Lemma run_winv w now it rest all : winv w -> dispatch w = Some (mkAlarm now (it :: rest) all) ->
  exists w', step TRun w = Ok w' /\ winv w' /\ dispatch w' = Some (mkAlarm now rest all) /\ ran w' = ran w ++ [it].
Proof.
  intros [B I C] Hd. destruct (w_alarm _ B _ Hd) as (Hn & Hpos & Hsub). cbn in Hsub. cbn [step]. rewrite Hd.
  destruct (inv_flight _ _ I) as [_ Hsome]. destruct (Hsome it.2) as [t Ht].
  { apply elem_of_app. left. unfold flight. rewrite Hd. cbn. apply list_elem_of_fmap_2. apply Hsub. left. }
  unfold deref. rewrite Ht. cbn [mbind outcome_bind]. eexists. split; [done|]. split; [|done].
  unfold flight in I. rewrite Hd in I. split; cbn.
  - destruct B. split; cbn; try done. intros a [= <-]. cbn. split_and!; [done | done|]. intros x Hx. apply Hsub. by right.
  - done.
  - intros x Hx Hneed. unfold needs in Hneed. cbn in Hneed. apply C; [done|]. unfold needs. by rewrite Hd.
Qed.
Lemma pass_inv w d : winv w -> 0 <= d -> clock_ok (real w + d) -> exists w', step (TPass d) w = Ok w' /\ winv w' /\ queue w' = queue w /\
  mono w' = mono w + d /\ offset w' = offset w /\ dispatch w' = dispatch w /\ ran w' = ran w /\
  (forall x, deadline (fd w) = Some x -> x <= mono w + d -> 0 < ticks (fd w')) /\ (0 < ticks (fd w) -> 0 < ticks (fd w')).
Proof.
  intros [B I C] Hd Hc. pose proof (w_ticks _ B). pose proof (w_ahead _ B). eexists. split; [done|]. split_and!; try done; cbn.
  - split; cbn; [|done|].
    + destruct B. split; cbn; try done; [unfold real in *; cbn; by replace (mono w + d + offset w) with (mono w + offset w + d) by lia|].
      unfold expire. repeat case_match; cbn; lia.
    + intros it Hit Hneed. destruct (C it Hit Hneed) as [Ht|(x & Hx & Hb)]; unfold covered, expire, real in *; cbn.
      * left. repeat case_match; cbn; lia.
      * rewrite Hx. destruct (Z.leb_spec x (mono w + d)); cbn; [left; lia|]. right. exists x. split; [done | lia].
  - intros x Hx Hle. unfold expire. rewrite Hx. destruct (Z.leb_spec x (mono w + d)); cbn; lia.
  - unfold expire. repeat case_match; cbn; lia.
Qed.
Lemma clock_inv w off : winv w -> clock_ok (mono w + off) -> exists w', step (TSetClock off) w = Ok w' /\ winv w'.
Proof.
  intros [B I C] Hc. eexists. split; [done|]. split; cbn; [|done|].
  - destruct B. split; cbn; try done. lia.
  - intros it Hit Hneed. destruct (C it Hit Hneed) as [Ht|(x & Hx & Hb)]; unfold covered, real in *; cbn; [by left|].
    right. exists x. split; [done | lia].
Qed.

Lemma step_winv a w : winv w -> act_ok a w -> exists w', step a w = Ok w' /\ winv w'.
Proof.
  intros W Ha. pose proof W as [B I C]. destruct (clock_now w (w_clock _ B)) as [Hwall _].
  set (q0 := set_timerfd None (queue w)). assert (I0 : inv (flight w ++ pending w) q0) by by eapply inv_ext.
  destruct a as [addr cb when i|addr cb when i| |id| | | |d|off]; cbn [act_ok] in Ha.
  - destruct Ha as (Hfree & Haddr & Hw & Hi). pose proof (AllocTimer_Ok _ q0 addr cb when i I0 Hfree Haddr Hw Hi) as I1.
    set (q1 := AllocTimer addr cb when i q0) in *. set (t := new_Timer cb when i (sNumCreated q0)).
    assert (Ht : heap q1 !! addr = Some t) by (cbn; by rewrite lookup_insert_eq).
    destruct (AddTimerInLoop_Ok _ q1 addr t (wall w) I1 Ht) as (q' & E & _); [unfold now_ok, time_ok in *; lia|].
    destruct (insert_inv w q1 addr t B I1 Ht eq_refl C q' E) as [I' Hfd].
    destruct (settle_winv (fun q => r ← AddTimer addr cb when i (wall w) q; Ok r.2) w q') as (w' & ? & ? & _); [done | | done | done | by exists w'].
    unfold AddTimer. fold q0 q1. by rewrite E.
  - destruct Ha as (Hfree & Haddr & Hw & Hi). pose proof (AllocTimer_Ok _ (queue w) addr cb when i I Hfree Haddr Hw Hi) as I1.
    eexists. split; [done|]. split; cbn; [destruct B; by split | | exact C].
    eapply inv_perm; [|exact I1]. change (flight _) with (flight w). rewrite app_assoc. apply Permutation_cons_append.
  - cbn [step]. destruct (pending w) as [|p rest] eqn:Ep; [done|]. set (w0 := set_pend rest w). change (wall w) with (wall w0) in *.
    assert (I1 : inv (p :: flight w0 ++ pending w0) q0) by (eapply inv_perm; [|exact I0]; symmetry; apply Permutation_middle).
    destruct (inv_flight _ _ I1) as [_ Hsome]. destruct (Hsome p) as [t Ht]; [left|].
    destruct (AddTimerInLoop_Ok _ q0 p t (wall w0) I1 Ht) as (q' & E & _); [unfold now_ok, time_ok in *; lia|].
    assert (B0 : wbase w0) by (destruct B; by split).
    destruct (insert_inv w0 q0 p t B0 I1 Ht eq_refl C q' E) as [I' Hfd].
    destruct (settle_winv (AddTimerInLoop p (wall w0)) w0 q') as (w' & ? & ? & _); [done..|]. by exists w'.
  - destruct id as [p sq]. destruct (Cancel_Ok _ q0 p sq I0) as (q' & E & I' & _). unfold Cancel in E. destruct (CancelInLoop_fd _ _ _ E) as [Hfd Hsub].
    destruct (settle_winv (CancelInLoop (mkTimerId p sq)) w q') as (w' & ? & ? & _); [done | done | done | | by exists w'].
    rewrite Hfd. cbn. intros it Hit. apply C. by apply Hsub.
  - destruct (begin_inv w W Ha) as (w' & ? & ? & _). by exists w'.
  - destruct Ha as (now & it & rest & all & Hd). destruct (run_winv w now it rest all W Hd) as (w' & ? & ? & _). by exists w'.
  - destruct Ha as (now & all & Hd). destruct (end_inv w now all W Hd) as (w' & ? & ? & _). by exists w'.
  - destruct Ha as [? ?]. destruct (pass_inv w d W) as (w' & ? & ? & _); [done..|]. by exists w'.
  - by apply clock_inv.
Qed.
Lemma steps_inv l w : winv w -> acts_ok l w -> exists w', steps l w = Ok w' /\ winv w'.
Proof.
  revert w. induction l as [|a l IH]; intros w W Hl; [by exists w|]. destruct Hl as [Ha Hl]. destruct (step_winv a w W Ha) as (w1 & E & W1).
  cbn. rewrite E. cbn [mbind outcome_bind]. apply IH; [done | by apply Hl].
Qed.
Lemma new_world_inv m off : clock_ok (m + off) -> winv (new_world m off).
Proof. intros Hc. split; [split; try done | apply inv_new | by intros it []%not_elem_of_nil]. Qed.
(** The callbacks of an alarm, one after the other. *)
Lemma runs_inv now L all w : winv w -> dispatch w = Some (mkAlarm now L all) ->
  exists w', steps (replicate (length L) TRun ++ [TEnd]) w = Ok w' /\ winv w' /\ dispatch w' = None /\ ran w' = ran w ++ L.
Proof.
  revert w. induction L as [|it L IH]; intros w W Hd; cbn -[step].
  - destruct (end_inv w now all W Hd) as (w' & -> & W' & Hd' & Hr). exists w'. by rewrite app_nil_r.
  - destruct (run_winv w now it L all W Hd) as (w1 & -> & W1 & Hd1 & Hr1). cbn [mbind outcome_bind].
    destruct (IH w1 W1 Hd1) as (w' & E & W' & Hd' & Hr). exists w'. split; [exact E|]. split; [done|]. split; [done|].
    by rewrite Hr, Hr1, <- app_assoc.
Qed.
(** ** Periods in which the descriptor is not set again *)
Definition quiet (a : act) : Prop :=
  match a with TPass _ | TAlloc _ _ _ _ | TCancel _ => True | _ => False end.

Lemma quiet_step a w w' : winv w -> act_ok a w -> quiet a -> step a w = Ok w' ->
  mono w <= mono w' /\ offset w' = offset w /\ dispatch w' = dispatch w /\ ran w' = ran w /\
  (0 < ticks (fd w) -> 0 < ticks (fd w')) /\
  (forall x, deadline (fd w) = Some x -> 0 < ticks (fd w') \/ (deadline (fd w') = Some x /\ (mono w < mono w' -> mono w' < x))).
Proof.
  intros [B _ _] Ha Hq E. pose proof (w_ticks _ B).
  destruct a as [| addr cb when i | |id| | | |d|]; try done; cbn [act_ok] in Ha; cbn [step] in E.
  - injection E as <-. cbn. split_and!; try done. intros x Hx. right. split; [done | intros; lia].
  - unfold settle in E. apply bind_Ok in E as (q & [Hfd _]%CancelInLoop_fd & E). rewrite Hfd in E. cbn in E. injection E as <-. cbn.
    split_and!; try done. intros x Hx. right. split; [done | intros; lia].
  - injection E as <-. cbn. split_and!; try done; [lia | |].
    + unfold expire. repeat case_match; cbn; lia.
    + intros x Hx. unfold expire. rewrite Hx. destruct (Z.leb_spec x (mono w + d)); cbn; [left; lia | right; split; [done | lia]].
Qed.
(** Once the time the alarm was set for is reached, the descriptor is readable. *)
Lemma quiet_fires l w w' x : winv w -> acts_ok l w -> Forall quiet l -> steps l w = Ok w' ->
  mono w <= mono w' /\ offset w' = offset w /\ dispatch w' = dispatch w /\ ran w' = ran w /\
  (0 < ticks (fd w) -> 0 < ticks (fd w')) /\
  (deadline (fd w) = Some x -> x <= mono w' -> mono w < mono w' -> 0 < ticks (fd w')).
Proof.
  revert w. induction l as [|a l IH]; intros w W Hl Hq E.
  - injection E as <-. split_and!; try done; intros; lia.
  - destruct Hl as [Ha Hl]. apply Forall_cons in Hq as [Hqa Hq]. destruct (step_winv a w W Ha) as (w1 & E1 & W1).
    cbn [steps ofold] in E. unfold steps in E. cbn [ofold] in E. rewrite E1 in E. cbn [mbind outcome_bind] in E.
    destruct (quiet_step a w w1 W Ha Hqa E1) as (Hm & Ho & Hd & Hr & Ht & Hx).
    destruct (IH w1 W1 (Hl _ E1) Hq E) as (Hm' & Ho' & Hd' & Hr' & Ht' & Hf). split_and!; [lia | congruence..| auto |].
    intros Hdl Hle Hlt. destruct (Hx x Hdl) as [?|[Hdl1 Hlt1]]; [auto|].
    destruct (decide (mono w1 < mono w')); [by apply Hf | lia].
Qed.

End TimerFd.
Arguments act : clear implicits.
Arguments world : clear implicits.

(** *** A run: one timer of the loop, one of another thread that repeats, one added by a
    callback during the alarm; then the clock is set back *)
Definition ex_acts : list (act unit) :=
  [TAdd 64 tt 5000 d0; TAlloc 80 tt 3000 ex_half; TPass 1000000; TInsert; TPass 1200000; TBegin; TRun;
   TAdd 96 tt 3100 d0; TEnd; TSetClock (-100000)].
Definition ex_world : outcome (world unit) := steps ex_acts (new_world 1000000 0).
Ltac act_ok_ex :=
  cbn; unfold time_ok, clock_ok, UINTPTR_MAX, real; cbn;
  repeat split; first [done | apply ex_half_ok | apply d0_ok | vm_compute; done | lia | by eexists _, _ | by eexists _, _, _, _].
Lemma ex_timer_acts_ok : acts_ok ex_acts (new_world 1000000 0).
Proof. unfold ex_acts. repeat (split; [act_ok_ex|]; let w := fresh "w" in let E := fresh "E" in intros w E; vm_compute in E; injection E as <-). done. Qed.
Definition ex_quiet : list (act unit) := [TPass 900000; TAlloc 112 tt 9000 d0; TCancel (mkTimerId 96 2); TPass 1100000].

(** Every insertion of a timer earlier than the first one sets the descriptor again, and to 100
    microseconds from now at least.  A timer added every 50 microseconds, each for an
    earlier time than the last, keeps the descriptor from ever becoming readable: a timer
    for 5000 is still waiting at 10050, and so are the hundred before it, all of
    them overdue, although nobody touched the clock. *)
Definition starve : list (act unit) :=
  TAdd 64 tt 5000 d0 :: TPass 4000000 ::
  flat_map (fun i => [TAdd (80 + 16 * Z.of_nat i) tt (4000 - Z.of_nat i) d0; TPass 50000]) (seq 0 101).
Lemma insertions_starve : exists w : world unit,
  steps starve (new_world 1000000 0) = Ok w /\ wall w = 10050 /\ readable (fd w) = false /\
  length (timers_ (queue w)) = 102%nat /\ Forall (fun it => it.1 <= 5000) (timers_ (queue w)) /\ ran w = [].
Proof.
  assert (E : match steps starve (new_world 1000000 0) with
    | Ok w => (wall w =? 10050) && negb (readable (fd w)) && bool_decide (length (timers_ (queue w)) = 102%nat)
              && forallb (fun it => it.1 <=? 5000) (timers_ (queue w)) && bool_decide (ran w = [])
    | Fault _ => false end = true) by (vm_compute; reflexivity).
  destruct (steps starve _) as [w|]; [|done]. exists w. repeat rewrite andb_true_iff in E.
  destruct E as ((((E1 & E2) & E3) & E4) & E5). apply Z.eqb_eq in E1. apply negb_true_iff in E2.
  apply bool_decide_eq_true in E3, E5. split_and!; [done..| |done].
  rewrite forallb_forall in E4. apply Forall_forall. intros it Hit. apply Z.leb_le, E4. by apply list_elem_of_In.
Qed.

(** When a handler that runs before the alarm in the same round adds an earlier timer,
    timerfd_settime clears the expiration the poller has already reported: the read of
    the alarm fails with EAGAIN, and [howmany] is printed without having been set. *)
Lemma ReadTimerfd_fails : exists w w' : world unit,
  steps [TAdd 64 tt 5000 d0; TPass 5000000] (new_world 1000000 0) = Ok w /\ readable (fd w) = true /\
  steps [TAdd 80 tt 4000 d0; TBegin] w = Ok w' /\ readErrors w' = 1.
Proof. eexists _, _. split; [vm_compute; reflexivity|]. split; [reflexivity|]. split; vm_compute; reflexivity. Qed.
(** A clock set an hour forward does not hasten the alarm: a second later the timer,
    long expired by the clock its time refers to, still waits. *)
Lemma clock_set_forward_delays : exists w : world unit,
  steps [TAdd 64 tt 60000000 d0; TSetClock 3600000000000; TPass 1000000000] (new_world 1000000 0) = Ok w /\
  60000000 < wall w /\ readable (fd w) = false.
Proof. eexists. split; [vm_compute; reflexivity|]. split; vm_compute; reflexivity. Qed.
