(* ===== verification/Epoll.v ===== *)
(** * Channels and the poller (src/src/network/Channel.h, Channel.cc, Epoll.h,
    Epoll.cc, and the channel part of EventLoop.cc)

    A [Channel*] is a key of [chans].  The state holds the channels, the poller's
    map [channels_] from descriptors to channels, the length of its event vector,
    the loop's scratch variables and the kernel's epoll instance.  The kernel is
    an interface, [EpollKernel], with the documented behaviour of epoll(7) as
    [EpollLaws]: the theorems hold for any kernel that keeps them, and an
    executable instance shows that they can be kept.  Every call is made in the
    loop thread. *)
From S2P Require Import Prelude LogStream.

(** ** epoll(7) *)
Definition EPOLLIN : Z := 1.
Definition EPOLLPRI : Z := 2.
Definition EPOLLOUT : Z := 4.
Definition EPOLLERR : Z := 8.
Definition EPOLLHUP : Z := 16.
Definition EPOLLRDHUP : Z := 8192.

Inductive ctl : Type := EPOLL_CTL_ADD | EPOLL_CTL_DEL | EPOLL_CTL_MOD.

Record epoll_event : Type := mkEvent { events : Z; data_ptr : Z }.

(** [interest] is the interest list of the epoll instance; [epoll_ctl] tells
    whether it returned 0; [epoll_wait] gives its result and the events stored. *)
Class EpollKernel (K : Type) := {
  interest : K -> gmap Z epoll_event;
  epoll_ctl : ctl -> Z -> epoll_event -> K -> bool * K;
  epoll_wait : Z -> K -> Z * list epoll_event * K;
}.

Class EpollLaws (K : Type) `{EpollKernel K} : Prop := {
  ctl_add k fd ev k' : epoll_ctl EPOLL_CTL_ADD fd ev k = (true, k') ->
    interest k !! fd = None /\ interest k' = <[fd:=ev]> (interest k);
  ctl_mod k fd ev k' : epoll_ctl EPOLL_CTL_MOD fd ev k = (true, k') ->
    is_Some (interest k !! fd) /\ interest k' = <[fd:=ev]> (interest k);
  ctl_del k fd ev k' : epoll_ctl EPOLL_CTL_DEL fd ev k = (true, k') ->
    is_Some (interest k !! fd) /\ interest k' = delete fd (interest k);
  ctl_fail op fd ev k k' : epoll_ctl op fd ev k = (false, k') -> interest k' = interest k;
  ctl_del_registered fd ev k : is_Some (interest k !! fd) -> (epoll_ctl EPOLL_CTL_DEL fd ev k).1 = true;
  wait_result max k n evs k' : epoll_wait max k = (n, evs, k') ->
    interest k' = interest k /\
    ((n = zlen evs /\ n <= max) \/ (n = -1 /\ evs = [])) /\
    exists fds, NoDup fds /\ Forall2 (fun fd e => 0 <= events e < 2 ^ 31 /\
       exists ev, interest k !! fd = Some ev /\ data_ptr ev = data_ptr e) fds evs;
}.

(** ** Data *)
Definition kNoneEvent : Z := 0.
Definition kReadEvent : Z := Z.lor EPOLLIN EPOLLPRI.
Definition kWriteEvent : Z := EPOLLOUT.

Definition kNew : Z := -1.
Definition kAdded : Z := 1.
Definition kDeleted : Z := 2.

Definition kInitEventListSize : Z := 16.
Definition kPollTimeMs : Z := 10000.

(** The callbacks a channel can have. *)
Inductive event_kind : Type := CloseCallback | ErrorCallback | ReadCallback | WriteCallback.
#[global] Instance event_kind_eq_dec : EqDecision event_kind.
Proof. solve_decision. Defined.

Record Channel : Type := mkChannel {
  fd : Z;
  events_ : Z;
  revents_ : Z;
  index_ : Z;
  logHup_ : bool;
  tied_ : bool;
  ch_eventHandling_ : bool;
  addedToLoop_ : bool;
  callbacks : list event_kind;        (** which of the four are set *)
}.

Definition new_Channel (fd : Z) : Channel := mkChannel fd 0 0 (-1) true false false false [].

Definition with_events (e : Z) (c : Channel) : Channel :=
  mkChannel (fd c) e (revents_ c) (index_ c) (logHup_ c) (tied_ c) (ch_eventHandling_ c) (addedToLoop_ c) (callbacks c).
Definition SetRevents (r : Z) (c : Channel) : Channel :=
  mkChannel (fd c) (events_ c) r (index_ c) (logHup_ c) (tied_ c) (ch_eventHandling_ c) (addedToLoop_ c) (callbacks c).
Definition SetIndex (i : Z) (c : Channel) : Channel :=
  mkChannel (fd c) (events_ c) (revents_ c) i (logHup_ c) (tied_ c) (ch_eventHandling_ c) (addedToLoop_ c) (callbacks c).
Definition DoNotLogHup (c : Channel) : Channel :=
  mkChannel (fd c) (events_ c) (revents_ c) (index_ c) false (tied_ c) (ch_eventHandling_ c) (addedToLoop_ c) (callbacks c).
Definition Tie (c : Channel) : Channel :=
  mkChannel (fd c) (events_ c) (revents_ c) (index_ c) (logHup_ c) true (ch_eventHandling_ c) (addedToLoop_ c) (callbacks c).
Definition with_handling (h : bool) (c : Channel) : Channel :=
  mkChannel (fd c) (events_ c) (revents_ c) (index_ c) (logHup_ c) (tied_ c) h (addedToLoop_ c) (callbacks c).
Definition with_added (a : bool) (c : Channel) : Channel :=
  mkChannel (fd c) (events_ c) (revents_ c) (index_ c) (logHup_ c) (tied_ c) (ch_eventHandling_ c) a (callbacks c).
Definition SetCallback (k : event_kind) (c : Channel) : Channel :=
  mkChannel (fd c) (events_ c) (revents_ c) (index_ c) (logHup_ c) (tied_ c) (ch_eventHandling_ c) (addedToLoop_ c) (k :: callbacks c).

Definition flag (v bits : Z) : bool := negb (Z.land v bits =? 0).
Definition IsNoneEvent (c : Channel) : bool := events_ c =? kNoneEvent.
Definition IsWriting (c : Channel) : bool := flag (events_ c) kWriteEvent.
Definition IsReading (c : Channel) : bool := flag (events_ c) kReadEvent.

(** [EventsToString(fd, ev)]: the stream prints the descriptor in decimal. *)
Definition EventsToString (fd ev : Z) : outcome (list byte) :=
  n ← Convert fd;
  Ok (n ++ chars ": " ++
      (if flag ev EPOLLIN then chars "IN " else []) ++
      (if flag ev EPOLLPRI then chars "PRI " else []) ++
      (if flag ev EPOLLOUT then chars "OUT " else []) ++
      (if flag ev EPOLLHUP then chars "HUP " else []) ++
      (if flag ev EPOLLRDHUP then chars "RDHUP " else []) ++
      (if flag ev EPOLLERR then chars "ERR " else [])).

Definition OperationToString (op : ctl) : list byte :=
  match op with
  | EPOLL_CTL_ADD => chars "ADD"
  | EPOLL_CTL_DEL => chars "DEL"
  | EPOLL_CTL_MOD => chars "MOD"
  end.

(** Flags as bits. *)
Lemma flag_pow2 v n : 0 <= n -> flag v (2 ^ n) = Z.testbit v n.
Proof.
  intros Hn. unfold flag. destruct (Z.testbit v n) eqn:E.
  - apply negb_true_iff, Z.eqb_neq. intros H0. apply (f_equal (fun z => Z.testbit z n)) in H0.
    rewrite Z.land_spec, E, Z.pow2_bits_true, Z.bits_0 in H0 by done. discriminate.
  - apply negb_false_iff, Z.eqb_eq, Z.bits_inj'. intros m Hm.
    rewrite Z.land_spec, Z.pow2_bits_eqb, Z.bits_0 by done.
    destruct (Z.eqb_spec n m) as [<-|]; [by rewrite E | by rewrite andb_false_r].
Qed.
Lemma flag_0 b : flag 0 b = false.
Proof. unfold flag. by rewrite Z.land_0_l. Qed.
Lemma flag_set_write e : flag (Z.lor e kWriteEvent) kWriteEvent = true.
Proof. rewrite (flag_pow2 _ 2), Z.lor_spec, orb_true_r; done. Qed.
Lemma flag_clear_write e : flag (Z.land e (Z.lnot kWriteEvent)) kWriteEvent = false.
Proof. rewrite (flag_pow2 _ 2), Z.land_spec, Z.lnot_spec, andb_false_r; done. Qed.
Lemma flag_set_read e : flag (Z.lor e kReadEvent) kWriteEvent = flag e kWriteEvent.
Proof. rewrite !(flag_pow2 _ 2), Z.lor_spec, orb_false_r; done. Qed.
Lemma flag_clear_read e : flag (Z.land e (Z.lnot kReadEvent)) kWriteEvent = flag e kWriteEvent.
Proof. rewrite !(flag_pow2 _ 2), Z.land_spec, Z.lnot_spec, andb_true_r; done. Qed.
(** Input is one of the read events. *)
Lemma flag_in_lor e b : flag e EPOLLIN = true -> flag (Z.lor e b) EPOLLIN = true.
Proof. rewrite !(flag_pow2 _ 0), Z.lor_spec; [|done..]. by intros ->. Qed.
Lemma flag_in_set_read e : flag (Z.lor e kReadEvent) EPOLLIN = true.
Proof. rewrite (flag_pow2 _ 0), Z.lor_spec, orb_true_r; done. Qed.
Lemma flag_in_clear_write e : flag (Z.land e (Z.lnot kWriteEvent)) EPOLLIN = flag e EPOLLIN.
Proof. rewrite !(flag_pow2 _ 0), Z.land_spec, Z.lnot_spec, andb_true_r; done. Qed.
Lemma flag_none e b : flag e b = true -> (e =? kNoneEvent) = false.
Proof. intros E. apply Z.eqb_neq. intros ->. by rewrite flag_0 in E. Qed.

Section Epoll.
Context {K : Type} `{EpollKernel K}.

Record loop : Type := mkLoop {
  chans : gmap Z Channel;
  channels_ : gmap Z Z;
  events_size : Z;                     (** events_.size() *)
  kernel : K;
  eventHandling_ : bool;
  activeChannels_ : list Z;
  currentActiveChannel_ : option Z;
}.

Definition new_loop (k : K) : loop := mkLoop ∅ ∅ kInitEventListSize k false [] None.

Definition set_chan (p : Z) (c : Channel) (s : loop) : loop :=
  mkLoop (<[p:=c]> (chans s)) (channels_ s) (events_size s) (kernel s)
    (eventHandling_ s) (activeChannels_ s) (currentActiveChannel_ s).
Definition del_chan (p : Z) (s : loop) : loop :=
  mkLoop (delete p (chans s)) (channels_ s) (events_size s) (kernel s)
    (eventHandling_ s) (activeChannels_ s) (currentActiveChannel_ s).
Definition set_channels (m : gmap Z Z) (s : loop) : loop :=
  mkLoop (chans s) m (events_size s) (kernel s)
    (eventHandling_ s) (activeChannels_ s) (currentActiveChannel_ s).
Definition set_kernel (k : K) (s : loop) : loop :=
  mkLoop (chans s) (channels_ s) (events_size s) k
    (eventHandling_ s) (activeChannels_ s) (currentActiveChannel_ s).
Definition set_events_size (n : Z) (s : loop) : loop :=
  mkLoop (chans s) (channels_ s) n (kernel s)
    (eventHandling_ s) (activeChannels_ s) (currentActiveChannel_ s).
Definition set_handling (h : bool) (a : list Z) (c : option Z) (s : loop) : loop :=
  mkLoop (chans s) (channels_ s) (events_size s) (kernel s) h a c.

Definition deref (p : Z) (s : loop) : outcome Channel :=
  match chans s !! p with Some c => Ok c | None => Fault (Undefined "dangling Channel pointer") end.

(** ** Epoll *)
Definition Epoll_Update (operation : ctl) (p : Z) (s : loop) : outcome loop :=
  c ← deref p s;
  let event := mkEvent (u32 (events_ c)) p in
  let '(ok, k) := epoll_ctl operation (fd c) event (kernel s) in
  if (ok : bool) then Ok (set_kernel k s)
  else match operation with
       | EPOLL_CTL_DEL => Ok (set_kernel k s)
       | _ => Fault (LogFatal "epoll_ctl")
       end.

Definition Epoll_HasChannel (p : Z) (s : loop) : outcome bool :=
  c ← deref p s;
  Ok (bool_decide (channels_ s !! fd c = Some p)).

Definition Epoll_UpdateChannel (p : Z) (s : loop) : outcome loop :=
  c ← deref p s;
  let index := index_ c in
  if (index =? kNew) || (index =? kDeleted) then
    s1 ← (if index =? kNew then
            massert (bool_decide (channels_ s !! fd c = None)) "channels_.find(fd) == channels_.end()";;
            Ok (set_channels (<[fd c := p]> (channels_ s)) s)
          else
            massert (bool_decide (is_Some (channels_ s !! fd c))) "channels_.find(fd) != channels_.end()";;
            massert (bool_decide (channels_ s !! fd c = Some p)) "channels_[fd] == channel";;
            Ok s);
    Epoll_Update EPOLL_CTL_ADD p (set_chan p (SetIndex kAdded c) s1)
  else
    massert (bool_decide (is_Some (channels_ s !! fd c))) "channels_.find(fd) != channels_.end()";;
    massert (bool_decide (channels_ s !! fd c = Some p)) "channels_[fd] == channel";;
    massert (index =? kAdded) "index == kAdded";;
    if IsNoneEvent c then
      s1 ← Epoll_Update EPOLL_CTL_DEL p s;
      Ok (set_chan p (SetIndex kDeleted c) s1)
    else Epoll_Update EPOLL_CTL_MOD p s.

Definition Epoll_RemoveChannel (p : Z) (s : loop) : outcome loop :=
  c ← deref p s;
  massert (bool_decide (is_Some (channels_ s !! fd c))) "channels_.find(fd) != channels_.end()";;
  massert (bool_decide (channels_ s !! fd c = Some p)) "channels_[fd] == channel";;
  massert (IsNoneEvent c) "channel->IsNoneEvent()";;
  let index := index_ c in
  massert ((index =? kAdded) || (index =? kDeleted)) "index == kAdded || index == kDeleted";;
  let s1 := set_channels (delete (fd c) (channels_ s)) s in
  s2 ← (if index =? kAdded then Epoll_Update EPOLL_CTL_DEL p s1 else Ok s1);
  Ok (set_chan p (SetIndex kNew c) s2).

(** One event of [FillActiveChannels]. *)
Definition fill_one (e : epoll_event) (s : loop) : outcome loop :=
  c ← deref (data_ptr e) s;
  massert (bool_decide (is_Some (channels_ s !! fd c))) "it != channels_.end()";;
  massert (bool_decide (channels_ s !! fd c = Some (data_ptr e))) "it->second == channel";;
  let s1 := set_chan (data_ptr e) (SetRevents (i32 (events e)) c) s in
  Ok (set_handling (eventHandling_ s1) (activeChannels_ s1 ++ [data_ptr e]) (currentActiveChannel_ s1) s1).
Definition FillActiveChannels (numEvents : Z) (evs : list epoll_event) (s : loop) : outcome loop :=
  massert (numEvents <=? events_size s) "implicit_cast<size_t>(numEvents) <= events_.size()";;
  ofold fill_one (ztake numEvents evs) s.

Definition Poll (s : loop) : outcome loop :=
  let '(numEvents, evs, k) := epoll_wait (i32 (events_size s)) (kernel s) in
  let s := set_kernel k s in
  if 0 <? numEvents then
    s1 ← FillActiveChannels numEvents evs s;
    if numEvents =? events_size s1 then Ok (set_events_size (u64 (events_size s1 * 2)) s1) else Ok s1
  else Ok s.

(** ** EventLoop, the channel part *)
Definition UpdateChannel (p : Z) (s : loop) : outcome loop := Epoll_UpdateChannel p s.
Definition RemoveChannel (p : Z) (s : loop) : outcome loop :=
  (if eventHandling_ s then
     massert (bool_decide (currentActiveChannel_ s = Some p) || bool_decide (p ∉ activeChannels_ s))
       "currentActiveChannel_ == channel || not in activeChannels_"
   else Ok tt);;
  Epoll_RemoveChannel p s.
Definition HasChannel (p : Z) (s : loop) : outcome bool := Epoll_HasChannel p s.

(** ** Channel *)
Definition Update (p : Z) (s : loop) : outcome loop :=
  c ← deref p s;
  UpdateChannel p (set_chan p (with_added true c) s).
Definition change_events (f : Z -> Z) (p : Z) (s : loop) : outcome loop :=
  c ← deref p s;
  Update p (set_chan p (with_events (f (events_ c)) c) s).
Definition EnableReading := change_events (fun e => Z.lor e kReadEvent).
Definition DisableReading := change_events (fun e => Z.land e (Z.lnot kReadEvent)).
Definition EnableWriting := change_events (fun e => Z.lor e kWriteEvent).
Definition DisableWriting := change_events (fun e => Z.land e (Z.lnot kWriteEvent)).
Definition DisableAll := change_events (fun _ => kNoneEvent).

Definition Remove (p : Z) (s : loop) : outcome loop :=
  c ← deref p s;
  massert (IsNoneEvent c) "IsNoneEvent()";;
  RemoveChannel p (set_chan p (with_added false c) s).

(** The destructor. *)
Definition destroy (p : Z) (s : loop) : outcome loop :=
  c ← deref p s;
  massert (negb (ch_eventHandling_ c)) "!eventHandling_";;
  massert (negb (addedToLoop_ c)) "!addedToLoop_";;
  b ← HasChannel p s;
  massert (negb b) "!loop_->HasChannel(this)";;
  Ok (del_chan p s).

(** ** Dispatch

    [run k p] is what the callback [k] of channel [p] does to the loop. *)
Section Dispatch.
Context (run : event_kind -> Z -> loop -> outcome loop).

Definition call_if (test : Z -> bool) (k : event_kind) (p : Z) (s : loop) : outcome loop :=
  c ← deref p s;
  if test (revents_ c) then
    (if decide (k ∈ callbacks c) then run k p s else Ok s)
  else Ok s.

Definition close_test (r : Z) : bool := flag r EPOLLHUP && negb (flag r EPOLLIN).
Definition error_test (r : Z) : bool := flag r EPOLLERR.
Definition read_test (r : Z) : bool := flag r (Z.lor (Z.lor EPOLLIN EPOLLPRI) EPOLLRDHUP).
Definition write_test (r : Z) : bool := flag r EPOLLOUT.

Definition HandleEventWithGuard (p : Z) (s : loop) : outcome loop :=
  c ← deref p s;
  let s := set_chan p (with_handling true c) s in
  s ← call_if close_test CloseCallback p s;
  s ← call_if error_test ErrorCallback p s;
  s ← call_if read_test ReadCallback p s;
  s ← call_if write_test WriteCallback p s;
  c ← deref p s;
  Ok (set_chan p (with_handling false c) s).

(** [alive] tells whether [tie_.lock()] gives the owner. *)
Definition HandleEvent (alive : Z -> loop -> bool) (p : Z) (s : loop) : outcome loop :=
  c ← deref p s;
  if tied_ c then (if alive p s then HandleEventWithGuard p s else Ok s)
  else HandleEventWithGuard p s.

(** One round of [Loop] up to [doPendingFunctors]. *)
Definition poll_and_handle (alive : Z -> loop -> bool) (s : loop) : outcome loop :=
  s ← Poll (set_handling (eventHandling_ s) [] (currentActiveChannel_ s) s);
  let s := set_handling true (activeChannels_ s) (currentActiveChannel_ s) s in
  s ← ofold (fun p s => HandleEvent alive p (set_handling (eventHandling_ s) (activeChannels_ s) (Some p) s))
        (activeChannels_ s) s;
  Ok (set_handling false (activeChannels_ s) None s).
End Dispatch.

(** ** The invariant *)

(** What the kernel should hold for a channel. *)
Definition event_of (p : Z) (c : Channel) : epoll_event := mkEvent (u32 (events_ c)) p.

Record inv (s : loop) : Prop := mk_inv {
  inv_index : forall p c, chans s !! p = Some c ->
    index_ c = kNew \/ index_ c = kAdded \/ (index_ c = kDeleted /\ events_ c = kNoneEvent);
  inv_added : forall p c, chans s !! p = Some c -> addedToLoop_ c = negb (index_ c =? kNew);
  inv_registered : forall p c, chans s !! p = Some c ->
    index_ c <> kNew <-> channels_ s !! fd c = Some p;
  inv_channels : forall f p, channels_ s !! f = Some p -> exists c, chans s !! p = Some c /\ fd c = f;
  inv_interest : forall f ev, interest (kernel s) !! f = Some ev <->
    exists p c, channels_ s !! f = Some p /\ chans s !! p = Some c /\
      index_ c = kAdded /\ ev = event_of p c;
  inv_size : 0 < events_size s;
}.

Context `{!EpollLaws K}.

(** What a call leaves unchanged. *)
Definition same_loop (s s' : loop) : Prop :=
  events_size s' = events_size s /\ eventHandling_ s' = eventHandling_ s /\
  activeChannels_ s' = activeChannels_ s /\ currentActiveChannel_ s' = currentActiveChannel_ s.

(** A state in which only the channel [p] and its descriptor changed. *)
Lemma inv_change s p c c' m k :
  inv s -> chans s !! p = Some c -> fd c' = fd c ->
  (channels_ s !! fd c = None \/ channels_ s !! fd c = Some p) ->
  (index_ c' = kNew \/ index_ c' = kAdded \/ (index_ c' = kDeleted /\ events_ c' = kNoneEvent)) ->
  addedToLoop_ c' = negb (index_ c' =? kNew) ->
  (index_ c' = kNew -> m = delete (fd c) (channels_ s)) ->
  (index_ c' <> kNew -> m = <[fd c:=p]> (channels_ s)) ->
  interest k = partial_alter (fun _ => if index_ c' =? kAdded then Some (event_of p c') else None)
                 (fd c) (interest (kernel s)) ->
  inv (mkLoop (<[p:=c']> (chans s)) m (events_size s) k
         (eventHandling_ s) (activeChannels_ s) (currentActiveChannel_ s)).
Proof.
  intros I Hp Hfd Hfree Hidx Hadd Hm1 Hm2 Hk.
  assert (Hm : forall f, f <> fd c -> m !! f = channels_ s !! f).
  { intros f Hf. destruct (decide (index_ c' = kNew)) as [E|E].
    - rewrite (Hm1 E). by apply lookup_delete_ne.
    - rewrite (Hm2 E). by apply lookup_insert_ne. }
  assert (Hmp : m !! fd c = if decide (index_ c' = kNew) then None else Some p).
  { case_decide as E; [rewrite (Hm1 E); apply lookup_delete_eq | rewrite (Hm2 E); apply lookup_insert_eq]. }
  assert (Hother : forall x cx, x <> p -> chans s !! x = Some cx -> fd cx = fd c -> index_ cx = kNew).
  { intros x cx Hx Hcx Ef. destruct (decide (index_ cx = kNew)) as [|E]; [done|].
    apply (inv_registered _ I _ _ Hcx) in E. rewrite Ef in E. destruct Hfree; congruence. }
  split; cbn.
  - intros x cx [[<- <-]|[Hx E]]%lookup_insert_Some; [done | by apply (inv_index _ I x)].
  - intros x cx [[<- <-]|[Hx E]]%lookup_insert_Some; [done | by apply (inv_added _ I x)].
  - intros x cx [[<- <-]|[Hx E]]%lookup_insert_Some.
    + rewrite Hfd, Hmp. case_decide; split; done.
    + destruct (decide (fd cx = fd c)) as [Ef|Ef].
      * rewrite Ef, Hmp. rewrite (Hother x cx) by done. case_decide; split; congruence.
      * rewrite Hm by done. by apply (inv_registered _ I).
  - intros f x. destruct (decide (f = fd c)) as [->|Hf].
    + rewrite Hmp. case_decide; [done|]. intros [= <-]. exists c'. by rewrite lookup_insert_eq.
    + rewrite Hm by done. intros (cx & Hcx & Ef)%(inv_channels _ I). exists cx.
      rewrite lookup_insert_ne; [done|]. intros <-. congruence.
  - intros f ev. rewrite Hk. destruct (decide (f = fd c)) as [->|Hf].
    + rewrite lookup_partial_alter_eq, Hmp. split.
      * destruct (Z.eqb_spec (index_ c') kAdded) as [E|E]; [|done]. intros [= <-].
        exists p, c'. rewrite E, lookup_insert_eq. done.
      * case_decide; [by intros (? & ? & ? & _)|]. intros (x & cx & [= <-] & Ex & E & ->).
        rewrite lookup_insert_eq in Ex. injection Ex as <-. by rewrite E.
    + rewrite lookup_partial_alter_ne by done. rewrite (inv_interest _ I), Hm by done.
      split; intros (x & cx & Hx & Hcx & ?); exists x, cx; (split; [done|]).
      * rewrite lookup_insert_ne; [done|]. intros <-.
        apply (inv_channels _ I) in Hx as (? & ? & ?). congruence.
      * rewrite lookup_insert_ne in Hcx; [done|]. intros <-.
        apply (inv_channels _ I) in Hx as (? & ? & ?). congruence.
  - apply (inv_size _ I).
Qed.

(** ** The calls *)
Lemma ctl_not_del op p c s :
  chans s !! p = Some c -> op <> EPOLL_CTL_DEL ->
  (exists k, Epoll_Update op p s = Ok (set_kernel k s) /\
     interest k = <[fd c := event_of p c]> (interest (kernel s))) \/
  (exists m, Epoll_Update op p s = Fault (LogFatal m)).
Proof.
  intros Hp Hop. unfold Epoll_Update, deref. rewrite Hp. cbn [mbind outcome_bind].
  fold (event_of p c). destruct (epoll_ctl op (fd c) (event_of p c) (kernel s)) as [[] k] eqn:E.
  - left. exists k. split; [done|]. destruct op; [|done|]; [apply ctl_add in E | apply ctl_mod in E]; apply E.
  - right. destruct op; eauto; done.
Qed.
Lemma ctl_del_Ok p c s :
  chans s !! p = Some c -> is_Some (interest (kernel s) !! fd c) ->
  exists k, Epoll_Update EPOLL_CTL_DEL p s = Ok (set_kernel k s) /\
    interest k = delete (fd c) (interest (kernel s)).
Proof.
  intros Hp Hin. unfold Epoll_Update, deref. rewrite Hp. cbn [mbind outcome_bind].
  destruct (epoll_ctl _ _ _ _) as [ok k] eqn:E.
  pose proof (ctl_del_registered (fd c) (mkEvent (u32 (events_ c)) p) (kernel s) Hin) as Hok.
  rewrite E in Hok. cbn in Hok. subst ok. exists k. split; [done|]. apply ctl_del in E. apply E.
Qed.

Definition next_index (i e : Z) : Z := if (i =? kAdded) && (e =? kNoneEvent) then kDeleted else kAdded.
Definition changed (f : Z -> Z) (c : Channel) : Channel :=
  SetIndex (next_index (index_ c) (f (events_ c))) (with_added true (with_events (f (events_ c)) c)).

Lemma inv_free_fd s p c : inv s -> chans s !! p = Some c ->
  (index_ c = kNew -> channels_ s !! fd c = None) ->
  channels_ s !! fd c = None \/ channels_ s !! fd c = Some p.
Proof.
  intros I Hp Hn. destruct (decide (index_ c = kNew)) as [E|E]; [left; auto|].
  right. by apply (inv_registered _ I).
Qed.
Lemma inv_not_added s p c : inv s -> chans s !! p = Some c -> index_ c <> kAdded ->
  (index_ c = kNew -> channels_ s !! fd c = None) ->
  interest (kernel s) !! fd c = None.
Proof.
  intros I Hp Hi Hn. apply eq_None_not_Some. intros (ev & (x & cx & Hx & Hcx & Hix & _)%(inv_interest _ I)).
  destruct (inv_free_fd _ _ _ I Hp Hn); congruence.
Qed.
Lemma inv_is_added s p c : inv s -> chans s !! p = Some c -> index_ c = kAdded ->
  channels_ s !! fd c = Some p /\ interest (kernel s) !! fd c = Some (event_of p c).
Proof.
  intros I Hp Hi. assert (Hc : channels_ s !! fd c = Some p) by (apply (inv_registered _ I p c Hp); by rewrite Hi).
  split; [done|]. apply (inv_interest _ I). eauto 10.
Qed.

(** The outcome of a change of [events_]: the channel and the kernel updated
    together, or the kernel refused and the process is aborted. *)
Definition updated (f : Z -> Z) (p : Z) (c : Channel) (s : loop) (r : outcome loop) : Prop :=
  (exists s', r = Ok s' /\ inv s' /\ same_loop s s' /\
     chans s' = <[p := changed f c]> (chans s) /\ channels_ s' = <[fd c := p]> (channels_ s)) \/
  (exists m, r = Fault (LogFatal m)).

Lemma set_chan_twice p c c' s : set_chan p c (set_chan p c' s) = set_chan p c s.
Proof. unfold set_chan; cbn. by rewrite insert_insert_eq. Qed.

Section ChangeEvents.
Context (f : Z -> Z) (p : Z) (c : Channel) (s : loop).
Hypotheses (I : inv s) (Hp : chans s !! p = Some c)
  (Hn : index_ c = kNew -> channels_ s !! fd c = None).
#[local] Definition c1 : Channel := with_added true (with_events (f (events_ c)) c).

Lemma inv_changed i m k :
  next_index (index_ c) (f (events_ c)) = i ->
  interest k = partial_alter (fun _ => if i =? kAdded then Some (event_of p c1) else None)
                 (fd c) (interest (kernel s)) ->
  m = <[fd c := p]> (channels_ s) ->
  inv (mkLoop (<[p:=SetIndex i c1]> (chans s)) m (events_size s) k (eventHandling_ s)
         (activeChannels_ s) (currentActiveChannel_ s)) /\ changed f c = SetIndex i c1.
Proof.
  intros <- Hk ->. split; [|done].
  eapply inv_change; [done | exact Hp | done | by apply inv_free_fd | | | | done | exact Hk];
    cbn; unfold next_index; destruct (_ && _) eqn:E; auto; try done; bool_to_prop; auto.
Qed.

(** A channel the kernel does not watch is added. *)
Lemma update_add m :
  index_ c <> kAdded -> m = <[fd c := p]> (channels_ s) ->
  updated f p c s (Epoll_Update EPOLL_CTL_ADD p (set_chan p (SetIndex kAdded c1)
    (mkLoop (<[p:=c1]> (chans s)) m (events_size s) (kernel s) (eventHandling_ s)
         (activeChannels_ s) (currentActiveChannel_ s)))).
Proof.
  intros Hi ->. match goal with |- updated _ _ _ _ (Epoll_Update _ _ ?s0) =>
    destruct (ctl_not_del EPOLL_CTL_ADD p (SetIndex kAdded c1) s0) as [(k & E & Hk)|(m & E)] end;
    [cbn; by rewrite lookup_insert_eq | done | rewrite E; left | rewrite E; right; eauto].
  eexists; split; [done|]. unfold set_kernel, set_chan, set_channels; cbn in Hk |- *. rewrite insert_insert_eq.
  destruct (inv_changed kAdded (<[fd c:=p]> (channels_ s)) k) as [I' ->]; [|exact Hk|done|done].
  unfold next_index. by rewrite (proj2 (Z.eqb_neq _ _) Hi).
Qed.

(** One it watches is modified, or deleted when no event is left. *)
Lemma update_added :
  index_ c = kAdded ->
  let s0 := mkLoop (<[p:=c1]> (chans s)) (channels_ s) (events_size s) (kernel s) (eventHandling_ s)
         (activeChannels_ s) (currentActiveChannel_ s) in
  updated f p c s
    (if f (events_ c) =? kNoneEvent then
       s1 ← Epoll_Update EPOLL_CTL_DEL p s0; Ok (set_chan p (SetIndex kDeleted c1) s1)
     else Epoll_Update EPOLL_CTL_MOD p s0).
Proof.
  intros Ei s0. destruct (inv_is_added _ _ _ I Hp Ei) as [Hc Hin].
  assert (Hid : <[fd c:=p]> (channels_ s) = channels_ s) by by apply insert_id.
  assert (Hp0 : chans s0 !! p = Some c1) by (cbn; by rewrite lookup_insert_eq).
  destruct (f (events_ c) =? kNoneEvent) eqn:Ee.
  - left. destruct (ctl_del_Ok p c1 s0 Hp0) as (k & E & Hk); [cbn; eauto|].
    rewrite E. eexists; split; [done|]. unfold set_kernel, set_chan, set_channels; cbn in Hk |- *. rewrite insert_insert_eq, Hid.
    destruct (inv_changed kDeleted (channels_ s) k) as [I' ->];
      [unfold next_index; by rewrite Ei, Ee | exact Hk | done | done].
  - destruct (ctl_not_del EPOLL_CTL_MOD p c1 s0 Hp0) as [(k & E & Hk)|(m & E)];
      [done | rewrite E; left | rewrite E; right; eauto].
    eexists; split; [done|]. unfold set_kernel, set_chan, set_channels; cbn in Hk |- *. rewrite Hid.
    assert (Ec : SetIndex kAdded c1 = c1) by (unfold SetIndex, c1, with_added, with_events; cbn; by rewrite Ei).
    destruct (inv_changed kAdded (channels_ s) k) as [I' ->];
      [unfold next_index; by rewrite Ee, andb_false_r | exact Hk | done |].
    rewrite Ec in *. done.
Qed.

Lemma change_events_Ok : updated f p c s (change_events f p s).
Proof.
  unfold change_events, Update, UpdateChannel, deref. rewrite Hp. cbn [mbind outcome_bind].
  cbn [chans set_chan]. rewrite lookup_insert_eq. cbn [mbind outcome_bind].
  fold c1. fold (set_chan p (with_events (f (events_ c)) c) s). rewrite set_chan_twice.
  unfold Epoll_UpdateChannel, deref. cbn [chans set_chan]. rewrite lookup_insert_eq.
  cbn [mbind outcome_bind]. change (index_ c1) with (index_ c). change (fd c1) with (fd c).
  change (IsNoneEvent c1) with (f (events_ c) =? kNoneEvent). cbn [channels_ set_chan].
  destruct (inv_index _ I _ _ Hp) as [Ei|[Ei|[Ei _]]].
  - rewrite Ei. cbn. rewrite bool_decide_true by auto. cbn.
    apply (update_add (<[fd c:=p]> (channels_ s))); [by rewrite Ei | done].
  - destruct (inv_is_added _ _ _ I Hp Ei) as [Hc Hin].
    rewrite (bool_decide_true (is_Some _)), (bool_decide_true (_ = Some p)) by (by rewrite ?Hc).
    pose proof (update_added Ei) as Hu. rewrite Ei. apply Hu.
  - assert (Hc : channels_ s !! fd c = Some p) by (apply (inv_registered _ I p c Hp); by rewrite Ei).
    rewrite (bool_decide_true (is_Some _)), (bool_decide_true (_ = Some p)) by (by rewrite ?Hc).
    rewrite Ei. cbn. apply (update_add (channels_ s)); [by rewrite Ei | by rewrite insert_id].
Qed.
End ChangeEvents.

Lemma Remove_Ok p c s :
  inv s -> chans s !! p = Some c -> index_ c <> kNew -> IsNoneEvent c = true ->
  eventHandling_ s = false \/ currentActiveChannel_ s = Some p \/ p ∉ activeChannels_ s ->
  exists s', Remove p s = Ok s' /\ inv s' /\ same_loop s s' /\
    chans s' = <[p := SetIndex kNew (with_added false c)]> (chans s) /\
    channels_ s' = delete (fd c) (channels_ s).
Proof.
  intros I Hp Hi He Hact. assert (Hc : channels_ s !! fd c = Some p) by by apply (inv_registered _ I p c Hp).
  unfold Remove, RemoveChannel, deref. rewrite Hp. cbn [mbind outcome_bind]. rewrite He. cbn [massert mbind outcome_bind].
  cbn [set_chan eventHandling_ currentActiveChannel_ activeChannels_].
  replace (if eventHandling_ s then _ else _) with (Ok tt).
  2:{ destruct (eventHandling_ s); [|done]. destruct Hact as [?|[?|?]]; [done | |].
      - by rewrite (bool_decide_true (_ = Some p)) by done.
      - by rewrite (bool_decide_true (p ∉ _)), orb_true_r by done. }
  cbn [mbind outcome_bind]. unfold Epoll_RemoveChannel, deref. cbn [chans set_chan]. rewrite lookup_insert_eq.
  cbn [mbind outcome_bind]. set (c1 := with_added false c). change (fd c1) with (fd c).
  change (index_ c1) with (index_ c). change (IsNoneEvent c1) with (IsNoneEvent c). cbn [channels_].
  rewrite (bool_decide_true (is_Some _)), (bool_decide_true (_ = Some p)), He by (by rewrite ?Hc).
  cbn [massert mbind outcome_bind].
  assert (Hend : forall k, interest k = delete (fd c) (interest (kernel s)) ->
    inv (mkLoop (<[p:=SetIndex kNew c1]> (chans s)) (delete (fd c) (channels_ s)) (events_size s) k
           (eventHandling_ s) (activeChannels_ s) (currentActiveChannel_ s))).
  { intros k Hk. eapply inv_change; [done | exact Hp | done | by right | by left | done | done | done | exact Hk]. }
  destruct (inv_index _ I _ _ Hp) as [Ei|[Ei|[Ei _]]]; [done| |]; rewrite Ei; cbn.
  - destruct (inv_is_added _ _ _ I Hp Ei) as [_ Hin].
    match goal with |- context [Epoll_Update _ _ ?s0] => destruct (ctl_del_Ok p c1 s0) as (k & E & Hk) end;
      [cbn; by rewrite lookup_insert_eq | cbn; eauto |].
    rewrite E. eexists; split; [done|]. unfold set_kernel, set_chan, set_channels; cbn in Hk |- *. rewrite insert_insert_eq. split; [by apply Hend|]. done.
  - eexists; split; [done|]. unfold set_chan, set_channels; cbn. rewrite insert_insert_eq. split; [|done]. apply Hend.
    rewrite delete_id; [done|]. apply (inv_not_added _ p); [done | done | by rewrite Ei | by rewrite Ei].
Qed.

(** Changing what the poller does not look at. *)
Lemma inv_touch s p c c' h a cur :
  inv s -> chans s !! p = Some c ->
  fd c' = fd c -> events_ c' = events_ c -> index_ c' = index_ c -> addedToLoop_ c' = addedToLoop_ c ->
  inv (set_handling h a cur (set_chan p c' s)).
Proof.
  intros I Hp E1 E2 E3 E4.
  assert (Hev : event_of p c' = event_of p c) by (unfold event_of; by rewrite E2).
  split; cbn.
  - intros x cx [[<- <-]|[Hx E]]%lookup_insert_Some; [rewrite E2, E3|]; by eapply (inv_index _ I).
  - intros x cx [[<- <-]|[Hx E]]%lookup_insert_Some; [rewrite E3, E4|]; by eapply (inv_added _ I).
  - intros x cx [[<- <-]|[Hx E]]%lookup_insert_Some; [rewrite E1, E3|]; by eapply (inv_registered _ I).
  - intros f x (cx & Hcx & Ef)%(inv_channels _ I). destruct (decide (p = x)) as [<-|Hx].
    + exists c'. rewrite lookup_insert_eq. split; [done|]. congruence.
    + exists cx. by rewrite lookup_insert_ne.
  - intros f ev. rewrite (inv_interest _ I). split; intros (x & cx & Hc & Hcx & Hi & ->);
      destruct (decide (p = x)) as [<-|Hx].
    + exists p, c'. rewrite lookup_insert_eq, Hev, E3. replace cx with c in * by congruence. done.
    + exists x, cx. by rewrite lookup_insert_ne.
    + rewrite lookup_insert_eq in Hcx. injection Hcx as <-. exists p, c. by rewrite Hev, <- E3.
    + rewrite lookup_insert_ne in Hcx by done. eauto 10.
  - apply (inv_size _ I).
Qed.
Lemma inv_kernel s k : inv s -> interest k = interest (kernel s) -> inv (set_kernel k s).
Proof. intros [] E. split; cbn; try done. by rewrite E. Qed.

(** ** Poll *)
Definition same_dispatch (s s' : loop) : Prop :=
  eventHandling_ s' = eventHandling_ s /\ currentActiveChannel_ s' = currentActiveChannel_ s.
Lemma fill_one_Ok e s p c :
  inv s -> data_ptr e = p -> chans s !! p = Some c -> index_ c <> kNew -> 0 <= events e < 2 ^ 31 ->
  exists s', fill_one e s = Ok s' /\ inv s' /\ events_size s' = events_size s /\
    channels_ s' = channels_ s /\ kernel s' = kernel s /\
    chans s' = <[p := SetRevents (events e) c]> (chans s) /\
    activeChannels_ s' = activeChannels_ s ++ [p] /\ same_dispatch s s'.
Proof.
  intros I <- Hp Hi He. assert (Hc : channels_ s !! fd c = Some (data_ptr e)) by by apply (inv_registered _ I).
  unfold fill_one, deref. rewrite Hp. cbn [mbind outcome_bind]. rewrite Hc.
  rewrite bool_decide_true by done. cbn [massert mbind outcome_bind]. rewrite bool_decide_true by done.
  cbn [massert mbind outcome_bind]. replace (i32 (events e)) with (events e)
    by (unfold i32; rewrite sint_small; [done | lia | cbn; lia]).
  eexists; split; [done|]. split; [by eapply inv_touch|]. done.
Qed.

Lemma fill_all_Ok evs s :
  inv s -> NoDup (data_ptr <$> evs) ->
  (forall e, e ∈ evs -> 0 <= events e < 2 ^ 31 /\
     exists c, chans s !! data_ptr e = Some c /\ index_ c <> kNew) ->
  exists s', ofold fill_one evs s = Ok s' /\ inv s' /\ events_size s' = events_size s /\
    channels_ s' = channels_ s /\ kernel s' = kernel s /\
    activeChannels_ s' = activeChannels_ s ++ (data_ptr <$> evs) /\
    (forall e c, e ∈ evs -> chans s !! data_ptr e = Some c ->
       chans s' !! data_ptr e = Some (SetRevents (events e) c)) /\
    (forall p, p ∉ data_ptr <$> evs -> chans s' !! p = chans s !! p) /\ same_dispatch s s'.
Proof.
  revert s; induction evs as [|e evs IH]; intros s I Hnd Hev; cbn [ofold].
  - exists s. cbn. rewrite app_nil_r. do 6 (split; [done|]). split; [|done]. intros e c []%not_elem_of_nil.
  - destruct (Hev e ltac:(left)) as [He (c & Hc & Hi)]. apply NoDup_cons in Hnd as [Hne Hnd].
    destruct (fill_one_Ok e s _ c I eq_refl Hc Hi He) as (s1 & -> & I1 & E1 & E2 & E3 & E4 & E5 & D1 & D2).
    cbn [mbind outcome_bind].
    assert (Hsame : forall x, x <> data_ptr e -> chans s1 !! x = chans s !! x)
      by (intros; rewrite E4; by apply lookup_insert_ne).
    destruct (IH s1 I1 Hnd) as (s' & -> & I' & F1 & F2 & F3 & F4 & F5 & F6 & D3 & D4).
    { intros e' He'. destruct (Hev e' ltac:(by right)) as [? (c' & ? & ?)]. split; [done|].
      exists c'. rewrite Hsame; [done|]. intros Eq. apply Hne. rewrite <- Eq. by apply list_elem_of_fmap_2. }
    exists s'. do 2 (split; [done|]). rewrite F1, F2, F3, F4, E1, E2, E3, E5. do 3 (split; [done|]).
    split; [by rewrite <- app_assoc|]. split; [|split; [|split; congruence]].
    + intros e' c' [->|He']%elem_of_cons Hc'.
      * rewrite F6, E4, lookup_insert_eq by done. congruence.
      * apply F5; [done|]. rewrite Hsame; [done|]. intros Eq. apply Hne. rewrite <- Eq. by apply list_elem_of_fmap_2.
    + intros p [Hp1 Hp2]%not_elem_of_cons. rewrite F6 by done. auto.
Qed.

(** Distinct descriptors are reported, hence distinct channels. *)
Lemma reported_channels s fds evs :
  inv s -> NoDup fds ->
  Forall2 (fun fd e => 0 <= events e < 2 ^ 31 /\
    exists ev, interest (kernel s) !! fd = Some ev /\ data_ptr ev = data_ptr e) fds evs ->
  NoDup (data_ptr <$> evs) /\
  forall e, e ∈ evs -> 0 <= events e < 2 ^ 31 /\
    exists c, chans s !! data_ptr e = Some c /\ index_ c = kAdded.
Proof.
  intros I Hnd HF.
  assert (HE : Forall2 (fun f e => 0 <= events e < 2 ^ 31 /\
    exists c, chans s !! data_ptr e = Some c /\ fd c = f /\ index_ c = kAdded) fds evs).
  { eapply Forall2_impl; [exact HF|]. intros f e [? (ev & Hi & Hd)]. split; [done|].
    apply (inv_interest _ I) in Hi as (p & c & Hp & Hc & Hic & ->). cbn in Hd. subst p.
    exists c. repeat split; [done| |done]. apply (inv_channels _ I) in Hp as (? & ? & ?). congruence. }
  split.
  - apply (NoDup_fmap_1 (fun p => default 0 (fd <$> chans s !! p))). replace (_ <$> _) with fds; [done|].
    clear Hnd HF. induction HE as [|f e fds evs [_ (c & Hc & Hf & _)] _ IH]; cbn; [done|].
    rewrite Hc. cbn. congruence.
  - intros e (i & He)%list_elem_of_lookup. destruct (Forall2_lookup_r _ _ _ _ _ HE He) as (f & _ & ? & c & ? & _ & ?). eauto.
Qed.

Lemma Poll_Ok s n evs k :
  inv s -> activeChannels_ s = [] -> events_size s < 2 ^ 31 ->
  epoll_wait (events_size s) (kernel s) = (n, evs, k) ->
  exists s', Poll s = Ok s' /\ inv s' /\
    activeChannels_ s' = (data_ptr <$> evs) /\ NoDup (data_ptr <$> evs) /\
    (forall e, e ∈ evs -> exists c, chans s !! data_ptr e = Some c /\ index_ c = kAdded /\
       chans s' !! data_ptr e = Some (SetRevents (events e) c)) /\
    (forall p, p ∉ data_ptr <$> evs -> chans s' !! p = chans s !! p) /\
    events_size s' = (if n =? events_size s then 2 * events_size s else events_size s) /\
    (n = zlen evs \/ n = -1) /\ same_dispatch s s'.
Proof.
  intros I Ha Hsz Hw. destruct (wait_result _ _ _ _ _ Hw) as (Hk & Hn & fds & Hfds & Hev).
  pose proof (inv_size _ I) as Hpos. destruct (reported_channels s fds evs I Hfds Hev) as [Hnd Hch].
  unfold Poll. replace (i32 (events_size s)) with (events_size s)
    by (unfold i32; rewrite sint_small; [done | lia | cbn; lia]).
  rewrite Hw. pose proof (inv_kernel s k I Hk) as Ik.
  destruct (Z.ltb_spec 0 n) as [Hpn|Hpn].
  - destruct Hn as [[-> Hle]|[-> _]]; [|lia].
    destruct (fill_all_Ok evs (set_kernel k s) Ik Hnd) as (s' & E & I' & F1 & F2 & F3 & F4 & F5 & F6 & D).
    { intros e He. destruct (Hch e He) as [? (c & ? & Hi)]. split; [done|]. exists c. split; [done|]. by rewrite Hi. }
    unfold FillActiveChannels. rewrite (proj2 (Z.leb_le _ _)) by done. cbn [massert mbind outcome_bind].
    rewrite ztake_all, E by lia. cbn [mbind outcome_bind]. rewrite F1. cbn [events_size set_kernel].
    exists (if zlen evs =? events_size s then set_events_size (u64 (events_size s * 2)) s' else s').
    split; [by case_if|].
    assert (Hfill : activeChannels_ s' = data_ptr <$> evs /\ forall e, e ∈ evs ->
      exists c, chans s !! data_ptr e = Some c /\ index_ c = kAdded /\
       chans s' !! data_ptr e = Some (SetRevents (events e) c)).
    { split; [rewrite F4; cbn; by rewrite Ha|]. intros e He.
      destruct (Hch e He) as [_ (c & Hc & Hi)]. eauto. }
    destruct Hfill as [Hf1 Hf2]. destruct (Z.eqb_spec (zlen evs) (events_size s)).
    + cbn. rewrite u64_small by lia. split; [destruct I'; split; cbn; try done; lia|].
      do 4 (split; [done|]). split; [lia|]. split; [by left | done].
    + do 5 (split; [done|]). split; [done|]. split; [by left | done].
  - assert (evs = []) as ->.
    { destruct Hn as [[-> _]|[_ ->]]; [|done]. apply zlen_zero. pose proof (zlen_nonneg evs). lia. }
    exists (set_kernel k s). do 2 (split; [done|]). split; [done|]. split; [done|].
    split; [intros e []%not_elem_of_nil|]. split; [done|]. split; [case_if; [lia | done]|].
    split; [destruct Hn as [[-> _]|[-> _]]; auto | done].
Qed.
(** [Poll] accepts whatever epoll_wait reports.  None of its assertions
    fails; the active channels are those of the reported events, in order, each
    of them a live channel registered with the poller; each gets exactly the
    events reported for it; and the event vector is doubled exactly when it was
    filled. *)
Theorem Poll_activates s n evs k :
  inv s -> activeChannels_ s = [] -> events_size s < 2 ^ 31 ->
  epoll_wait (events_size s) (kernel s) = (n, evs, k) ->
  exists s', Poll s = Ok s' /\ inv s' /\
    activeChannels_ s' = (data_ptr <$> evs) /\
    (forall e, e ∈ evs -> exists c, chans s !! data_ptr e = Some c /\ index_ c = kAdded /\
       chans s' !! data_ptr e = Some (SetRevents (events e) c)) /\
    events_size s' = if n =? events_size s then 2 * events_size s else events_size s.
Proof.
  intros I Ha Hsz Hw. destruct (Poll_Ok s n evs k I Ha Hsz Hw) as (s' & ? & ? & ? & _ & ? & _ & ? & _). by exists s'.
Qed.

(** ** Sequences of calls *)
Inductive call : Type :=
  | CNew (p fd : Z)
  | CEnableReading (p : Z)
  | CDisableReading (p : Z)
  | CEnableWriting (p : Z)
  | CDisableWriting (p : Z)
  | CDisableAll (p : Z)
  | CRemove (p : Z)
  | CDestroy (p : Z).

Definition exec_call (x : call) (s : loop) : outcome loop :=
  match x with
  | CNew p fd => Ok (set_chan p (new_Channel fd) s)
  | CEnableReading p => EnableReading p s
  | CDisableReading p => DisableReading p s
  | CEnableWriting p => EnableWriting p s
  | CDisableWriting p => DisableWriting p s
  | CDisableAll p => DisableAll p s
  | CRemove p => Remove p s
  | CDestroy p => destroy p s
  end.

(** What the owner of a channel owes: a new object has a fresh address, a
    descriptor has one channel at a time, a channel is removed after
    [DisableAll] and destroyed after [Remove]. *)
Definition call_ok (x : call) (s : loop) : Prop :=
  match x with
  | CNew p fd => chans s !! p = None
  | CEnableReading p | CDisableReading p | CEnableWriting p | CDisableWriting p | CDisableAll p =>
      exists c, chans s !! p = Some c /\ (index_ c = kNew -> channels_ s !! fd c = None)
  | CRemove p => exists c, chans s !! p = Some c /\ index_ c <> kNew /\ IsNoneEvent c = true /\
      (eventHandling_ s = false \/ currentActiveChannel_ s = Some p \/ p ∉ activeChannels_ s)
  | CDestroy p => exists c, chans s !! p = Some c /\ index_ c = kNew /\ ch_eventHandling_ c = false
  end.
Fixpoint calls_ok (l : list call) (s : loop) : Prop :=
  match l with
  | [] => True
  | x :: l' => call_ok x s /\ forall s', exec_call x s = Ok s' -> calls_ok l' s'
  end.

Lemma inv_new_chan s p f : inv s -> chans s !! p = None -> inv (set_chan p (new_Channel f) s).
Proof.
  intros I Hp. assert (Hne : forall f', channels_ s !! f' <> Some p).
  { intros f' (c & Hc & _)%(inv_channels _ I). congruence. }
  split; cbn.
  - intros x cx [[<- <-]|[Hx E]]%lookup_insert_Some; [by left | by eapply (inv_index _ I)].
  - intros x cx [[<- <-]|[Hx E]]%lookup_insert_Some; [done | by eapply (inv_added _ I)].
  - intros x cx [[<- <-]|[Hx E]]%lookup_insert_Some; [|by eapply (inv_registered _ I)].
    cbn. split; [done|]. intros Hc. by apply Hne in Hc.
  - intros f' x Hx. pose proof Hx as (cx & ? & ?)%(inv_channels _ I). exists cx.
    rewrite lookup_insert_ne; [done|]. intros ->. by apply Hne in Hx.
  - intros f' ev. rewrite (inv_interest _ I). split; intros (x & cx & Hx & Hcx & ?); exists x, cx.
    + rewrite lookup_insert_ne; [done|]. intros ->. by apply Hne in Hx.
    + rewrite lookup_insert_ne in Hcx; [done|]. intros ->. by apply Hne in Hx.
  - apply (inv_size _ I).
Qed.

Lemma destroy_Ok s p c : inv s -> chans s !! p = Some c -> index_ c = kNew -> ch_eventHandling_ c = false ->
  destroy p s = Ok (del_chan p s) /\ inv (del_chan p s).
Proof.
  intros I Hp Hi Hh. assert (Hne : forall f', channels_ s !! f' <> Some p).
  { intros f' Hf. pose proof Hf as (c' & Hc & <-)%(inv_channels _ I). replace c' with c in * by congruence.
    by apply (inv_registered _ I) in Hf. }
  split.
  - unfold destroy, HasChannel, Epoll_HasChannel, deref. rewrite Hp. cbn [mbind outcome_bind].
    rewrite Hh, (inv_added _ I _ _ Hp), Hi. cbn. by rewrite bool_decide_false by auto.
  - split; cbn.
    + intros x cx [Hx E]%lookup_delete_Some. by eapply (inv_index _ I).
    + intros x cx [Hx E]%lookup_delete_Some. by eapply (inv_added _ I).
    + intros x cx [Hx E]%lookup_delete_Some. by eapply (inv_registered _ I).
    + intros f' x Hx. pose proof Hx as (cx & ? & ?)%(inv_channels _ I). exists cx.
      rewrite lookup_delete_ne; [done|]. intros ->. by apply Hne in Hx.
    + intros f' ev. rewrite (inv_interest _ I). split; intros (x & cx & Hx & Hcx & ?); exists x, cx.
      * rewrite lookup_delete_ne; [done|]. intros ->. by apply Hne in Hx.
      * rewrite lookup_delete_ne in Hcx; [done|]. intros ->. by apply Hne in Hx.
    + apply (inv_size _ I).
Qed.

Lemma change_call_Ok f p s : inv s ->
  (exists c, chans s !! p = Some c /\ (index_ c = kNew -> channels_ s !! fd c = None)) ->
  (exists s', change_events f p s = Ok s' /\ inv s') \/ (exists m, change_events f p s = Fault (LogFatal m)).
Proof.
  intros I (c & Hc & Hn). destruct (change_events_Ok f p c s I Hc Hn) as [(s' & E & ? & _)|?]; eauto.
Qed.

Lemma exec_call_Ok x s : inv s -> call_ok x s ->
  (exists s', exec_call x s = Ok s' /\ inv s') \/ (exists m, exec_call x s = Fault (LogFatal m)).
Proof.
  intros I Hx. destruct x; cbn [exec_call call_ok] in *; try by apply change_call_Ok.
  - left. eexists; split; [done|]. by apply inv_new_chan.
  - left. destruct Hx as (c & Hc & Hi & He & Ha). destruct (Remove_Ok p c s I Hc Hi He Ha) as (s' & ? & ? & _). eauto.
  - left. destruct Hx as (c & Hc & Hi & Hh). destruct (destroy_Ok s p c I Hc Hi Hh). eauto.
Qed.

Lemma inv_new_loop k : interest k = ∅ -> inv (new_loop k).
Proof.
  intros Hk. split; cbn; try (intros ? ?; by rewrite lookup_empty).
  - intros f ev. rewrite Hk, lookup_empty. split; [done|]. by intros (? & ? & ? & _).
  - done.
Qed.

Lemma exec_calls_Ok l s : inv s -> calls_ok l s ->
  (exists s', ofold exec_call l s = Ok s' /\ inv s') \/ (exists m, ofold exec_call l s = Fault (LogFatal m)).
Proof.
  revert s; induction l as [|x l IH]; intros s I Hl; cbn [ofold]; [eauto|]. destruct Hl as [Hx Hl].
  destruct (exec_call_Ok x s I Hx) as [(s1 & E & I1)|(m & E)]; rewrite E; cbn [mbind outcome_bind]; eauto.
Qed.

(** C13: the kernel's interest list mirrors the channels.  Whatever sequence of
    channel calls their owners make within their obligations, on any kernel that
    behaves as epoll(7) documents, no assertion of [Channel] or [Epoll] fails
    (the process may be aborted only because the kernel refused an addition or
    a modification), and afterwards a channel with events is watched for exactly
    these events under its own pointer, a channel that is not in the loop is not
    watched, and the kernel watches nothing but live channels. *)
Theorem kernel_mirrors_channels l k :
  interest k = ∅ -> calls_ok l (new_loop k) ->
  (exists m, ofold exec_call l (new_loop k) = Fault (LogFatal m)) \/
  (exists s, ofold exec_call l (new_loop k) = Ok s /\
     (forall p c, chans s !! p = Some c -> addedToLoop_ c = true -> events_ c <> kNoneEvent ->
        interest (kernel s) !! fd c = Some (mkEvent (u32 (events_ c)) p)) /\
     (forall p c f ev, chans s !! p = Some c -> addedToLoop_ c = false ->
        interest (kernel s) !! f = Some ev -> data_ptr ev <> p) /\
     (forall f ev, interest (kernel s) !! f = Some ev ->
        exists c, chans s !! data_ptr ev = Some c /\ fd c = f /\ events ev = u32 (events_ c))).
Proof.
  intros Hk Hl. destruct (exec_calls_Ok l _ (inv_new_loop k Hk) Hl) as [(s & E & I)|?]; [right|by left].
  exists s. split; [done|]. split_and!.
  - intros p c Hc Ha He. rewrite (inv_added _ I _ _ Hc) in Ha.
    destruct (inv_index _ I _ _ Hc) as [Hi|[Hi|[_ ?]]]; [by rewrite Hi in Ha | | done].
    apply (inv_is_added _ _ _ I Hc Hi).
  - intros p c f ev Hc Ha (x & cx & _ & Hcx & Hi & ->)%(inv_interest _ I). cbn. intros ->.
    rewrite (inv_added _ I _ _ Hc) in Ha. replace cx with c in Hi by congruence. by rewrite Hi in Ha.
  - intros f ev (x & cx & Hx & Hcx & Hi & ->)%(inv_interest _ I). cbn. exists cx.
    split; [done|]. split; [|done]. apply (inv_channels _ I) in Hx as (c & ? & ?). congruence.
Qed.

(** ** Dispatch *)

(** The callbacks an event set calls for, in the order of the code. *)
Definition planned (c : Channel) : list event_kind :=
  filter (fun k => k ∈ callbacks c)
    ((if close_test (revents_ c) then [CloseCallback] else []) ++
     (if error_test (revents_ c) then [ErrorCallback] else []) ++
     (if read_test (revents_ c) then [ReadCallback] else []) ++
     (if write_test (revents_ c) then [WriteCallback] else [])).

(** A callback may do anything but destroy the channel, replace its callbacks or
    set its received events (only the poller does). *)
Definition keeps_channel (run : event_kind -> Z -> loop -> outcome loop) (p : Z) : Prop :=
  forall k s s' c, chans s !! p = Some c -> run k p s = Ok s' ->
    exists c', chans s' !! p = Some c' /\ revents_ c' = revents_ c /\ callbacks c' = callbacks c.

Definition like (c : Channel) (p : Z) (s : loop) : Prop :=
  exists c', chans s !! p = Some c' /\ revents_ c' = revents_ c /\ callbacks c' = callbacks c.

Lemma call_if_Ok run test k p s c :
  keeps_channel run p -> like c p s ->
  call_if run test k p s =
    ofold (fun k => run k p) (filter (fun k => k ∈ callbacks c) (if test (revents_ c) then [k] else [])) s /\
  forall s', call_if run test k p s = Ok s' -> like c p s'.
Proof.
  intros Hk (c' & Hp & Er & Ec). unfold call_if, deref. rewrite Hp. cbn [mbind outcome_bind]. rewrite Er, Ec.
  unfold like. destruct (test (revents_ c)); [|split; [done|]; intros s' [= <-]; eauto].
  rewrite filter_cons, filter_nil. case_decide; cbn [ofold].
  - split; [by destruct (run k p s)|]. intros s' E.
    destruct (Hk k s s' c' Hp E) as (c2 & ? & ? & ?). exists c2. repeat split; congruence.
  - split; [done|]. intros s' [= <-]. eauto.
Qed.

(** An event on a channel runs the callbacks that are set, in the order
    close, error, read, write, each exactly once and only if its events were
    received: close on a hang-up without input, error on EPOLLERR, read on
    EPOLLIN, EPOLLPRI or EPOLLRDHUP, write on EPOLLOUT. *)
Theorem HandleEvent_order run p c s :
  keeps_channel run p -> chans s !! p = Some c ->
  HandleEventWithGuard run p s =
    (s' ← ofold (fun k => run k p) (planned c) (set_chan p (with_handling true c) s);
     c' ← deref p s'; Ok (set_chan p (with_handling false c') s')).
Proof.
  intros Hk Hp. unfold HandleEventWithGuard. replace (deref p s) with (Ok c) by (unfold deref; by rewrite Hp). cbn [mbind outcome_bind].
  set (s0 := set_chan p (with_handling true c) s).
  assert (H0 : like c p s0).
  { exists (with_handling true c). by subst s0; cbn; rewrite lookup_insert_eq. }
  unfold planned. rewrite !filter_app, !ofold_app. clearbody s0.
  destruct (call_if_Ok run close_test CloseCallback p s0 c Hk H0) as [E1 H1].
  rewrite <- E1. destruct (call_if run close_test _ p s0) as [s1|]; [|done]. cbn [mbind outcome_bind].
  specialize (H1 s1 eq_refl). rewrite ofold_app.
  destruct (call_if_Ok run error_test ErrorCallback p s1 c Hk H1) as [E2 H2].
  rewrite <- E2. destruct (call_if run error_test _ p s1) as [s2|]; [|done]. cbn [mbind outcome_bind].
  specialize (H2 s2 eq_refl). rewrite ofold_app.
  destruct (call_if_Ok run read_test ReadCallback p s2 c Hk H2) as [E3 H3].
  rewrite <- E3. destruct (call_if run read_test _ p s2) as [s3|]; [|done]. cbn [mbind outcome_bind].
  specialize (H3 s3 eq_refl).
  destruct (call_if_Ok run write_test WriteCallback p s3 c Hk H3) as [E4 _].
  by rewrite <- E4.
Qed.

End Epoll.
Arguments loop : clear implicits.

(** ** An executable kernel

    [regs] is the interest list, [ready] the events each descriptor is ready
    for. *)
Record simple_epoll : Type := mkSimple { regs : gmap Z epoll_event; ready : gmap Z Z }.
Definition simple_ctl (op : ctl) (fd : Z) (ev : epoll_event) (k : simple_epoll) : bool * simple_epoll :=
  match op, regs k !! fd with
  | EPOLL_CTL_ADD, None | EPOLL_CTL_MOD, Some _ => (true, mkSimple (<[fd:=ev]> (regs k)) (ready k))
  | EPOLL_CTL_DEL, Some _ => (true, mkSimple (delete fd (regs k)) (ready k))
  | _, _ => (false, k)
  end.
Definition reports (k : simple_epoll) : gmap Z epoll_event :=
  map_zip_with (fun ev r => mkEvent (r mod 2 ^ 31) (data_ptr ev)) (regs k) (ready k).
Definition simple_wait (max : Z) (k : simple_epoll) : Z * list epoll_event * simple_epoll :=
  if max <=? 0 then (-1, [], k)
  else let evs := (ztake max (map_to_list (reports k))).*2 in (zlen evs, evs, k).

#[global] Instance simple_kernel : EpollKernel simple_epoll := {
  interest := regs; epoll_ctl := simple_ctl; epoll_wait := simple_wait }.
#[global] Instance simple_laws : EpollLaws simple_epoll.
Proof.
  split; cbn; unfold simple_ctl.
  - intros k fd ev k'. destruct (regs k !! fd); [done|]. by intros [= <-].
  - intros k fd ev k'. destruct (regs k !! fd); [|done]. by intros [= <-].
  - intros k fd ev k'. destruct (regs k !! fd); [|done]. by intros [= <-].
  - intros op fd ev k k'. destruct op, (regs k !! fd); by intros [= <-].
  - intros fd ev k [e ->]. done.
  - intros max k n evs k'. unfold simple_wait. case_if; intros [= <- <- <-]; split; try done.
    + split; [by right|]. exists []. by split; [constructor|].
    + split; [left; split; [done|]; rewrite zlen_map, zlen_ztake; lia|].
      exists (ztake max (map_to_list (reports k))).*1. split.
      * unfold ztake. rewrite fmap_take. eapply sublist_NoDup; [apply (NoDup_fst_map_to_list (reports k))|].
        apply sublist_take.
      * apply Forall2_fmap_2. apply Forall_Forall2_diag, Forall_forall. intros [fd e] Hin.
        apply elem_of_take in Hin as (i & Hi & _). apply list_elem_of_lookup_2, elem_of_map_to_list in Hi.
        unfold reports in Hi. apply map_lookup_zip_with_Some in Hi as (ev & r & -> & ? & _). cbn.
        split; [apply Z.mod_pos_bound; lia|]. eauto.
Qed.

(** ** Concrete runs *)
Definition ex_kernel : simple_epoll := mkSimple ∅ {[5 := 17; 7 := 4]}.
Lemma ex_kernel_empty : interest ex_kernel = ∅.
Proof. reflexivity. Qed.
Definition ex_calls : list call :=
  [CNew 16 5; CEnableReading 16; CEnableWriting 16; CDisableAll 16; CRemove 16; CDestroy 16;
   CNew 32 5; CEnableReading 32; CNew 48 7; CEnableWriting 48].
Definition ex_loop : loop simple_epoll :=
  match ofold exec_call ex_calls (new_loop ex_kernel) with Ok s => s | Fault _ => new_loop ex_kernel end.

Ltac calls_ok_ex :=
  repeat (split; [vm_compute; first [reflexivity | by eauto 12 | eexists; repeat split; by auto]|];
    let s := fresh "s" in let E := fresh "E" in
    intros s E; vm_compute in E; injection E as <-); try exact I.

Lemma ex_calls_ok : calls_ok ex_calls (new_loop ex_kernel).
Proof. calls_ok_ex. Qed.

Lemma kernel_mirrors_channels_witness :
  exists s, ofold exec_call ex_calls (new_loop ex_kernel) = Ok s /\
    interest (kernel s) !! 5 = Some (mkEvent 3 32) /\ interest (kernel s) !! 7 = Some (mkEvent 4 48).
Proof.
  destruct (kernel_mirrors_channels ex_calls ex_kernel ex_kernel_empty ex_calls_ok) as [(m & E)|(s & E & H & _)].
  - vm_compute in E. discriminate E.
  - exists s. split; [exact E|]. vm_compute in E. injection E as <-. split.
    + apply (H 32 (mkChannel 5 3 0 1 true false false true [])); [reflexivity | reflexivity | discriminate].
    + apply (H 48 (mkChannel 7 4 0 1 true false false true [])); [reflexivity | reflexivity | discriminate].
Defined.

Lemma ex_loop_inv : inv ex_loop.
Proof.
  destruct (exec_calls_Ok ex_calls _ (inv_new_loop ex_kernel ex_kernel_empty) ex_calls_ok) as [(s & E & I)|(m & E)].
  - unfold ex_loop. by rewrite E.
  - vm_compute in E. discriminate E.
Qed.

Lemma Poll_activates_witness :
  exists s', Poll ex_loop = Ok s' /\ activeChannels_ s' = [48; 32] /\ events_size s' = 16.
Proof.
  destruct (Poll_activates ex_loop 2 [mkEvent 4 48; mkEvent 17 32] (kernel ex_loop) ex_loop_inv)
    as (s' & E & _ & Ha & _ & Hs);
    [vm_compute; reflexivity | vm_compute; reflexivity | vm_compute; reflexivity |].
  exists s'. split; [exact E|]. split; [exact Ha | exact Hs].
Defined.

(** Hang-up with pending input on a channel with all four callbacks: the read
    callback runs, the close callback does not. *)
Definition ex_chan : Channel :=
  mkChannel 5 3 (Z.lor EPOLLHUP (Z.lor EPOLLIN EPOLLERR)) 1 true false false true
    [CloseCallback; ErrorCallback; ReadCallback; WriteCallback].
Definition ex_run (k : event_kind) (p : Z) (s : loop simple_epoll) : outcome (loop simple_epoll) :=
  match k with
  | ReadCallback => c ← deref p s; Ok (set_chan p (DoNotLogHup c) s)
  | CloseCallback => Fault (Assertion "close")
  | _ => Ok s
  end.
Lemma ex_run_keeps p : keeps_channel ex_run p.
Proof.
  intros k s s' c Hc. destruct k; cbn; try (intros [= <-]; by eauto).
  unfold deref. rewrite Hc. cbn. intros [= <-]. cbn. rewrite lookup_insert_eq. eauto.
Qed.
Lemma HandleEvent_order_witness :
  planned ex_chan = [ErrorCallback; ReadCallback] /\
  exists s', HandleEventWithGuard ex_run 16 (set_chan 16 ex_chan ex_loop) = Ok s'.
Proof.
  split; [vm_compute; reflexivity|].
  rewrite (HandleEvent_order ex_run 16 ex_chan (set_chan 16 ex_chan ex_loop) (ex_run_keeps 16));
    [|vm_compute; reflexivity].
  eexists. vm_compute. reflexivity.
Defined.

(** A channel that was disabled is in the state kDeleted; disabling it once more
    registers it again, with no events but still open to EPOLLHUP and EPOLLERR. *)
Lemma DisableAll_adds_again :
  exists s, ofold exec_call [CNew 16 5; CEnableReading 16; CDisableReading 16; CDisableAll 16]
      (new_loop ex_kernel) = Ok s /\ interest (kernel s) !! 5 = Some (mkEvent 0 16).
Proof. eexists. split; vm_compute; reflexivity. Qed.
