(* ===== verification/EventLoop.v ===== *)
(** * The functor queue of the event loop (src/src/network/EventLoop.h, EventLoop.cc)

    [QueueInLoop], [RunInLoop], [Quit], [Wakeup], [HandleWakeUp] and
    [DoPendingFunctors] as functions of the loop's fields, then as a step
    relation in which the loop thread and any number of other threads
    interleave: a step is what one thread does between two points where another
    can run (the mutex makes the push and the swap atomic).  The eventfd is its
    counter.  What functors and event handlers do to the queue is left open:
    they may queue functors and quit at any point.  The timer entry points
    ([RunAt], [RunAfter], [RunEvery], [Cancel]) are at the end. *)
From stdpp Require Import relations.
From S2P Require Import Prelude Time TimerQueue.

Definition kEventFdMax : Z := 2 ^ 64 - 2.

Section EventLoop.
Context {Functor : Type}.

Record EventLoop : Type := mkEL {
  looping_ : bool;
  quit_ : bool;
  callingPendingFunctors_ : bool;
  iteration_ : Z;
  wakeupFd_ : Z;                        (** the counter of the eventfd *)
  pendingFunctors_ : list Functor;
}.
Definition new_EventLoop : EventLoop := mkEL false false false 0 0 [].

Definition set_pending l s := mkEL (looping_ s) (quit_ s) (callingPendingFunctors_ s) (iteration_ s) (wakeupFd_ s) l.
Definition set_wakeup n s := mkEL (looping_ s) (quit_ s) (callingPendingFunctors_ s) (iteration_ s) n (pendingFunctors_ s).
Definition set_calling b s := mkEL (looping_ s) (quit_ s) b (iteration_ s) (wakeupFd_ s) (pendingFunctors_ s).
Definition set_quit b s := mkEL (looping_ s) b (callingPendingFunctors_ s) (iteration_ s) (wakeupFd_ s) (pendingFunctors_ s).
Definition set_looping b s := mkEL b (quit_ s) (callingPendingFunctors_ s) (iteration_ s) (wakeupFd_ s) (pendingFunctors_ s).
Definition set_iteration n s := mkEL (looping_ s) (quit_ s) (callingPendingFunctors_ s) n (wakeupFd_ s) (pendingFunctors_ s).

(** A write of 1 to the eventfd; EAGAIN, with a log line, at the maximum. *)
Definition Wakeup (s : EventLoop) : EventLoop :=
  if wakeupFd_ s <? kEventFdMax then set_wakeup (wakeupFd_ s + 1) s else s.
(** The read resets the counter; EAGAIN, with a log line, when it is 0. *)
Definition HandleWakeUp (s : EventLoop) : EventLoop :=
  if 0 <? wakeupFd_ s then set_wakeup 0 s else s.

Definition push (cb : Functor) (s : EventLoop) : EventLoop := set_pending (pendingFunctors_ s ++ [cb]) s.
(** [inLoop] is [IsInLoopThread()]. *)
Definition QueueInLoop (inLoop : bool) (cb : Functor) (s : EventLoop) : EventLoop :=
  let s := push cb s in
  if negb inLoop || callingPendingFunctors_ s then Wakeup s else s.
Definition RunInLoop (run : Functor -> EventLoop -> outcome EventLoop) (inLoop : bool) (cb : Functor)
    (s : EventLoop) : outcome EventLoop :=
  if inLoop then run cb s else Ok (QueueInLoop inLoop cb s).
Definition QueueSize (s : EventLoop) : Z := zlen (pendingFunctors_ s).
Definition Quit (inLoop : bool) (s : EventLoop) : EventLoop :=
  let s := set_quit true s in if negb inLoop then Wakeup s else s.

(** [DoPendingFunctors] when no other thread runs. *)
Definition DoPendingFunctors (run : Functor -> EventLoop -> outcome EventLoop) (s : EventLoop)
    : outcome EventLoop :=
  let s := set_calling true s in
  let functors := pendingFunctors_ s in
  s ← ofold run functors (set_pending [] s);
  Ok (set_calling false s).

(** ** Interleavings *)
Inductive pc : Type :=
  | Idle                                (** outside [Loop] *)
  | Test                                (** at [while (!quit_)] *)
  | Polling                             (** in [poller_->Poll] *)
  | Handling (wake : bool)              (** handling events; [wake]: the wakeup channel is still to come *)
  | Swapping                            (** in [DoPendingFunctors], before the swap *)
  | Running (functors : list Functor)   (** the functors still to be run *)
  | RunningWake (functors : list Functor). (** in [QueueInLoop], before [Wakeup] *)

(** [waking] counts the other threads between their push (or [quit_ = true]) and
    their [Wakeup]; [early] tells that the loop thread queued a functor outside
    [Loop] which was not taken yet; [queued] and [executed] record the history. *)
Record world : Type := mkW {
  ev : EventLoop;
  at_ : pc;
  waking : nat;
  early : bool;
  queued : list Functor;
  executed : list Functor;
}.
Definition new_world : world := mkW new_EventLoop Idle 0 false [] [].

Inductive loop_step : world -> world -> Prop :=
  | step_idle_queue e cb n y q x :
      loop_step (mkW e Idle n y q x) (mkW (QueueInLoop true cb e) Idle n true (q ++ [cb]) x)
  | step_idle_quit e n y q x :
      loop_step (mkW e Idle n y q x) (mkW (Quit true e) Idle n y q x)
  | step_start e n y q x : looping_ e = false ->
      loop_step (mkW e Idle n y q x) (mkW (set_quit false (set_looping true e)) Test n y q x)
  | step_exit e n y q x : quit_ e = true ->
      loop_step (mkW e Test n y q x) (mkW (set_looping false e) Idle n y q x)
  | step_poll e n y q x : quit_ e = false ->
      loop_step (mkW e Test n y q x) (mkW e Polling n y q x)
  | step_return e n y q x :
      loop_step (mkW e Polling n y q x)
        (mkW (set_iteration (iteration_ e + 1) e) (Handling (0 <? wakeupFd_ e)) n y q x)
  | step_wakeup e n y q x :
      loop_step (mkW e (Handling true) n y q x) (mkW (HandleWakeUp e) (Handling false) n y q x)
  | step_handler_queue e w cb n y q x :
      loop_step (mkW e (Handling w) n y q x) (mkW (QueueInLoop true cb e) (Handling w) n y (q ++ [cb]) x)
  | step_handler_quit e w n y q x :
      loop_step (mkW e (Handling w) n y q x) (mkW (Quit true e) (Handling w) n y q x)
  | step_begin e n y q x :
      loop_step (mkW e (Handling false) n y q x) (mkW (set_calling true e) Swapping n y q x)
  | step_swap e n y q x :
      loop_step (mkW e Swapping n y q x) (mkW (set_pending [] e) (Running (pendingFunctors_ e)) n false q x)
  | step_run e f l n y q x :
      loop_step (mkW e (Running (f :: l)) n y q x) (mkW e (Running l) n y q (x ++ [f]))
  | step_functor_push e cb l n y q x :
      loop_step (mkW e (Running l) n y q x) (mkW (push cb e) (RunningWake l) n y (q ++ [cb]) x)
  | step_functor_wake e l n y q x : callingPendingFunctors_ e = true ->
      loop_step (mkW e (RunningWake l) n y q x) (mkW (Wakeup e) (Running l) n y q x)
  | step_functor_quit e l n y q x :
      loop_step (mkW e (Running l) n y q x) (mkW (Quit true e) (Running l) n y q x)
  | step_end e n y q x :
      loop_step (mkW e (Running []) n y q x) (mkW (set_calling false e) Test n y q x).

Inductive other_step : world -> world -> Prop :=
  | step_other_push e p cb n y q x :
      other_step (mkW e p n y q x) (mkW (push cb e) p (S n) y (q ++ [cb]) x)
  | step_other_quit e p n y q x :
      other_step (mkW e p n y q x) (mkW (set_quit true e) p (S n) y q x)
  | step_other_wake e p n y q x :
      other_step (mkW e p (S n) y q x) (mkW (Wakeup e) p n y q x).

Inductive step (w w' : world) : Prop :=
  | by_loop : loop_step w w' -> step w w'
  | by_other : other_step w w' -> step w w'.

Definition reachable (w : world) : Prop := rtc step new_world w.

(** ** Invariants *)
Definition running (p : pc) : list Functor :=
  match p with Running l | RunningWake l => l | _ => [] end.
Definition in_functors (p : pc) : bool :=
  match p with Swapping | Running _ | RunningWake _ => true | _ => false end.
(** Places where the loop will look at the queue, and at [quit_], before it polls. *)
Definition will_drain (p : pc) : bool := match p with Handling _ | Swapping => true | _ => false end.
Definition will_test (p : pc) : bool := match p with Polling => false | _ => true end.

Record inv (w : world) : Prop := mk_inv {
  inv_fifo : executed w ++ running (at_ w) ++ pendingFunctors_ (ev w) = queued w;
  inv_calling : callingPendingFunctors_ (ev w) = in_functors (at_ w);
  inv_counter : 0 <= wakeupFd_ (ev w) <= kEventFdMax;
  (** pending work is announced, unless the loop is about to take it, a functor
      is about to announce it, or the loop thread queued it outside [Loop] *)
  inv_announced : pendingFunctors_ (ev w) = [] \/ will_drain (at_ w) = true \/
    0 < wakeupFd_ (ev w) \/ (0 < waking w)%nat \/ early w = true \/ (exists l, at_ w = RunningWake l);
  inv_quit : quit_ (ev w) = false \/ will_test (at_ w) = true \/
    0 < wakeupFd_ (ev w) \/ (0 < waking w)%nat;
}.

Lemma inv_new_world : inv new_world.
Proof. split; cbn; auto. unfold kEventFdMax; lia. Qed.

Lemma Wakeup_counter s : 0 <= wakeupFd_ s <= kEventFdMax ->
  0 < wakeupFd_ (Wakeup s) <= kEventFdMax.
Proof. unfold Wakeup. intros. case_if; cbn; unfold kEventFdMax in *; lia. Qed.
Lemma Wakeup_fields s : pendingFunctors_ (Wakeup s) = pendingFunctors_ s /\
  callingPendingFunctors_ (Wakeup s) = callingPendingFunctors_ s /\ quit_ (Wakeup s) = quit_ s /\
  iteration_ (Wakeup s) = iteration_ s.
Proof. unfold Wakeup. by case_if. Qed.
Lemma QueueInLoop_quiet cb e : callingPendingFunctors_ e = false ->
  QueueInLoop true cb e = push cb e.
Proof. intros E. unfold QueueInLoop. cbn. by rewrite E. Qed.

Ltac fifo := rewrite <- ?app_assoc in *; cbn in *; by simplify_list_eq.

Lemma loop_step_inv w w' : inv w -> loop_step w w' -> inv w'.
Proof.
  intros [If Ic Ik Ia Iq] Hs. destruct Hs; cbn in *;
    rewrite ?QueueInLoop_quiet by done; cbn;
    try (pose proof (Wakeup_counter e Ik); pose proof (Wakeup_fields e) as (E1 & E2 & E3 & _));
    split; cbn; rewrite ?E1, ?E2, ?E3; auto; try lia; subst; try fifo.
  all: try (unfold HandleWakeUp in *; case_if; cbn; auto; unfold kEventFdMax in *; lia).
  all: try (destruct Ia as [?|[?|[?|[?|[?|[? ?]]]]]]; auto 10; done).
  all: eauto 10.
Qed.

Lemma other_step_inv w w' : inv w -> other_step w w' -> inv w'.
Proof.
  intros [If Ic Ik Ia Iq] Hs. destruct Hs; cbn in *;
    try (pose proof (Wakeup_counter e Ik); pose proof (Wakeup_fields e) as (E1 & E2 & E3 & _));
    split; cbn; rewrite ?E1, ?E2, ?E3; auto; try lia; subst; try fifo.
  all: right; right; try right; eauto with lia.
Qed.

Lemma reachable_inv w : reachable w -> inv w.
Proof.
  unfold reachable. generalize inv_new_world. generalize new_world. intros w0 I Hr.
  induction Hr as [|w0 w1 w2 Hs _ IH]; [done|]. apply IH.
  destruct Hs; [by eapply loop_step_inv | by eapply other_step_inv].
Qed.

(** C14: functors run at most once, in the order of the queue, and none is
    skipped or lost.  In every interleaving of the loop thread with any number
    of other threads, the functors executed so far, those taken and still to be
    run, and those still pending are together, in this order, all the functors
    ever queued, in the order in which they were pushed under the mutex.
    Whether a pending one runs is another matter: a loop that quits leaves
    them in the queue. *)
Theorem functors_fifo_once w :
  reachable w -> executed w ++ running (at_ w) ++ pendingFunctors_ (ev w) = queued w.
Proof. intros Hr. apply (inv_fifo _ (reachable_inv _ Hr)). Qed.

(** C10: no lost wakeup.  When the loop thread is in [Poll] and [Quit] was called
    since [Loop] was entered, or a functor is pending and the loop thread did not
    itself queue one before it entered [Loop] that is still not taken ([early]),
    the eventfd is readable, so that Poll returns at once, or another thread is
    just about to write it.  A functor of the excepted kind does wait:
    [queue_before_loop_waits]. *)
Theorem no_lost_wakeup w :
  reachable w -> at_ w = Polling ->
  (pendingFunctors_ (ev w) <> [] /\ early w = false) \/ quit_ (ev w) = true ->
  0 < wakeupFd_ (ev w) \/ (0 < waking w)%nat.
Proof.
  intros Hr Hp Hd. destruct (reachable_inv _ Hr) as [_ _ _ Ia Iq].
  rewrite Hp in *. cbn in *. destruct Hd as [[Hd He]|Hd].
  - rewrite He in *. destruct Ia as [?|[?|[?|[?|[?|[? ?]]]]]]; auto; done.
  - rewrite Hd in Iq. destruct Iq as [?|[?|?]]; auto; done.
Qed.

(** ** Progress *)

(** Where a loop that was polling in round [it0], when [N] functors had been
    queued, can be: still there, about to take the queue, or past the swap with
    all [N] taken. *)
Definition on_its_way (it0 : Z) (N : nat) (w : world) : Prop :=
  (N <= length (queued w))%nat /\
  ((iteration_ (ev w) = it0 /\ at_ w = Polling) \/
   (iteration_ (ev w) = it0 + 1 /\ will_drain (at_ w) = true) \/
   (it0 + 1 <= iteration_ (ev w) /\ (N <= length (executed w ++ running (at_ w)))%nat)).

Lemma on_its_way_step it0 N w w' :
  inv w -> on_its_way it0 N w -> step w w' -> on_its_way it0 N w'.
Proof.
  intros I [Hq Hw] Hs. pose proof (inv_fifo _ I) as If. pose proof (inv_calling _ I) as Ic.
  unfold on_its_way. destruct Hs as [Hs|Hs]; destruct Hs; cbn in *;
    rewrite ?QueueInLoop_quiet by done; cbn;
    try (pose proof (Wakeup_fields e) as (_ & _ & _ & E4); rewrite ?E4);
    try (unfold HandleWakeUp; case_if; cbn);
    subst; rewrite ?length_app in *; cbn in *;
    (split; [lia|]); intuition (try done; try lia).
Qed.

Lemma queued_grows w w' : step w w' -> queued w `prefix_of` queued w'.
Proof. intros [Hs|Hs]; destruct Hs; cbn; try done; by apply prefix_app_r. Qed.

Lemma run_inv it0 N w w' :
  inv w -> on_its_way it0 N w -> rtc step w w' ->
  inv w' /\ on_its_way it0 N w' /\ queued w `prefix_of` queued w'.
Proof.
  intros I Hw Hr. revert I Hw. induction Hr as [w|w w1 w2 Hs _ IH]; intros I Hw; [done|].
  assert (I1 : inv w1) by (destruct Hs; [by eapply loop_step_inv | by eapply other_step_inv]).
  destruct (IH I1) as (? & ? & ?); [by apply (on_its_way_step it0 N w)|].
  do 2 (split; [done|]). etrans; [by apply queued_grows | done].
Qed.

Lemma run_functors e l n y q x :
  rtc loop_step (mkW e (Running l) n y q x) (mkW e (Running []) n y q (x ++ l)).
Proof.
  revert x; induction l as [|f l IH]; intros x; [by rewrite app_nil_r|].
  eapply rtc_l; [constructor|]. replace (x ++ f :: l) with ((x ++ [f]) ++ l) by (by rewrite <- app_assoc). apply IH.
Qed.

Lemma round_can_finish e n y q x :
  inv (mkW e Polling n y q x) ->
  exists e', rtc loop_step (mkW e Polling n y q x) (mkW e' Test n false q q) /\ pendingFunctors_ e' = [].
Proof.
  intros I. pose proof (inv_fifo _ I) as If. cbn in If.
  assert (Hh : exists e1, rtc loop_step (mkW e Polling n y q x) (mkW e1 (Handling false) n y q x) /\
    pendingFunctors_ e1 = pendingFunctors_ e).
  { destruct (Z.ltb_spec 0 (wakeupFd_ e)) as [H|H].
    - eexists; split.
      + eapply rtc_l; [constructor|]. rewrite (proj2 (Z.ltb_lt _ _) H). apply rtc_once, step_wakeup.
      + unfold HandleWakeUp. by case_if.
    - exists (set_iteration (iteration_ e + 1) e). split; [apply rtc_once|done].
      pose proof (step_return e n y q x) as S. rewrite (proj2 (Z.ltb_ge _ _) H) in S. exact S. }
  destruct Hh as (e1 & H1 & E1).
  eexists; split.
  - etrans; [exact H1|]. eapply rtc_l; [apply step_begin|]. eapply rtc_l; [apply step_swap|]. cbn. rewrite E1.
    etrans; [apply run_functors|]. rewrite If. apply rtc_once, step_end.
  - done.
Qed.

(** A round of the loop drains the queue.  From every state in which the
    loop is in [Poll] the loop thread can finish the round on its own with every
    queued functor executed; and in every run from that state, whatever the
    other threads do, once the loop is back at its test every functor that had
    been queued before Poll returned has been executed. *)
Theorem round_executes_pending w :
  reachable w -> at_ w = Polling ->
  (exists w', rtc loop_step w w' /\ at_ w' = Test /\ executed w' = queued w) /\
  (forall w', rtc step w w' -> at_ w' = Test -> queued w `prefix_of` executed w').
Proof.
  intros Hr Hp. pose proof (reachable_inv _ Hr) as I. split.
  { destruct w as [e p n y q x]. cbn in Hp. subst p. destruct (round_can_finish e n y q x I) as (e' & ? & _). eauto. }
  intros w' Hrun Ht.
  destruct (run_inv (iteration_ (ev w)) (length (queued w)) w w' I) as (I' & [_ Hw] & Hpre); [|done|].
  { split; [done|]. by left. }
  rewrite Ht in Hw. cbn in Hw. rewrite app_nil_r in Hw. destruct Hw as [[_ ?]|[[_ ?]|[_ Hlen]]]; [done..|].
  pose proof (inv_fifo _ I') as If. rewrite Ht in If. cbn in If.
  assert (He : executed w' `prefix_of` queued w') by (rewrite <- If; by apply prefix_app_r).
  destruct (prefix_weak_total _ _ _ Hpre He) as [?|Hx]; [done|].
  destruct Hx as [k Hk]. rewrite Hk in *. rewrite length_app in Hlen.
  replace k with (@nil Functor) by (symmetry; apply nil_length_inv; lia). rewrite app_nil_r. done.
Qed.

(** ** Timers of the loop *)
Section Timers.
Context {CB : Type}.
Definition RunAt (addr : Z) (time : Timestamp) (cb : CB) (clock : Timestamp) (q : TimerQueue CB) :=
  AddTimer addr cb time d0 clock q.
(** [now] is the clock reading in [RunAfter], [clock] the one when the timerfd is set. *)
Definition RunAfter (addr : Z) (now : Timestamp) (delay : double) (cb : CB) (clock : Timestamp) (q : TimerQueue CB) :=
  time ← AddTime now delay;
  RunAt addr time cb clock q.
Definition RunEvery (addr : Z) (now : Timestamp) (interval : double) (cb : CB) (clock : Timestamp) (q : TimerQueue CB) :=
  time ← AddTime now interval;
  AddTimer addr cb time interval clock q.
Definition CancelTimer (timerId : TimerId) (q : TimerQueue CB) : outcome (TimerQueue CB) := Cancel timerId q.

(** [RunEvery] arms a repeating timer one interval after the clock reading,
    under a sequence number no earlier timer has, and leaves every other timer
    alone; the id it returns names it. *)
Theorem RunEvery_arms F addr now interval cb clock (q : TimerQueue CB) d :
  TimerQueue.inv F q -> heap q !! addr = None -> 0 < addr < UINTPTR_MAX ->
  now_ok now -> time_ok clock -> dlt d0 interval = true ->
  delay interval = Ok d -> 0 <= d < 2 ^ 61 ->
  exists q', RunEvery addr now interval cb clock q = Ok (mkTimerId addr (sNumCreated q), q') /\
    TimerQueue.inv F q' /\
    timers_ q' ≡ₚ (now + d, addr) :: timers_ q /\
    heap q' = <[addr := mkTimer cb (now + d) interval true (sNumCreated q)]> (heap q) /\
    (forall p t, heap q !! p = Some t -> sequence t <> sNumCreated q).
Proof.
  intros I Hn Ha Hnow Hc Hi Hd Hr. unfold now_ok in Hnow. unfold RunEvery, AddTime. fold (delay interval).
  rewrite Hd. cbn [mbind outcome_bind]. rewrite sint_checked_Ok by (cbn; lia). cbn [mbind outcome_bind].
  destruct (AddTimer_Ok F q addr cb (now + d) interval clock I) as (q' & E & I' & Hh & _ & Ht & _).
  { do 2 (split; [done|]). split; [unfold time_ok; lia|]. split; [done|]. intros _. eauto. }
  exists q'. rewrite E. do 2 (split; [done|]). split; [done|]. split.
  - rewrite Hh. unfold new_Timer. by rewrite Hi.
  - intros p t Hp. destruct (inv_timer _ _ I _ _ Hp) as [_ Hs _ _ _]. lia.
Qed.
End Timers.

End EventLoop.
Arguments EventLoop : clear implicits.
Arguments world : clear implicits.
Arguments pc : clear implicits.

(** ** Concrete runs *)
(** Another thread queues 1; the loop starts, polls, and while it handles the
    wakeup a third thread queues 2. *)
Definition ex_polling : world nat :=
  mkW (mkEL true false false 0 1 [1%nat; 2%nat]) Polling 1 false [1%nat; 2%nat] [].
Lemma ex_polling_reachable : reachable ex_polling.
Proof.
  unfold reachable, new_world, new_EventLoop.
  eapply rtc_l; [apply by_other, (step_other_push _ _ 1%nat)|].
  eapply rtc_l; [apply by_other, step_other_wake|].
  eapply rtc_l; [apply by_loop, step_start; reflexivity|].
  eapply rtc_l; [apply by_loop, step_poll; reflexivity|].
  eapply rtc_l; [apply by_other, (step_other_push _ _ 2%nat)|].
  apply rtc_refl.
Qed.

Lemma functors_fifo_once_witness :
  executed ex_polling ++ running (at_ ex_polling) ++ pendingFunctors_ (ev ex_polling) = [1%nat; 2%nat].
Proof. exact (functors_fifo_once ex_polling ex_polling_reachable). Defined.

Lemma no_lost_wakeup_witness : 0 < wakeupFd_ (ev ex_polling) \/ (0 < waking ex_polling)%nat.
Proof.
  apply (no_lost_wakeup ex_polling ex_polling_reachable);
    [reflexivity | left; split; [discriminate | reflexivity]].
Defined.

Lemma round_executes_pending_witness :
  exists w', rtc loop_step ex_polling w' /\ at_ w' = Test /\ executed w' = [1%nat; 2%nat].
Proof. exact (proj1 (round_executes_pending ex_polling ex_polling_reachable eq_refl)). Defined.

Lemma RunEvery_arms_witness :
  exists q', RunEvery 64 1000 ex_half 0%nat 1100 ex_queue = Ok (mkTimerId 64 3, q') /\
    timers_ q' ≡ₚ (501000, 64) :: timers_ ex_queue.
Proof.
  destruct (RunEvery_arms [] 64 1000 ex_half 0%nat 1100 ex_queue 500000 ex_queue_inv) as (q' & E & _ & H & _);
    [vm_compute; reflexivity | unfold UINTPTR_MAX; lia | unfold now_ok; lia | unfold time_ok; lia
    | vm_compute; reflexivity | vm_compute; reflexivity | lia |].
  exists q'. split; [exact E | exact H].
Defined.

(** A functor the loop thread queues before it enters [Loop] is announced to
    nobody: the loop is in Poll, with the eventfd at 0 and no thread to write it. *)
Lemma queue_before_loop_waits :
  exists w : world nat, reachable w /\ at_ w = Polling /\ pendingFunctors_ (ev w) = [1%nat] /\
    wakeupFd_ (ev w) = 0 /\ waking w = 0%nat.
Proof.
  eexists. split.
  - unfold reachable, new_world, new_EventLoop.
    eapply rtc_l; [apply by_loop, (step_idle_queue _ 1%nat)|].
    eapply rtc_l; [apply by_loop, step_start; reflexivity|].
    eapply rtc_l; [apply by_loop, step_poll; reflexivity|].
    apply rtc_refl.
  - repeat split; reflexivity.
Qed.

(** A [Quit] before [Loop] has no effect: [Loop] clears the flag. *)
Lemma quit_before_loop_lost :
  exists w w' : world nat, reachable w /\ at_ w = Idle /\ quit_ (ev w) = true /\
    loop_step w w' /\ at_ w' = Test /\ quit_ (ev w') = false.
Proof.
  exists (mkW (Quit true new_EventLoop) Idle 0 false [] []). eexists. split_and!.
  - eapply rtc_l; [apply by_loop, step_idle_quit | apply rtc_refl].
  - reflexivity.
  - reflexivity.
  - apply step_start. reflexivity.
  - reflexivity.
  - reflexivity.
Qed.
