(* ===== verification/LoopLife.v ===== *)
(** * The life of an event loop (constructor, destructor and thread checks of
    src/src/network/EventLoop.cc, the constructors and destructors of TimerQueue.cc and
    Epoll.cc)

    A loop owns its poller, its timer queue with the timerfd, and the eventfd, each
    with a channel; it belongs to the thread that made it, whose thread-local pointer
    refers to it.  Here several threads create, use and destroy loops; the descriptors
    the kernel returns and the addresses of the objects are arguments, and the sets of
    channel calls and timer calls made in between are those of Epoll.v and
    TimerQueue.v. *)
From S2P Require Import Prelude LogStream TimerQueue Epoll.

(** ** Descriptors *)
Definition CreateEventFd (eventFd : Z) : outcome Z :=
  if eventFd <? 0 then Fault (LogFatal "Failed in eventfd") else Ok eventFd.
Definition CreateTimerFd (timerfd : Z) : outcome Z :=
  if timerfd <? 0 then Fault (LogFatal "Failed in timerfd_create") else Ok timerfd.
Definition new_Epoll (epollfd : Z) : outcome Z :=
  if epollfd <? 0 then Fault (LogFatal "Epoll::Epoll") else Ok epollfd.

Section LoopLife.
Context {K : Type} `{EpollKernel K} {CB : Type}.

(** ** The object *)
Record EventLoop : Type := mkEventLoop {
  threadId : Z;
  epollfd_ : Z;
  timerfd : Z;
  wakeupFd_ : Z;
  timerfdChannel_ : Z;                 (** addresses of the two channels *)
  wakeupChannel_ : Z;
  poller_ : loop K;
  timerQueue_ : TimerQueue CB;
}.
Definition with_poller (s : loop K) (o : EventLoop) : EventLoop :=
  mkEventLoop (threadId o) (epollfd_ o) (timerfd o) (wakeupFd_ o) (timerfdChannel_ o) (wakeupChannel_ o) s (timerQueue_ o).
Definition with_timers (q : TimerQueue CB) (o : EventLoop) : EventLoop :=
  mkEventLoop (threadId o) (epollfd_ o) (timerfd o) (wakeupFd_ o) (timerfdChannel_ o) (wakeupChannel_ o) (poller_ o) q.

Definition IsInLoopThread (tid : Z) (o : EventLoop) : bool := threadId o =? tid.
Definition AbortNotInLoopThread : outcome unit := Fault (LogFatal "EventLoop::abortNotInLoopThread").
Definition AssertInLoopThread (tid : Z) (o : EventLoop) : outcome unit :=
  if negb (IsInLoopThread tid o) then AbortNotInLoopThread else Ok tt.

(** A channel that only reads. *)
Definition watch (p fd : Z) (s : loop K) : outcome (loop K) :=
  EnableReading p (set_chan p (SetCallback ReadCallback (new_Channel fd)) s).
(** [TimerQueue::TimerQueue]; the queue itself starts empty. *)
Definition open_TimerQueue (p r : Z) (s : loop K) : outcome (Z * loop K) :=
  fd ← CreateTimerFd r; s ← watch p fd s; Ok (fd, s).
(** [TimerQueue::~TimerQueue]: the timers still armed are deleted. *)
Definition delete_timers (q : TimerQueue CB) : outcome (TimerQueue CB) :=
  ofold (fun timer => TimerQueue.free timer.2) (timers_ q) q.
Definition unwatch (p : Z) (s : loop K) : outcome (loop K) := s ← DisableAll p s; Remove p s.

(** ** The process: the thread-local pointers, the live loops, and the descriptors
    opened and closed so far *)
Record process : Type := mkProcess {
  tLoopInThisThread : gmap Z Z;
  loops : gmap Z EventLoop;
  opened : list Z;
  closed : list Z;
}.
Definition new_process : process := mkProcess ∅ ∅ [] [].
Definition GetEventLoopOfCurrentThread (tid : Z) (s : process) : option Z := tLoopInThisThread s !! tid.
Definition loop_at (this : Z) (s : process) : outcome EventLoop :=
  match loops s !! this with Some o => Ok o | None => Fault (Undefined "dangling EventLoop pointer") end.

(** [epollR], [timerR] and [eventR] are what epoll_create1, timerfd_create and eventfd
    return, [k] the new epoll instance, [tc] and [wc] the addresses of the channels. *)
Definition new_EventLoop (this tid epollR timerR eventR tc wc : Z) (k : K) (s : process) : outcome process :=
  epollfd ← new_Epoll epollR;
  '(timerfd, p) ← open_TimerQueue tc timerR (new_loop k);
  wakeupFd ← CreateEventFd eventR;
  match GetEventLoopOfCurrentThread tid s with
  | Some _ => Fault (LogFatal "Another EventLoop exists in this thread")
  | None =>
      p ← watch wc wakeupFd p;
      Ok (mkProcess (<[tid := this]> (tLoopInThisThread s))
            (<[this := mkEventLoop tid epollfd timerfd wakeupFd tc wc p new_TimerQueue]> (loops s))
            (opened s ++ [epollfd; timerfd; wakeupFd]) (closed s))
  end.

(** The body of [~EventLoop], then the members in reverse order: the wakeup channel,
    the timer queue (its body and its channel), the poller.  The first channel call
    checks the thread. *)
Definition end_members (o : EventLoop) : outcome EventLoop :=
  p ← unwatch (wakeupChannel_ o) (poller_ o);
  p ← destroy (wakeupChannel_ o) p;
  p ← unwatch (timerfdChannel_ o) p;
  q ← delete_timers (timerQueue_ o);
  p ← destroy (timerfdChannel_ o) p;
  Ok (with_timers q (with_poller p o)).
Definition destroy_EventLoop (this tid : Z) (s : process) : outcome process :=
  o ← loop_at this s;
  AssertInLoopThread tid o;;
  _ ← end_members o;
  Ok (mkProcess (delete tid (tLoopInThisThread s)) (delete this (loops s)) (opened s)
        (closed s ++ [wakeupFd_ o; timerfd o; epollfd_ o])).

(** [PrintActiveChannels]: one text per active channel. *)
Definition PrintActiveChannels (p : loop K) : outcome (list (list byte)) :=
  mapM (fun x => c ← Epoll.deref x p; t ← EventsToString (fd c) (revents_ c); Ok (chars "{" ++ t ++ chars "} ")) (activeChannels_ p).

(** ** Use *)
Inductive op : Type :=
  | Create (this tid epollR timerR eventR tc wc : Z) (k : K)
  | Channels (this tid : Z) (l : list call)
  | Timers (this tid : Z) (l : list (loop_op (CB:=CB)))
  | Destroy (this tid : Z).

Section Run.
Context (prog : CB -> TimerQueue CB -> list (timer_op CB)).
Definition with_loop (this : Z) (o : EventLoop) (s : process) : process :=
  mkProcess (tLoopInThisThread s) (<[this := o]> (loops s)) (opened s) (closed s).
Definition exec (x : op) (s : process) : outcome process :=
  match x with
  | Create this tid epollR timerR eventR tc wc k => new_EventLoop this tid epollR timerR eventR tc wc k s
  | Channels this tid l =>
      o ← loop_at this s; AssertInLoopThread tid o;;
      p ← ofold exec_call l (poller_ o); Ok (with_loop this (with_poller p o) s)
  | Timers this tid l =>
      o ← loop_at this s; AssertInLoopThread tid o;;
      q ← ofold (exec_loop_op prog) l (timerQueue_ o); Ok (with_loop this (with_timers q o) s)
  | Destroy this tid => destroy_EventLoop this tid s
  end.

(** What the users of the loops owe: objects at free addresses, a fresh epoll
    instance, different descriptors; the obligations of channel and timer calls, which
    leave the two channels of the loop alone. *)
Definition call_on (x : call) : Z :=
  match x with
  | CNew p _ | CEnableReading p | CDisableReading p | CEnableWriting p | CDisableWriting p | CDisableAll p | CRemove p | CDestroy p => p
  end.
Definition op_ok (x : op) (s : process) : Prop :=
  match x with
  | Create this _ _ timerR eventR tc wc k => loops s !! this = None /\ interest k = ∅ /\ tc <> wc /\ timerR <> eventR
  | Channels this _ l => exists o, loops s !! this = Some o /\ calls_ok l (poller_ o) /\
      Forall (fun x => call_on x <> timerfdChannel_ o /\ call_on x <> wakeupChannel_ o) l
  | Timers this _ l => exists o, loops s !! this = Some o /\ loop_ops_ok prog l (timerQueue_ o)
  | Destroy this _ => is_Some (loops s !! this)
  end.
Fixpoint ops_ok (l : list op) (s : process) : Prop :=
  match l with
  | [] => True
  | x :: l => op_ok x s /\ forall s', exec x s = Ok s' -> ops_ok l s'
  end.

(** ** Invariant *)
Definition own_channel (p f : Z) (s : loop K) : Prop :=
  exists c, chans s !! p = Some c /\ fd c = f /\ index_ c = kAdded /\ events_ c = kReadEvent /\ ch_eventHandling_ c = false /\
    callbacks c = [ReadCallback].
Record alive (o : EventLoop) : Prop := {
  al_inv : Epoll.inv (poller_ o);
  al_idle : eventHandling_ (poller_ o) = false;
  al_timer : own_channel (timerfdChannel_ o) (timerfd o) (poller_ o);
  al_wakeup : own_channel (wakeupChannel_ o) (wakeupFd_ o) (poller_ o);
  al_channels : timerfdChannel_ o <> wakeupChannel_ o;
  al_fds : timerfd o <> wakeupFd_ o;
  al_queue : TimerQueue.inv [] (timerQueue_ o);
}.
Definition fds_of (o : EventLoop) : list Z := [wakeupFd_ o; timerfd o; epollfd_ o].
Record inv (s : process) : Prop := {
  in_alive : forall a o, loops s !! a = Some o -> alive o;
  in_tls : forall a o, loops s !! a = Some o -> tLoopInThisThread s !! threadId o = Some a;
  in_loop : forall tid a, tLoopInThisThread s !! tid = Some a -> exists o, loops s !! a = Some o /\ threadId o = tid;
  in_fds : opened s ≡ₚ closed s ++ ((map_to_list (loops s)).*2 ≫= fds_of);
}.

Context `{!EpollLaws K}.

(** A call on another channel. *)
Lemma exec_call_frame x s s' : Epoll.inv s -> call_ok x s -> exec_call x s = Ok s' ->
  Epoll.inv s' /\ eventHandling_ s' = eventHandling_ s /\ forall p, p <> call_on x -> chans s' !! p = chans s !! p.
Proof.
  intros I Hx E.
  assert (Hch : forall f p, (exists c, chans s !! p = Some c /\ (index_ c = kNew -> channels_ s !! fd c = None)) -> change_events f p s = Ok s' ->
    Epoll.inv s' /\ eventHandling_ s' = eventHandling_ s /\ forall x, x <> p -> chans s' !! x = chans s !! x).
  { intros f p (c & Hc & Hn) Ef. destruct (change_events_Ok f p c s I Hc Hn) as [(s1 & E1 & I1 & Hs & Hcs & _)|(m & E1)]; [|congruence].
    replace s1 with s' in * by congruence. split; [done|]. split; [apply Hs|]. intros x' Hx'. rewrite Hcs. by apply lookup_insert_ne. }
  destruct x; cbn [exec_call call_ok call_on] in *; try (by eapply Hch).
  - injection E as <-. split; [by apply inv_new_chan|]. split; [done|]. intros x' Hx'. cbn. by apply lookup_insert_ne.
  - destruct Hx as (c & Hc & Hi & He & Ha). destruct (Remove_Ok p c s I Hc Hi He Ha) as (s1 & E1 & I1 & Hs & Hcs & _).
    replace s1 with s' in * by congruence. split; [done|]. split; [apply Hs|]. intros x' Hx'. rewrite Hcs. by apply lookup_insert_ne.
  - destruct Hx as (c & Hc & Hi & Hh). destruct (destroy_Ok s p c I Hc Hi Hh) as [E1 I1]. rewrite E in E1. injection E1 as ->.
    split; [done|]. split; [done|]. intros x' Hx'. cbn. by apply lookup_delete_ne.
Qed.
Lemma exec_calls_frame l s p f : Epoll.inv s -> calls_ok l s -> Forall (fun x => call_on x <> p) l -> own_channel p f s ->
  forall s', ofold exec_call l s = Ok s' -> Epoll.inv s' /\ eventHandling_ s' = eventHandling_ s /\ own_channel p f s'.
Proof.
  revert s. induction l as [|x l IH]; intros s I Hl Hp Ho s' E; cbn [ofold] in E; [by injection E as <-|].
  destruct Hl as [Hx Hl]. inversion Hp as [|? ? Hpx Hpl]; subst. destruct (exec_call x s) as [s1|] eqn:E1; [|done].
  destruct (exec_call_frame x s s1 I Hx E1) as (I1 & Hh & Hc).
  destruct (IH s1 I1 (Hl _ eq_refl) Hpl) with (s' := s') as (? & Hh' & ?); [|done|].
  - unfold own_channel. rewrite Hc by done. done.
  - split; [done|]. split; [congruence | done].
Qed.

(** ** Constructor and destructor *)
Lemma watch_Ok p f s : Epoll.inv s -> chans s !! p = None -> channels_ s !! f = None ->
  (exists s', watch p f s = Ok s' /\ Epoll.inv s' /\ same_loop s s' /\ own_channel p f s' /\
     (exists c, chans s' = <[p := c]> (chans s)) /\ channels_ s' = <[f := p]> (channels_ s)) \/
  (exists m, watch p f s = Fault (LogFatal m)).
Proof.
  intros I Hp Hf. unfold watch. set (c := SetCallback ReadCallback (new_Channel f)). set (s0 := set_chan p c s).
  assert (I0 : Epoll.inv s0).
  { pose proof (inv_touch (set_chan p (new_Channel f) s) p (new_Channel f) c (eventHandling_ s) (activeChannels_ s) (currentActiveChannel_ s)) as Ht.
    rewrite set_chan_twice in Ht. apply Ht; try done; [by apply inv_new_chan | cbn; apply lookup_insert_eq]. }
  assert (Hp0 : chans s0 !! p = Some c) by (cbn; apply lookup_insert_eq).
  destruct (change_events_Ok (fun e => Z.lor e kReadEvent) p c s0 I0 Hp0) as [(s' & E & I' & Hs & Hc & Hch)|(m & E)]; [done | left | right; by exists m].
  exists s'. split; [exact E|]. split; [done|]. split; [exact Hs|]. split; [|split; [|exact Hch]].
  - exists (changed (fun e => Z.lor e kReadEvent) c). rewrite Hc, lookup_insert_eq. done.
  - eexists. rewrite Hc. cbn. by rewrite insert_insert_eq.
Qed.

(** Disabling a watched channel never aborts: only a failed deletion is tolerated. *)
Lemma DisableAll_watched p c s : Epoll.inv s -> chans s !! p = Some c -> index_ c = kAdded ->
  exists s', DisableAll p s = Ok s' /\ Epoll.inv s' /\ same_loop s s' /\
    chans s' = <[p := changed (fun _ => kNoneEvent) c]> (chans s) /\ channels_ s' = <[fd c := p]> (channels_ s).
Proof.
  intros I Hp Hi. destruct (change_events_Ok (fun _ => kNoneEvent) p c s I Hp) as [?|(m & E)]; [by rewrite Hi | done | exfalso].
  destruct (inv_is_added _ _ _ I Hp Hi) as [Hc _]. revert E.
  unfold DisableAll, change_events, Update, UpdateChannel, Epoll.deref. rewrite Hp. cbn [mbind outcome_bind chans set_chan].
  rewrite lookup_insert_eq. cbn [mbind outcome_bind]. unfold Epoll_UpdateChannel, Epoll.deref. cbn [chans set_chan]. rewrite lookup_insert_eq.
  cbn [mbind outcome_bind]. cbn [index_ with_added with_events fd channels_ set_chan]. rewrite Hi, Hc. cbn -[epoll_ctl Epoll_Update].
  rewrite !bool_decide_true by done. cbn -[Epoll_Update]. unfold Epoll_Update, Epoll.deref. cbn [chans set_chan]. rewrite lookup_insert_eq.
  cbn [mbind outcome_bind]. by destruct (epoll_ctl _ _ _ _) as [[] ?].
Qed.
Lemma unwatch_Ok p f s : Epoll.inv s -> eventHandling_ s = false -> own_channel p f s ->
  exists s', unwatch p s = Ok s' /\ Epoll.inv s' /\ eventHandling_ s' = false /\
    (exists c, chans s' !! p = Some c /\ index_ c = kNew /\ ch_eventHandling_ c = false) /\
    (forall x, x <> p -> chans s' !! x = chans s !! x) /\ channels_ s' = delete f (channels_ s).
Proof.
  intros I Hh (c & Hp & <- & Hi & _ & Hc & _). unfold unwatch.
  destruct (DisableAll_watched p c s I Hp Hi) as (s1 & -> & I1 & (_ & Hh1 & _) & Hc1 & Hch1). cbn [mbind outcome_bind].
  assert (Hp1 : chans s1 !! p = Some (changed (fun _ => kNoneEvent) c)) by (rewrite Hc1; apply lookup_insert_eq).
  destruct (Remove_Ok p _ s1 I1 Hp1) as (s2 & -> & I2 & (_ & Hh2 & _) & Hc2 & Hch2).
  - unfold changed. cbn. unfold next_index. by destruct (_ && _).
  - done.
  - left. congruence.
  - exists s2. split; [done|]. split; [done|]. split; [congruence|]. split; [eexists; rewrite Hc2, lookup_insert_eq; done|].
    split; [intros x Hx; by rewrite Hc2, lookup_insert_ne, Hc1, lookup_insert_ne|].
    rewrite Hch2, Hch1. cbn. apply delete_insert_eq.
Qed.
Lemma own_channel_frame p f s s' : chans s' !! p = chans s !! p -> own_channel p f s -> own_channel p f s'.
Proof. unfold own_channel. by intros ->. Qed.

Lemma free_all (L : list (Z * Z)) (q : TimerQueue CB) : NoDup L.*2 -> (forall e, e ∈ L -> is_Some (heap q !! e.2)) ->
  exists q', ofold (fun timer : Z * Z => TimerQueue.free timer.2) L q = Ok q' /\ (forall p, p ∈ L.*2 -> heap q' !! p = None) /\
    (forall p, p ∉ L.*2 -> heap q' !! p = heap q !! p).
Proof.
  revert q. induction L as [|e L IH]; intros q Hnd Hs; cbn [ofold]; [by exists q; split_and!; [|intros p []%not_elem_of_nil|]|].
  cbn in Hnd. apply NoDup_cons in Hnd as [Hne Hnd]. destruct (Hs e ltac:(left)) as [t Ht].
  assert (E : TimerQueue.free e.2 q = Ok (set_heap (delete e.2 (heap q)) q)) by (unfold TimerQueue.free; by rewrite Ht).
  rewrite E. cbn [mbind outcome_bind].
  destruct (IH (set_heap (delete e.2 (heap q)) q) Hnd) as (q' & -> & Hnone & Hsub).
  - intros e' He'. cbn. rewrite lookup_delete_ne; [apply Hs; by right|]. intros Eq. apply Hne. rewrite Eq. by apply list_elem_of_fmap_2.
  - exists q'. split; [done|]. cbn in Hsub. cbn. split.
    + intros p [->|Hp]%elem_of_cons; [|by apply Hnone]. rewrite Hsub by done. apply lookup_delete_eq.
    + intros p [Hpe Hp]%not_elem_of_cons. rewrite Hsub by done. by apply lookup_delete_ne.
Qed.
(** Every timer of the queue is armed or in flight, so that deleting the armed ones
    leaves those in flight, and deletes each once. *)
Lemma delete_timers_Ok F q : TimerQueue.inv F q ->
  exists q', delete_timers q = Ok q' /\ forall p, is_Some (heap q' !! p) <-> p ∈ F.
Proof.
  intros I. destruct (free_all (timers_ q) q) as (q' & E & Hn & Hkeep).
  - by eapply inv_ptrs_NoDup.
  - intros e (t & Ht & _)%(inv_entry_heap _ _ _ I). eauto.
  - exists q'. split; [done|]. intros p. destruct (decide (p ∈ (timers_ q).*2)) as [Hp|Hp].
    + rewrite (Hn p Hp). split; [by intros []|]. intros HF. exfalso. apply list_elem_of_fmap in Hp as ([w x] & -> & Hin).
      destruct (inv_entry _ _ I w x Hin) as (_ & _ & _ & ?). done.
    + rewrite (Hkeep p Hp). split; [|by apply (inv_flight _ _ I)]. intros [t Ht]. destruct (inv_live _ _ I p t Ht) as [?|Hin]; [done|].
      exfalso. apply Hp. exact (list_elem_of_fmap_2 snd _ _ Hin).
Qed.

(** Everything the loop owns is given back: no armed timer is left, neither channel
    exists any more, and the kernel watches neither descriptor.  [F] lists the timers
    that wait in the queue of functors to be inserted: those leak. *)
Lemma end_members_with F o : Epoll.inv (poller_ o) -> eventHandling_ (poller_ o) = false ->
  own_channel (timerfdChannel_ o) (timerfd o) (poller_ o) -> own_channel (wakeupChannel_ o) (wakeupFd_ o) (poller_ o) ->
  timerfdChannel_ o <> wakeupChannel_ o -> timerfd o <> wakeupFd_ o -> TimerQueue.inv F (timerQueue_ o) ->
  exists o', end_members o = Ok o' /\ (forall p, is_Some (heap (timerQueue_ o') !! p) <-> p ∈ F) /\
  chans (poller_ o') !! wakeupChannel_ o = None /\ chans (poller_ o') !! timerfdChannel_ o = None /\
  interest (kernel (poller_ o')) !! wakeupFd_ o = None /\ interest (kernel (poller_ o')) !! timerfd o = None.
Proof.
  intros I Hh Ht Hw Hne Hfd Hq. unfold end_members.
  destruct (unwatch_Ok _ _ _ I Hh Hw) as (s1 & -> & I1 & Hh1 & (c1 & Hp1 & Hi1 & Hc1) & Hf1 & Hch1). cbn [mbind outcome_bind].
  destruct (destroy_Ok _ _ _ I1 Hp1 Hi1 Hc1) as [-> I2]. cbn [mbind outcome_bind].
  assert (Ht2 : own_channel (timerfdChannel_ o) (timerfd o) (del_chan (wakeupChannel_ o) s1)).
  { eapply own_channel_frame; [|exact Ht]. cbn. rewrite lookup_delete_ne by done. by apply Hf1. }
  destruct (unwatch_Ok _ _ _ I2 Hh1 Ht2) as (s3 & -> & I3 & Hh3 & (c3 & Hp3 & Hi3 & Hc3) & Hf3 & Hch3). cbn [mbind outcome_bind].
  destruct (delete_timers_Ok F _ Hq) as (q & -> & Hheap). cbn [mbind outcome_bind].
  destruct (destroy_Ok _ _ _ I3 Hp3 Hi3 Hc3) as [-> I4]. cbn [mbind outcome_bind]. eexists. split; [reflexivity|]. cbn.
  assert (Hno : forall f, channels_ s3 !! f = None -> interest (kernel s3) !! f = None).
  { intros f Hf. apply eq_None_not_Some. intros (ev & (x & c & Hx & _)%(inv_interest _ I3)). congruence. }
  split; [done|]. split; [rewrite lookup_delete_ne, Hf3 by done; cbn; apply lookup_delete_eq|]. split; [apply lookup_delete_eq|].
  cbn in Hch3. rewrite Hch1 in Hch3. split; apply Hno; rewrite Hch3; [rewrite lookup_delete_ne by done|]; apply lookup_delete_eq.
Qed.
Lemma end_members_Ok o : alive o -> exists o', end_members o = Ok o'.
Proof. intros []. destruct (end_members_with [] o) as (o' & ? & _); [done..|]. by exists o'. Qed.

Lemma create_Ok this tid epollR timerR eventR tc wc k s : inv s -> op_ok (Create this tid epollR timerR eventR tc wc k) s ->
  (exists s', new_EventLoop this tid epollR timerR eventR tc wc k s = Ok s' /\ inv s') \/
  (exists m, new_EventLoop this tid epollR timerR eventR tc wc k s = Fault (LogFatal m)).
Proof.
  intros [Ha Ht Hl Hf] (Hnew & Hk & Hne & Hfd). unfold new_EventLoop, new_Epoll, open_TimerQueue, CreateTimerFd, CreateEventFd.
  destruct (epollR <? 0); [by right; eexists|]. cbn [mbind outcome_bind]. destruct (timerR <? 0); [by right; eexists|]. cbn [mbind outcome_bind].
  destruct (watch_Ok tc timerR (new_loop k) (inv_new_loop k Hk)) as [(p1 & -> & I1 & (_ & Hh1 & _) & Ho1 & (c1 & Hf1) & Hc1)|(m & ->)]; [done | done | | by right; eexists].
  cbn [mbind outcome_bind]. destruct (eventR <? 0); [by right; eexists|]. cbn [mbind outcome_bind].
  destruct (GetEventLoopOfCurrentThread tid s) eqn:Etid; [by right; eexists|].
  destruct (watch_Ok wc eventR p1 I1) as [(p2 & -> & I2 & (_ & Hh2 & _) & Ho2 & (c2 & Hf2) & Hc2)|(m & ->)];
    [rewrite Hf1; by rewrite lookup_insert_ne | rewrite Hc1; cbn; by rewrite lookup_insert_ne | | by right; eexists].
  cbn [mbind outcome_bind]. left. eexists. split; [reflexivity|]. unfold GetEventLoopOfCurrentThread in Etid. split; cbn.
  - intros a o [[<- <-]|[_ Hx]]%lookup_insert_Some; [|by eapply Ha]. split; cbn; try done.
    + by rewrite Hh2, Hh1.
    + eapply own_channel_frame; [|exact Ho1]. rewrite Hf2. by apply lookup_insert_ne.
    + apply inv_new.
  - intros a o [[<- <-]|[Hx Ho]]%lookup_insert_Some; cbn; [apply lookup_insert_eq|].
    rewrite lookup_insert_ne; [by apply Ht|]. intros ->. apply Ht in Ho. congruence.
  - intros t a [[<- <-]|[Hx Hta]]%lookup_insert_Some; [eexists; by rewrite lookup_insert_eq|].
    destruct (Hl _ _ Hta) as (o & Ho & Hto). exists o. rewrite lookup_insert_ne; [done|]. intros ->. congruence.
  - rewrite map_to_list_insert by done. cbn. rewrite Hf. cbn. set (X := _ ≫= fds_of). solve_Permutation.
Qed.
Lemma destroy_EventLoop_Ok this tid s : inv s -> is_Some (loops s !! this) ->
  (exists s', destroy_EventLoop this tid s = Ok s' /\ inv s') \/ (exists m, destroy_EventLoop this tid s = Fault (LogFatal m)).
Proof.
  intros [Ha Ht Hl Hf] [o Ho]. unfold destroy_EventLoop, loop_at, AssertInLoopThread, IsInLoopThread. rewrite Ho. cbn [mbind outcome_bind].
  destruct (Z.eqb_spec (threadId o) tid) as [<-|]; [|by right; eexists]. cbn [mbind outcome_bind].
  destruct (end_members_Ok o (Ha _ _ Ho)) as (o' & ->). cbn [mbind outcome_bind]. left. eexists. split; [reflexivity|]. split; cbn.
  - intros a x [_ Hx]%lookup_delete_Some. by eapply Ha.
  - intros a x [Hne Hx]%lookup_delete_Some. rewrite lookup_delete_ne; [by apply Ht|]. intros E. apply Ht in Hx, Ho. congruence.
  - intros t a [Hne Hta]%lookup_delete_Some. destruct (Hl _ _ Hta) as (x & Hx & Hxt). exists x. rewrite lookup_delete_ne; [done|]. intros ->. congruence.
  - rewrite Hf, <- (map_to_list_delete _ _ _ Ho). cbn. set (X := _ ≫= fds_of). solve_Permutation.
Qed.
(** Replacing a live loop by one that owns the same. *)
Lemma inv_with_loop this o o' s : inv s -> loops s !! this = Some o -> alive o' -> threadId o' = threadId o -> fds_of o' = fds_of o ->
  inv (with_loop this o' s).
Proof.
  intros [Ha Ht Hl Hf] Ho Ho' Htid Hfds. split; cbn.
  - intros a x [[_ <-]|[_ Hx]]%lookup_insert_Some; [done | by eapply Ha].
  - intros a x [[<- <-]|[_ Hx]]%lookup_insert_Some; [rewrite Htid|]; by apply Ht.
  - intros t a Hta. destruct (Hl _ _ Hta) as (x & Hx & <-). destruct (decide (this = a)) as [<-|Hn].
    + exists o'. rewrite lookup_insert_eq. split; [done|]. congruence.
    + exists x. by rewrite lookup_insert_ne.
  - rewrite Hf, <- (map_to_list_delete _ _ _ Ho), <- (insert_delete_eq (loops s) this o'), map_to_list_insert by apply lookup_delete_eq.
    rewrite !fmap_cons, !bind_cons. cbn [snd]. by rewrite Hfds.
Qed.
Lemma life_exec_Ok x s : prog_ok prog -> inv s -> op_ok x s ->
  (exists s', exec x s = Ok s' /\ inv s') \/ (exists m, exec x s = Fault (LogFatal m)).
Proof.
  intros Hprog I Hx. destruct x as [this tid r1 r2 r3 tc wc k|this tid l|this tid l|this tid]; cbn [exec].
  - by apply create_Ok.
  - destruct Hx as (o & Ho & Hc & Hl). unfold loop_at, AssertInLoopThread. rewrite Ho. cbn [mbind outcome_bind].
    destruct (IsInLoopThread tid o); [|by right; eexists]. cbn [mbind outcome_bind]. destruct (in_alive _ I _ _ Ho) as [Ie Hh Ht Hw Hne Hfd Hq].
    destruct (exec_calls_Ok l _ Ie Hc) as [(p & E & Ip)|(m & ->)]; [|by right; eexists]. rewrite E. cbn [mbind outcome_bind].
    left. eexists. split; [reflexivity|]. apply (inv_with_loop _ o); try done.
    assert (Hl1 : Forall (fun x => call_on x <> timerfdChannel_ o) l) by (eapply Forall_impl; [exact Hl|]; by intros ? [? ?]).
    assert (Hl2 : Forall (fun x => call_on x <> wakeupChannel_ o) l) by (eapply Forall_impl; [exact Hl|]; by intros ? [? ?]).
    destruct (exec_calls_frame l _ _ _ Ie Hc Hl1 Ht p E) as (_ & Hh' & Ht'). destruct (exec_calls_frame l _ _ _ Ie Hc Hl2 Hw p E) as (_ & _ & Hw').
    split; cbn; try done. congruence.
  - destruct Hx as (o & Ho & Hl). unfold loop_at, AssertInLoopThread. rewrite Ho. cbn [mbind outcome_bind].
    destruct (IsInLoopThread tid o); [|by right; eexists]. cbn [mbind outcome_bind]. destruct (in_alive _ I _ _ Ho) as [Ie Hh Ht Hw Hne Hfd Hq].
    destruct (exec_loop_ops_Ok prog l _ Hprog Hq Hl) as (q & -> & Iq). cbn [mbind outcome_bind].
    left. eexists. split; [reflexivity|]. apply (inv_with_loop _ o); try done.
  - by apply destroy_EventLoop_Ok.
Qed.
Lemma exec_all_Ok l s : prog_ok prog -> inv s -> ops_ok l s ->
  (exists s', ofold exec l s = Ok s' /\ inv s') \/ (exists m, ofold exec l s = Fault (LogFatal m)).
Proof.
  intros Hprog. revert s. induction l as [|x l IH]; intros s I Hl; cbn [ofold]; [left; eauto|]. destruct Hl as [Hx Hl].
  destruct (life_exec_Ok x s Hprog I Hx) as [(s1 & E & I1)|(m & ->)]; [|by right; eexists]. rewrite E. cbn [mbind outcome_bind]. by apply IH, Hl.
Qed.
Lemma inv_new_process : inv new_process.
Proof. split; cbn; try (intros ? ? E; by rewrite lookup_empty in E). by rewrite map_to_list_empty. Qed.

(** C23: one loop per thread, and no leak.  Whatever loops the threads of a process
    create, use and destroy within their obligations, no assertion fails and nothing
    undefined happens; only a refusal of the kernel, a second loop in a thread or a
    call from a foreign thread ends the process.  Otherwise every thread has at most
    one loop, [GetEventLoopOfCurrentThread] returns exactly the live loop of the thread,
    and each descriptor ever opened belongs to one live loop or was closed, once. *)
Theorem one_loop_per_thread l : prog_ok prog -> ops_ok l new_process ->
  (exists m, ofold exec l new_process = Fault (LogFatal m)) \/
  (exists s, ofold exec l new_process = Ok s /\
     (forall a o, loops s !! a = Some o -> GetEventLoopOfCurrentThread (threadId o) s = Some a) /\
     (forall tid a, GetEventLoopOfCurrentThread tid s = Some a -> exists o, loops s !! a = Some o /\ threadId o = tid) /\
     opened s ≡ₚ closed s ++ ((map_to_list (loops s)).*2 ≫= fds_of)).
Proof.
  intros Hprog Hl. destruct (exec_all_Ok l _ Hprog inv_new_process Hl) as [(s & E & [_ Ht Hlo Hf])|?]; [right | by left]. by exists s.
Qed.
End Run.
End LoopLife.
Arguments EventLoop : clear implicits.
Arguments op : clear implicits.
Arguments process : clear implicits.

(** Thread 100 makes a loop and a channel in it, thread 200 another loop; the first is
    destroyed. *)
Definition idle_prog (_ : unit) (_ : TimerQueue unit) : list (timer_op unit) := [].
Definition ex_ops : list (op simple_epoll unit) :=
  [Create 1000 100 3 4 5 1001 1002 (mkSimple ∅ ∅); Create 2000 200 6 7 8 2001 2002 (mkSimple ∅ ∅);
   Channels 1000 100 [CNew 16 9; CEnableReading 16]; Destroy 1000 100].
Lemma idle_prog_ok : prog_ok idle_prog.
Proof. intros cb F q I. exact Logic.I. Qed.
Ltac next_state := let s := fresh "s" in let E := fresh "E" in intros s E; vm_compute in E; injection E as <-.
Lemma life_ops_ok : ops_ok idle_prog ex_ops new_process.
Proof.
  split; [done|]. next_state. split; [done|]. next_state. split; [|next_state; split; [eexists; reflexivity | done]].
  eexists. split; [vm_compute; reflexivity|]. split; [|by repeat constructor].
  split; [vm_compute; reflexivity|]. next_state. split; [|done]. eexists. split; [vm_compute; reflexivity|]. vm_compute. reflexivity.
Qed.
Lemma one_loop_per_thread_witness : exists s, ofold (exec idle_prog) ex_ops new_process = Ok s /\
  GetEventLoopOfCurrentThread 100 s = None /\ GetEventLoopOfCurrentThread 200 s = Some 2000 /\ opened s ≡ₚ closed s ++ [8; 7; 6].
Proof.
  destruct (one_loop_per_thread idle_prog ex_ops idle_prog_ok life_ops_ok) as [(m & E)|(s & E & _ & _ & Hf)].
  - vm_compute in E. discriminate E.
  - exists s. split; [exact E|]. vm_compute in E. injection E as <-. split; [reflexivity|]. split; [reflexivity|]. exact Hf.
Defined.
