(* ===== verification/Reactor.v ===== *)
(** * The whole event loop ([EventLoop::Loop] of src/src/network/EventLoop.cc over
    Epoll.v, TimerQueue.v and EventLoop.v)

    The loop thread polls, dispatches the events of the channels, among them the alarm
    of the timer queue and the wakeup, and runs the queued functors.  The state puts
    together the poller with its channels, the timer queue and the functor queue.  User
    code is any function that, given the state, lists the calls it makes on the loop: on
    channels, timers, the queue and [Quit].  Other threads act at the points where the
    loop thread calls user code, reads the clock, polls or takes the queue: [tick] counts
    these points, [others] says what is done at each, [clock] what time it is.  A thread
    that adds a timer allocates it, queues [AddTimerInLoop] and then reads the sequence
    number of the timer. *)
From S2P Require Import LoopLife.
From S2P Require Import Prelude Time TimerQueue Epoll EventLoop.

Section Reactor.
Context {K : Type} `{EpollKernel K} {CB U : Type}.

(** ** State *)
Inductive functor : Type :=
  | FUser (u : U)
  | FAddTimerInLoop (timer : Z)
  | FCancelInLoop (id : TimerId).
(** What the loop thread has run, oldest first. *)
Inductive item : Type :=
  | RCallback (k : event_kind) (p : Z)
  | RTimer (it : Entry)
  | RFunctor (f : functor).
Record reactor : Type := mkReactor {
  poller : loop K;
  timers : TimerQueue CB;
  core : EventLoop functor;
  tick : nat;
  ran : list item;
}.
Definition set_poller x s := mkReactor x (timers s) (core s) (tick s) (ran s).
Definition set_queue x s := mkReactor (poller s) x (core s) (tick s) (ran s).
Definition set_core x s := mkReactor (poller s) (timers s) x (tick s) (ran s).
Definition set_tick x s := mkReactor (poller s) (timers s) (core s) x (ran s).
Definition record (x : item) s := mkReactor (poller s) (timers s) (core s) (tick s) (ran s ++ [x]).

(** ** Other threads *)
Inductive other : Type :=
  | OQueue (u : U)
  | OQuit
  | OAddTimer (addr : Z) (cb : CB) (when : Timestamp) (interval : double)
  | OSequence (timer : Z)                (** the last line of [AddTimer] *)
  | OCancel (id : TimerId).
Definition exec_other (x : other) (s : reactor) : outcome reactor :=
  match x with
  | OQueue u => Ok (set_core (QueueInLoop false (FUser u) (core s)) s)
  | OQuit => Ok (set_core (Quit false (core s)) s)
  | OAddTimer addr cb when interval =>
      Ok (set_core (QueueInLoop false (FAddTimerInLoop addr) (core s))
            (set_queue (AllocTimer addr cb when interval (timers s)) s))
  | OSequence timer => _ ← TimerQueue.deref timer (timers s); Ok s
  | OCancel id => Ok (set_core (QueueInLoop false (FCancelInLoop id) (core s)) s)
  end.

(** ** User code in the loop thread *)
Inductive cmd : Type :=
  | Chan (x : call)
  | OnEvent (p : Z) (k : event_kind)     (** [SetReadCallback] and the like *)
  | Timer (o : timer_op CB)
  | Queue (u : U)
  | Stop.
Definition exec_cmd (x : cmd) (s : reactor) : outcome reactor :=
  match x with
  | Chan x => p ← exec_call x (poller s); Ok (set_poller p s)
  | OnEvent p k => c ← Epoll.deref p (poller s); Ok (set_poller (set_chan p (SetCallback k c) (poller s)) s)
  | Timer o => q ← exec_op o (timers s); Ok (set_queue q s)
  | Queue u => Ok (set_core (QueueInLoop true (FUser u) (core s)) s)
  | Stop => Ok (set_core (Quit true (core s)) s)
  end.

Section Run.
Context (others : reactor -> list other) (clock : nat -> Timestamp).
Context (on_event : event_kind -> Z -> reactor -> list cmd) (on_timer : CB -> reactor -> list cmd)
        (on_functor : U -> reactor -> list cmd).
Context (alive : Z -> loop K -> bool).
(** The addresses of [timerfdChannel_] and [wakeupChannel_]. *)
Context (tc wc : Z).

Definition yield (s : reactor) : outcome reactor :=
  let s := set_tick (S (tick s)) s in ofold exec_other (others s) s.
Definition user (prog : reactor -> list cmd) (s : reactor) : outcome reactor :=
  s ← yield s; ofold exec_cmd (prog s) s.

(** ** Timers *)
Definition run_timer (it : Entry) (s : reactor) : outcome reactor :=
  t ← TimerQueue.deref it.2 (timers s);
  user (on_timer (callback t)) (record (RTimer it) s).
Definition timer_HandleRead (s : reactor) : outcome reactor :=
  s ← yield s;
  let now := clock (tick s) in
  '(expired, q) ← GetExpired now (timers s);
  s ← ofold run_timer expired (set_queue (set_canceling ∅ (TimerQueue.set_calling true q)) s);
  s ← yield s;
  q ← Reset expired now (clock (tick s)) (TimerQueue.set_calling false (timers s));
  Ok (set_queue q s).

(** ** Dispatch *)
Definition run_callback (k : event_kind) (p : Z) (s : reactor) : outcome reactor :=
  let s := record (RCallback k p) s in
  if decide (p = tc) then timer_HandleRead s
  else if decide (p = wc) then s ← yield s; Ok (set_core (HandleWakeUp (core s)) s)
  else user (on_event k p) s.
Definition full_call_if (test : Z -> bool) (k : event_kind) (p : Z) (s : reactor) : outcome reactor :=
  c ← Epoll.deref p (poller s);
  if test (revents_ c) then (if decide (k ∈ callbacks c) then run_callback k p s else Ok s) else Ok s.
Definition full_HandleEventWithGuard (p : Z) (s : reactor) : outcome reactor :=
  c ← Epoll.deref p (poller s);
  let s := set_poller (set_chan p (with_handling true c) (poller s)) s in
  s ← full_call_if close_test CloseCallback p s;
  s ← full_call_if error_test ErrorCallback p s;
  s ← full_call_if read_test ReadCallback p s;
  s ← full_call_if write_test WriteCallback p s;
  c ← Epoll.deref p (poller s);
  Ok (set_poller (set_chan p (with_handling false c) (poller s)) s).
Definition full_HandleEvent (p : Z) (s : reactor) : outcome reactor :=
  c ← Epoll.deref p (poller s);
  if tied_ c then (if alive p (poller s) then full_HandleEventWithGuard p s else Ok s)
  else full_HandleEventWithGuard p s.
Definition handle_one (p : Z) (s : reactor) : outcome reactor :=
  let l := poller s in
  full_HandleEvent p (set_poller (set_handling (eventHandling_ l) (activeChannels_ l) (Some p) l) s).

(** ** Functors *)
Definition full_run_functor (f : functor) (s : reactor) : outcome reactor :=
  let s := record (RFunctor f) s in
  match f with
  | FUser u => user (on_functor u) s
  | FAddTimerInLoop timer =>
      s ← yield s; q ← AddTimerInLoop timer (clock (tick s)) (timers s); Ok (set_queue q s)
  | FCancelInLoop id => s ← yield s; q ← CancelInLoop id (timers s); Ok (set_queue q s)
  end.
Definition full_DoPendingFunctors (s : reactor) : outcome reactor :=
  s ← yield (set_core (EventLoop.set_calling true (core s)) s);
  let functors := pendingFunctors_ (core s) in
  s ← ofold full_run_functor functors (set_core (set_pending [] (core s)) s);
  Ok (set_core (EventLoop.set_calling false (core s)) s).

(** ** The loop *)
Definition round (s : reactor) : outcome reactor :=
  s ← yield s;
  let l := poller s in
  l ← Poll (set_handling (eventHandling_ l) [] (currentActiveChannel_ l) l);
  let s := set_core (set_iteration (iteration_ (core s) + 1) (core s)) s in
  s ← ofold handle_one (activeChannels_ l) (set_poller (set_handling true (activeChannels_ l) (currentActiveChannel_ l) l) s);
  let l := poller s in
  full_DoPendingFunctors (set_poller (set_handling false (activeChannels_ l) None l) s).
(** [while (!quit_)]: [None] when [fuel] rounds were not enough. *)
Fixpoint rounds (fuel : nat) (s : reactor) : outcome (option reactor) :=
  if quit_ (core s) then Ok (Some s)
  else match fuel with
       | O => Ok None
       | S fuel => s ← round s; rounds fuel s
       end.
Definition Loop (fuel : nat) (s : reactor) : outcome (option reactor) :=
  massert (negb (looping_ (core s))) "!looping_";;
  r ← rounds fuel (set_core (set_quit false (set_looping true (core s))) s);
  Ok (option_map (fun s => set_core (set_looping false (core s)) s) r).

(** ** What the environment owes *)
(** At most this many channels exist at a time (descriptors are [int]s), which keeps
    the event vector of the poller below 2^31 entries. *)
Definition kMaxChannels : Z := 2 ^ 29.
Definition cmd_ok (x : cmd) (s : reactor) : Prop :=
  match x with
  | Chan x => call_ok x (poller s) /\ call_on x <> tc /\ call_on x <> wc /\
      (Z.of_nat (size (chans (poller s))) < kMaxChannels \/ match x with CNew _ _ => False | _ => True end)
  | OnEvent p _ => p <> tc /\ p <> wc /\ exists c, chans (poller s) !! p = Some c /\ ch_eventHandling_ c = false
  | Timer o => op_ok o (timers s)
  | Queue _ | Stop => True
  end.
Fixpoint cmds_ok (l : list cmd) (s : reactor) : Prop :=
  match l with
  | [] => True
  | x :: l => cmd_ok x s /\ forall s', exec_cmd x s = Ok s' -> cmds_ok l s'
  end.
(** [OSequence]: the timer still exists when the thread that added it reads its number. *)
Definition other_ok (x : other) (s : reactor) : Prop :=
  match x with
  | OAddTimer addr _ when interval =>
      heap (timers s) !! addr = None /\ 0 < addr < UINTPTR_MAX /\ time_ok when /\ interval_ok interval
  | OSequence timer => is_Some (heap (timers s) !! timer)
  | _ => True
  end.
Fixpoint others_ok (l : list other) (s : reactor) : Prop :=
  match l with
  | [] => True
  | x :: l => other_ok x s /\ forall s', exec_other x s = Ok s' -> others_ok l s'
  end.

(** ** Invariant *)
(** Between the rounds, or in the dispatch: the events the poller reported, the channels
    still to come, and the one whose handler runs, with the callbacks that are set on it. *)
Inductive phase : Type :=
  | Between
  | Dispatching (rev : Z -> Z) (rest : list Z) (cur : option (Z * list event_kind)).
Definition rest_of (ph : phase) : list Z := match ph with Between => [] | Dispatching _ rest _ => rest end.
Definition cur_of (ph : phase) : option Z := match ph with Between => None | Dispatching _ _ cur => fst <$> cur end.
(** The received events of a channel stay what the poller reported, and the callbacks of
    the one that is handled do not change. *)
Definition reported (ph : phase) (p : Z) (c : Channel) : Prop :=
  match ph with Between => True | Dispatching rev _ _ => revents_ c = rev p end.
Definition frozen (ph : phase) (p : Z) (c : Channel) : Prop :=
  match ph with Dispatching _ _ (Some (q, cbs)) => q = p -> Epoll.callbacks c = cbs | _ => True end.
Definition own (p : Z) (l : loop K) : Prop :=
  exists c, chans l !! p = Some c /\ index_ c = kAdded /\ events_ c = kReadEvent /\ callbacks c = [ReadCallback].
Record pinv (ph : phase) (l : loop K) : Prop := {
  p_inv : Epoll.inv l;
  p_timer : own tc l;
  p_wakeup : own wc l;
  p_chans : Z.of_nat (size (chans l)) <= kMaxChannels;
  p_events : events_size l <= 2 * kMaxChannels;
  p_idle : ph = Between -> eventHandling_ l = false /\ currentActiveChannel_ l = None;
  p_nodup : NoDup (rest_of ph);
  p_rest : forall p, p ∈ rest_of ph -> p ∈ activeChannels_ l /\ currentActiveChannel_ l <> Some p /\
    exists c, chans l !! p = Some c /\ index_ c <> kNew /\ reported ph p c;
  p_cur : forall p, cur_of ph = Some p -> exists c, chans l !! p = Some c /\ ch_eventHandling_ c = true /\
    reported ph p c /\ frozen ph p c;
  p_handling : eventHandling_ l = false -> ph = Between;
  p_flags : forall p c, p = tc \/ p = wc -> chans l !! p = Some c -> ch_eventHandling_ c = true -> cur_of ph = Some p;
}.
(** The timers of queued [AddTimerInLoop] are in flight. *)
Definition adds (l : list functor) : list Z :=
  omap (fun f => match f with FAddTimerInLoop t => Some t | _ => None end) l.
Definition rinv (F : list Z) (ph : phase) (s : reactor) : Prop :=
  pinv ph (poller s) /\ TimerQueue.inv (F ++ adds (pendingFunctors_ (core s))) (timers s).

Context `{!EpollLaws K}.

(** A change of one channel. *)
Lemma pinv_frame ph l l' x :
  pinv ph l -> Epoll.inv l' -> same_loop l l' -> Z.of_nat (size (chans l')) <= kMaxChannels ->
  (forall p, p <> x -> chans l' !! p = chans l !! p) -> x <> tc -> x <> wc ->
  (x ∈ rest_of ph -> exists c, chans l' !! x = Some c /\ index_ c <> kNew /\ reported ph x c) ->
  (cur_of ph = Some x -> exists c, chans l' !! x = Some c /\ ch_eventHandling_ c = true /\ reported ph x c /\ frozen ph x c) ->
  pinv ph l'.
Proof.
  intros P I (E1 & E2 & E3 & E4) Hsz Hfr Ht Hw Hr Hc. unfold own in *. split; rewrite ?E1, ?E2, ?E3, ?E4.
  - done.
  - unfold own. rewrite Hfr by done. apply P.
  - unfold own. rewrite Hfr by done. apply P.
  - done.
  - apply P.
  - apply P.
  - apply P.
  - intros p Hp. destruct (p_rest _ _ P p Hp) as (? & ? & ?). split_and!; [done | done|].
    destruct (decide (p = x)) as [->|Hx]; [by apply Hr | by rewrite Hfr].
  - intros p Hp. destruct (decide (p = x)) as [->|Hx]; [by apply Hc|]. rewrite Hfr by done. by apply P.
  - apply P.
  - intros p c Hp. rewrite Hfr by (destruct Hp; congruence). by apply P.
Qed.
Lemma size_insert_known {A} (m : gmap Z A) i x y : m !! i = Some x -> size (<[i := y]> m) = size m.
Proof. intros E. rewrite map_size_insert, E. done. Qed.

Lemma change_pinv ph f p l : pinv ph l -> p <> tc -> p <> wc ->
  (exists c, chans l !! p = Some c /\ (index_ c = kNew -> channels_ l !! fd c = None)) ->
  fatal_or (pinv ph) (change_events f p l).
Proof.
  intros P Ht Hw (c & Hc & Hn). destruct (change_events_Ok f p c l (p_inv _ _ P) Hc Hn) as [(l' & -> & I' & Hs & Hcs & _)|(m & ->)]; [|done].
  apply (pinv_frame ph l l' p P I' Hs); rewrite ?Hcs; try done.
  - rewrite (size_insert_known _ _ _ _ Hc). apply P.
  - intros x Hx. by rewrite lookup_insert_ne.
  - intros Hr. rewrite lookup_insert_eq. destruct (p_rest _ _ P p Hr) as (_ & _ & c' & Hc' & _ & Hrev).
    rewrite Hc in Hc'. injection Hc' as <-. eexists. split; [done|]. split; [|exact Hrev]. cbn. unfold next_index. by case_match.
  - intros Hcur. rewrite lookup_insert_eq. eexists. split; [done|]. destruct (p_cur _ _ P p Hcur) as (c' & Hc' & Hh).
    rewrite Hc in Hc'. injection Hc' as <-. done.
Qed.
Lemma call_pinv ph x l : pinv ph l -> call_ok x l -> call_on x <> tc -> call_on x <> wc ->
  Z.of_nat (size (chans l)) < kMaxChannels \/ match x with CNew _ _ => False | _ => True end ->
  fatal_or (pinv ph) (exec_call x l).
Proof.
  intros P Hx Ht Hw Hsz. destruct x; cbn [exec_call call_ok call_on] in *; try (by apply change_pinv).
  - destruct Hsz as [Hsz|[]]. apply (pinv_frame ph l _ p P); try done.
    + by apply inv_new_chan; [apply P|].
    + cbn. rewrite map_size_insert_None by done. lia.
    + intros y Hy. cbn. by rewrite lookup_insert_ne.
    + intros Hr. destruct (p_rest _ _ P p Hr) as (_ & _ & c & Hc & _). congruence.
    + intros Hr. destruct (p_cur _ _ P p Hr) as (c & Hc & _). congruence.
  - destruct Hx as (c & Hc & Hi & He & Ha). destruct (Remove_Ok p c l (p_inv _ _ P) Hc Hi He Ha) as (l' & -> & I' & Hs & Hcs & _).
    apply (pinv_frame ph l l' p P I' Hs); rewrite ?Hcs; try done.
    + rewrite (size_insert_known _ _ _ _ Hc). apply P.
    + intros y Hy. by rewrite lookup_insert_ne.
    + intros Hr. destruct (p_rest _ _ P p Hr) as (Hact & Hcur & _). destruct Ha as [Ha|[Ha|Ha]]; [|done | done].
      apply (p_handling _ _ P) in Ha as ->. by apply not_elem_of_nil in Hr.
    + intros Hr. destruct (p_cur _ _ P p Hr) as (c' & Hc' & Hh). rewrite Hc in Hc'. injection Hc' as <-.
      rewrite lookup_insert_eq. eexists. split; [done|]. exact Hh.
  - destruct Hx as (c & Hc & Hi & Hh). destruct (destroy_Ok l p c (p_inv _ _ P) Hc Hi Hh) as [-> I'].
    apply (pinv_frame ph l _ p P I'); try done.
    + cbn. rewrite map_size_delete, Hc. pose proof (p_chans _ _ P). cbn. lia.
    + intros y Hy. cbn. by rewrite lookup_delete_ne.
    + intros Hr. destruct (p_rest _ _ P p Hr) as (_ & _ & c' & Hc' & ? & _). congruence.
    + intros Hr. destruct (p_cur _ _ P p Hr) as (c' & Hc' & ? & _). congruence.
Qed.

(** ** What code leaves behind *)
(** [l] was run; [quit_] and the ticks only grow, and a [Quit] of another thread is
    heard. *)
Record runs (l : list item) (s s' : reactor) : Prop := {
  ru_ran : ran s' = ran s ++ l;
  ru_quit : quit_ (core s) = true -> quit_ (core s') = true;
  ru_tick : (tick s <= tick s')%nat;
  ru_heard : forall t, (tick s <= t < tick s')%nat -> (forall z, tick z = S t -> OQuit ∈ others z) -> quit_ (core s') = true;
  ru_looping : looping_ (core s') = looping_ (core s);
}.
(** Functors are only added to the queue. *)
Definition grows (l : list item) (s s' : reactor) : Prop :=
  runs l s s' /\ pendingFunctors_ (core s) `prefix_of` pendingFunctors_ (core s').
Lemma runs_trans l1 l2 s1 s2 s3 : runs l1 s1 s2 -> runs l2 s2 s3 -> runs (l1 ++ l2) s1 s3.
Proof.
  intros [] []. split; [|auto | lia | | congruence].
  - rewrite ru_ran1, ru_ran0. by rewrite app_assoc.
  - intros t Ht Hq. destruct (decide (t < tick s2)%nat); [apply ru_quit1, (ru_heard0 t) | apply (ru_heard1 t)]; (done || lia).
Qed.
Lemma grows_trans l1 l2 s1 s2 s3 : grows l1 s1 s2 -> grows l2 s2 s3 -> grows (l1 ++ l2) s1 s3.
Proof. intros [? ?] [? ?]. split; [by eapply runs_trans | by etrans]. Qed.
(** A change of the queue and of [quit_]. *)
Lemma runs_core l s s' : ran s' = ran s ++ l -> tick s' = tick s -> (quit_ (core s) = true -> quit_ (core s') = true) ->
  looping_ (core s') = looping_ (core s) -> runs l s s'.
Proof. intros E1 E2 H1 H2. split; rewrite ?E2; try done. intros t Ht. lia. Qed.
Lemma grows_same s s' : ran s' = ran s -> core s' = core s -> tick s' = tick s -> grows [] s s'.
Proof. intros E1 E2 E3. split; [apply runs_core|]; rewrite ?E1, ?E2, ?E3, ?app_nil_r; done. Qed.
Lemma grows_record x s : grows [x] s (record x s).
Proof. by split; [apply runs_core|]. Qed.
Lemma grows_core c s : pendingFunctors_ (core s) `prefix_of` pendingFunctors_ c ->
  (quit_ (core s) = true -> quit_ c = true) -> looping_ c = looping_ (core s) -> grows [] s (set_core c s).
Proof. intros H1 H2 H3. split; [apply runs_core|]; try done. by rewrite app_nil_r. Qed.
Lemma Wakeup_same (c : EventLoop functor) : pendingFunctors_ (Wakeup c) = pendingFunctors_ c /\ quit_ (Wakeup c) = quit_ c /\ looping_ (Wakeup c) = looping_ c.
Proof. unfold Wakeup. by case_match. Qed.
Lemma QueueInLoop_same b f (c : EventLoop functor) : pendingFunctors_ (QueueInLoop b f c) = pendingFunctors_ c ++ [f] /\
  quit_ (QueueInLoop b f c) = quit_ c /\ looping_ (QueueInLoop b f c) = looping_ c.
Proof. unfold QueueInLoop. case_match; [|done]. destruct (Wakeup_same (push f c)) as (-> & -> & ->). done. Qed.
Lemma Quit_same b (c : EventLoop functor) : pendingFunctors_ (Quit b c) = pendingFunctors_ c /\ quit_ (Quit b c) = true /\ looping_ (Quit b c) = looping_ c.
Proof. unfold Quit. case_match; [|done]. destruct (Wakeup_same (set_quit true c)) as (-> & -> & ->). done. Qed.
Lemma grows_queue b f s : grows [] s (set_core (QueueInLoop b f (core s)) s).
Proof.
  destruct (QueueInLoop_same b f (core s)) as (E1 & E2 & E3). apply grows_core; rewrite ?E1, ?E2, ?E3; try done. by eexists.
Qed.
Lemma grows_quit b s : grows [] s (set_core (Quit b (core s)) s).
Proof. destruct (Quit_same b (core s)) as (E1 & E2 & E3). apply grows_core; rewrite ?E1, ?E2, ?E3; done. Qed.
Lemma adds_app l1 l2 : adds (l1 ++ l2) = adds l1 ++ adds l2.
Proof. apply omap_app. Qed.

Lemma rinv_core F ph c s : rinv F ph s -> pendingFunctors_ c = pendingFunctors_ (core s) -> rinv F ph (set_core c s).
Proof. unfold rinv. cbn. intros [? ?] ->. done. Qed.
Lemma rinv_queue F ph b f s : rinv F ph s -> (forall t, f <> FAddTimerInLoop t) -> rinv F ph (set_core (QueueInLoop b f (core s)) s).
Proof.
  intros [P T] Hf. split; [done|]. cbn. destruct (QueueInLoop_same b f (core s)) as (-> & _). rewrite adds_app.
  destruct f; [| by destruct (Hf timer) |]; cbn; by rewrite app_nil_r.
Qed.

(** One triple for all code: the invariant is kept and [l] is run, or the kernel refuses. *)
Definition does (F : list Z) (ph : phase) (l : list item) (s : reactor) (m : outcome reactor) : Prop :=
  fatal_or (fun s' => rinv F ph s' /\ grows l s s') m.
Lemma does_bind F ph F' ph' l1 l2 s m k : does F ph l1 s m ->
  (forall s', m = Ok s' -> rinv F ph s' -> grows l1 s s' -> does F' ph' l2 s' (k s')) -> does F' ph' (l1 ++ l2) s (m ≫= k).
Proof.
  intros Hm Hk. destruct m as [s'|[]]; cbn in *; try done. destruct Hm as [R G]. eapply fatal_mono; [by apply Hk|].
  intros s'' [R' G']. split; [done | by eapply grows_trans].
Qed.

Lemma exec_other_does F ph x s : rinv F ph s -> other_ok x s -> does F ph [] s (exec_other x s).
Proof.
  intros [P T] Hx. destruct x; cbn [exec_other other_ok] in *.
  - split; [by apply rinv_queue | apply grows_queue].
  - split; [|apply grows_quit]. apply rinv_core; [done | apply Quit_same].
  - destruct Hx as (Hf & Ha & Hw & Hi). split;
      [|apply (grows_trans [] [] s (set_queue (AllocTimer addr cb when interval (timers s)) s)); [by apply grows_same | apply (grows_queue false (FAddTimerInLoop addr) (set_queue _ s))]].
    split; [done|]. cbn [core set_core timers set_queue]. destruct (QueueInLoop_same false (FAddTimerInLoop addr) (core s)) as (-> & _). rewrite adds_app, app_assoc.
    eapply TimerQueue.inv_perm; [|by apply AllocTimer_Ok]. apply Permutation_cons_append.
  - destruct Hx as [t Ht]. unfold TimerQueue.deref. rewrite Ht. cbn. split; [done|]. by apply grows_same.
  - split; [by apply rinv_queue | apply grows_queue].
Qed.
Lemma exec_others_does F ph l s : rinv F ph s -> others_ok l s -> does F ph [] s (ofold exec_other l s).
Proof.
  revert s. induction l as [|x l IH]; intros s R Hl; cbn [ofold]; [split; [done | by apply grows_same]|].
  destruct Hl as [Hx Hl]. apply (does_bind F ph F ph [] []); [by apply exec_other_does|].
  intros s' E R' G. apply IH; [done | by apply Hl].
Qed.
Lemma exec_others_quit F ph l s s' : rinv F ph s -> others_ok l s -> OQuit ∈ l -> ofold exec_other l s = Ok s' -> quit_ (core s') = true.
Proof.
  revert s. induction l as [|x l IH]; intros s R Hl Hin E; [by apply not_elem_of_nil in Hin|].
  destruct Hl as [Hx Hl]. cbn [ofold] in E. pose proof (exec_other_does F ph x s R Hx) as Hd.
  destruct (exec_other x s) as [s1|] eqn:E1; [|done]. destruct Hd as [R1 _]. cbn [mbind outcome_bind] in E. specialize (Hl s1 eq_refl).
  apply elem_of_cons in Hin as [<-|Hin]; [|by eapply IH].
  pose proof (exec_others_does F ph l s1 R1 Hl) as Hd. rewrite E in Hd. destruct Hd as [_ [G _]]. apply (ru_quit _ _ _ G).
  injection E1 as <-. apply (Quit_same false (core s)).
Qed.

Hypothesis Hothers : forall F ph s, rinv F ph s -> others_ok (others s) s.
Hypothesis Hclock : forall n, now_ok (clock n).
Lemma clock_time n : time_ok (clock n).
Proof. specialize (Hclock n). unfold now_ok in Hclock. unfold time_ok. lia. Qed.

Lemma yield_does F ph s : rinv F ph s -> does F ph [] s (yield s).
Proof.
  intros R. unfold yield. set (s1 := set_tick (S (tick s)) s). assert (R1 : rinv F ph s1) by done.
  pose proof (exec_others_does F ph (others s1) s1 R1 (Hothers F ph s1 R1)) as Hd.
  destruct (ofold exec_other (others s1) s1) as [s'|[]] eqn:E; cbn in Hd |- *; try done. destruct Hd as [R' [[] Hp]]. split; [done|].
  split; [|done]. split; try done; [cbn in ru_tick0; lia|]. intros t Ht Hq. destruct (decide (t = tick s)) as [->|Hne].
  - eapply exec_others_quit; [exact R1 | by apply (Hothers F ph) | by apply Hq | exact E].
  - apply (ru_heard0 t); [cbn; lia | done].
Qed.

(** ** User code *)
Lemma exec_cmd_does F ph x s : rinv F ph s -> cmd_ok x s -> does F ph [] s (exec_cmd x s).
Proof.
  intros [P T] Hx. destruct x as [x|p k|o|u|]; cbn [exec_cmd cmd_ok] in *.
  - destruct Hx as (Hx & Ht & Hw & Hsz). eapply fatal_bind; [by apply (call_pinv ph)|]. intros l P'. split; [done | by apply grows_same].
  - destruct Hx as (Ht & Hw & c & Hc & Hh). unfold Epoll.deref. rewrite Hc. cbn. split; [|by apply grows_same]. split; [|done]. cbn.
    apply (pinv_frame ph (poller s) _ p P); try done.
    + apply (inv_touch (poller s) p c (SetCallback k c) (eventHandling_ (poller s)) (activeChannels_ (poller s)) (currentActiveChannel_ (poller s)));
        [apply P | done..].
    + cbn. rewrite (size_insert_known _ _ _ _ Hc). apply P.
    + intros y Hy. cbn. by rewrite lookup_insert_ne.
    + intros Hr. destruct (p_rest _ _ P p Hr) as (_ & _ & c' & Hc' & ? & Hrev). rewrite Hc in Hc'. injection Hc' as <-.
      cbn. rewrite lookup_insert_eq. eexists. split; [done|]. by split.
    + intros Hr. destruct (p_cur _ _ P p Hr) as (c' & Hc' & ? & _). congruence.
  - destruct (exec_op_Ok _ (timers s) o T Hx) as (q & -> & T' & _). cbn. split; [done | by apply grows_same].
  - split; [by apply rinv_queue | apply grows_queue].
  - split; [|apply grows_quit]. apply rinv_core; [done | apply Quit_same].
Qed.
Lemma exec_cmds_does F ph l s : rinv F ph s -> cmds_ok l s -> does F ph [] s (ofold exec_cmd l s).
Proof.
  revert s. induction l as [|x l IH]; intros s R Hl; cbn [ofold]; [split; [done | by apply grows_same]|].
  destruct Hl as [Hx Hl]. apply (does_bind F ph F ph [] []); [by apply exec_cmd_does|].
  intros s' E R' G. apply IH; [done | by apply Hl].
Qed.
Definition prog_fits (prog : reactor -> list cmd) : Prop := forall F ph s, rinv F ph s -> cmds_ok (prog s) s.
Lemma user_does F ph prog s : prog_fits prog -> rinv F ph s -> does F ph [] s (user prog s).
Proof.
  intros Hp R. apply (does_bind F ph F ph [] []); [by apply yield_does|]. intros s' _ R' _. apply exec_cmds_does; [done | by eapply Hp].
Qed.

Hypothesis Hevent : forall k p, prog_fits (on_event k p).
Hypothesis Htimer : forall cb, prog_fits (on_timer cb).
Hypothesis Hfunctor : forall u, prog_fits (on_functor u).

(** ** The alarm *)
Lemma run_timers_does F ph L s : (forall it, it ∈ L -> it.2 ∈ F) -> rinv F ph s ->
  does F ph (RTimer <$> L) s (ofold run_timer L s).
Proof.
  revert s. induction L as [|it L IH]; intros s HL R; [split; [done | by apply grows_same]|].
  cbn [ofold fmap list_fmap]. apply (does_bind F ph F ph [RTimer it]).
  - destruct R as [P T]. destruct (inv_flight _ _ T) as [_ Hsome].
    destruct (Hsome it.2) as [t Ht]; [apply elem_of_app; left; apply HL; left|].
    unfold run_timer, TimerQueue.deref. rewrite Ht. cbn [mbind outcome_bind].
    eapply fatal_mono; [apply (user_does F ph _ (record (RTimer it) s)); [apply Htimer | done]|].
    intros s' [R' G]. split; [done|]. exact (grows_trans [RTimer it] [] _ _ _ (grows_record _ _) G).
  - intros s' _ R' _. apply IH; [|done]. intros it' Hit. apply HL. by right.
Qed.
(** The timers due at the time the alarm reads, as they are then, run in order. *)
Lemma timer_HandleRead_does F ph s : rinv F ph s ->
  fatal_or (fun s' => rinv F ph s' /\ exists s0, yield s = Ok s0 /\
    (tick s <= tick s0 <= tick s')%nat /\ grows (RTimer <$> due (clock (tick s0)) (timers_ (timers s0))) s s') (timer_HandleRead s).
Proof.
  intros R. unfold timer_HandleRead. pose proof (yield_does F ph s R) as Hy.
  destruct (yield s) as [s0|[]]; cbn in Hy |- *; try done. destruct Hy as [[P0 T0] G0]. cbn [mbind outcome_bind].
  destruct (GetExpired_Ok _ (clock (tick s0)) (timers s0) T0) as (q1 & -> & T1 & _). cbn [mbind outcome_bind].
  set (L := due _ _) in *. set (s1 := set_queue _ s0).
  assert (R1 : rinv (L.*2 ++ F) ph s1) by (split; [done|]; cbn; rewrite <- app_assoc; by eapply inv_ext).
  pose proof (run_timers_does (L.*2 ++ F) ph L s1) as Hr. eapply fatal_bind.
  { apply Hr; [|done]. intros it Hit. apply elem_of_app. left. by apply list_elem_of_fmap_2. }
  intros s2 [R2 G2]. eapply fatal_bind; [by apply (yield_does (L.*2 ++ F) ph s2)|]. intros s3 [[P3 T3] G3]. rewrite <- app_assoc in T3.
  destruct (Reset_Ok (F ++ adds (pendingFunctors_ (core s3))) (clock (tick s0)) (clock (tick s3)) L (TimerQueue.set_calling false (timers s3)) (Hclock _) (clock_time _))
    as (q & -> & T & _); [by eapply inv_ext|].
  cbn. split; [done|]. exists s0. split; [done|].
  pose proof (ru_tick _ _ _ (proj1 G0)). pose proof (ru_tick _ _ _ (proj1 G2)). pose proof (ru_tick _ _ _ (proj1 G3)).
  split; [cbn in *; lia|]. rewrite <- (app_nil_l (RTimer <$> L)), <- (app_nil_r ([] ++ _)), <- app_assoc. apply (grows_trans [] _ s s0); [done|].
  apply (grows_trans _ [] s0 s2); [exact (grows_trans [] _ s0 s1 s2 (grows_same s0 s1 eq_refl eq_refl eq_refl) G2)|].
  exact (grows_trans [] [] s2 s3 _ G3 (grows_same s3 (set_queue q s3) eq_refl eq_refl eq_refl)).
Qed.

(** ** Dispatch *)
(** What a callback of channel [p] makes run: itself, and if it is the alarm all timers of
    [T] that are due at the reading [m] of the clock. *)
Definition event_items (p : Z) (m : nat) (T : list Entry) (ks : list event_kind) : list item :=
  flat_map (fun k => RCallback k p :: (if decide (p = tc) then RTimer <$> due (clock m) T else [])) ks.
(** The callbacks [ks] of [p] are called, and nothing else. *)
Definition does_events (p : Z) (F : list Z) (ph : phase) (ks : list event_kind) (s : reactor) (m : outcome reactor) : Prop :=
  fatal_or (fun s' => rinv F ph s' /\ exists n, (tick s <= n <= tick s')%nat /\
    grows (event_items p n (timers_ (timers s)) ks) s s') m.
Lemma event_items_other p n n' T T' ks : p <> tc -> event_items p n T ks = event_items p n' T' ks.
Proof. intros Hp. unfold event_items. by destruct (decide (p = tc)). Qed.
Lemma events_bind x F ph F' ph' ks1 ks2 s m k : x <> tc -> does_events x F ph ks1 s m ->
  (forall s', rinv F ph s' -> does_events x F' ph' ks2 s' (k s')) -> does_events x F' ph' (ks1 ++ ks2) s (m ≫= k).
Proof.
  intros Hx Hm Hk. eapply fatal_bind; [exact Hm|]. intros s' [R (n & Hn & G)]. eapply fatal_mono; [by apply Hk|].
  intros s'' [R' (n' & Hn' & G')]. split; [done|]. exists n. split; [lia|]. unfold event_items. rewrite flat_map_app.
  fold (event_items x n (timers_ (timers s)) ks1) (event_items x n (timers_ (timers s)) ks2).
  rewrite (event_items_other x n n' (timers_ (timers s)) (timers_ (timers s')) ks2 Hx). by eapply grows_trans.
Qed.
Lemma does_no_events x F ph s m : does F ph [] s m -> does_events x F ph [] s m.
Proof.
  intros Hm. eapply fatal_mono; [exact Hm|]. intros s' [? G]. split; [done|]. exists (tick s). split; [|done].
  pose proof (ru_tick _ _ _ (proj1 G)). lia.
Qed.
(** A change of the state that nobody sees. *)
Lemma events_from x F ph ks s s1 m : ran s1 = ran s -> core s1 = core s -> tick s1 = tick s -> timers s1 = timers s ->
  does_events x F ph ks s1 m -> does_events x F ph ks s m.
Proof.
  intros E1 E2 E3 E4 Hm. unfold does_events in Hm. rewrite E3, E4 in Hm. eapply fatal_mono; [exact Hm|]. intros s' [R (n & Hn & G)].
  split; [done|]. exists n. split; [done|]. exact (grows_trans [] _ s s1 s' (grows_same s s1 E1 E2 E3) G).
Qed.
(** Other threads do not touch the sorted queue. *)
Lemma exec_other_timers x s s' : exec_other x s = Ok s' -> timers_ (timers s') = timers_ (timers s).
Proof. destruct x; cbn; intros E; inv_ok; done. Qed.
Lemma yield_timers s s' : yield s = Ok s' -> timers_ (timers s') = timers_ (timers s).
Proof.
  unfold yield. set (s1 := set_tick _ s). change (timers s) with (timers s1). generalize (others s1) as l. clearbody s1. intros l. revert s1.
  induction l as [|x l IH]; intros s1 E; cbn [ofold] in E; [by injection E as <-|].
  apply bind_Ok in E as (s2 & E2 & E). rewrite (IH _ E). by apply (exec_other_timers x).
Qed.
Lemma run_callback_does F ph k p s : rinv F ph s -> does_events p F ph [k] s (run_callback k p s).
Proof.
  intros R. unfold run_callback. assert (R1 : rinv F ph (record (RCallback k p) s)) by done.
  set (s1 := record _ s) in *.
  assert (Hs : forall m, fatal_or (fun s' => rinv F ph s' /\ exists n, (tick s1 <= n <= tick s')%nat /\
      grows (if decide (p = tc) then RTimer <$> due (clock n) (timers_ (timers s)) else []) s1 s') m -> does_events p F ph [k] s m).
  { intros m Hm. eapply fatal_mono; [exact Hm|]. intros s' [R' (n & Hn & G)]. split; [done|]. exists n. split; [done|].
    unfold event_items. cbn [flat_map]. rewrite app_nil_r. exact (grows_trans [_] _ _ _ _ (grows_record _ _) G). }
  assert (Hnone : p <> tc -> forall m, does F ph [] s1 m -> does_events p F ph [k] s m).
  { intros Hp m Hm. apply Hs. eapply fatal_mono; [exact Hm|]. intros s' [? G]. split; [done|]. exists (tick s1).
    rewrite decide_False by done. split; [|done]. pose proof (ru_tick _ _ _ (proj1 G)). lia. }
  destruct (decide (p = tc)) as [Hp|Hp]; [|case_decide].
  - apply Hs. eapply fatal_mono; [by apply (timer_HandleRead_does F ph)|]. intros s' [R' (s0 & Hy & Hk & G)]. split; [done|]. exists (tick s0).
    split; [done|]. by rewrite (yield_timers _ _ Hy) in G.
  - apply Hnone; [done|]. apply (does_bind F ph F ph [] []); [by apply yield_does|]. intros s' _ R' _. cbn. unfold HandleWakeUp.
    split; [apply rinv_core; [done | by case_match]|]. apply grows_core; by case_match.
  - apply Hnone; [done|]. apply user_does; [apply Hevent | done].
Qed.
(** A callback runs if its events were reported and it is set. *)
Definition called (test : Z -> bool) (k : event_kind) (r : Z) (cbs : list event_kind) : list event_kind :=
  if test r && bool_decide (k ∈ cbs) then [k] else [].
Lemma call_if_does F rev rest cbs test k p s : rinv F (Dispatching rev rest (Some (p, cbs))) s ->
  does_events p F (Dispatching rev rest (Some (p, cbs))) (called test k (rev p) cbs) s (full_call_if test k p s).
Proof.
  intros R. pose proof R as [P T]. destruct (p_cur _ _ P p eq_refl) as (c & Hc & _ & Hrev & Hcb). cbn in Hrev, Hcb. specialize (Hcb eq_refl).
  assert (Hs : does_events p F (Dispatching rev rest (Some (p, cbs))) [] s (Ok s)) by (apply does_no_events; split; [done | by apply grows_same]).
  unfold full_call_if, called, Epoll.deref. rewrite Hc. cbn [mbind outcome_bind]. rewrite Hrev, Hcb. destruct (test (rev p)); [|done].
  case_decide; [rewrite bool_decide_true by done | by rewrite bool_decide_false]. by apply run_callback_does.
Qed.
Lemma call_if_skips F rev rest cbs test k p s : rinv F (Dispatching rev rest (Some (p, cbs))) s -> k ∉ cbs -> full_call_if test k p s = Ok s.
Proof.
  intros [P T] Hk. destruct (p_cur _ _ P p eq_refl) as (c & Hc & _ & _ & Hcb). cbn in Hcb. specialize (Hcb eq_refl).
  unfold full_call_if, Epoll.deref. rewrite Hc. cbn [mbind outcome_bind]. rewrite Hcb. case_match; [|done]. by rewrite decide_False.
Qed.
(** Flags of a channel that the poller does not look at. *)
Lemma pinv_handling rev rest cur (h : bool) p c l : fst <$> cur = None \/ fst <$> cur = Some p -> pinv (Dispatching rev rest cur) l ->
  chans l !! p = Some c -> revents_ c = rev p ->
  pinv (Dispatching rev rest (if h then Some (p, Epoll.callbacks c) else None)) (set_chan p (with_handling h c) l).
Proof.
  intros Hcur P Hc Hrev. assert (Hfr : forall q, q <> p -> chans (set_chan p (with_handling h c) l) !! q = chans l !! q)
    by (intros q Hq; cbn; by rewrite lookup_insert_ne).
  assert (Hown : forall q, own q l -> own q (set_chan p (with_handling h c) l)).
  { intros q (c' & Hc' & ?). destruct (decide (q = p)) as [->|Hq].
    - exists (with_handling h c). rewrite Hc in Hc'. injection Hc' as <-. cbn. by rewrite lookup_insert_eq.
    - exists c'. by rewrite Hfr. }
  split; try apply P; try (apply Hown; apply P).
  - apply (inv_touch l p c (with_handling h c) (eventHandling_ l) (activeChannels_ l) (currentActiveChannel_ l)); [apply P | done..].
  - cbn. rewrite (size_insert_known _ _ _ _ Hc). apply P.
  - done.
  - intros q Hq. destruct (p_rest _ _ P q Hq) as (? & ? & c' & Hc' & ? & ?). split_and!; [done | done|].
    destruct (decide (q = p)) as [->|Hne]; [|exists c'; by rewrite Hfr].
    exists (with_handling h c). cbn. rewrite lookup_insert_eq. split; [done|]. split; [|done]. cbn. congruence.
  - intros q Hq. destruct h; [|done]. cbn in Hq. injection Hq as <-. eexists. cbn. by rewrite lookup_insert_eq.
  - intros Hh. by apply (p_handling _ _ P) in Hh.
  - intros q x Hq. destruct (decide (q = p)) as [->|Hne].
    + cbn. rewrite lookup_insert_eq. intros [= <-]. cbn. by intros ->.
    + rewrite Hfr by done. intros Hx Hf. pose proof (p_flags _ _ P q x Hq Hx Hf) as Hcq. cbn in Hcq. destruct Hcur; congruence.
Qed.
(** The bits of the received events: EPOLLIN is bit 0, EPOLLPRI 1, EPOLLOUT 2, EPOLLERR
    3, EPOLLHUP 4 and EPOLLRDHUP 13.  A hang-up without data is a close; an error, data
    (urgent data, the peer's shutdown) and room to write follow, each if its callback is
    set. *)
Definition wanted (r : Z) : list event_kind :=
  (if Z.testbit r 4 && negb (Z.testbit r 0) then [CloseCallback] else []) ++
  (if Z.testbit r 3 then [ErrorCallback] else []) ++
  (if Z.testbit r 0 || Z.testbit r 1 || Z.testbit r 13 then [ReadCallback] else []) ++
  (if Z.testbit r 2 then [WriteCallback] else []).
Definition to_call (r : Z) (cbs : list event_kind) : list event_kind := filter (fun k => k ∈ cbs) (wanted r).
Lemma flag_bit r n : 0 <= n -> flag r (2 ^ n) = Z.testbit r n.
Proof.
  intros Hn. unfold flag. destruct (Z.testbit r n) eqn:E.
  - apply negb_true_iff, Z.eqb_neq. intros H0. assert (Hb : Z.testbit (Z.land r (2 ^ n)) n = true) by (by rewrite Z.land_spec, E, Z.pow2_bits_true).
    by rewrite H0, Z.bits_0 in Hb.
  - apply negb_false_iff, Z.eqb_eq, Z.bits_inj'. intros i Hi. rewrite Z.land_spec, Z.bits_0. destruct (decide (i = n)) as [->|Hne]; [by rewrite E|].
    rewrite Z.pow2_bits_false by done. apply andb_false_r.
Qed.
Lemma flag_lor r a b : flag r (Z.lor a b) = flag r a || flag r b.
Proof.
  unfold flag. rewrite Z.land_lor_distr_r. apply eq_true_iff_eq. rewrite orb_true_iff, !negb_true_iff, !Z.eqb_neq, Z.lor_eq_0_iff.
  destruct (decide (Z.land r a = 0)); tauto.
Qed.
Lemma to_call_called r cbs : to_call r cbs =
  called close_test CloseCallback r cbs ++ called error_test ErrorCallback r cbs ++ called read_test ReadCallback r cbs ++ called write_test WriteCallback r cbs.
Proof.
  unfold to_call, wanted, called. rewrite !filter_app.
  assert (Hone : forall (b : bool) k, filter (fun k => k ∈ cbs) (if b then [k] else []) = if b && bool_decide (k ∈ cbs) then [k] else []).
  { intros [] k; [|done]. rewrite filter_cons, filter_nil. cbn. case_decide; [by rewrite bool_decide_true | by rewrite bool_decide_false]. }
  rewrite !Hone. unfold close_test, error_test, read_test, write_test. rewrite !flag_lor.
  change EPOLLHUP with (2 ^ 4). change EPOLLIN with (2 ^ 0). change EPOLLERR with (2 ^ 3). change EPOLLPRI with (2 ^ 1).
  change EPOLLRDHUP with (2 ^ 13). change EPOLLOUT with (2 ^ 2). by rewrite !flag_bit by lia.
Qed.
Lemma HandleEventWithGuard_does F rev rest p c s : rinv F (Dispatching rev rest None) s -> chans (poller s) !! p = Some c -> revents_ c = rev p ->
  does_events p F (Dispatching rev rest None) (to_call (rev p) (Epoll.callbacks c)) s (full_HandleEventWithGuard p s).
Proof.
  intros [P T] Hc Hrev. unfold full_HandleEventWithGuard. replace (Epoll.deref p (poller s)) with (Ok c) by (unfold Epoll.deref; by rewrite Hc). cbn [mbind outcome_bind].
  set (s1 := set_poller _ s). set (cbs := Epoll.callbacks c).
  assert (R1 : rinv F (Dispatching rev rest (Some (p, cbs))) s1) by (split; [by apply (pinv_handling rev rest None true); [left|..] | done]).
  assert (Hlast : forall s5, rinv F (Dispatching rev rest (Some (p, cbs))) s5 -> does_events p F (Dispatching rev rest None) [] s5
    (c ← Epoll.deref p (poller s5); Ok (set_poller (set_chan p (with_handling false c) (poller s5)) s5))).
  { intros s5 [P5 T5]. destruct (p_cur _ _ P5 p eq_refl) as (c5 & Hc5 & _ & Hr5 & _). unfold Epoll.deref. rewrite Hc5. cbn [mbind outcome_bind].
    apply does_no_events. split; [|by apply grows_same]. split; [by apply (pinv_handling rev rest (Some (p, cbs)) false); [right|..] | done]. }
  rewrite to_call_called. apply (events_from p F _ _ s s1); [done..|].
  assert (Htc : p = tc -> cbs = [ReadCallback]).
  { intros ->. destruct (p_timer _ _ P) as (c' & Hc' & _ & _ & Hcb). rewrite Hc in Hc'. injection Hc' as <-. exact Hcb. }
  clearbody s1. clear P T. destruct (decide (p = tc)) as [Hp|Hp].
  - specialize (Htc Hp). clearbody cbs. subst cbs. rewrite !(call_if_skips F rev rest [ReadCallback] _ _ p s1 R1) by (by intros ?%list_elem_of_singleton).
    cbn [mbind outcome_bind]. rewrite !(call_if_skips F rev rest [ReadCallback] _ _ p s1 R1) by (by intros ?%list_elem_of_singleton). cbn [mbind outcome_bind].
    assert (Hn : forall test k, k <> ReadCallback -> called test k (rev p) [ReadCallback] = []).
    { intros test k Hk. unfold called. rewrite bool_decide_false by (by intros ?%list_elem_of_singleton). by rewrite andb_false_r. }
    rewrite (Hn close_test), (Hn error_test), (Hn write_test) by done. cbn [app]. rewrite app_nil_r.
    eapply fatal_bind; [by apply (call_if_does F rev rest)|]. intros s4 [R4 (n & Hn4 & G4)].
    rewrite (call_if_skips F rev rest [ReadCallback] _ _ p s4 R4) by (by intros ?%list_elem_of_singleton). cbn [mbind outcome_bind].
    eapply fatal_mono; [by apply (Hlast s4)|]. intros s5 [R5 (n5 & Hn5 & G5)]. split; [done|]. exists n. split; [lia|].
    rewrite <- (app_nil_r (event_items _ _ _ _)). by eapply grows_trans.
  - eapply events_bind; [done | by apply (call_if_does F rev rest)|]. intros s2 R2.
    eapply events_bind; [done | by apply (call_if_does F rev rest)|]. intros s3 R3.
    eapply events_bind; [done | by apply (call_if_does F rev rest)|]. intros s4 R4.
    rewrite <- (app_nil_r (called write_test _ _ _)).
    eapply events_bind; [done | by apply (call_if_does F rev rest)|]. intros s5 R5. by apply Hlast.
Qed.
(** The event of channel [p] in state [s]: with the reported events [rev p] and the
    callbacks it has then, unless its owner is gone. *)
Definition running (p : Z) (l : loop K) : loop K := set_handling (eventHandling_ l) (activeChannels_ l) (Some p) l.
Definition served (rev : Z -> Z) (p : Z) (s s' : reactor) (es : list item) : Prop :=
  exists c n, chans (poller s) !! p = Some c /\ revents_ c = rev p /\ (tick s <= n <= tick s')%nat /\
    es = event_items p n (timers_ (timers s))
      (if tied_ c && negb (alive p (running p (poller s))) then [] else to_call (rev p) (Epoll.callbacks c)).
Lemma handle_one_does F rev p rest s : rinv F (Dispatching rev (p :: rest) None) s ->
  fatal_or (fun s' => rinv F (Dispatching rev rest None) s' /\ exists es, served rev p s s' es /\ grows es s s') (handle_one p s).
Proof.
  intros [P T]. unfold handle_one. fold (running p (poller s)). set (l1 := running p (poller s)).
  pose proof (p_nodup _ _ P) as [Hp Hnd]%NoDup_cons. destruct (p_rest _ _ P p) as (_ & _ & c & Hc & _ & Hrev); [left|]. cbn in Hrev.
  assert (P1 : pinv (Dispatching rev rest None) l1).
  { split; try apply P; try done; [|intros q Hq|].
    - pose proof (p_inv _ _ P) as []. by split.
    - destruct (p_rest _ _ P q) as (? & _ & ?); [by right|]. split_and!; [done | by cbn; intros [= ->] | done].
    - intros Hh. by apply (p_handling _ _ P) in Hh. }
  set (s1 := set_poller l1 s). assert (R1 : rinv F (Dispatching rev rest None) s1) by done.
  set (ks := if tied_ c && negb (alive p l1) then [] else to_call (rev p) (Epoll.callbacks c)).
  assert (Hm : does_events p F (Dispatching rev rest None) ks s (full_HandleEvent p s1)).
  { apply (events_from p F _ ks s s1); [done..|]. unfold full_HandleEvent, Epoll.deref. change (chans (poller s1)) with (chans (poller s)).
    rewrite Hc. cbn [mbind outcome_bind]. change (poller s1) with l1. unfold ks.
    destruct (tied_ c); [destruct (alive p l1)|]; cbn [andb negb]; [by apply HandleEventWithGuard_does | | by apply HandleEventWithGuard_does].
    apply does_no_events. split; [done | by apply grows_same]. }
  eapply fatal_mono; [exact Hm|]. intros s' [R' (n & Hn & G)]. split; [done|]. eexists. split; [|exact G]. by exists c, n.
Qed.
(** The whole dispatch: each reported channel in turn. *)
Inductive dispatched (rev : Z -> Z) : list Z -> reactor -> list (list item) -> reactor -> Prop :=
  | dispatched_nil s : dispatched rev [] s [] s
  | dispatched_cons p L s s1 s2 es ls : handle_one p s = Ok s1 -> served rev p s s1 es ->
      dispatched rev L s1 ls s2 -> dispatched rev (p :: L) s (es :: ls) s2.
Lemma handle_all_does F rev L s : rinv F (Dispatching rev L None) s ->
  fatal_or (fun s' => rinv F (Dispatching rev [] None) s' /\ exists ls, dispatched rev L s ls s' /\ grows (concat ls) s s') (ofold handle_one L s).
Proof.
  revert s. induction L as [|p L IH]; intros s R; cbn [ofold].
  { split; [done|]. exists []. split; [constructor | by apply grows_same]. }
  pose proof (handle_one_does F rev p L s R) as Hone. destruct (handle_one p s) as [s1|[]] eqn:E; cbn in Hone |- *; try done.
  destruct Hone as [R1 (l & Hl & G1)]. eapply fatal_mono; [by apply IH|].
  intros s2 [R2 (ls & Hls & G2)]. split; [done|]. exists (l :: ls). split; [by econstructor | by eapply grows_trans].
Qed.

(** ** Poll *)
(** The events that [l] holds for each channel. *)
Definition reports (l : loop K) (p : Z) : Z := default 0 (revents_ <$> chans l !! p).
Lemma Poll_pinv l : pinv Between l ->
  exists l', Poll (set_handling (eventHandling_ l) [] (currentActiveChannel_ l) l) = Ok l' /\
    pinv (Dispatching (reports l') (activeChannels_ l') None) (set_handling true (activeChannels_ l') (currentActiveChannel_ l') l').
Proof.
  intros P. set (l0 := set_handling _ _ _ l). assert (I0 : Epoll.inv l0) by (destruct (p_inv _ _ P); by split).
  destruct (epoll_wait (events_size l0) (kernel l0)) as [[n evs] k] eqn:Ew. pose proof (p_events _ _ P) as Hev. pose proof (p_chans _ _ P) as Hsz.
  unfold kMaxChannels in *.
  destruct (Poll_Ok l0 n evs k I0 eq_refl ltac:(cbn; lia) Ew) as (l' & E & I' & Ha & Hnd & Hin & Hout & Hes & Hn & Hh & Hcur).
  exists l'. split; [done|]. set (ptrs := data_ptr <$> evs) in *.
  assert (Hptr : forall q, q ∈ ptrs -> exists c r, chans l !! q = Some c /\ index_ c = kAdded /\ chans l' !! q = Some (SetRevents r c)).
  { intros q (e & -> & He)%list_elem_of_fmap. destruct (Hin e He) as (c & ? & ? & ?). by exists c, (events e). }
  assert (Hown : forall q, own q l -> own q l').
  { intros q (c & Hc & ?). destruct (decide (q ∈ ptrs)) as [Hq|Hq].
    - destruct (Hptr q Hq) as (c' & r & Hc' & _ & Hl'). rewrite Hc in Hc'. injection Hc' as <-. by exists (SetRevents r c).
    - exists c. by rewrite Hout. }
  assert (Hdom : dom (chans l') = dom (chans l)).
  { apply set_eq. intros q. rewrite !elem_of_dom. destruct (decide (q ∈ ptrs)) as [Hq|Hq].
    - destruct (Hptr q Hq) as (c & r & Hc & _ & Hl'). rewrite Hc, Hl'. split; eauto.
    - by rewrite Hout. }
  assert (Hlen : zlen evs <= Z.of_nat (size (chans l))).
  { unfold zlen. rewrite <- (length_fmap data_ptr evs), <- (size_list_to_set (C := gset Z)) by done. fold ptrs.
    apply inj_le. rewrite <- size_dom. apply subseteq_size. intros q Hq%elem_of_list_to_set. apply elem_of_dom.
    destruct (Hptr q Hq) as (c & _ & Hc & _). eauto. }
  split; cbn -[Z.mul]; try done.
  - destruct I'. by split.
  - apply Hown, P.
  - apply Hown, P.
  - unfold kMaxChannels. by rewrite <- size_dom, Hdom, size_dom.
  - unfold kMaxChannels. rewrite Hes. cbn [events_size l0 set_handling] in *. pose proof (inv_size _ I0) as Hpos. cbn in Hpos.
    destruct (Z.eqb_spec n (events_size l)); [|lia]. destruct Hn; lia.
  - by rewrite Ha.
  - rewrite Ha, Hcur. intros q Hq. destruct (Hptr q Hq) as (c & r & Hc & Hi & Hl'). split_and!; [done | |].
    + cbn. destruct (p_idle _ _ P eq_refl) as [_ ->]. done.
    + exists (SetRevents r c). split; [done|]. split; [cbn; by rewrite Hi|]. cbn. unfold reports. by rewrite Hl'.
  - intros q x Hq Hx Hf. destruct (decide (q ∈ ptrs)) as [Hqp|Hqp].
    + destruct (Hptr q Hqp) as (c & r & Hc & _ & Hl'). rewrite Hl' in Hx. injection Hx as <-. exact (p_flags _ _ P q c Hq Hc Hf).
    + rewrite Hout in Hx by done. exact (p_flags _ _ P q x Hq Hx Hf).
Qed.

(** ** Functors *)
Lemma run_functor_does fs f s : rinv (adds (f :: fs)) Between s ->
  does (adds fs) Between [RFunctor f] s (full_run_functor f s).
Proof.
  intros R. set (s1 := record (RFunctor f) s). assert (R1 : rinv (adds (f :: fs)) Between s1) by done.
  assert (Hs : forall m, does (adds fs) Between [] s1 m -> does (adds fs) Between [RFunctor f] s m).
  { intros m Hm. eapply fatal_mono; [exact Hm|]. intros s' [R' G]. split; [done|].
    exact (grows_trans [RFunctor f] [] s s1 s' (grows_record _ _) G). }
  apply Hs. unfold full_run_functor. fold s1. clearbody s1. clear Hs R s. destruct f as [u|timer|id]; cbn [adds omap list_omap] in R1.
  - apply user_does; [apply Hfunctor | done].
  - apply (does_bind (timer :: adds fs) Between _ _ [] []); [by apply yield_does|]. intros s2 _ [P2 T2] _.
    destruct (inv_flight _ _ T2) as [_ Hsome]. destruct (Hsome timer) as [t Ht]; [by left|].
    destruct (AddTimerInLoop_Ok _ (timers s2) timer t (clock (tick s2)) T2 Ht (clock_time _)) as (q & -> & T & _).
    cbn. split; [done | by apply grows_same].
  - apply (does_bind (adds fs) Between _ _ [] []); [by apply yield_does|]. intros s2 _ [P2 T2] _. destruct id as [p sq].
    destruct (Cancel_Ok _ (timers s2) p sq T2) as (q & Eq & T & _). unfold Cancel in Eq. rewrite Eq.
    cbn. split; [done | by apply grows_same].
Qed.
Lemma run_functors_does fs s : rinv (adds fs) Between s -> does [] Between (RFunctor <$> fs) s (ofold full_run_functor fs s).
Proof.
  revert s. induction fs as [|f fs IH]; intros s R; cbn [ofold fmap list_fmap]; [split; [done | by apply grows_same]|].
  apply (does_bind (adds fs) Between [] Between [RFunctor f]); [by apply run_functor_does|]. intros s' _ R' _. by apply IH.
Qed.

(** ** Rounds *)
Lemma yield_tick F ph s s' : rinv F ph s -> yield s = Ok s' -> (tick s < tick s')%nat.
Proof.
  intros R E. unfold yield in E. set (s1 := set_tick (S (tick s)) s) in *. assert (R1 : rinv F ph s1) by done.
  pose proof (exec_others_does F ph (others s1) s1 R1 (Hothers F ph s1 R1)) as Hd. rewrite E in Hd. destruct Hd as [_ [G _]].
  pose proof (ru_tick _ _ _ G). cbn in *. lia.
Qed.
Lemma DoPendingFunctors_does s : rinv [] Between s ->
  fatal_or (fun s' => rinv [] Between s' /\ exists fs, pendingFunctors_ (core s) `prefix_of` fs /\ runs (RFunctor <$> fs) s s')
    (full_DoPendingFunctors s).
Proof.
  intros R. unfold full_DoPendingFunctors. set (s1 := set_core _ s). assert (R1 : rinv [] Between s1) by done.
  eapply fatal_bind; [by apply (yield_does [] Between)|]. intros s2 [[P2 T2] [G2 Hp]].
  set (fs := pendingFunctors_ (core s2)) in *. set (s3 := set_core (set_pending [] (core s2)) s2).
  assert (R3 : rinv (adds fs) Between s3) by (split; [done|]; cbn; by rewrite app_nil_r).
  eapply fatal_bind; [by apply (run_functors_does fs)|]. intros s4 [R4 [G4 _]]. cbn. split; [by apply rinv_core|].
  exists fs. split; [exact Hp|]. apply (runs_trans [] _ s s1); [by apply runs_core; rewrite ?app_nil_r|].
  apply (runs_trans [] _ s1 s2 _ G2). apply (runs_trans [] _ s2 s3); [by apply runs_core; rewrite ?app_nil_r|].
  set (s5 := set_core _ s4). assert (G5 : runs [] s4 s5) by (by apply runs_core; rewrite ?app_nil_r).
  pose proof (runs_trans _ [] s3 s4 s5 G4 G5) as G. by rewrite app_nil_r in G.
Qed.
Definition round_post (s s' : reactor) : Prop :=
  rinv [] Between s' /\ (tick s < tick s')%nat /\
  exists s1 l s2 s3 evs fs, yield s = Ok s1 /\
    Poll (set_handling (eventHandling_ (poller s1)) [] (currentActiveChannel_ (poller s1)) (poller s1)) = Ok l /\
    timers s2 = timers s1 /\ poller s2 = set_handling true (activeChannels_ l) (currentActiveChannel_ l) l /\
    dispatched (reports l) (activeChannels_ l) s2 evs s3 /\
    pendingFunctors_ (core s) `prefix_of` pendingFunctors_ (core s3) /\ pendingFunctors_ (core s3) `prefix_of` fs /\
    runs (concat evs ++ (RFunctor <$> fs)) s s'.
Lemma round_does s : rinv [] Between s -> fatal_or (round_post s) (round s).
Proof.
  intros R. unfold round. pose proof (yield_does [] Between s R) as Hy. pose proof (yield_tick [] Between s) as Hk.
  destruct (yield s) as [s1|[]] eqn:Ey; cbn in Hy; try done. destruct Hy as [[P1 T1] [G1 Hp1]]. cbn [mbind outcome_bind].
  specialize (Hk s1 R eq_refl). destruct (Poll_pinv (poller s1) P1) as (l & El & Pl). rewrite El. cbn [mbind outcome_bind].
  set (s2 := set_poller _ _). assert (R2 : rinv [] (Dispatching (reports l) (activeChannels_ l) None) s2) by done.
  eapply fatal_bind; [by apply (handle_all_does [] (reports l) (activeChannels_ l))|]. intros s3 [[P3 T3] (evs & Hevs & G3 & Hp3)].
  set (s4 := set_poller _ s3).
  assert (R4 : rinv [] Between s4).
  { split; [|done]. split; cbn; try apply P3; try done; [destruct (p_inv _ _ P3); by split|].
    intros p Hp. by apply not_elem_of_nil in Hp. }
  eapply fatal_mono; [by apply DoPendingFunctors_does|]. intros s5 [R5 (fs & Hfs & G5)]. split; [done|].
  split; [pose proof (ru_tick _ _ _ G3); pose proof (ru_tick _ _ _ G5); cbn in *; lia|].
  exists s1, l, s2, s3, evs, fs. split; [exact Ey|]. split; [exact El|]. do 2 (split; [done|]). split; [exact Hevs|].
  split; [by etrans; [exact Hp1|]|]. split; [exact Hfs|].
  apply (runs_trans [] _ s s1 _ G1). apply (runs_trans [] _ s1 s2); [by apply runs_core; rewrite ?app_nil_r|].
  apply (runs_trans _ _ s2 s3 _ G3). apply (runs_trans [] _ s3 s4); [by apply runs_core; rewrite ?app_nil_r | exact G5].
Qed.
Lemma rounds_does fuel s : rinv [] Between s ->
  fatal_or (fun r => forall s', r = Some s' -> rinv [] Between s' /\ quit_ (core s') = true) (rounds fuel s).
Proof.
  revert s. induction fuel as [|fuel IH]; intros s R; cbn [rounds]; destruct (quit_ (core s)) eqn:Eq; try (by intros s' [= <-]).
  eapply fatal_bind; [by apply round_does|]. intros s1 (R1 & _). by apply IH.
Qed.
(** [n] rounds. *)
Fixpoint nrounds (n : nat) (s : reactor) : outcome reactor :=
  match n with
  | O => Ok s
  | S n => s ← round s; nrounds n s
  end.
(** A [Quit] of another thread at tick [t] ends the loop, and the round in which it is
    made is the last. *)
Lemma rounds_end t fuel s : (forall z, tick z = S t -> OQuit ∈ others z) -> rinv [] Between s ->
  quit_ (core s) = false -> (tick s <= t)%nat -> (t < tick s + fuel)%nat ->
  fatal_or (fun r => exists n sl s', nrounds n s = Ok sl /\ (tick sl <= t)%nat /\ round sl = Ok s' /\ (n < fuel)%nat /\ r = Some s') (rounds fuel s).
Proof.
  intros Hq. revert s. induction fuel as [|fuel IH]; intros s R Eq Ht Hf; [lia|]. cbn [rounds]. rewrite Eq.
  pose proof (round_does s R) as Hd. destruct (round s) as [s1|[]] eqn:Er; cbn in Hd |- *; try done.
  destruct Hd as (R1 & Hk & _ & _ & _ & _ & evs & fs & _ & _ & _ & _ & _ & _ & _ & G). cbn [mbind outcome_bind].
  destruct (quit_ (core s1)) eqn:Eq1.
  - destruct fuel; cbn [rounds]; rewrite Eq1; cbn; exists 0%nat, s, s1; split_and!; (done || lia).
  - assert (Ht1 : (tick s1 <= t)%nat).
    { destruct (decide (tick s1 <= t)%nat); [done|]. rewrite (ru_heard _ _ _ G t) in Eq1; [done | lia | done]. }
    eapply fatal_mono; [apply IH; [done | done | done | lia]|]. intros r (n & sl & s' & En & Hn & El & Hnf & ->).
    exists (S n), sl, s'. split; [cbn [nrounds]; by rewrite Er|]. split_and!; (done || lia).
Qed.
End Run.

(** ** The loop as its constructor leaves it *)
Definition new_reactor (tc wc timerfd wakeupFd : Z) (k : K) : outcome reactor :=
  l ← watch tc timerfd (new_loop k);
  l ← watch wc wakeupFd l;
  Ok (mkReactor l new_TimerQueue new_EventLoop 0 []).
Lemma own_of p f l : own_channel p f l -> own p l.
Proof. intros (c & ? & _ & ? & ? & _ & ?). by exists c. Qed.
Context `{!EpollLaws K}.
Lemma new_reactor_inv tc wc tfd wfd k s : tc <> wc -> tfd <> wfd -> interest k = ∅ ->
  new_reactor tc wc tfd wfd k = Ok s -> rinv tc wc [] Between s.
Proof.
  intros Hc Hf Hk E. unfold new_reactor in E.
  destruct (watch_Ok tc tfd (new_loop k) (inv_new_loop k Hk)) as [(l1 & E1 & I1 & (Z1 & H1 & _ & C1) & O1 & (c1 & D1) & Ch1)|(m & E1)];
    [done | done | |by rewrite E1 in E].
  rewrite E1 in E. cbn [mbind outcome_bind] in E.
  destruct (watch_Ok wc wfd l1 I1) as [(l2 & E2 & I2 & (Z2 & H2 & _ & C2) & O2 & (c2 & D2) & Ch2)|(m & E2)]; [| |rewrite E2 in E|by rewrite E2 in E].
  - by rewrite D1, lookup_insert_ne.
  - rewrite Ch1. by rewrite lookup_insert_ne.
  - injection E as <-. split; [|apply inv_new]. cbn [poller]. split; cbn; try done.
    + apply (own_of tc tfd). eapply own_channel_frame; [|exact O1]. rewrite D2. by apply lookup_insert_ne.
    + by apply (own_of wc wfd).
    + assert (size (chans l2) <= 2)%nat; [|unfold kMaxChannels; lia]. rewrite D2, D1, !map_size_insert. cbn [chans new_loop]. rewrite map_size_empty. repeat case_match; cbn; lia.
    + rewrite Z2, Z1. by vm_compute.
    + rewrite H2, H1, C2, C1. done.
    + constructor.
    + intros p Hp. by apply not_elem_of_nil in Hp.
    + intros p c [->| ->] Hp Hfl.
      * destruct O1 as (c' & Hc' & _ & _ & _ & Hh & _). rewrite D2, lookup_insert_ne in Hp by done. congruence.
      * destruct O2 as (c' & Hc' & _ & _ & _ & Hh & _). congruence.
Qed.

(** Users and other threads within their obligations. *)
Record fits (others : reactor -> list other) (clock : nat -> Timestamp) (on_event : event_kind -> Z -> reactor -> list cmd)
    (on_timer : CB -> reactor -> list cmd) (on_functor : U -> reactor -> list cmd) (tc wc : Z) : Prop := {
  fit_others : forall F ph s, rinv tc wc F ph s -> others_ok (others s) s;
  fit_clock : forall n, now_ok (clock n);
  fit_event : forall k p, prog_fits tc wc (on_event k p);
  fit_timer : forall cb, prog_fits tc wc (on_timer cb);
  fit_functor : forall u, prog_fits tc wc (on_functor u);
}.

(** A loop at rest can be destroyed; what leaks is the timers whose insertion is still
    queued. *)
Definition as_object (tid epollfd timerfd wakeupFd tc wc : Z) (s : reactor) : LoopLife.EventLoop K CB :=
  LoopLife.mkEventLoop tid epollfd timerfd wakeupFd tc wc (poller s) (timers s).
Lemma rinv_destroy tc wc tid efd tfd wfd s : tc <> wc -> rinv tc wc [] Between s ->
  exists o, end_members (as_object tid efd tfd wfd tc wc s) = Ok o /\
    forall p, is_Some (heap (timerQueue_ o) !! p) <-> FAddTimerInLoop p ∈ pendingFunctors_ (core s).
Proof.
  intros Hne [P T]. pose proof (p_inv _ _ _ _ P) as I. destruct (p_idle _ _ _ _ P eq_refl) as [Hh _].
  assert (Hown : forall p, p = tc \/ p = wc -> own p (poller s) -> exists f, own_channel p f (poller s) /\ channels_ (poller s) !! f = Some p).
  { intros p Hp (c & Hc & Hi & He & Hcb). exists (fd c). split; [|apply (inv_is_added _ _ _ I Hc Hi)]. exists c. split_and!; try done.
    destruct (ch_eventHandling_ c) eqn:E; [|done]. pose proof (p_flags _ _ _ _ P p c Hp Hc E). done. }
  destruct (Hown tc ltac:(by left) (p_timer _ _ _ _ P)) as (f1 & O1 & C1). destruct (Hown wc ltac:(by right) (p_wakeup _ _ _ _ P)) as (f2 & O2 & C2).
  destruct (end_members_with (adds (pendingFunctors_ (core s))) (as_object tid efd f1 f2 tc wc s) I Hh O1 O2) as (o & E & Hheap & _); [done | cbn; congruence | exact T|].
  unfold end_members in *. cbn in E |- *. inv_ok. eexists.
  repeat match goal with H : ?m = Ok _ |- context [?m] => rewrite H; cbn [mbind outcome_bind] end.
  split; [reflexivity|]. cbn in Hheap |- *. intros p. rewrite Hheap. unfold adds. rewrite list_elem_of_omap. split.
  - intros (f & Hf & Hp). destruct f; try done. by injection Hp as ->.
  - intros Hp. by exists (FAddTimerInLoop p).
Qed.

(** C4: the whole loop is safe.  Whatever the handlers of channels, the timers, the
    functors and other threads do within their obligations, [Loop] fails no assertion
    and touches no channel or timer that is gone: not in the dispatch, where handlers
    remove and create channels, not in the alarm, where timers cancel each other and
    other threads add new ones; it can end early only because the kernel refuses a
    registration.  When it returns, every timer that exists is armed or waits to be
    inserted, the kernel watches every channel for its events, and the loop can be
    destroyed: its destructor fails no assertion and deletes every timer once, except
    those whose insertion is still queued. *)
Theorem reactor_safe others clock on_event on_timer on_functor alive tid efd tc wc tfd wfd k fuel s :
  tc <> wc -> tfd <> wfd -> interest k = ∅ -> new_reactor tc wc tfd wfd k = Ok s ->
  fits others clock on_event on_timer on_functor tc wc ->
  (exists m, Loop others clock on_event on_timer on_functor alive tc wc fuel s = Fault (LogFatal m)) \/
  exists r, Loop others clock on_event on_timer on_functor alive tc wc fuel s = Ok r /\
    forall s', r = Some s' -> looping_ (core s') = false /\
      (forall p t, heap (timers s') !! p = Some t ->
         (expiration_ t, p) ∈ timers_ (timers s') \/ FAddTimerInLoop p ∈ pendingFunctors_ (core s')) /\
      (forall p c, chans (poller s') !! p = Some c -> addedToLoop_ c = true -> events_ c <> kNoneEvent ->
         interest (kernel (poller s')) !! fd c = Some (mkEvent (u32 (events_ c)) p)) /\
      exists o, end_members (as_object tid efd tfd wfd tc wc s') = Ok o /\
        forall p, is_Some (heap (timerQueue_ o) !! p) <-> FAddTimerInLoop p ∈ pendingFunctors_ (core s').
Proof.
  intros Hc Hf Hk E []. pose proof (new_reactor_inv tc wc tfd wfd k s Hc Hf Hk E) as R.
  assert (El : looping_ (core s) = false) by (unfold new_reactor in E; inv_ok; done).
  unfold Loop. rewrite El. cbn [massert negb mbind outcome_bind].
  match goal with |- context [rounds _ _ _ _ _ _ _ _ _ ?z] => set (s1 := z); assert (R1 : rinv tc wc [] Between s1) by done end.
  pose proof (rounds_does others clock on_event on_timer on_functor alive tc wc fit_others0 fit_clock0 fit_event0 fit_timer0 fit_functor0 fuel s1 R1) as Hd.
  destruct (rounds _ _ _ _ _ _ _ _ fuel s1) as [r|[]]; cbn in Hd |- *; try done; [right | by left; eexists].
  eexists. split; [done|]. intros s' Hs'. destruct r as [s2|]; [|done]. injection Hs' as <-. destruct (Hd s2 eq_refl) as [R2 _]. pose proof R2 as [P T]. cbn.
  split; [done|]. split_and!; [| |exact (rinv_destroy tc wc tid efd tfd wfd _ Hc R2)].
  - intros p t Ht. destruct (TimerQueue.inv_live _ _ T p t Ht) as [Hin|?]; [right | by left]. cbn in Hin.
    apply list_elem_of_omap in Hin as (f & Hin & Hp). destruct f; try done. by injection Hp as ->.
  - intros p c Hp Ha He. pose proof (p_inv _ _ _ _ P) as I. rewrite (inv_added _ I _ _ Hp) in Ha.
    destruct (inv_index _ I _ _ Hp) as [Hi|[Hi|[_ ?]]]; [by rewrite Hi in Ha | | done]. apply (inv_is_added _ _ _ I Hp Hi).
Qed.


(** C12: [Quit] from another thread ends the loop.  If at tick [t] another thread calls
    [Quit], wherever the loop is then (in a handler, a timer, a functor, before or after
    the poll), the round the loop is in is its last: [Loop] returns after some rounds of
    which the last one began before the call, and runs nothing after it.  Users and other
    threads keep their obligations, and a registration the kernel refuses may end the
    program first. *)
Theorem reactor_quits others clock on_event on_timer on_functor alive tc wc tfd wfd k fuel s t :
  tc <> wc -> tfd <> wfd -> interest k = ∅ -> new_reactor tc wc tfd wfd k = Ok s ->
  fits others clock on_event on_timer on_functor tc wc ->
  (forall z, tick z = S t -> OQuit ∈ others z) -> (t < fuel)%nat ->
  (exists m, Loop others clock on_event on_timer on_functor alive tc wc fuel s = Fault (LogFatal m)) \/
  exists n sl s', (n < fuel)%nat /\
    nrounds others clock on_event on_timer on_functor alive tc wc n (set_core (set_quit false (set_looping true (core s))) s) = Ok sl /\
    (tick sl <= t)%nat /\ round others clock on_event on_timer on_functor alive tc wc sl = Ok s' /\
    Loop others clock on_event on_timer on_functor alive tc wc fuel s = Ok (Some (set_core (set_looping false (core s')) s')).
Proof.
  intros Hc Hf Hk E [] Hq Ht. pose proof (new_reactor_inv tc wc tfd wfd k s Hc Hf Hk E) as R.
  assert (El : looping_ (core s) = false /\ tick s = 0%nat) by (unfold new_reactor in E; inv_ok; done). destruct El as [El Ek].
  unfold Loop. rewrite El. cbn [massert negb mbind outcome_bind].
  set (s1 := set_core _ s). assert (R1 : rinv tc wc [] Between s1) by done.
  pose proof (rounds_end others clock on_event on_timer on_functor alive tc wc fit_others0 fit_clock0 fit_event0 fit_timer0 fit_functor0 t fuel s1 Hq R1
    eq_refl ltac:(cbn; lia) ltac:(cbn; lia)) as Hd.
  destruct (rounds _ _ _ _ _ _ _ _ fuel s1) as [r|[]]; cbn in Hd |- *; try done; [right | by left; eexists].
  destruct Hd as (n & sl & s' & ? & ? & ? & ? & ->). by exists n, sl, s'.
Qed.
End Reactor.

Arguments reactor : clear implicits.
Arguments other : clear implicits.
Arguments cmd : clear implicits.
Arguments functor : clear implicits.

(** *** A run: another thread adds a timer and later quits; the timer queues a functor;
    the functor opens a channel, whose handler answers and closes it again *)
Definition ex_others (s : reactor simple_epoll unit Z) : list (other unit Z) :=
  (if decide (tick s = 2%nat /\ heap (timers s) !! 64 = None) then [OAddTimer 64 tt 50 d0; OSequence 64] else []) ++
  (if decide (tick s = 20%nat) then [OQuit] else []).
Definition ex_on_event (k : event_kind) (p : Z) (s : reactor simple_epoll unit Z) : list (cmd unit Z) :=
  if decide (p <> 1 /\ p <> 2 /\ is_Some (chans (poller s) !! p) /\ (index_ <$> chans (poller s) !! p) <> Some kNew /\
             currentActiveChannel_ (poller s) = Some p)
  then [Queue 8; Chan (CDisableAll p); Chan (CRemove p)] else [].
Definition ex_on_timer (_ : unit) (s : reactor simple_epoll unit Z) : list (cmd unit Z) := [Queue 7].
Definition ex_on_functor (u : Z) (s : reactor simple_epoll unit Z) : list (cmd unit Z) :=
  if decide (u = 7 /\ chans (poller s) !! 9 = None /\ channels_ (poller s) !! 5 = None /\ Z.of_nat (size (chans (poller s))) < kMaxChannels)
  then [Chan (CNew 9 5); OnEvent 9 ReadCallback; Chan (CEnableReading 9)] else [].
Definition ex_clock (n : nat) : Timestamp := 100 + Z.of_nat (Nat.min n 1000).
Definition ex_epoll : simple_epoll := mkSimple ∅ {[3 := 1; 4 := 1; 5 := 1]}.
Definition ex_reactor : outcome (reactor simple_epoll unit Z) := new_reactor 1 2 3 4 ex_epoll.
Lemma ex_others_ok s : others_ok (ex_others s) s.
Proof.
  unfold ex_others. case_decide as H1; cbn [app]; [|case_decide; cbn; done].
  split; [split_and!; [apply H1 | by vm_compute | by vm_compute | by vm_compute | apply d0_ok]|].
  intros s1 [= <-]. split; [cbn; rewrite lookup_insert_eq; by eexists|]. intros s2 E. cbn in E. inv_ok. case_decide; cbn; done.
Qed.
Lemma ex_event_ok k p : prog_fits 1 2 (ex_on_event k p).
Proof.
  intros F ph s [P T]. unfold ex_on_event. case_decide as Hd; [|exact I]. destruct Hd as (H1 & H2 & [c Hc] & Hi & Hcur). rewrite Hc in Hi. cbn in Hi.
  split; [exact I|]. intros s1 [= <-]. cbn [cmds_ok cmd_ok call_on]. split.
  { split_and!; [|done | done | by right]. exists c. split; [done|]. intros E. by destruct Hi; rewrite E. }
  intros s2 E. cbn [exec_cmd exec_call] in E. inv_ok. cbn [poller set_poller set_core] in *.
  destruct (change_events_Ok (fun _ => kNoneEvent) p c (poller s) (p_inv _ _ _ _ P) Hc) as [(l & E' & _ & (_ & _ & _ & Hcl) & Hcs & _)|(m & E')];
    [intros E1; by destruct Hi; rewrite E1 | | unfold DisableAll in *; congruence].
  replace a with l in * by (unfold DisableAll in *; congruence). split; [|done]. split_and!; [|done | done | by right].
  exists (changed (fun _ => kNoneEvent) c). rewrite Hcs, lookup_insert_eq. split_and!; [done | | done | right; left; congruence].
  cbn. unfold next_index. by case_match.
Qed.
Lemma ex_functor_ok u : prog_fits 1 2 (ex_on_functor u).
Proof.
  intros F ph s [P T]. unfold ex_on_functor. case_decide as Hd; [|exact I]. destruct Hd as (_ & H9 & H5 & Hsz).
  split; [by split_and!; [| | |left]|]. intros s1 [= <-].
  split; [split_and!; [done | done|]; eexists; cbn; by rewrite lookup_insert_eq|].
  intros s2 E. cbn [exec_cmd] in E. unfold Epoll.deref in E. cbn in E. rewrite lookup_insert_eq in E. cbn in E. injection E as <-.
  split; [|done]. split_and!; [|done | done | by right]. eexists. cbn. rewrite lookup_insert_eq. done.
Qed.
Lemma ex_fits : fits ex_others ex_clock ex_on_event ex_on_timer ex_on_functor 1 2.
Proof.
  split; [intros; apply ex_others_ok | | apply ex_event_ok | by intros cb F ph s _; split | apply ex_functor_ok].
  intros n. unfold now_ok, ex_clock. lia.
Qed.
Lemma ex_quits z : tick z = 20%nat -> OQuit ∈ ex_others z.
Proof. intros E. unfold ex_others. rewrite (decide_True (P := tick z = 20%nat)) by done. apply elem_of_app. right. left. Qed.
Definition ex_loop (fuel : nat) : outcome (option (reactor simple_epoll unit Z)) :=
  s ← ex_reactor; Loop ex_others ex_clock ex_on_event ex_on_timer ex_on_functor (fun _ _ => true) 1 2 fuel s.
Definition ex_ran : list (item (U := Z)) :=
  [RCallback ReadCallback 1; RCallback ReadCallback 2; RFunctor (FAddTimerInLoop 64); RCallback ReadCallback 1; RTimer (50, 64);
   RCallback ReadCallback 2; RFunctor (FUser 7); RCallback ReadCallback 9; RCallback ReadCallback 1; RCallback ReadCallback 2; RFunctor (FUser 8)].
Lemma ex_trace : (fun r => option_map ran r) <$> ex_loop 31 = Ok (Some ex_ran).
Proof. vm_compute. reflexivity. Qed.
Lemma ex_reactor_Ok : exists s, ex_reactor = Ok s.
Proof. eexists. vm_compute. reflexivity. Qed.
Lemma ex_reactor_inv s : ex_reactor = Ok s -> rinv 1 2 [] Between s.
Proof. intros E. by apply (new_reactor_inv 1 2 3 4 ex_epoll s). Qed.

Lemma reactor_safe_witness : exists s', ex_loop 31 = Ok (Some s') /\ ran s' = ex_ran /\ looping_ (core s') = false.
Proof.
  pose proof ex_trace as Ht. unfold ex_loop in *. destruct ex_reactor_Ok as [s E]. rewrite E in *. cbn [mbind outcome_bind] in *.
  destruct (reactor_safe ex_others ex_clock ex_on_event ex_on_timer ex_on_functor (fun _ _ => true) 7 9 1 2 3 4 ex_epoll 31 s) as [[m Em]|(r & Er & Hr)];
    [lia | lia | reflexivity | exact E | exact ex_fits | rewrite Em in Ht; discriminate Ht |].
  rewrite Er in *. destruct r as [s'|]; [|discriminate Ht]. exists s'. split; [reflexivity|]. injection Ht as Ht. split; [exact Ht|].
  apply (Hr s' eq_refl).
Defined.
(** The loop of the example quits in the round in which tick 20 comes: its last round has begun
    by tick 19. *)
Lemma reactor_quits_witness : exists s n sl s', ex_reactor = Ok s /\ (tick sl <= 19)%nat /\
  nrounds ex_others ex_clock ex_on_event ex_on_timer ex_on_functor (fun _ _ => true) 1 2 n (set_core (set_quit false (set_looping true (core s))) s) = Ok sl /\
  round ex_others ex_clock ex_on_event ex_on_timer ex_on_functor (fun _ _ => true) 1 2 sl = Ok s' /\
  ex_loop 20 = Ok (Some (set_core (set_looping false (core s')) s')).
Proof.
  assert (Ht : (fun _ => tt) <$> ex_loop 20 = Ok tt) by (vm_compute; reflexivity).
  unfold ex_loop in *. destruct ex_reactor_Ok as [s E]. rewrite E in *. cbn [mbind outcome_bind] in *.
  destruct (reactor_quits ex_others ex_clock ex_on_event ex_on_timer ex_on_functor (fun _ _ => true) 1 2 3 4 ex_epoll 20 s 19) as [[m Em]|(n & sl & s' & Hn & En & Hl & Er & EL)];
    [lia | lia | reflexivity | exact E | exact ex_fits | intros z Hz; exact (ex_quits z Hz) | lia | rewrite Em in Ht; discriminate Ht |].
  exists s, n, sl, s'. split; [reflexivity|]. split; [exact Hl|]. split; [exact En|]. split; [exact Er | exact EL].
Defined.

(** The thread that adds a timer reads its sequence number after queueing it: the timer
    can have run and been deleted by then. *)
Definition race_others (s : reactor simple_epoll unit Z) : list (other unit Z) :=
  if decide (tick s = 2%nat) then [OAddTimer 64 tt 50 d0] else if decide (tick s = 15%nat) then [OSequence 64] else [].
Lemma AddTimer_races :
  (s ← ex_reactor; Loop race_others ex_clock ex_on_event ex_on_timer ex_on_functor (fun _ _ => true) 1 2 31 s) =
  Fault (Undefined "use after free").
Proof. vm_compute. reflexivity. Qed.

(** A timer that another thread adds after the loop took its last batch of functors is
    never deleted: the destructor only knows the timers in the queue. *)
Definition late_others (s : reactor simple_epoll unit Z) : list (other unit Z) :=
  if decide (tick s = 3%nat) then [OQueue 0; OQuit] else if decide (tick s = 6%nat) then [OAddTimer 64 tt 50 d0; OSequence 64] else [].
Lemma queued_timer_leaks : exists s o,
  (s ← ex_reactor; Loop late_others ex_clock ex_on_event ex_on_timer ex_on_functor (fun _ _ => true) 1 2 31 s) = Ok (Some s) /\
  end_members (as_object 7 9 3 4 1 2 s) = Ok o /\ is_Some (heap (timerQueue_ o) !! 64).
Proof. eexists _, _. split; [vm_compute; reflexivity|]. split; [vm_compute; reflexivity|]. by eexists. Qed.
