(* ===== verification/LoopThread.v ===== *)
(** * An I/O thread and its loop (src/src/network/LoopThread.h, LoopThread.cc)

    [EventLoopThread] starts a thread, whose function makes an event loop on its own
    stack, publishes the pointer under the mutex and runs the loop; [StartLoop] waits on
    the condition variable for the pointer, the destructor quits the loop and joins.
    The owner and the thread interleave between critical sections; the loop itself is
    the step relation of EventLoop.v, and the thread is started and joined as in
    Thread.v.  Other threads may queue functors and quit while the owner holds the pointer,
    and so may the code the loop runs.  [quits] tells whether anybody but the destructor
    calls [Quit]: what holds only if nobody does is stated so. *)
From stdpp Require Import relations.
From S2P Require Import Prelude EventLoop.

Section LoopThread.
Context {Functor : Type} (quits : bool).
Abbreviation world := (EventLoop.world Functor) (only parsing).

(** Where the owner is. *)
Inductive owner : Type :=
  | OFresh                   (** before [StartLoop] *)
  | OTest                    (** in [StartLoop], about to test [loop_ != nullptr] with the mutex *)
  | OSleep                   (** asleep in [cond_.wait] *)
  | OHas                     (** [StartLoop] returned the loop *)
  | OQuit                    (** in the destructor, [loop_] was not null *)
  | OWake                    (** in [loop_->quit()], between [quit_ = true] and the wakeup *)
  | OJoin                    (** in [thread_.Join()] *)
  | OGone.                   (** destroyed *)
(** Where [ThreadFunc] is. *)
Inductive child : Type :=
  | CNone                    (** no thread *)
  | CNew                     (** before the construction of the loop *)
  | CCallback                (** the loop exists, [callback_] runs *)
  | CPublish                 (** before the critical section *)
  | CEnter                   (** published, before [loop.loop()] *)
  | CLooping                 (** in [Loop] *)
  | CLeft                    (** [Loop] returned *)
  | CEnd                     (** [loop_ = nullptr] stored, the loop is being destroyed *)
  | CDone.                   (** the thread has ended *)
#[global] Instance child_eq_dec : EqDecision child.
Proof. solve_decision. Defined.

Record EventLoopThread : Type := mkLT {
  own : owner;
  chl : child;
  loop_ : bool;              (** not null *)
  exiting_ : bool;
  loop : world;              (** the loop of the thread, with the history of its queue *)
  quit_dangles : bool;       (** a dead loop was called or its [quit_] written *)
  wake_dangles : bool;       (** the wakeup was done on a dead loop *)
}.
Definition new_EventLoopThread : EventLoopThread := mkLT OFresh CNone false false new_world false false.

Definition set_own (o : owner) (s : EventLoopThread) := mkLT o (chl s) (loop_ s) (exiting_ s) (loop s) (quit_dangles s) (wake_dangles s).
Definition set_chl (c : child) (s : EventLoopThread) := mkLT (own s) c (loop_ s) (exiting_ s) (loop s) (quit_dangles s) (wake_dangles s).
Definition set_ptr (b : bool) (s : EventLoopThread) := mkLT (own s) (chl s) b (exiting_ s) (loop s) (quit_dangles s) (wake_dangles s).
Definition set_exiting (s : EventLoopThread) := mkLT (own s) (chl s) (loop_ s) true (loop s) (quit_dangles s) (wake_dangles s).
Definition set_loop (w : world) (s : EventLoopThread) := mkLT (own s) (chl s) (loop_ s) (exiting_ s) w (quit_dangles s) (wake_dangles s).
Definition set_dangles (q k : bool) (s : EventLoopThread) := mkLT (own s) (chl s) (loop_ s) (exiting_ s) (loop s) q k.

(** The loop is on the stack of the thread. *)
Definition live (c : child) : bool :=
  match c with CCallback | CPublish | CEnter | CLooping | CLeft | CEnd => true | _ => false end.
Definition after_quit (w : world) : world := mkW (set_quit true (ev w)) (at_ w) (S (waking w)) (early w) (queued w) (executed w).
Definition after_wake (w : world) : world := mkW (Wakeup (ev w)) (at_ w) (pred (waking w)) (early w) (queued w) (executed w).
(** [cond_.notify_one()]: the owner is the only thread that waits. *)
Definition notify_one (o : owner) : owner := match o with OSleep => OTest | _ => o end.
(** The step is no [Quit]. *)
Definition no_quit (w w' : world) : Prop := quit_ (ev w') = true -> quit_ (ev w) = true.

Inductive owner_step : EventLoopThread -> EventLoopThread -> Prop :=
  | o_start s : own s = OFresh -> owner_step s (set_chl CNew (set_own OTest s))
  | o_unused s : own s = OFresh -> loop_ s = false -> owner_step s (set_own OGone (set_exiting s))
  | o_wait s : own s = OTest -> loop_ s = false -> owner_step s (set_own OSleep s)
  | o_spurious s : own s = OSleep -> owner_step s (set_own OTest s)
  | o_got s : own s = OTest -> loop_ s = true -> owner_step s (set_own OHas s)
  | o_null s : own s = OHas -> loop_ s = false -> owner_step s (set_own OGone (set_exiting s))
  | o_destroy s : own s = OHas -> loop_ s = true -> waking (loop s) = 0%nat -> owner_step s (set_own OQuit (set_exiting s))
  | o_quit s : own s = OQuit ->
      owner_step s (set_own OWake (if live (chl s) then set_loop (after_quit (loop s)) s else set_dangles true (wake_dangles s) s))
  | o_wake s : own s = OWake ->
      owner_step s (set_own OJoin (if live (chl s) then set_loop (after_wake (loop s)) s else set_dangles (quit_dangles s) true s))
  | o_join s : own s = OJoin -> chl s = CDone -> owner_step s (set_own OGone s).

Inductive child_step : EventLoopThread -> EventLoopThread -> Prop :=
  | c_construct s : chl s = CNew -> child_step s (set_chl CCallback (set_loop new_world s))
  | c_callback s w : chl s = CCallback -> loop_step (loop s) w -> at_ w = Idle -> (quits = false -> no_quit (loop s) w) -> child_step s (set_loop w s)
  | c_called s : chl s = CCallback -> child_step s (set_chl CPublish s)
  | c_publish s : chl s = CPublish -> child_step s (set_chl CEnter (set_own (notify_one (own s)) (set_ptr true s)))
  | c_enter s w : chl s = CEnter -> loop_step (loop s) w -> at_ w = Test -> child_step s (set_chl CLooping (set_loop w s))
  | c_round s w : chl s = CLooping -> loop_step (loop s) w -> at_ w <> Idle -> (quits = false -> no_quit (loop s) w) -> child_step s (set_loop w s)
  | c_leave s w : chl s = CLooping -> loop_step (loop s) w -> at_ w = Idle -> child_step s (set_chl CLeft (set_loop w s))
  | c_null s : chl s = CLeft -> child_step s (set_chl CEnd (set_ptr false s))
  | c_end s : chl s = CEnd -> child_step s (set_chl CDone s).

Inductive user_step : EventLoopThread -> EventLoopThread -> Prop :=
  | u_call s w : own s = OHas -> live (chl s) = true -> other_step (loop s) w -> (quits = false -> no_quit (loop s) w) -> user_step s (set_loop w s)
  | u_dangling s : own s = OHas -> live (chl s) = false -> user_step s (set_dangles true (wake_dangles s) s).

Inductive lt_step (s s' : EventLoopThread) : Prop :=
  | by_owner : owner_step s s' -> lt_step s s'
  | by_child : child_step s s' -> lt_step s s'
  | by_user : user_step s s' -> lt_step s s'.
Definition lt_reachable (s : EventLoopThread) : Prop := rtc lt_step new_EventLoopThread s.

(** ** Invariant *)
Definition published (c : child) : bool := match c with CEnter | CLooping | CLeft => true | _ => false end.
Definition before_loop (c : child) : bool := match c with CNone | CNew | CCallback | CPublish => true | _ => false end.
Definition left_loop (c : child) : bool := match c with CLeft | CEnd | CDone => true | _ => false end.
Definition quitting (o : owner) : bool := match o with OWake | OJoin | OGone => true | _ => false end.
Definition starting (o : owner) : bool := match o with OFresh | OTest | OSleep => true | _ => false end.
Definition at_ok (c : child) (p : pc Functor) : Prop := if decide (c = CLooping) then p <> Idle else p = Idle.

Record lt_inv (s : EventLoopThread) : Prop := {
  lt_reach : reachable (loop s);
  lt_fresh : own s = OFresh -> chl s = CNone;
  lt_none : chl s = CNone -> own s = OFresh \/ own s = OGone;
  lt_ptr : loop_ s = published (chl s);
  lt_wait : own s = OSleep -> loop_ s = false;
  lt_has : starting (own s) = false -> before_loop (chl s) = false \/ own s = OGone /\ chl s = CNone;
  lt_quit : quits = false -> quit_ (ev (loop s)) = true -> quitting (own s) = true;
  lt_left : quits = false -> left_loop (chl s) = true -> quitting (own s) = true;
  lt_at : at_ok (chl s) (at_ (loop s));
  lt_waking : own s = OWake -> live (chl s) = true -> (0 < waking (loop s))%nat;
  lt_gone : quits = false -> own s = OGone -> chl s = CDone \/ chl s = CNone;
  lt_dangles : quits = false -> quit_dangles s = false;
}.

Lemma reachable_loop_step (w w' : world) : reachable w -> loop_step w w' -> reachable w'.
Proof. intros Hr Hs. eapply rtc_r; [exact Hr | by left]. Qed.
Lemma reachable_other_step (w w' : world) : reachable w -> other_step w w' -> reachable w'.
Proof. intros Hr Hs. eapply rtc_r; [exact Hr | by right]. Qed.
Lemma after_quit_step (w : world) : other_step w (after_quit w).
Proof. destruct w. constructor. Qed.
Lemma after_wake_step (w : world) : (0 < waking w)%nat -> other_step w (after_wake w).
Proof. destruct w as [? ? [|n]]; cbn; [lia|]. intros _. constructor. Qed.
(** The loop thread does not touch the count of the waking threads, and leaves [Loop]
    only on [quit_]. *)
Lemma loop_step_waking (w w' : world) : loop_step w w' -> waking w' = waking w.
Proof. by destruct 1. Qed.
Lemma loop_step_leaves (w w' : world) : loop_step w w' -> at_ w <> Idle -> at_ w' = Idle -> quit_ (ev w) = true /\ quit_ (ev w') = true.
Proof. destruct 1; cbn; try done. Qed.
Lemma loop_step_enters (w w' : world) : loop_step w w' -> at_ w = Idle -> at_ w' = Test -> quit_ (ev w') = false.
Proof. destruct 1; cbn; done. Qed.
Lemma other_step_at (w w' : world) : other_step w w' -> at_ w' = at_ w.
Proof. by destruct 1. Qed.

Ltac lt_fin := try first [done | (match goal with H : starting _ = false -> _ |- _ => destruct (H eq_refl) as [?|[? ?]]; discriminate end) | (match goal with H : left_loop _ = true -> quitting _ = true |- _ => discriminate (H eq_refl) end) | tauto | congruence | (intros; first [discriminate | congruence | intuition congruence])].
Lemma owner_step_inv s s' : lt_inv s -> owner_step s s' -> lt_inv s'.
Proof.
  intros [Hr Hf Hn Hp Hw Hh Hq Hl Ha Hk Hg Hd] Hs. pose proof (after_quit_step (loop s)) as Aq.
  destruct Hs as [s Eo|s Eo El|s Eo El|s Eo|s Eo El|s Eo El|s Eo El Ek|s Eo|s Eo|s Eo Ec]; rewrite Eo in *; cbn in Hh.
  - rewrite (Hf eq_refl) in *. split; cbn; lt_fin.
  - split; cbn; lt_fin.
  - split; cbn; lt_fin.
  - split; cbn; lt_fin.
  - split; cbn; lt_fin. rewrite El in Hp. intros _. left. by destruct (chl s).
  - split; cbn; lt_fin; (destruct (Hh eq_refl) as [Hb|[? _]]; [|done]); lt_fin.
    intros Eq _. specialize (Hl Eq). rewrite El in Hp. destruct (chl s); lt_fin.
  - split; cbn; lt_fin.
  - assert (Hlive : quits = false -> live (chl s) = true).
    { intros Eq. destruct (Hh eq_refl) as [Hb|[? _]]; [|done]. specialize (Hl Eq). destruct (chl s); lt_fin. }
    destruct (live (chl s)) eqn:El; split; cbn; lt_fin; try (by eapply reachable_other_step); try (by intros _ _; lia).
    all: destruct (Hh eq_refl) as [Hb|[? _]]; lt_fin.
  - destruct (live (chl s)) eqn:El; split; cbn; lt_fin.
    eapply reachable_other_step; [done|]. apply after_wake_step. auto.
  - split; cbn; lt_fin.
Qed.
Lemma child_step_inv s s' : lt_inv s -> child_step s s' -> lt_inv s'.
Proof.
  intros [Hr Hf Hnn Hp Hw Hh Hq Hl Ha Hk Hg Hd] Hs. unfold at_ok in Ha.
  destruct Hs as [s Ec|s w Ec Es Ei Hn|s Ec|s Ec|s w Ec Es Ei|s w Ec Es Ei Hn|s w Ec Es Ei|s Ec|s Ec]; rewrite Ec in *; cbn in Ha, Hl, Hp;
    repeat (rewrite decide_True in Ha by done); repeat (rewrite decide_False in Ha by done);
    try pose proof (loop_step_waking _ _ Es) as Ew; try pose proof (reachable_loop_step _ _ Hr Es) as Hr'.
  - split; cbn; rewrite ?Ec; try apply rtc_refl; lt_fin; destruct (own s); lt_fin.
  - split; cbn; rewrite ?Ec, ?Ew; lt_fin. intros Eq E. by apply (Hq Eq), (Hn Eq).
  - split; cbn; rewrite ?Ec; lt_fin; destruct (own s); lt_fin.
  - split; cbn; rewrite ?Ec; lt_fin; destruct (own s); lt_fin.
  - pose proof (loop_step_enters _ _ Es Ha Ei) as Eq. split; cbn; rewrite ?Ec, ?Ew, ?Eq; lt_fin.
  - split; cbn; rewrite ?Ec, ?Ew; lt_fin. intros Eq E. by apply (Hq Eq), (Hn Eq).
  - destruct (loop_step_leaves _ _ Es Ha Ei) as [Eq Eq']. split; cbn; rewrite ?Ec, ?Ew; lt_fin.
  - split; cbn; rewrite ?Ec; lt_fin.
  - split; cbn; rewrite ?Ec; lt_fin.
Qed.
Lemma user_step_inv s s' : lt_inv s -> user_step s s' -> lt_inv s'.
Proof.
  intros [Hr Hf Hnn Hp Hw Hh Hq Hl Ha Hk Hg Hd] Hs. destruct Hs as [s w Eo Ev Es Hn|s Eo Ev]; split; cbn; rewrite ?Eo in *; lt_fin.
  - by eapply reachable_other_step.
  - intros Eq E. by apply (Hq Eq), (Hn Eq).
  - by rewrite (other_step_at _ _ Es).
  - intros Eq. exfalso. destruct (Hh eq_refl) as [Hb|[? _]]; lt_fin. specialize (Hl Eq). destruct (chl s); lt_fin.
Qed.
Lemma lt_reachable_inv s : lt_reachable s -> lt_inv s.
Proof.
  unfold lt_reachable. assert (I0 : lt_inv new_EventLoopThread) by (split; cbn; try done; [apply rtc_refl | by left]).
  revert I0. generalize new_EventLoopThread. intros s0 I0 Hr. induction Hr as [|s0 s1 s2 Hs _ IH]; [done|]. apply IH.
  destruct Hs; [by eapply owner_step_inv | by eapply child_step_inv | by eapply user_step_inv].
Qed.

(** ** A loop told to quit leaves at its next test *)
Definition inner_step (w w' : world) : Prop := loop_step w w' /\ at_ w' <> Idle /\ no_quit w w' /\ (quit_ (ev w) = true -> quit_ (ev w') = true).
Lemma inner_running e l n y q x : exists w, rtc inner_step (mkW e (Running l) n y q x) w /\ at_ w = Test.
Proof.
  revert x. induction l as [|f l IH]; intros x.
  - eexists. split; [apply rtc_once; split; [apply step_end|]; unfold no_quit; split_and!; done | done].
  - destruct (IH (x ++ [f])) as (w & Hw & Ht). exists w. split; [|done]. eapply rtc_l; [split; [apply step_run|]; unfold no_quit; split_and!; done | exact Hw].
Qed.
Lemma inner_to_test w : inv w -> at_ w <> Idle -> exists w', rtc inner_step w w' /\ at_ w' = Test.
Proof.
  intros I Ha. pose proof (inv_calling _ I) as Ic. destruct w as [e p n y q x]. cbn in Ha, Ic.
  assert (Hswap : forall e y, exists w, rtc inner_step (mkW e Swapping n y q x) w /\ at_ w = Test).
  { intros e' y'. destruct (inner_running (set_pending [] e') (pendingFunctors_ e') n false q x) as (w & Hw & Ht). exists w. split; [|done].
    eapply rtc_l; [split; [apply step_swap|]; unfold no_quit; split_and!; done | exact Hw]. }
  assert (Hfalse : forall e y, exists w, rtc inner_step (mkW e (Handling false) n y q x) w /\ at_ w = Test).
  { intros e' y'. destruct (Hswap (set_calling true e') y') as (w & Hw & Ht). exists w. split; [|done].
    eapply rtc_l; [split; [apply step_begin|]; unfold no_quit; split_and!; done | exact Hw]. }
  assert (Hhand : forall e y b, exists w, rtc inner_step (mkW e (Handling b) n y q x) w /\ at_ w = Test).
  { intros e' y' [|]; [|apply Hfalse]. destruct (Hfalse (HandleWakeUp e') y') as (w & Hw & Ht). exists w. split; [|done].
    eapply rtc_l; [split; [apply step_wakeup|]; cbn | exact Hw]. unfold HandleWakeUp, no_quit. cbn. by destruct (0 <? wakeupFd_ e'). }
  destruct p as [| | |b| |l|l]; [done|..].
  - eexists. by split; [apply rtc_refl|].
  - destruct (Hhand (set_iteration (iteration_ e + 1) e) y (0 <? wakeupFd_ e)) as (w & Hw & Ht). exists w. split; [|done].
    eapply rtc_l; [split; [apply step_return|]; unfold no_quit; split_and!; done | exact Hw].
  - apply Hhand.
  - apply Hswap.
  - apply inner_running.
  - destruct (inner_running (Wakeup e) l n y q x) as (w & Hw & Ht). exists w. split; [|done].
    eapply rtc_l; [split; [by apply step_functor_wake|] | exact Hw]. cbn. unfold no_quit. cbn.
    destruct (Wakeup_fields e) as (_ & _ & -> & _). done.
Qed.
Lemma inner_child s w : chl s = CLooping -> rtc inner_step (loop s) w -> rtc child_step s (set_loop w s).
Proof.
  intros Ec. remember (loop s) as w0 eqn:E. intros Hr. revert s Ec E. induction Hr as [w0|w0 w1 w2 Hs _ IH]; intros s Ec ->.
  - destruct s. apply rtc_refl.
  - destruct Hs as (Hl & Ha & Hn & _). eapply rtc_l; [by apply (c_round s w1)|]. apply (IH (set_loop w1 s)); done.
Qed.
Lemma inner_quit w w' : rtc inner_step w w' -> quit_ (ev w) = true -> quit_ (ev w') = true.
Proof. induction 1 as [|w w1 w2 (_ & _ & _ & Hq) _ IH]; auto. Qed.
Lemma left_ends s : left_loop (chl s) = true -> exists s', rtc child_step s s' /\ chl s' = CDone /\ own s' = own s.
Proof.
  intros Hl. destruct (chl s) eqn:Ec; try done.
  - exists (set_chl CDone (set_chl CEnd (set_ptr false s))). split; [|done]. eapply rtc_l; [by apply c_null|]. apply rtc_once. by apply c_end.
  - exists (set_chl CDone s). split; [|done]. apply rtc_once. by apply c_end.
  - exists s. by split; [apply rtc_refl|].
Qed.
Lemma looping_ends s : reachable (loop s) -> chl s = CLooping -> at_ (loop s) <> Idle -> quit_ (ev (loop s)) = true ->
  exists s', rtc child_step s s' /\ chl s' = CDone /\ own s' = own s.
Proof.
  intros Hr Ec Ha Hq. destruct (inner_to_test _ (reachable_inv _ Hr) Ha) as (w & Hw & Ht).
  pose proof (inner_quit _ _ Hw Hq) as Hq'. destruct w as [e p n y q x]. cbn in Ht, Hq'. subst p.
  destruct (left_ends (set_chl CLeft (set_loop (mkW (set_looping false e) Idle n y q x) (set_loop (mkW e Test n y q x) s)))) as (s' & Hs' & Hd & Ho); [done|].
  exists s'. split; [|done]. etrans; [by apply inner_child|]. eapply rtc_l; [|exact Hs']. apply c_leave; [done | by apply step_exit | done].
Qed.

(** What is left for the thread to do before the pointer is there, steps inside the
    callback aside. *)
Definition until_published (c : child) : nat := match c with CNew => 3 | CCallback => 2 | CPublish => 1 | _ => 0 end.
Definition in_StartLoop (s : EventLoopThread) : Prop := own s = OTest \/ own s = OSleep.
Lemma start_published s : quits = false -> lt_inv s -> in_StartLoop s -> until_published (chl s) = 0%nat -> loop_ s = true /\ own s = OTest.
Proof.
  intros Eq [_ _ Hn Hp Hw _ _ Hl _ _ _ _] Ho Hu. specialize (Hl Eq).
  assert (Ep : loop_ s = true).
  { rewrite Hp. destruct (chl s); try done; (destruct Ho as [Ho|Ho]; rewrite Ho in *); try (by specialize (Hl eq_refl)); by destruct (Hn eq_refl). }
  split; [done|]. destruct Ho as [|Ho]; [done|]. rewrite (Hw Ho) in Ep. done.
Qed.
Lemma start_step s s' : lt_inv s -> in_StartLoop s -> lt_step s s' ->
  own s' = OHas \/ in_StartLoop s' /\ (until_published (chl s') <= until_published (chl s))%nat.
Proof.
  intros I Ho [Hs|Hs|Hs]; unfold in_StartLoop in *.
  - destruct Hs; cbn; try (destruct Ho; congruence); auto.
  - destruct Hs; right; cbn; rewrite ?H; cbn; (split; [|lia]); try done. destruct Ho as [-> | ->]; auto.
  - destruct Hs; destruct Ho; congruence.
Qed.
Lemma start_progress s : in_StartLoop s -> until_published (chl s) <> 0%nat ->
  exists s', child_step s s' /\ (until_published (chl s') < until_published (chl s))%nat.
Proof.
  intros Ho Hu. destruct (chl s) eqn:Ec; try done.
  - eexists. split; [by apply c_construct | cbn; lia].
  - eexists. split; [by apply c_called | cbn; lia].
  - eexists. split; [by apply c_publish | cbn; lia].
Qed.
End LoopThread.
Arguments EventLoopThread : clear implicits.

(** C20: the loop of an I/O thread is handed over and taken down safely.  In every
    interleaving of the owner, the thread and users of the loop, who queue functors and
    quit as they like: the owner never sleeps in [StartLoop] while the pointer is set (no
    notification is lost), and a pointer that is set is to a loop that exists.  Moreover,
    as long as nobody but the destructor calls [Quit] ([quits = false]; otherwise the
    pointer can become null and the loop die under its users): while the owner holds the
    pointer the loop exists, is published and has not been told to quit; no user calls
    and the destructor writes [quit_] only in a live loop; and the destructor returns only
    when the thread has ended or was never started.  The destructor is called before [StartLoop] or after it
    returned, and not while another thread is inside a call on the loop.  The second half
    of [Quit], the wakeup, can reach a loop that has just ended: [quit_can_dangle]. *)
Theorem loop_thread_safe {Functor : Type} quits (s : EventLoopThread Functor) : lt_reachable quits s ->
  (own s = OSleep -> loop_ s = false) /\
  (loop_ s = true -> live (chl s) = true) /\
  (quits = false ->
    (own s = OHas -> loop_ s = true /\ live (chl s) = true /\ quit_ (ev (loop s)) = false) /\
    quit_dangles s = false /\ (own s = OGone -> chl s = CDone \/ chl s = CNone)).
Proof.
  intros Hr. destruct (lt_reachable_inv quits s Hr) as [_ _ _ Hp Hw Hh Hq Hl _ _ Hg Hd]. split; [done|]. split; [rewrite Hp; by destruct (chl s)|].
  intros ->. split; [|by auto]. intros Eo. rewrite Eo in *. cbn in Hh. destruct (Hh eq_refl) as [Hb|[? _]]; [|done].
  specialize (Hl eq_refl). specialize (Hq eq_refl). cbn in Hl, Hq. rewrite Hp.
  assert (Hq' : quit_ (ev (loop s)) = false) by (destruct (quit_ _); [by specialize (Hq eq_refl) | done]).
  destruct (chl s); try done; by discriminate Hl.
Qed.

(** C32: [StartLoop] returns, and the destructor can always return once the loop runs, as
    long as nobody but the destructor calls [Quit] ([quits = false]).  While the owner is in [StartLoop]: no
    step of anybody takes it elsewhere than back to its caller, and none adds to what the thread has to do before
    it publishes the pointer, three steps at most (the construction, the end of [callback_], the
    critical section); as long as one is left the thread can take it; and when none is left the owner is awake,
    and its very next step returns.  Spurious wakeups and steps inside the callback may come in between; that
    the callback ends and that both threads are scheduled is not part of the statement.
    From every state in which the destructor waits in [Join], with the thread past the
    start of [Loop] and [quit_] still set, there is a run of the thread alone to its end,
    after which [Join] returns (before [Loop] it may hang: [destroy_can_hang]). *)
Theorem loop_thread_ends {Functor : Type} (s : EventLoopThread Functor) : lt_reachable false s ->
  (in_StartLoop s ->
    (forall s', lt_step false s s' -> own s' = OHas \/ in_StartLoop s' /\ (until_published (chl s') <= until_published (chl s) <= 3)%nat) /\
    (until_published (chl s) <> 0%nat -> exists s', child_step false s s' /\ (until_published (chl s') < until_published (chl s))%nat) /\
    (until_published (chl s) = 0%nat -> (exists s', owner_step s s') /\ forall s', owner_step s s' -> own s' = OHas)) /\
  (own s = OJoin -> chl s <> CEnter -> (chl s = CLooping -> quit_ (ev (loop s)) = true) ->
   exists s1 s2, rtc (child_step false) s s1 /\ owner_step s1 s2 /\ own s2 = OGone).
Proof.
  intros Hr. pose proof (lt_reachable_inv false s Hr) as I. split.
  - intros Ho. split_and!.
    + intros s' Hs. destruct (start_step false s s' I Ho Hs) as [?|[? ?]]; [by left | right]. split; [done|]. split; [done|]. destruct (chl s); cbn; lia.
    + by apply start_progress.
    + intros Hu. destruct (start_published false s eq_refl I Ho Hu) as [Ep Et]. split; [eexists; by apply o_got|].
      intros s' Hs. destruct Hs; try congruence; done.
  - destruct I as [Hw _ _ _ _ Hh _ _ Ha _ _ _]. intros Ho Hne Hqt. rewrite Ho in Hh. destruct (Hh eq_refl) as [Hb|[? _]]; [|done].
    assert (Hend : exists s', rtc (child_step false) s s' /\ chl s' = CDone /\ own s' = own s).
    { unfold at_ok in Ha. destruct (chl s) eqn:Ec; try done; [by apply looping_ends; auto | apply left_ends; by rewrite Ec..]. }
    destruct Hend as (s1 & H1 & Ed & Eo). exists s1, (set_own OGone s1). split; [done|]. split; [|done]. apply o_join; congruence.
Qed.

(** ** Concrete runs *)
(** [StartLoop] returned and the thread has not entered [Loop] yet. *)
Definition ex_started : EventLoopThread nat :=
  mkLT OHas CEnter true false new_world false false.
Lemma ex_started_reach : lt_reachable false ex_started.
Proof.
  eapply rtc_l; [by apply by_owner, o_start|]. eapply rtc_l; [by apply by_child, c_construct|]. eapply rtc_l; [by apply by_owner, o_wait|].
  eapply rtc_l; [by apply by_child, c_called|]. eapply rtc_l; [by apply by_child, c_publish|]. apply rtc_once. by apply by_owner, o_got.
Qed.
Definition looping_loop (q : bool) (fd : Z) : EventLoop nat := mkEL true q false 0 fd [].
Definition ex_looping : EventLoopThread nat :=
  mkLT OHas CLooping true false (mkW (looping_loop false 0) Test 0 false [] []) false false.
Lemma ex_looping_reach : lt_reachable false ex_looping.
Proof.
  eapply rtc_r; [exact ex_started_reach|].
  apply by_child, (c_enter false ex_started (mkW (looping_loop false 0) Test 0 false [] [])); [done | by apply step_start | done].
Qed.
Lemma loop_thread_safe_witness : lt_reachable false ex_started /\ live (chl ex_started) = true.
Proof. split; [exact ex_started_reach|]. 
  destruct (loop_thread_safe false ex_started ex_started_reach) as (_ & _ & H). destruct (H eq_refl) as [H' _]. apply H'. reflexivity. Defined.

(** The destructor of a running loop, up to [Join]. *)
Definition ex_joining : EventLoopThread nat :=
  mkLT OJoin CLooping true true (mkW (looping_loop true 1) Test 0 false [] []) false false.
Lemma ex_joining_reach : lt_reachable false ex_joining.
Proof.
  unfold lt_reachable; etrans; [exact ex_looping_reach|]. eapply rtc_l; [by apply by_owner, o_destroy|]. eapply rtc_l; [by apply by_owner, o_quit|].
  apply rtc_once. by apply by_owner, (o_wake (mkLT OWake CLooping true true (mkW (looping_loop true 0) Test 1 false [] []) false false)).
Qed.
Lemma loop_thread_ends_witness : lt_reachable false ex_joining /\ exists s1 s2, rtc (child_step false) ex_joining s1 /\ owner_step s1 s2 /\ own s2 = OGone.
Proof.
  split; [exact ex_joining_reach|]. destruct (loop_thread_ends ex_joining ex_joining_reach) as [_ H].
  apply H; [reflexivity | discriminate | reflexivity].
Defined.

(** ** What is not safe *)
(** A destructor that runs before the thread enters [Loop] hangs: [Loop] clears [quit_],
    and from then on the destructor waits in [Join] whatever happens. *)
Definition hung (s : EventLoopThread nat) : Prop :=
  own s = OJoin /\ chl s = CLooping /\ quit_ (ev (loop s)) = false /\ at_ (loop s) <> Idle.
Lemma hung_forever s s' : hung s -> lt_step false s s' -> hung s'.
Proof.
  intros (Ho & Hc & Hq & Ha) [Hs|Hs|Hs]; destruct Hs; try congruence; unfold hung; cbn.
  - assert (quit_ (ev w) = false) by (destruct (quit_ (ev w)) eqn:E; [|done]; unfold no_quit in *; rewrite E in *; naive_solver).
    done.
  - exfalso. destruct (loop_step_leaves (loop s) w) as [? _]; congruence.
Qed.
Lemma destroy_can_hang : exists s : EventLoopThread nat, lt_reachable false s /\ own s = OJoin /\ forall s', rtc (lt_step false) s s' -> own s' = OJoin.
Proof.
  set (w1 := mkW (mkEL false true false 0 1 ([] : list nat)) Idle 0 false [] []).
  exists (mkLT OJoin CLooping true true (mkW (looping_loop false 1) Test 0 false [] []) false false). split; [|split; [done|]].
  - unfold lt_reachable; etrans; [exact ex_started_reach|]. eapply rtc_l; [by apply by_owner, o_destroy|]. eapply rtc_l; [by apply by_owner, o_quit|].
    eapply rtc_l; [by apply by_owner, o_wake|]. apply rtc_once.
    apply by_child, (c_enter false (mkLT OJoin CEnter true true w1 false false) (mkW (looping_loop false 1) Test 0 false [] [])); [done | by apply step_start | done].
  - intros s' Hr. assert (hung s') as [? _]; [|done]. revert Hr. set (s := mkLT _ _ _ _ _ _ _). assert (H0 : hung s) by (split_and!; done).
    clearbody s. intros Hr. induction Hr as [|s s1 s2 Hs _ IH]; [done|]. apply IH. by eapply hung_forever.
Qed.

(** The race the source describes in [Quit]: the loop sees [quit_], ends and is destroyed
    before the destructor writes to its eventfd. *)
Lemma quit_can_dangle : exists s : EventLoopThread nat, lt_reachable false s /\ wake_dangles s = true.
Proof.
  exists (mkLT OJoin CDone false true (mkW (mkEL false true false 0 0 []) Idle 1 false [] []) false true). split; [|done].
  unfold lt_reachable; etrans; [exact ex_looping_reach|]. eapply rtc_l; [by apply by_owner, o_destroy|]. eapply rtc_l; [by apply by_owner, o_quit|].
  eapply rtc_l.
  { apply by_child, (c_leave false (mkLT OWake CLooping true true (mkW (looping_loop true 0) Test 1 false [] []) false false)
      (mkW (mkEL false true false 0 0 []) Idle 1 false [] [])); [done | by apply step_exit | done]. }
  eapply rtc_l; [by apply by_child, c_null|]. eapply rtc_l; [by apply by_child, c_end|]. apply rtc_once.
  by apply by_owner, (o_wake (mkLT OWake CDone false true (mkW (mkEL false true false 0 0 []) Idle 1 false [] []) false false)).
Qed.

(** A functor queued before [Quit] need not run: when it arrives after the loop took its
    last batch, the loop leaves with the functor still pending. *)
Lemma quit_drops_functor : exists w : world nat, reachable w /\ at_ w = Idle /\ iteration_ (ev w) = 1 /\ pendingFunctors_ (ev w) = [7%nat] /\ executed w = [].
Proof.
  exists (mkW (mkEL false true false 1 2 [7%nat]) Idle 0 false [7%nat] []). split; [|done].
  eapply rtc_l; [left; by apply step_start|]. eapply rtc_l; [left; by apply step_poll|]. eapply rtc_l; [left; apply step_return|].
  eapply rtc_l; [left; apply step_begin|]. eapply rtc_l; [left; apply step_swap|].
  eapply rtc_l; [right; apply (step_other_push _ _ 7%nat)|]. eapply rtc_l; [right; apply step_other_wake|].
  eapply rtc_l; [right; apply step_other_quit|]. eapply rtc_l; [right; apply step_other_wake|].
  eapply rtc_l; [left; apply step_end|]. apply rtc_once. left. by apply step_exit.
Qed.
