(* ===== verification/ByteStream.v ===== *)
(** * What a connection needs of its buffers

    [TcpConnection] uses its two [file::Buffer]s only as byte streams.
    [StreamBuffer] names the operations it calls and [StreamBufferLaws] what it
    relies on; the theorems of TcpConnection.v are proved against this interface
    and [Buffer_laws] discharges it for the buffer of ConnBuffer.v. *)
From S2P Require Import Prelude ConnBuffer.

(** readv(2) stores at most what its vectors hold. *)
Definition readv_t : Type := Z -> list Z -> Z + list byte.
Definition readv_ok (readv : readv_t) : Prop :=
  forall fd lens data, readv fd lens = inr data -> zlen data <= foldr Z.add 0 lens.

Class StreamBuffer (B : Type) := {
  sb_new : B;
  sb_append : list byte -> B -> outcome B;
  sb_retrieve : Z -> B -> outcome B;
  sb_readable : B -> Z;
  (** the bytes from [Peek()], [ReadableBytes()] of them *)
  sb_view : B -> outcome (list byte);
  sb_readfd : readv_t -> Z -> B -> outcome (Z * option Z * B);
}.

(** [sb_bytes b] are the bytes not read yet, [sb_wf] the invariant of the class.
    An append can only fail by running out of address space. *)
Class StreamBufferLaws (B : Type) `{StreamBuffer B} := {
  sb_bytes : B -> list byte;
  sb_wf : B -> Prop;
  sb_new_wf : sb_wf sb_new /\ sb_bytes sb_new = [];
  sb_readable_len b : sb_wf b -> sb_readable b = zlen (sb_bytes b);
  sb_view_bytes b : sb_wf b -> sb_view b = Ok (sb_bytes b);
  sb_append_Ok b d : sb_wf b -> zlen d < 2 ^ 62 ->
    (exists b', sb_append d b = Ok b' /\ sb_wf b' /\ sb_bytes b' = sb_bytes b ++ d) \/
    (sb_append d b = Fault (Exception "length_error") /\ 2 ^ 62 <= zlen (sb_bytes b) + 2 * zlen d);
  sb_retrieve_Ok b n : sb_wf b -> 0 <= n <= zlen (sb_bytes b) ->
    exists b', sb_retrieve n b = Ok b' /\ sb_wf b' /\ sb_bytes b' = zdrop n (sb_bytes b);
  sb_readfd_Ok readv fd b : sb_wf b -> readv_ok readv ->
    (exists e, sb_readfd readv fd b = Ok (-1, Some e, b)) \/
    (exists d b', sb_readfd readv fd b = Ok (zlen d, None, b') /\ sb_wf b' /\ sb_bytes b' = sb_bytes b ++ d) \/
    sb_readfd readv fd b = Fault (Exception "length_error");
}.

(** ** The connection buffer is one *)
Definition initial_Buffer : Buffer :=
  mkBuffer (replicate (Z.to_nat (kCheapPrepend + kInitialSize)) Byte.x00) kCheapPrepend kCheapPrepend.
Lemma initial_Buffer_new : new_Buffer kInitialSize = Ok initial_Buffer.
Proof. vm_compute. reflexivity. Qed.

#[global] Instance Buffer_stream : StreamBuffer Buffer := {
  sb_new := initial_Buffer;
  sb_append := Append;
  sb_retrieve := Retrieve;
  sb_readable := ReadableBytes;
  sb_view := fun b => read_from (Peek b) (ReadableBytes b) (buffer_ b);
  sb_readfd := ReadFd;
}.

Lemma fits_enough b (d : list byte) : wf b -> zlen d < 2 ^ 62 -> ~ fits b (zlen d) ->
  2 ^ 62 <= zlen (contents b) + 2 * zlen d.
Proof.
  intros Hb Hd Hf. rewrite zlen_contents by done. pose proof (zlen_nonneg d).
  unfold fits, wf, max_size, kCheapPrepend in *. lia.
Qed.

Lemma Append_total b (d : list byte) : wf b -> zlen d < 2 ^ 62 ->
  (exists b', Append d b = Ok b' /\ wf b' /\ contents b' = contents b ++ d) \/
  (Append d b = Fault (Exception "length_error") /\ 2 ^ 62 <= zlen (contents b) + 2 * zlen d).
Proof.
  intros Hb Hd. destruct (decide (fits b (zlen d))) as [Hf|Hf].
  - left. destruct (Append_spec b d Hb Hf) as (b' & ? & ? & ? & _). eauto.
  - right. split; [|by apply fits_enough]. apply Append_too_big; [done | unfold max_size; lia | done].
Qed.

Lemma ReadFd_total readv fd b : wf b -> readv_ok readv ->
  (exists e, ReadFd readv fd b = Ok (-1, Some e, b)) \/
  (exists d b', ReadFd readv fd b = Ok (zlen d, None, b') /\ wf b' /\ contents b' = contents b ++ d) \/
  ReadFd readv fd b = Fault (Exception "length_error").
Proof.
  intros Hb Hr. unfold ReadFd. destruct (readv fd (iovecs b)) as [e|data] eqn:E; [eauto|right].
  pose proof (zlen_nonneg data). assert (Hmax := Hr _ _ _ E).
  assert (zlen data <= WritableBytes b + 65536).
  { unfold iovecs in Hmax. destruct (WritableBytes b <? 65536); cbn in Hmax; lia. }
  pose proof (WritableBytes_wf b Hb) as HW. pose proof Hb as Hb'. unfold wf, max_size, kCheapPrepend in Hb'.
  destruct (write_spec b (ztake (WritableBytes b) data) Hb) as [Hwf Hc]; [rewrite zlen_ztake; lia|].
  rewrite copy_into_Ok by (rewrite ?zlen_ztake; lia). cbn [mbind outcome_bind].
  rewrite zlen_ztake in Hwf, Hc. destruct (Z.leb_spec (zlen data) (WritableBytes b)).
  - left. rewrite ztake_all in * by done. rewrite Z.min_r, Z.max_r in Hwf, Hc by lia.
    rewrite u64_small by lia. eauto 10.
  - rewrite Z.min_l, Z.max_r in Hwf, Hc by lia.
    rewrite zlen_zsplice by (rewrite ?zlen_ztake; lia).
    replace (zlen (buffer_ b)) with (writerIndex_ b + WritableBytes b) by lia.
    destruct (Append_total _ (zdrop (WritableBytes b) data) Hwf) as [(b2 & -> & ? & Hb2)|[-> _]];
      [rewrite zlen_zdrop; lia | left | by right].
    cbn [mbind outcome_bind]. exists data, b2. split; [done|]. split; [done|].
    by rewrite Hb2, Hc, <- app_assoc, ztake_zdrop.
Qed.

#[global] Instance Buffer_laws : StreamBufferLaws Buffer.
Proof.
  refine {| sb_bytes := contents; sb_wf := wf |}; cbn.
  - split; [by vm_compute|]. by vm_compute.
  - apply ReadableBytes_contents.
  - intros b Hb. rewrite ReadableBytes_contents, read_contents, ztake_all; try done; try lia.
    pose proof (zlen_nonneg (contents b)). lia.
  - apply Append_total.
  - intros b n Hb Hn. destruct (Retrieve_spec b n Hb Hn) as (b' & ? & ? & ? & _). eauto.
  - intros readv fd b. apply ReadFd_total.
Defined.
