(* ===== verification/TcpConnection.v ===== *)
(** * TCP connections (src/src/network/TcpConnection.h, TcpConnection.cc)

    One connection in its loop thread.  Its buffers are any [StreamBuffer]; its
    channel is the record of Epoll.v, changed by [changed], which is what
    [change_events] of Epoll.v does to it whenever the kernel accepts the change
    (the process is aborted otherwise); [queue] holds the functors it has queued
    in the loop, run in order (EventLoop.v).  The results of write(2) and readv(2)
    are arguments of each step.  A user callback is any function that, given the
    connection, lists the calls it makes on it.  The fields after [queue] record
    the effects: the bytes handed to the kernel, whether the write side was shut
    down, the callbacks made, the bytes of the messages accepted for sending, and the
    calls made on the channel, which ConnPoller.v runs on the poller of Epoll.v. *)
From S2P Require Import Prelude ByteStream Epoll.

Inductive StateE : Type := kDisconnected | kConnecting | kConnected | kDisconnecting.
#[global] Instance StateE_eq_dec : EqDecision StateE.
Proof. solve_decision. Defined.


Inductive functor : Type :=
  | FWriteComplete
  | FHighWaterMark (len : Z)
  | FForceCloseInLoop
  | FSendInLoop (message : list byte)
  | FShutdownInLoop
  | FStartReadInLoop
  | FStopReadInLoop
  | FConnectDestroyed.

Inductive callback : Type :=
  | ConnectionCb (up : bool)
  | MessageCb
  | WriteCompleteCb
  | HighWaterMarkCb (len : Z)
  | CloseCb.

(** write(2) given the bytes: its result, and errno. *)
Definition write_t : Type := list byte -> Z * Z.

(** The calls a user makes on a connection. *)
Inductive api : Type :=
  | ASend (message : list byte) (w : write_t)
  | ASendInput (w : write_t)             (** [conn->Send(&inputBuffer)] *)
  | AShutdown
  | AForceClose
  | AStartRead
  | AStopRead
  | ARetrieve (len : Z)                  (** [inputBuffer_.Retrieve(len)] *)
  | AWriteComplete (set : bool)          (** a callback, or an empty function *)
  | AHighWaterMark (set : bool) (mark : Z).

(** The calls a connection makes on its channel. *)
Inductive chan_op : Type :=
  | ChChange (f : Z -> Z)                (** [EnableReading] and the like: [events_] changed by [f], then [Update] *)
  | ChRemove
  | ChTie.

Section TcpConnection.
Context {B : Type} `{StreamBuffer B}.

Record conn : Type := mkConn {
  state_ : StateE;
  reading_ : bool;
  channel_ : Channel;
  writeCompleteCallback_ : bool;
  highWaterMarkCallback_ : bool;
  highWaterMark_ : Z;
  inputBuffer_ : B;
  outputBuffer_ : B;
  queue : list functor;
  wire : list byte;
  shutWr : bool;
  trace : list callback;
  sent : list byte;
  chanLog : list chan_op;
}.

Definition new_TcpConnection (sockfd : Z) (wcb hcb : bool) : conn :=
  mkConn kConnecting true
    (SetCallback ErrorCallback (SetCallback CloseCallback (SetCallback WriteCallback
      (SetCallback ReadCallback (new_Channel sockfd)))))
    wcb hcb (64 * 1024 * 1024) sb_new sb_new [] [] false [] [] [].

Definition SetState x c := mkConn x (reading_ c) (channel_ c) (writeCompleteCallback_ c) (highWaterMarkCallback_ c)
  (highWaterMark_ c) (inputBuffer_ c) (outputBuffer_ c) (queue c) (wire c) (shutWr c) (trace c) (sent c) (chanLog c).
Definition set_reading x c := mkConn (state_ c) x (channel_ c) (writeCompleteCallback_ c) (highWaterMarkCallback_ c)
  (highWaterMark_ c) (inputBuffer_ c) (outputBuffer_ c) (queue c) (wire c) (shutWr c) (trace c) (sent c) (chanLog c).
Definition set_channel x c := mkConn (state_ c) (reading_ c) x (writeCompleteCallback_ c) (highWaterMarkCallback_ c)
  (highWaterMark_ c) (inputBuffer_ c) (outputBuffer_ c) (queue c) (wire c) (shutWr c) (trace c) (sent c) (chanLog c).
Definition set_input x c := mkConn (state_ c) (reading_ c) (channel_ c) (writeCompleteCallback_ c) (highWaterMarkCallback_ c)
  (highWaterMark_ c) x (outputBuffer_ c) (queue c) (wire c) (shutWr c) (trace c) (sent c) (chanLog c).
Definition set_output x c := mkConn (state_ c) (reading_ c) (channel_ c) (writeCompleteCallback_ c) (highWaterMarkCallback_ c)
  (highWaterMark_ c) (inputBuffer_ c) x (queue c) (wire c) (shutWr c) (trace c) (sent c) (chanLog c).
Definition set_queue x c := mkConn (state_ c) (reading_ c) (channel_ c) (writeCompleteCallback_ c) (highWaterMarkCallback_ c)
  (highWaterMark_ c) (inputBuffer_ c) (outputBuffer_ c) x (wire c) (shutWr c) (trace c) (sent c) (chanLog c).
Definition set_wire x c := mkConn (state_ c) (reading_ c) (channel_ c) (writeCompleteCallback_ c) (highWaterMarkCallback_ c)
  (highWaterMark_ c) (inputBuffer_ c) (outputBuffer_ c) (queue c) x (shutWr c) (trace c) (sent c) (chanLog c).
Definition set_shut x c := mkConn (state_ c) (reading_ c) (channel_ c) (writeCompleteCallback_ c) (highWaterMarkCallback_ c)
  (highWaterMark_ c) (inputBuffer_ c) (outputBuffer_ c) (queue c) (wire c) x (trace c) (sent c) (chanLog c).
Definition set_trace x c := mkConn (state_ c) (reading_ c) (channel_ c) (writeCompleteCallback_ c) (highWaterMarkCallback_ c)
  (highWaterMark_ c) (inputBuffer_ c) (outputBuffer_ c) (queue c) (wire c) (shutWr c) x (sent c) (chanLog c).
Definition set_sent x c := mkConn (state_ c) (reading_ c) (channel_ c) (writeCompleteCallback_ c) (highWaterMarkCallback_ c)
  (highWaterMark_ c) (inputBuffer_ c) (outputBuffer_ c) (queue c) (wire c) (shutWr c) (trace c) x (chanLog c).
Definition set_chanLog x c := mkConn (state_ c) (reading_ c) (channel_ c) (writeCompleteCallback_ c) (highWaterMarkCallback_ c)
  (highWaterMark_ c) (inputBuffer_ c) (outputBuffer_ c) (queue c) (wire c) (shutWr c) (trace c) (sent c) x.

Definition queueInLoop (f : functor) (c : conn) : conn := set_queue (queue c ++ [f]) c.
Definition wrote (d : list byte) (c : conn) : conn := set_wire (wire c ++ d) c.

(** The channel calls. *)
Definition logged (o : chan_op) (c : conn) : conn := set_chanLog (chanLog c ++ [o]) c.
Definition chan (f : Z -> Z) (c : conn) : conn := logged (ChChange f) (set_channel (changed f (channel_ c)) c).
Definition enableReading := chan (fun e => Z.lor e kReadEvent).
Definition disableReading := chan (fun e => Z.land e (Z.lnot kReadEvent)).
Definition enableWriting := chan (fun e => Z.lor e kWriteEvent).
Definition disableWriting := chan (fun e => Z.land e (Z.lnot kWriteEvent)).
Definition disableAll := chan (fun _ => kNoneEvent).
Definition isWriting (c : conn) : bool := IsWriting (channel_ c).
Definition isReading (c : conn) : bool := IsReading (channel_ c).
Definition remove (c : conn) : outcome conn :=
  massert (IsNoneEvent (channel_ c)) "IsNoneEvent()";;
  massert (negb (index_ (channel_ c) =? kNew)) "channels_.find(fd) != channels_.end()";;
  Ok (logged ChRemove (set_channel (SetIndex kNew (with_added false (channel_ c))) c)).

(** ** Sending *)
(** The direct write: the bytes written, those remaining, whether the peer is
    gone, and the connection. *)
Definition write_now (data : list byte) (w : write_t) (c : conn) : Z * Z * bool * conn :=
  let len := zlen data in
  if negb (isWriting c) && (sb_readable (outputBuffer_ c) =? 0) then
    let '(writeBytes, errno) := w data in
    if 0 <=? writeBytes then
      let c := wrote (ztake writeBytes data) c in
      let remaining := u64 (len - writeBytes) in
      (writeBytes, remaining, false,
       if (remaining =? 0) && writeCompleteCallback_ c then queueInLoop FWriteComplete c else c)
    else
      (0, len, negb (errno =? EWOULDBLOCK) && ((errno =? EPIPE) || (errno =? ECONNRESET)), c)
  else (0, len, false, c).
(** What the kernel did not take goes to the output buffer. *)
Definition buffer_rest (data : list byte) (writeBytes remaining : Z) (c : conn) : outcome conn :=
  let oldLen := sb_readable (outputBuffer_ c) in
  let c := if (highWaterMark_ c <=? u64 (oldLen + remaining)) && (oldLen <? highWaterMark_ c)
                && highWaterMarkCallback_ c
           then queueInLoop (FHighWaterMark (u64 (oldLen + remaining))) c else c in
  d ← read_from writeBytes remaining data;
  o ← sb_append d (outputBuffer_ c);
  let c := set_output o c in
  Ok (if negb (isWriting c) then enableWriting c else c).
Definition DoSendInLoop (data : list byte) (w : write_t) (c : conn) : outcome conn :=
  if decide (state_ c = kDisconnected) then Ok c
  else
    let '(writeBytes, remaining, faultError, c) := write_now data w c in
    massert (remaining <=? zlen data) "remaining <= len";;
    let c := if (faultError : bool) then c else set_sent (sent c ++ data) c in
    if negb faultError && (0 <? remaining) then buffer_rest data writeBytes remaining c
    else Ok c.
Definition SendInLoop (message : list byte) (w : write_t) (c : conn) : outcome conn := DoSendInLoop message w c.

Definition Send (inLoop : bool) (message : list byte) (w : write_t) (c : conn) : outcome conn :=
  if decide (state_ c = kConnected) then
    if inLoop then SendInLoop message w c else Ok (queueInLoop (FSendInLoop message) c)
  else Ok c.
(** [Send] of a Buffer: the connection's own input buffer. *)
Definition SendInput (inLoop : bool) (w : write_t) (c : conn) : outcome conn :=
  if decide (state_ c = kConnected) then
    d ← sb_view (inputBuffer_ c);
    i ← sb_retrieve (sb_readable (inputBuffer_ c)) (inputBuffer_ c);
    if inLoop then
      c ← DoSendInLoop d w c;
      Ok (set_input i c)
    else Ok (queueInLoop (FSendInLoop d) (set_input i c))
  else Ok c.

(** ** Closing *)
Definition ShutdownInLoop (c : conn) : conn := if negb (isWriting c) then set_shut true c else c.
Definition Shutdown (inLoop : bool) (c : conn) : conn :=
  if decide (state_ c = kConnected) then
    let c := SetState kDisconnecting c in
    if inLoop then ShutdownInLoop c else queueInLoop FShutdownInLoop c
  else c.
Definition ForceClose (c : conn) : conn :=
  if decide (state_ c = kConnected \/ state_ c = kDisconnecting) then
    queueInLoop FForceCloseInLoop (SetState kDisconnecting c)
  else c.

(** ** Reading on and off *)
Definition StartReadInLoop (c : conn) : conn :=
  if negb (reading_ c) || negb (isReading c) then set_reading true (enableReading c) else c.
Definition StartRead (inLoop : bool) (c : conn) : conn :=
  if inLoop then StartReadInLoop c else queueInLoop FStartReadInLoop c.
Definition StopReadInLoop (c : conn) : conn :=
  if reading_ c || isReading c then set_reading false (disableReading c) else c.
Definition StopRead (inLoop : bool) (c : conn) : conn :=
  if inLoop then StopReadInLoop c else queueInLoop FStopReadInLoop c.

(** ** Callbacks the user sets; [false] is an empty function *)
Definition SetWriteCompleteCallback (cb : bool) (c : conn) : conn :=
  mkConn (state_ c) (reading_ c) (channel_ c) cb (highWaterMarkCallback_ c) (highWaterMark_ c) (inputBuffer_ c) (outputBuffer_ c)
    (queue c) (wire c) (shutWr c) (trace c) (sent c) (chanLog c).
Definition SetHighWaterMarkCallback (cb : bool) (highWaterMark : Z) (c : conn) : conn :=
  mkConn (state_ c) (reading_ c) (channel_ c) (writeCompleteCallback_ c) cb highWaterMark (inputBuffer_ c) (outputBuffer_ c)
    (queue c) (wire c) (shutWr c) (trace c) (sent c) (chanLog c).
Definition exec_api (inLoop : bool) (a : api) (c : conn) : outcome conn :=
  match a with
  | ASend message w => Send inLoop message w c
  | ASendInput w => SendInput inLoop w c
  | AShutdown => Ok (Shutdown inLoop c)
  | AForceClose => Ok (ForceClose c)
  | AStartRead => Ok (StartRead inLoop c)
  | AStopRead => Ok (StopRead inLoop c)
  | ARetrieve len => i ← sb_retrieve len (inputBuffer_ c); Ok (set_input i c)
  | AWriteComplete b => Ok (SetWriteCompleteCallback b c)
  | AHighWaterMark b mark => Ok (SetHighWaterMarkCallback b mark c)
  end.

(** ** Callbacks and handlers *)
Section Handlers.
Context (user : callback -> conn -> list api).

Definition call (cb : callback) (c : conn) : outcome conn :=
  let c := set_trace (trace c ++ [cb]) c in
  ofold (exec_api true) (user cb c) c.

(** [closeCallback_] is the server's; it makes no call on the connection. *)
Definition closeCallback (c : conn) : conn := set_trace (trace c ++ [CloseCb]) c.

Definition HandleClose (c : conn) : outcome conn :=
  massert (bool_decide (state_ c = kConnected \/ state_ c = kDisconnecting))
    "state_ == kConnected || state_ == kDisconnecting";;
  let c := disableAll (SetState kDisconnected c) in
  c ← call (ConnectionCb false) c;
  Ok (closeCallback c).
Definition HandleError (c : conn) : conn := c.

Definition HandleRead (readv : readv_t) (c : conn) : outcome conn :=
  '(n, savedErrno, i) ← sb_readfd readv (fd (channel_ c)) (inputBuffer_ c);
  let c := set_input i c in
  if 0 <? n then call MessageCb c
  else if n =? 0 then HandleClose c
  else Ok (HandleError c).

Definition HandleWrite (w : write_t) (c : conn) : outcome conn :=
  if isWriting c then
    data ← sb_view (outputBuffer_ c);
    let '(n, errno) := w data in
    if 0 <? n then
      let c := wrote (ztake n data) c in
      o ← sb_retrieve n (outputBuffer_ c);
      let c := set_output o c in
      if sb_readable o =? 0 then
        let c := disableWriting c in
        let c := if writeCompleteCallback_ c then queueInLoop FWriteComplete c else c in
        Ok (if decide (state_ c = kDisconnecting) then ShutdownInLoop c else c)
      else Ok c
    else Ok c
  else Ok c.

Definition ForceCloseInLoop (c : conn) : outcome conn :=
  if decide (state_ c = kConnected \/ state_ c = kDisconnecting) then HandleClose c else Ok c.

Definition ConnectEstablished (c : conn) : outcome conn :=
  massert (bool_decide (state_ c = kConnecting)) "state_ == kConnecting";;
  let c := SetState kConnected c in
  let c := logged ChTie (set_channel (Tie (channel_ c)) c) in
  call (ConnectionCb true) (enableReading c).

Definition ConnectDestroyed (c : conn) : outcome conn :=
  c ← (if decide (state_ c = kConnected) then
         call (ConnectionCb false) (disableAll (SetState kDisconnected c))
       else Ok c);
  remove c.

Definition run_functor (w : write_t) (f : functor) (c : conn) : outcome conn :=
  match f with
  | FWriteComplete => call WriteCompleteCb c
  | FHighWaterMark len => call (HighWaterMarkCb len) c
  | FForceCloseInLoop => ForceCloseInLoop c
  | FSendInLoop message => SendInLoop message w c
  | FShutdownInLoop => Ok (ShutdownInLoop c)
  | FStartReadInLoop => Ok (StartReadInLoop c)
  | FStopReadInLoop => Ok (StopReadInLoop c)
  | FConnectDestroyed => ConnectDestroyed c
  end.

(** The channel's callbacks. *)
Definition handle (w : write_t) (readv : readv_t) (k : event_kind) (c : conn) : outcome conn :=
  match k with
  | CloseCallback => HandleClose c
  | ErrorCallback => Ok (HandleError c)
  | ReadCallback => HandleRead readv c
  | WriteCallback => HandleWrite w c
  end.

(** ** Steps *)
Inductive event : Type :=
  | Established                                        (** the server calls [ConnectEstablished] *)
  | IO (revents : Z) (w : write_t) (readv : readv_t)   (** the poller reports [revents] *)
  | RunFunctor (w : write_t)                           (** the loop runs the first queued functor *)
  | OtherThread (a : api)                              (** a call from outside the loop thread *)
  | Destroy.                                           (** the server queues [ConnectDestroyed] *)

Definition exec_event (x : event) (c : conn) : outcome conn :=
  match x with
  | Established => ConnectEstablished c
  | IO revents w readv => ofold (handle w readv) (planned (SetRevents revents (channel_ c))) c
  | RunFunctor w =>
      match queue c with
      | [] => Ok c
      | f :: q => run_functor w f (set_queue q c)
      end
  | OtherThread a => exec_api false a c
  | Destroy => Ok (queueInLoop FConnectDestroyed c)
  end.
End Handlers.

(** ** Invariants *)
Context `{!StreamBufferLaws B}.

Definition is_conn_cb (cb : callback) : bool := match cb with ConnectionCb _ => true | _ => false end.
Definition is_close_cb (cb : callback) : bool := match cb with CloseCb => true | _ => false end.
Definition conn_cbs (l : list callback) : list callback := filter (fun cb => is_conn_cb cb = true) l.
Definition close_cbs (l : list callback) : list callback := filter (fun cb => is_close_cb cb = true) l.

#[local] Arguments conn_cbs : simpl never.
#[local] Arguments close_cbs : simpl never.

(** The life of a connection as its user sees it. *)
Definition told (x : StateE) : list callback :=
  match x with
  | kConnecting => []
  | kConnected | kDisconnecting => [ConnectionCb true]
  | kDisconnected => [ConnectionCb true; ConnectionCb false]
  end.
Definition msg_ok (strict : bool) (f : functor) : Prop :=
  match f with
  | FSendInLoop m => zlen m < 2 ^ 62
  | FStartReadInLoop | FStopReadInLoop => strict = false
  | _ => True
  end.

(** What the poller knows of the channel, as long as nobody switches reading off. *)
Definition live (c : conn) : Prop :=
  match state_ c with
  | kConnecting => index_ (channel_ c) = kNew
  | kConnected | kDisconnecting =>
      index_ (channel_ c) = kAdded /\ flag (events_ (channel_ c)) EPOLLIN = true
  | kDisconnected => events_ (channel_ c) = kNoneEvent /\ index_ (channel_ c) <> kAdded
  end.

Record good (strict : bool) (c : conn) : Prop := mk_good {
  g_in : sb_wf (inputBuffer_ c);
  g_out : sb_wf (outputBuffer_ c);
  g_stream : wire c ++ sb_bytes (outputBuffer_ c) = sent c;
  g_writing : state_ c <> kDisconnected -> isWriting c = true <-> sb_bytes (outputBuffer_ c) <> [];
  g_shut : shutWr c = true -> state_ c <> kDisconnected -> sb_bytes (outputBuffer_ c) = [];
  g_told : conn_cbs (trace c) = told (state_ c);
  g_closed : (length (close_cbs (trace c)) <= 1)%nat /\
    (state_ c <> kDisconnected -> close_cbs (trace c) = []);
  g_queue : Forall (msg_ok strict) (queue c);
  g_live : strict = true -> live c;
}.

(** write(2) takes at most what it is given, and fails with EPIPE once the write
    side is shut down. *)
Definition write_ok (w : write_t) (c : conn) : Prop :=
  forall d, -1 <= fst (w d) <= zlen d /\ (shutWr c = true -> w d = (-1, EPIPE)).

(** The fields a call on the connection does not touch, and how its state may move. *)
Definition rank (x : StateE) : nat :=
  match x with kConnecting => 0 | kConnected => 1 | kDisconnecting => 2 | kDisconnected => 3 end.
Definition steady (c c' : conn) : Prop :=
  state_ c' = state_ c /\ trace c' = trace c /\ shutWr c' = shutWr c.

Lemma isWriting_chan f c : isWriting (chan f c) = flag (f (events_ (channel_ c))) kWriteEvent.
Proof. done. Qed.

(** Queueing a functor. *)
Lemma good_queue strict f c : good strict c -> msg_ok strict f -> good strict (queueInLoop f c).
Proof. intros [] Hf. split; cbn; try done. apply Forall_app. by split; [|constructor]. Qed.

Lemma out_empty strict c : good strict c -> isWriting c = false -> state_ c <> kDisconnected ->
  sb_bytes (outputBuffer_ c) = [].
Proof.
  intros [] Hw Hs. destruct (sb_bytes (outputBuffer_ c)) eqn:E; [done|].
  apply g_writing0 in Hs. rewrite Hw in Hs. destruct Hs as [_ Hs]. discriminate Hs. done.
Qed.

(** The direct write. *)
Lemma write_now_Ok strict data w c :
  good strict c -> write_ok w c -> zlen data < 2 ^ 62 -> state_ c <> kDisconnected ->
  exists n fault c', write_now data w c = (n, zlen data - n, fault, c') /\
    0 <= n <= zlen data /\ (fault = true -> n = 0) /\ (shutWr c = true -> fault = true) /\
    steady c c' /\ outputBuffer_ c' = outputBuffer_ c /\ (0 < n -> sb_bytes (outputBuffer_ c) = []) /\
    (n < zlen data -> fault = false -> n = 0 \/ isWriting c' = false) /\ channel_ c' = channel_ c /\
    good strict (set_sent (sent c' ++ ztake n data) c').
Proof.
  intros G Hw Hl Hs. pose proof (zlen_nonneg data). unfold write_now.
  rewrite (sb_readable_len _ (g_out _ _ G)).
  assert (Hsame : good strict (set_sent (sent c ++ []) c)).
  { destruct G. split; cbn; try done. by rewrite app_nil_r. }
  destruct (negb (isWriting c) && (zlen (sb_bytes (outputBuffer_ c)) =? 0)) eqn:Hd.
  - bool_to_prop. assert (Ho : sb_bytes (outputBuffer_ c) = []) by by apply zlen_zero.
    destruct (w data) as [n errno] eqn:Ew. destruct (Hw data) as [Hn Hsh]. rewrite Ew in Hn, Hsh. cbn in Hn.
    destruct (Z.leb_spec 0 n).
    + rewrite u64_small by lia. eexists n, false, _. split; [done|].
      assert (Hnsh : shutWr c <> true) by (intros [= ->]%Hsh; lia).
      split; [lia|]. split; [done|]. split; [intros ?; done|].
      assert (Hg : good strict (set_sent (sent c ++ ztake n data) (wrote (ztake n data) c))).
      { destruct G. split; cbn; try done. rewrite Ho, app_nil_r in *. congruence. }
      split; [by case_if|]. split; [by case_if|]. split; [done|].
      split; [intros _ _; right; by case_if|]. split; [by case_if|].
      case_if; [|done]. by apply (good_queue _ FWriteComplete) in Hg.
    + eexists 0, _, c. rewrite Z.sub_0_r. split; [done|]. split; [lia|]. split; [done|].
      split; [intros Hx; specialize (Hsh Hx); injection Hsh as -> ->; done|].
      split; [done|]. split; [done|]. split; [lia|]. split; [auto|]. done.
  - exists 0, false, c. rewrite Z.sub_0_r. split; [done|]. split; [lia|]. split; [done|]. split.
    { intros Hx. pose proof (g_shut _ _ G Hx Hs) as Ho. rewrite Ho in Hd. cbn in Hd.
      rewrite andb_true_r in Hd. bool_to_prop. apply (g_writing _ _ G) in Hd; done. }
    split; [done|]. split; [done|]. split; [lia|]. split; [auto|]. done.
Qed.

Definition open (c : conn) : Prop := state_ c = kConnected \/ state_ c = kDisconnecting.

(** The poller watches exactly the open connections. *)
Lemma open_live c : good true c -> open c -> index_ (channel_ c) = kAdded /\ flag (events_ (channel_ c)) EPOLLIN = true.
Proof. intros G Ho. pose proof (g_live _ _ G eq_refl) as Hl. unfold live in Hl. by destruct Ho as [E|E]; rewrite E in Hl. Qed.
Lemma added_open c : good true c -> index_ (channel_ c) = kAdded -> open c.
Proof.
  intros G Hi. pose proof (g_live _ _ G eq_refl) as Hl. unfold live, open in *.
  destruct (state_ c); auto; rewrite Hi in Hl; [by destruct Hl as [_ []] | done].
Qed.

(** A change of events that keeps the input flag keeps an open connection live. *)
Lemma live_chan f c :
  live c -> open c ->
  (forall e, flag e EPOLLIN = true -> flag (f e) EPOLLIN = true) -> live (chan f c).
Proof.
  intros Hl Ho Hf. unfold live in *. cbn [chan set_channel state_ channel_]. unfold changed. cbn.
  assert (Hi : index_ (channel_ c) = kAdded /\ flag (events_ (channel_ c)) EPOLLIN = true)
    by (destruct Ho as [E|E]; rewrite E in Hl; done).
  assert (G : next_index (index_ (channel_ c)) (f (events_ (channel_ c))) = kAdded /\
    flag (f (events_ (channel_ c))) EPOLLIN = true).
  { destruct Hi as [-> Hi]. apply Hf in Hi. split; [|done]. unfold next_index.
    by rewrite (flag_none _ _ Hi), andb_false_r. }
  destruct Ho as [E|E]; rewrite E; done.
Qed.

Lemma buffer_rest_Ok strict data n c :
  good strict (set_sent (sent c ++ ztake n data) c) -> zlen data < 2 ^ 62 -> 0 <= n < zlen data ->
  shutWr c = false -> state_ c <> kDisconnected -> (strict = true -> state_ c <> kConnecting) ->
  holds strict (fun c' => good strict c' /\ steady c c')
    (buffer_rest data n (zlen data - n) (set_sent (sent c ++ data) c)).
Proof.
  intros G Hl Hn Hsh Hs Hst. unfold buffer_rest. cbv zeta.
  rewrite read_from_Ok by lia. cbn [mbind outcome_bind].
  replace (zslice n (zlen data - n) data) with (zdrop n data)
    by (unfold zslice; rewrite ztake_all; [done | rewrite zlen_zdrop; lia]).
  match goal with |- context [outputBuffer_ (if ?b then ?x else ?y)] => set (c1 := if b then x else y) end.
  assert (Hc1 : outputBuffer_ c1 = outputBuffer_ c /\ channel_ c1 = channel_ c /\ steady c c1 /\
    wire c1 = wire c /\ sent c1 = sent c ++ data /\ inputBuffer_ c1 = inputBuffer_ c /\
    Forall (msg_ok strict) (queue c1)).
  { pose proof (g_queue _ _ G) as Hq. subst c1. cbn in Hq |- *. case_if; cbn; repeat split; try done.
    apply Forall_app. split; [done|]. repeat constructor. }
  clearbody c1. destruct Hc1 as (E1 & E2 & (E3 & E4 & E5) & E6 & E7 & E8 & E9).
  destruct (sb_append_Ok (outputBuffer_ c1) (zdrop n data)) as [(o & -> & Ho & Hb)|[-> _]];
    [rewrite E1; apply (g_out _ _ G) | rewrite zlen_zdrop; lia | | done].
  cbn [mbind outcome_bind holds]. rewrite E1 in Hb.
  assert (Hne : sb_bytes o <> []).
  { rewrite Hb. intros [_ Hz]%app_nil. apply (f_equal length) in Hz.
    unfold zdrop, zlen in *. rewrite length_drop in Hz. cbn in Hz. lia. }
  assert (Hw : isWriting (if negb (isWriting (set_output o c1)) then enableWriting (set_output o c1)
                          else set_output o c1) = true).
  { destruct (isWriting (set_output o c1)) eqn:E; cbn; [done|]. apply flag_set_write. }
  assert (Hlive : strict = true -> live (if negb (isWriting (set_output o c1))
      then enableWriting (set_output o c1) else set_output o c1)).
  { intros Hstr. pose proof (g_live _ _ G Hstr) as Hl0. specialize (Hst Hstr).
    assert (Hl1 : live (set_output o c1)) by (unfold live in *; cbn in *; by rewrite E2, E3).
    destruct (isWriting (set_output o c1)); cbn; [done|]. apply live_chan; [done| |intros; by apply flag_in_lor].
    unfold open; cbn. rewrite E3. destruct (state_ c); auto; done. }
  split; [|destruct (isWriting (set_output o c1)); cbn; done].
  match goal with |- good _ (if ?b then ?x else ?y) => set (c2 := if b then x else y) in * end.
  assert (Hf : inputBuffer_ c2 = inputBuffer_ c /\ outputBuffer_ c2 = o /\ wire c2 = wire c /\
    sent c2 = sent c ++ data /\ state_ c2 = state_ c /\ trace c2 = trace c /\ shutWr c2 = false /\
    queue c2 = queue c1).
  { subst c2. destruct (isWriting (set_output o c1)); cbn; repeat split; congruence. }
  clearbody c2. destruct Hf as (F1 & F2 & F3 & F4 & F5 & F6 & F7 & F8).
  destruct G. cbn in *. split; rewrite ?F1, ?F2, ?F3, ?F4, ?F5, ?F6, ?F7, ?F8, ?Hw; try done.
  rewrite Hb, app_assoc, g_stream0, <- app_assoc. by rewrite ztake_zdrop.
Qed.

(** Sending keeps the stream whole. *)
Lemma DoSendInLoop_Ok strict data w c :
  good strict c -> write_ok w c -> zlen data < 2 ^ 62 -> (strict = true -> state_ c <> kConnecting) ->
  holds strict (fun c' => good strict c' /\ steady c c') (DoSendInLoop data w c).
Proof.
  intros G Hw Hl Hst. unfold DoSendInLoop. case_decide as Hs; [done|].
  destruct (write_now_Ok strict data w c G Hw Hl Hs)
    as (n & fault & c1 & -> & Hn & Hf & Hsh & (S1 & S2 & S3) & Ho & _ & _ & Hc & G1).
  rewrite (proj2 (Z.leb_le _ _)) by lia. cbn [massert mbind outcome_bind].
  destruct fault; cbn [negb andb].
  - rewrite (Hf eq_refl) in G1. split; [|done]. destruct G1. cbn in *. rewrite app_nil_r in *.
    split; cbn; try done.
  - destruct (Z.ltb_spec 0 (zlen data - n)).
    + assert (Hsh' : shutWr c1 = false).
      { rewrite S3. destruct (shutWr c); [|done]. discriminate (Hsh eq_refl). }
      eapply holds_mono; [apply buffer_rest_Ok; [done | done | lia | done | congruence | by rewrite S1]|].
      intros c' [? (? & ? & ?)]. split; [done|]. repeat split; congruence.
    + assert (n = zlen data) as -> by lia. rewrite ztake_all in G1 by lia. split; [done|]. done.
Qed.

(** What a call on the connection may change of its state and history. *)
Definition moved (c c' : conn) : Prop :=
  trace c' = trace c /\ (state_ c' = state_ c \/ (state_ c = kConnected /\ state_ c' = kDisconnecting)).
#[local] Instance moved_preorder : PreOrder moved.
Proof.
  split; [by split; [|left]|]. intros x y z [T1 S1] [T2 S2]. split; [congruence|].
  destruct S1 as [S1|[S1 S1']], S2 as [S2|[S2 S2']]; rewrite ?S1, ?S2 in *; auto; congruence.
Qed.
Lemma steady_moved c c' : steady c c' -> moved c c'.
Proof. intros (? & ? & _). by split; [|left]. Qed.

Lemma good_disconnecting strict c : good strict c -> open c -> good strict (SetState kDisconnecting c).
Proof.
  intros G Ho. assert (Hn : state_ c <> kDisconnected) by (destruct Ho; congruence).
  destruct G. split; cbn; auto.
  - rewrite g_told0. by destruct Ho as [-> | ->].
  - split; [apply g_closed0|]. intros _. by apply g_closed0.
  - intros Hs. specialize (g_live0 Hs). unfold live in *. cbn.
    by destruct Ho as [E|E]; rewrite E in g_live0.
Qed.

Lemma ShutdownInLoop_Ok strict c : good strict c ->
  good strict (ShutdownInLoop c) /\ moved c (ShutdownInLoop c).
Proof.
  intros G. unfold ShutdownInLoop. destruct (isWriting c) eqn:E; cbn; [done|]. split; [|by split; [|left]].
  pose proof (out_empty _ _ G E). destruct G. split; cbn; auto.
Qed.

(** Switching reading on or off does not touch writing. *)
Lemma good_reading f x c :
  good false c -> (forall e, flag (f e) kWriteEvent = flag e kWriteEvent) ->
  good false (set_reading x (chan f c)) /\ moved c (set_reading x (chan f c)).
Proof.
  intros [] Hf. split; [|by split; [|left]]. split; cbn; try done.
  unfold isWriting, IsWriting in *. cbn. by rewrite Hf.
Qed.

(** What the caller of the API owes: messages shorter than 2^62 bytes, the
    kernel's answers within write(2)'s contract, no more bytes retrieved than
    there are.  In a [strict] run nobody switches reading on or off. *)
Definition api_ok (strict : bool) (a : api) (c : conn) : Prop :=
  match a with
  | ASend m w => zlen m < 2 ^ 62 /\ write_ok w c
  | ASendInput w => zlen (sb_bytes (inputBuffer_ c)) < 2 ^ 62 /\ write_ok w c
  | AStartRead | AStopRead => strict = false
  | ARetrieve len => 0 <= len <= zlen (sb_bytes (inputBuffer_ c))
  | AShutdown | AForceClose | AWriteComplete _ => True
  | AHighWaterMark _ mark => 0 <= mark < 2 ^ 64
  end.

Lemma good_input strict i c : good strict c -> sb_wf i -> good strict (set_input i c).
Proof. intros [] Hi. by split. Qed.

Lemma Shutdown_Ok strict inLoop c : good strict c ->
  good strict (Shutdown inLoop c) /\ moved c (Shutdown inLoop c).
Proof.
  intros G. unfold Shutdown. case_decide as E; [|done].
  assert (G1 : good strict (SetState kDisconnecting c)) by (apply good_disconnecting; [done | by left]).
  assert (M1 : moved c (SetState kDisconnecting c)) by (split; [done | by right]).
  destruct inLoop.
  - destruct (ShutdownInLoop_Ok _ _ G1). split; [done | by etrans].
  - split; [by apply good_queue|]. etrans; [done|]. by split; [|left].
Qed.
Lemma ForceClose_Ok strict c : good strict c -> good strict (ForceClose c) /\ moved c (ForceClose c).
Proof.
  intros G. unfold ForceClose. case_decide as E; [|done]. split.
  - apply good_queue; [|done]. by apply good_disconnecting.
  - split; [done|]. cbn. destruct E; auto.
Qed.
Lemma StartRead_Ok inLoop c : good false c -> good false (StartRead inLoop c) /\ moved c (StartRead inLoop c).
Proof.
  intros G. unfold StartRead, StartReadInLoop. destruct inLoop; [|split; [by apply good_queue | by split; [|left]]].
  case_if; [|done]. apply good_reading; [done | apply flag_set_read].
Qed.
Lemma StopRead_Ok inLoop c : good false c -> good false (StopRead inLoop c) /\ moved c (StopRead inLoop c).
Proof.
  intros G. unfold StopRead, StopReadInLoop. destruct inLoop; [|split; [by apply good_queue | by split; [|left]]].
  case_if; [|done]. apply good_reading; [done | apply flag_clear_read].
Qed.

Lemma exec_api_Ok strict inLoop a c :
  good strict c -> api_ok strict a c ->
  holds strict (fun c' => good strict c' /\ moved c c') (exec_api inLoop a c).
Proof.
  intros G Ha. destruct a; cbn [exec_api api_ok] in *.
  - destruct Ha as [Hm Hw]. unfold Send, SendInLoop. case_decide as E; [|done]. destruct inLoop.
    + eapply holds_mono; [by apply DoSendInLoop_Ok; [..|rewrite E]|]. intros c' [? ?].
      split; [done | by apply steady_moved].
    + split; [by apply good_queue | by split; [|left]].
  - destruct Ha as [Hm Hw]. unfold SendInput. case_decide as E; [|done].
    pose proof (g_in _ _ G) as Hi. rewrite (sb_view_bytes _ Hi). cbn [mbind outcome_bind].
    rewrite (sb_readable_len _ Hi).
    destruct (sb_retrieve_Ok (inputBuffer_ c) (zlen (sb_bytes (inputBuffer_ c)))) as (i & -> & Hi' & _);
      [done | pose proof (zlen_nonneg (sb_bytes (inputBuffer_ c))); lia |]. cbn [mbind outcome_bind].
    destruct inLoop.
    + eapply holds_bind; [by apply DoSendInLoop_Ok; [..|rewrite E]|]. intros c' [? ?].
      split; [by apply good_input|]. etrans; [by apply steady_moved|]. by split; [|left].
    + split; [|by split; [|left]]. by apply good_queue; [apply good_input|].
  - by apply Shutdown_Ok.
  - by apply ForceClose_Ok.
  - subst strict. by apply StartRead_Ok.
  - subst strict. by apply StopRead_Ok.
  - destruct (sb_retrieve_Ok (inputBuffer_ c) len (g_in _ _ G) Ha) as (i & -> & Hi' & _).
    split; [by apply good_input | by split; [|left]].
  - split; [destruct G; by split | by split; [|left]].
  - split; [destruct G; by split | by split; [|left]].
Qed.

(** ** Handlers *)
Fixpoint apis_ok (strict : bool) (l : list api) (c : conn) : Prop :=
  match l with
  | [] => True
  | a :: l' => api_ok strict a c /\ forall c', exec_api true a c = Ok c' -> apis_ok strict l' c'
  end.
Definition user_ok (strict : bool) (user : callback -> conn -> list api) : Prop :=
  forall cb c, good strict c -> apis_ok strict (user cb c) c.

Lemma exec_apis_Ok strict l c :
  good strict c -> apis_ok strict l c ->
  holds strict (fun c' => good strict c' /\ moved c c') (ofold (exec_api true) l c).
Proof.
  revert c; induction l as [|a l IH]; intros c G Hl; [done|]. destruct Hl as [Ha Hl]. cbn [ofold].
  pose proof (exec_api_Ok strict true a c G Ha) as Hx.
  destruct (exec_api true a c) as [c1|f]; [|by destruct f]. destruct Hx as [G1 M1]. cbn [mbind outcome_bind].
  eapply holds_mono; [apply IH; [done | by apply Hl]|]. intros c' [? ?]. split; [done | by etrans].
Qed.

(** A closed connection ignores the calls: its channel is left alone. *)
Lemma exec_api_closed inLoop a c c' :
  api_ok true a c -> state_ c = kDisconnected -> exec_api inLoop a c = Ok c' ->
  channel_ c' = channel_ c /\ state_ c' = kDisconnected.
Proof.
  intros Ha E. destruct a; cbn in *; try done; unfold Send, SendInput, Shutdown, ForceClose; rewrite ?E;
    repeat (rewrite decide_False by (intros [=] || intros [[=]|[=]])); try (by intros [= <-]).
  intros Hx. inv_ok. by cbn.
Qed.
Lemma exec_apis_closed l c c' :
  apis_ok true l c -> state_ c = kDisconnected -> ofold (exec_api true) l c = Ok c' ->
  channel_ c' = channel_ c /\ state_ c' = kDisconnected.
Proof.
  revert c; induction l as [|a l IH]; intros c Hl E Hx; cbn in Hx; [by inv_ok|]. destruct Hl as [Ha Hl].
  inv_ok. destruct (exec_api_closed true a c _ Ha E E0) as [Hc Hs]. rewrite <- Hc. apply (IH a0); auto.
Qed.

Lemma conn_cbs_snoc l cb : conn_cbs (l ++ [cb]) = conn_cbs l ++ (if is_conn_cb cb then [cb] else []).
Proof. unfold conn_cbs. rewrite filter_app, filter_cons, filter_nil. by destruct (is_conn_cb cb). Qed.
Lemma close_cbs_snoc l cb : close_cbs (l ++ [cb]) = close_cbs l ++ (if is_close_cb cb then [cb] else []).
Proof. unfold close_cbs. rewrite filter_app, filter_cons, filter_nil. by destruct (is_close_cb cb). Qed.

Definition later (c c' : conn) : Prop := (rank (state_ c) <= rank (state_ c'))%nat.
Lemma later_same c c' : state_ c' = state_ c -> later c c'.
Proof. unfold later. intros ->. done. Qed.
Lemma moved_later c c' : moved c c' -> later c c'.
Proof. intros [_ [E|[E E']]]; unfold later; rewrite ?E, ?E'; cbn; lia. Qed.

Section User.
Context (strict : bool) (user : callback -> conn -> list api) (Huser : user_ok strict user).

Lemma call_Ok cb c :
  good strict (set_trace (trace c ++ [cb]) c) ->
  holds strict (fun c' => good strict c' /\ moved (set_trace (trace c ++ [cb]) c) c') (call user cb c).
Proof. intros G. apply exec_apis_Ok; [done | by apply Huser]. Qed.

(** Callbacks other than the connection and close callbacks can come at any time. *)
Lemma good_plain cb c : good strict c -> is_conn_cb cb = false -> is_close_cb cb = false ->
  good strict (set_trace (trace c ++ [cb]) c).
Proof.
  intros G E1 E2. destruct G. split; cbn; try done; rewrite ?conn_cbs_snoc, ?close_cbs_snoc, ?E1, ?E2, ?app_nil_r; done.
Qed.
Lemma call_plain_Ok cb c :
  good strict c -> is_conn_cb cb = false -> is_close_cb cb = false ->
  holds strict (fun c' => good strict c' /\ later c c') (call user cb c).
Proof.
  intros G E1 E2. eapply holds_mono; [apply call_Ok|].
  - by apply good_plain.
  - intros c' [? M]. split; [done|]. by apply moved_later in M.
Qed.

(** The connection goes down: state, channel and the user's callback. *)
Lemma going_down c :
  good strict c -> open c ->
  let c0 := disableAll (SetState kDisconnected c) in
  good strict (set_trace (trace c0 ++ [ConnectionCb false]) c0) /\
  (strict = true -> index_ (channel_ c0) = kDeleted).
Proof.
  intros G Ho c0. assert (Hn : state_ c <> kDisconnected) by (destruct Ho; congruence).
  destruct G.
  assert (Hidx : strict = true -> index_ (channel_ c0) = kDeleted).
  { intros Hs. specialize (g_live0 Hs). unfold live in g_live0. subst c0. cbn.
    assert (Hi : index_ (channel_ c) = kAdded) by (destruct Ho as [E|E]; rewrite E in g_live0; apply g_live0).
    by rewrite Hi. }
  split; [|done]. split; cbn; try done.
  - rewrite conn_cbs_snoc, g_told0. by destruct Ho as [-> | ->].
  - rewrite close_cbs_snoc, app_nil_r. split; [apply g_closed0 | done].
  - intros Hs. specialize (Hidx Hs). unfold live. cbn. split; [done|].
    change (index_ (channel_ c0) <> kAdded). by rewrite Hidx.
Qed.

Lemma HandleClose_Ok c :
  good strict c -> (strict = true -> open c) ->
  holds strict (fun c' => good strict c' /\ later c c') (HandleClose user c).
Proof.
  intros G Ho. unfold HandleClose.
  eapply (holds_bind _ (fun _ => open c)).
  { apply holds_massert; [intros Hs; by apply bool_decide_eq_true, Ho | by intros ?%bool_decide_eq_true]. }
  intros _ Hopen. destruct (going_down c G Hopen) as [G1 _].
  eapply holds_bind; [by apply call_Ok|]. intros c1 [G2 [T M]]. cbn in T, M.
  assert (Hs1 : state_ c1 = kDisconnected) by (destruct M as [|[? _]]; [done | done]).
  assert (Hcl : close_cbs (trace c1) = []).
  { rewrite T, close_cbs_snoc, app_nil_r. apply (g_closed _ _ G). destruct Hopen; congruence. }
  split; [|unfold later; cbn; rewrite Hs1; destruct (state_ c); cbn; lia].
  destruct G2. split; cbn; try done; rewrite ?conn_cbs_snoc, ?close_cbs_snoc, ?Hcl; cbn.
  - by rewrite app_nil_r.
  - split; [lia|]. by rewrite Hs1.
Qed.

Lemma conn_HandleRead_Ok readv c :
  good strict c -> readv_ok readv -> (strict = true -> open c) ->
  holds strict (fun c' => good strict c' /\ later c c') (HandleRead user readv c).
Proof.
  intros G Hr Ho. unfold HandleRead.
  destruct (sb_readfd_Ok readv (fd (channel_ c)) _ (g_in _ _ G) Hr) as [(e & ->)|[(d & i & -> & Hi & _)|Er]];
    cbn [mbind outcome_bind]; [| |by rewrite Er].
  - split; [|by apply later_same]. by apply good_input, (g_in _ _ G).
  - assert (G1 : good strict (set_input i c)) by by apply good_input.
    destruct (Z.ltb_spec 0 (zlen d)); [exact (call_plain_Ok MessageCb _ G1 eq_refl eq_refl)|].
    destruct (Z.eqb_spec (zlen d) 0); [exact (HandleClose_Ok _ G1 Ho)|]. split; [done | by apply later_same].
Qed.

Definition write_range (w : write_t) : Prop := forall d, -1 <= fst (w d) <= zlen d.

Lemma HandleWrite_Ok w c :
  good strict c -> write_range w -> (strict = true -> state_ c <> kConnecting) ->
  holds strict (fun c' => good strict c' /\ later c c') (HandleWrite w c).
Proof.
  intros G Hw Hst. unfold HandleWrite. destruct (isWriting c) eqn:Ew; [|split; [done | by apply later_same]].
  rewrite (sb_view_bytes _ (g_out _ _ G)). cbn [mbind outcome_bind].
  pose proof (Hw (sb_bytes (outputBuffer_ c))) as Hn. destruct (w (sb_bytes (outputBuffer_ c))) as [n e]. cbn in Hn.
  destruct (Z.ltb_spec 0 n); [|split; [done | by apply later_same]]. cbn [outputBuffer_ wrote set_wire].
  destruct (sb_retrieve_Ok (outputBuffer_ c) n (g_out _ _ G)) as (o & -> & Ho & Hb); [lia|].
  cbn [mbind outcome_bind]. rewrite (sb_readable_len _ Ho).
  set (c1 := set_output o (wrote (ztake n (sb_bytes (outputBuffer_ c))) c)).
  assert (Hstream : wire c1 ++ sb_bytes o = sent c1).
  { subst c1; cbn. rewrite <- (g_stream _ _ G), Hb, <- app_assoc, ztake_zdrop. done. }
  assert (Hshut : shutWr c = true -> state_ c <> kDisconnected -> False).
  { intros Hx Hs. pose proof (g_shut _ _ G Hx Hs) as Ho'. apply (g_writing _ _ G) in Ew; done. }
  destruct (Z.eqb_spec (zlen (sb_bytes o)) 0) as [Hz|Hz].
  - apply zlen_zero in Hz.
    assert (G2 : good strict (disableWriting c1)).
    { destruct G. split; cbn; try done.
      - intros Hs. unfold isWriting, IsWriting. cbn. rewrite flag_clear_write, Hz. done.
      - intros Hs. specialize (g_live0 Hs). specialize (Hst Hs).
        destruct (decide (state_ c = kDisconnected)) as [Ed|Ed].
        + exfalso. unfold live in g_live0. rewrite Ed in g_live0. destruct g_live0 as [He _].
          unfold isWriting, IsWriting in Ew. by rewrite He, flag_0 in Ew.
        + apply live_chan; [done | | intros e0; by rewrite flag_in_clear_write].
          unfold open; cbn. destruct (state_ c); auto; done. }
    match goal with |- context [decide (state_ ?x = _)] => set (c2 := x) end.
    assert (G3 : good strict c2 /\ state_ c2 = state_ c).
    { subst c2. case_if; [|done]. by split; [apply good_queue|]. }
    destruct G3 as [G3 S3]. clearbody c2. case_decide.
    + destruct (ShutdownInLoop_Ok _ _ G3) as [? M]. split; [done|].
      apply moved_later in M. unfold later in *. by rewrite S3 in M.
    + split; [done|]. unfold later. by rewrite S3.
  - split; [|by apply later_same]. destruct G. split; cbn; try done.
    + intros Hs. split; [intros _ Hx; by rewrite Hx in Hz|]. intros _. exact Ew.
    + intros Hx Hs. by destruct (Hshut Hx Hs).
Qed.

Lemma ConnectEstablished_Ok c :
  good strict c -> state_ c = kConnecting ->
  holds strict (fun c' => good strict c' /\ later c c') (ConnectEstablished user c).
Proof.
  intros G E. unfold ConnectEstablished. rewrite bool_decide_true by done. cbn [massert mbind outcome_bind].
  set (c1 := enableReading _).
  assert (G1 : good strict (set_trace (trace c1 ++ [ConnectionCb true]) c1)).
  { destruct G. split; cbn; try done.
    - intros _. unfold isWriting, IsWriting. cbn. rewrite flag_set_read. apply g_writing0. by rewrite E.
    - intros Hx _. apply g_shut0; [done | by rewrite E].
    - by rewrite conn_cbs_snoc, g_told0, E.
    - rewrite close_cbs_snoc, app_nil_r. split; [apply g_closed0|]. intros _. apply g_closed0. by rewrite E.
    - intros Hs. specialize (g_live0 Hs). unfold live in *. rewrite E in g_live0. cbn. rewrite g_live0. cbn.
      split; [done|]. apply flag_in_set_read. }
  eapply holds_mono; [by apply call_Ok|]. intros c' [? M%moved_later]. split; [done|].
  unfold later in *. rewrite E. cbn. lia.
Qed.

Lemma remove_Ok c :
  good strict c -> state_ c = kDisconnected -> (strict = true -> index_ (channel_ c) <> kNew) ->
  holds strict (fun c' => good strict c' /\ later c c') (remove c).
Proof.
  intros G E Hi. unfold remove.
  eapply (holds_bind _ (fun _ => IsNoneEvent (channel_ c) = true)).
  { apply holds_massert; [|done]. intros Hs. pose proof (g_live _ _ G Hs) as Hl. unfold live in Hl.
    rewrite E in Hl. unfold IsNoneEvent. destruct Hl as [-> _]. done. }
  intros _ He. eapply (holds_bind _ (fun _ => True)).
  { apply holds_massert; [|done]. intros Hs. apply negb_true_iff, Z.eqb_neq, Hi, Hs. }
  intros _ _. split; [|by apply later_same]. destruct G. split; cbn; try done; rewrite E in *; try done.
  intros Hs. unfold live. cbn. rewrite E. split; [|done]. by apply Z.eqb_eq.
Qed.

(** When the server may run [ConnectDestroyed]. *)
Definition destroy_ok (c : conn) : Prop :=
  state_ c = kConnected \/ (state_ c = kDisconnected /\ index_ (channel_ c) <> kNew).

Lemma ConnectDestroyed_Ok c :
  good strict c -> destroy_ok c ->
  holds strict (fun c' => good strict c' /\ later c c') (ConnectDestroyed user c).
Proof.
  intros G Hd. unfold ConnectDestroyed. case_decide as E.
  - destruct (going_down c G (or_introl E)) as [G1 Hidx]. set (c0 := disableAll _) in *.
    pose proof (call_Ok (ConnectionCb false) c0 G1) as Hc.
    destruct (call user (ConnectionCb false) c0) as [c1|f] eqn:Ec; [|by destruct f].
    destruct Hc as [G2 [_ M]]. cbn [mbind outcome_bind]. cbn in M.
    assert (Hs1 : state_ c1 = kDisconnected) by (destruct M as [|[? _]]; done).
    eapply holds_mono; [apply remove_Ok; [done | done|]|].
    + intros Hs. assert (Hu : user_ok true user) by (by rewrite <- Hs). rewrite Hs in G1.
      destruct (exec_apis_closed _ _ _ (Hu (ConnectionCb false) _ G1) eq_refl Ec) as [Hch _].
      rewrite Hch. change (index_ (channel_ c0) <> kNew). by rewrite (Hidx Hs).
    + intros c' [? Hl]. split; [done|]. unfold later in *. rewrite Hs1 in Hl. rewrite E. cbn in *. lia.
  - destruct Hd as [?|[Hs Hi]]; [done|]. by apply remove_Ok.
Qed.

(** ** Events *)

(** A hang-up that is reported without input carries no other read event either. *)
Definition report_ok (revents : Z) : Prop := close_test revents = true -> read_test revents = false.

(** What the environment owes.  The server establishes a connection first and
    destroys it once, not while it is half closed; the kernel's answers are in
    contract; in a strict run the poller reports only channels it watches, and
    a hang-up in the way [report_ok] says. *)
Definition event_ok (x : event) (c : conn) : Prop :=
  match x with
  | Established => state_ c = kConnecting
  | IO revents w readv => write_range w /\ readv_ok readv /\
      (strict = true -> index_ (channel_ c) = kAdded /\ report_ok revents)
  | RunFunctor w => write_ok w c /\ state_ c <> kConnecting /\
      (head (queue c) = Some FConnectDestroyed -> destroy_ok c)
  | OtherThread a => api_ok strict a c
  | Destroy => True
  end.

Lemma planned_shape r c :
  exists b1 b2 b3 b4 : bool, planned (SetRevents r c) =
    (if b1 then [CloseCallback] else []) ++ (if b2 then [ErrorCallback] else []) ++
    (if b3 then [ReadCallback] else []) ++ (if b4 then [WriteCallback] else []) /\
    (close_test r = false -> b1 = false) /\ (read_test r = false -> b3 = false).
Proof.
  unfold planned. cbn [revents_ SetRevents callbacks]. rewrite !filter_app.
  exists (close_test r && bool_decide (CloseCallback ∈ callbacks c)),
    (error_test r && bool_decide (ErrorCallback ∈ callbacks c)),
    (read_test r && bool_decide (ReadCallback ∈ callbacks c)),
    (write_test r && bool_decide (WriteCallback ∈ callbacks c)).
  split; [|by split; intros ->].
  destruct (close_test r), (error_test r), (read_test r), (write_test r);
    cbn [andb]; rewrite ?filter_cons, ?filter_nil; unfold bool_decide; repeat case_decide; done.
Qed.

Lemma later_trans c c1 c2 : later c c1 -> later c1 c2 -> later c c2.
Proof. unfold later. lia. Qed.

Lemma IO_Ok r w readv c :
  good strict c -> event_ok (IO r w readv) c ->
  holds strict (fun c' => good strict c' /\ later c c')
    (ofold (handle user w readv) (planned (SetRevents r (channel_ c))) c).
Proof.
  intros G (Hw & Hr & Hs). destruct (planned_shape r (channel_ c)) as (b1 & b2 & b3 & b4 & -> & Hb1 & Hb3).
  assert (Hopen : strict = true -> open c).
  { intros E. destruct (Hs E) as [Hi _]. apply added_open; [by rewrite <- E | done]. }
  rewrite !ofold_app.
  eapply (holds_bind _ (fun c1 => good strict c1 /\ later c c1 /\ (strict = true -> b3 = true -> open c1))).
  { destruct b1; [|split; [done|]; split; [by apply later_same | auto]]. cbn [ofold handle].
    eapply holds_bind; [by apply HandleClose_Ok|]. intros c1 [? ?]. cbn. split; [done|]. split; [done|].
    intros E E3. destruct (Hs E) as [_ Hx]. destruct (close_test r) eqn:Ec; [|by specialize (Hb1 eq_refl)].
    by rewrite (Hb3 (Hx Ec)) in E3. }
  intros c1 (G1 & L1 & O1). rewrite ofold_app.
  assert (Hconn : forall c2, later c c2 -> strict = true -> state_ c2 <> kConnecting).
  { intros c2 L E Hx. unfold later in L. rewrite Hx in L. destruct (Hopen E) as [Hy|Hy]; rewrite Hy in L; cbn in L; lia. }
  eapply (holds_bind _ (fun c2 => c2 = c1)); [by destruct b2|]. intros ? ->. rewrite ofold_app.
  eapply (holds_bind _ (fun c2 => good strict c2 /\ later c c2 /\ (strict = true -> state_ c2 <> kConnecting))).
  { destruct b3; cbn [ofold handle].
    - eapply holds_bind; [apply conn_HandleRead_Ok; auto|]. intros c2 [G2 L2]. split; [done|].
      assert (later c c2) by by eapply later_trans. auto.
    - split; [done|]. split; [done|]. auto. }
  intros c2 (G2 & L2 & S2). destruct b4; cbn [ofold handle]; [|done].
  eapply holds_bind; [by apply HandleWrite_Ok|]. intros c3 [G3 L3]. split; [done | by eapply later_trans].
Qed.

Lemma RunFunctor_Ok w f q c :
  good strict c -> queue c = f :: q -> event_ok (RunFunctor w) c ->
  holds strict (fun c' => good strict c' /\ later c c') (run_functor user w f (set_queue q c)).
Proof.
  intros G Eq (Hw & Hn & Hd). rewrite Eq in *. cbn in Hd.
  assert (Hm : msg_ok strict f /\ Forall (msg_ok strict) q).
  { pose proof (g_queue _ _ G) as Hq. rewrite Eq in Hq. by apply Forall_cons in Hq. }
  destruct Hm as [Hm Hq].
  assert (G1 : good strict (set_queue q c)) by (destruct G; by split).
  assert (Hsame : forall c', moved (set_queue q c) c' -> later c c') by (intros c' M; by apply moved_later in M).
  destruct f; cbn [run_functor].
  - exact (call_plain_Ok WriteCompleteCb _ G1 eq_refl eq_refl).
  - exact (call_plain_Ok (HighWaterMarkCb len) _ G1 eq_refl eq_refl).
  - unfold ForceCloseInLoop. case_decide as Ho; [|split; [done | by apply later_same]].
    exact (HandleClose_Ok _ G1 (fun _ => Ho)).
  - eapply holds_mono; [by apply DoSendInLoop_Ok|]. intros c' [? ?%steady_moved]. auto.
  - destruct (ShutdownInLoop_Ok _ _ G1) as [? ?]. split; auto.
  - cbn in Hm. rewrite Hm in G1 |- *. destruct (StartRead_Ok true _ G1). split; auto.
  - cbn in Hm. rewrite Hm in G1 |- *. destruct (StopRead_Ok true _ G1). split; auto.
  - exact (ConnectDestroyed_Ok _ G1 (Hd eq_refl)).
Qed.

Lemma exec_event_Ok x c :
  good strict c -> event_ok x c ->
  holds strict (fun c' => good strict c' /\ later c c') (exec_event user x c).
Proof.
  intros G Hx. destruct x; cbn [exec_event].
  - by apply ConnectEstablished_Ok.
  - by apply IO_Ok.
  - destruct (queue c) as [|f q] eqn:Eq; [split; [done | by apply later_same]|]. by apply RunFunctor_Ok.
  - eapply holds_mono; [by apply exec_api_Ok|]. intros c' [? ?%moved_later]. done.
  - split; [by apply good_queue | by apply later_same].
Qed.

Fixpoint events_ok (l : list event) (c : conn) : Prop :=
  match l with
  | [] => True
  | x :: l' => event_ok x c /\ forall c', exec_event user x c = Ok c' -> events_ok l' c'
  end.

Lemma exec_events_Ok l c :
  good strict c -> events_ok l c ->
  holds strict (fun c' => good strict c' /\ later c c') (ofold (exec_event user) l c).
Proof.
  revert c; induction l as [|x l IH]; intros c G Hl; [split; [done | by apply later_same]|].
  destruct Hl as [Hx Hl]. cbn [ofold]. pose proof (exec_event_Ok x c G Hx) as Hc.
  destruct (exec_event user x c) as [c1|f]; [|by destruct f]. destruct Hc as [G1 L1]. cbn [mbind outcome_bind].
  eapply holds_mono; [apply IH; [done | by apply Hl]|]. intros c' [? ?]. split; [done | by eapply later_trans].
Qed.
End User.

Lemma good_new strict sockfd wcb hcb : good strict (new_TcpConnection sockfd wcb hcb).
Proof.
  destruct sb_new_wf as [W E]. split; cbn; try done; try (by rewrite E).
  split; [vm_compute; lia | done].
Qed.

(** C3: the byte stream of a connection is never lost, duplicated or reordered.
    After any sequence of events (messages sent in and outside the loop thread,
    partial writes, shutdown, closing, reading switched on and off, user
    callbacks that make any of these calls), the bytes handed to the kernel
    followed by those in the output buffer are exactly the accepted messages in
    order, and while the connection is up the write event is watched exactly
    when there are bytes left to write. *)
Theorem stream_integrity user l sockfd wcb hcb c :
  user_ok false user -> events_ok false user l (new_TcpConnection sockfd wcb hcb) ->
  ofold (exec_event user) l (new_TcpConnection sockfd wcb hcb) = Ok c ->
  wire c ++ sb_bytes (outputBuffer_ c) = sent c /\
  (state_ c <> kDisconnected -> isWriting c = true <-> sb_bytes (outputBuffer_ c) <> []).
Proof.
  intros Hu Hl E. pose proof (exec_events_Ok false user Hu l _ (good_new false sockfd wcb hcb) Hl) as Hg.
  rewrite E in Hg. destruct Hg as [[] _]. done.
Qed.

(** C21: while a connection is not closed, its write side is shut down only when everything
    accepted has been handed to the kernel: in any run within the contracts, if
    shutdown(SHUT_WR) was issued and the state is not [kDisconnected], the kernel has
    every accepted byte.  (A connection that was closed by its peer with bytes left can
    still be shut down then: [shutdown_after_close].) *)
Theorem shutdown_after_drain user l sockfd wcb hcb c :
  user_ok false user -> events_ok false user l (new_TcpConnection sockfd wcb hcb) ->
  ofold (exec_event user) l (new_TcpConnection sockfd wcb hcb) = Ok c ->
  shutWr c = true -> state_ c <> kDisconnected -> wire c = sent c.
Proof.
  intros Hu Hl E Hsh Hs. pose proof (exec_events_Ok false user Hu l _ (good_new false sockfd wcb hcb) Hl) as Hg.
  rewrite E in Hg. destruct Hg as [[] _]. by rewrite <- g_stream0, g_shut0, app_nil_r.
Qed.

(** C25: a shutdown asked for while bytes are waiting is carried out by the
    [HandleWrite] that writes the last of them. *)
Theorem shutdown_is_delivered strict w c c' :
  good strict c -> write_range w -> state_ c = kDisconnecting -> isWriting c = true ->
  HandleWrite w c = Ok c' -> sb_bytes (outputBuffer_ c') = [] -> shutWr c' = true.
Proof.
  intros G Hw Hs Ew E Hb. unfold HandleWrite in E. rewrite Ew in E.
  rewrite (sb_view_bytes _ (g_out _ _ G)) in E. cbn [mbind outcome_bind] in E.
  assert (Hne : sb_bytes (outputBuffer_ c) <> []) by (apply (g_writing _ _ G); [by rewrite Hs | done]).
  pose proof (Hw (sb_bytes (outputBuffer_ c))) as Hn. destruct (w (sb_bytes (outputBuffer_ c))) as [n e].
  destruct (Z.ltb_spec 0 n); [|injection E as <-; done]. cbn [outputBuffer_ wrote set_wire fst] in E, Hn.
  destruct (sb_retrieve_Ok (outputBuffer_ c) n (g_out _ _ G)) as (o & Er & Ho & _); [lia|].
  rewrite Er in E. cbn [mbind outcome_bind] in E. rewrite (sb_readable_len _ Ho) in E.
  destruct (Z.eqb_spec (zlen (sb_bytes o)) 0) as [Hz|Hz].
  - injection E as <-. destruct (writeCompleteCallback_ _); cbn [queueInLoop set_queue state_ disableWriting chan
      set_channel set_output wrote set_wire]; rewrite decide_True by done;
      unfold ShutdownInLoop, isWriting, IsWriting; cbn; by rewrite flag_clear_write.
  - injection E as <-. cbn in Hb. by rewrite Hb in Hz.
Qed.

(** C19: the connection's life.  In any run the state only moves forward
    (connecting, connected, disconnecting, disconnected), the user is told
    exactly once that the connection is up and, once it is disconnected, exactly
    once that it is down, and the server's close callback is made at most once
    and never before that. *)
Theorem connection_lifecycle user l l' sockfd wcb hcb c c' :
  user_ok false user -> events_ok false user (l ++ l') (new_TcpConnection sockfd wcb hcb) ->
  ofold (exec_event user) l (new_TcpConnection sockfd wcb hcb) = Ok c ->
  ofold (exec_event user) l' c = Ok c' ->
  (rank (state_ c) <= rank (state_ c'))%nat /\
  conn_cbs (trace c') = told (state_ c') /\
  (length (close_cbs (trace c')) <= 1)%nat /\ (state_ c' <> kDisconnected -> close_cbs (trace c') = []).
Proof.
  intros Hu Hl E E'.
  assert (Hsplit : forall l c0, events_ok false user (l ++ l') c0 -> ofold (exec_event user) l c0 = Ok c ->
    events_ok false user l c0 /\ events_ok false user l' c).
  { clear. induction l as [|x l IH]; intros c0 Hl E; cbn in *; [by inv_ok|]. destruct Hl as [Hx Hl].
    inv_ok. destruct (IH a) as [? ?]; [by apply Hl | done|]. split; [|done]. split; [done|].
    intros c1 E1. rewrite E1 in E0. by injection E0 as ->. }
  destruct (Hsplit l _ Hl E) as [Hl1 Hl2].
  pose proof (exec_events_Ok false user Hu l _ (good_new false sockfd wcb hcb) Hl1) as Hg.
  rewrite E in Hg. destruct Hg as [G _].
  pose proof (exec_events_Ok false user Hu l' c G Hl2) as Hg'. rewrite E' in Hg'. destruct Hg' as [[] L].
  split; [exact L|]. split; [done|]. done.
Qed.

(** C6: as long as nobody switches reading on or off and the server does not
    destroy a half-closed connection, no event makes an assertion of the
    connection or its channel fail: a run goes on, or ends because an output or
    input buffer outgrows the address space. *)
Theorem connection_never_aborts user l sockfd wcb hcb :
  user_ok true user -> events_ok true user l (new_TcpConnection sockfd wcb hcb) ->
  (exists c, ofold (exec_event user) l (new_TcpConnection sockfd wcb hcb) = Ok c) \/
  (exists what, ofold (exec_event user) l (new_TcpConnection sockfd wcb hcb) = Fault (Exception what)).
Proof.
  intros Hu Hl. pose proof (exec_events_Ok true user Hu l _ (good_new true sockfd wcb hcb) Hl) as Hg.
  destruct (ofold _ _ _) as [c|[]]; cbn in Hg; eauto; done.
Qed.
End TcpConnection.
Arguments conn : clear implicits.

(** ** Concrete runs, on the buffer of ConnBuffer.v *)
Definition nobody : callback -> conn ConnBuffer.Buffer -> list api := fun _ _ => [].
Lemma nobody_ok strict : user_ok strict nobody.
Proof. intros cb c _. exact I. Qed.

(** A kernel that takes at most [n] bytes, and EPIPE after a shutdown. *)
Definition takes (n : Z) (shut : bool) : write_t :=
  fun d => if shut then (-1, EPIPE) else (Z.min n (zlen d), 0).
Lemma takes_ok n (c : conn ConnBuffer.Buffer) : 0 <= n -> write_ok (takes n (shutWr c)) c.
Proof.
  intros Hn d. unfold takes. pose proof (zlen_nonneg d). split; [|by intros ->].
  destruct (shutWr c); cbn; lia.
Qed.
Lemma takes_false_ok n (c : conn ConnBuffer.Buffer) : 0 <= n -> shutWr c = false -> write_ok (takes n false) c.
Proof. intros Hn E. rewrite <- E. by apply takes_ok. Qed.
Lemma takes_range n b : 0 <= n -> write_range (takes n b).
Proof. intros Hn d. unfold takes. pose proof (zlen_nonneg d). destruct b; cbn; lia. Qed.

(** An echo server that greets. *)
Definition echo (cb : callback) (c : conn ConnBuffer.Buffer) : list api :=
  match cb with
  | ConnectionCb true => [ASend (chars "hello") (takes 3 (shutWr c))]
  | MessageCb => if decide (zlen (sb_bytes (inputBuffer_ c)) < 2 ^ 62)
                 then [ASendInput (takes 3 (shutWr c))] else []
  | _ => []
  end.
Lemma echo_ok strict : user_ok strict echo.
Proof.
  intros cb c G. unfold echo. destruct cb as [[]| | | |]; try exact I.
  - split; [|done]. split; [done | by apply takes_ok].
  - case_decide; [|exact I]. split; [|done]. split; [done | by apply takes_ok].
Qed.

Definition delivers (d : list byte) : readv_t :=
  fun _ lens => if decide (zlen d <= foldr Z.add 0 lens) then inr d else inl EWOULDBLOCK.
Lemma delivers_ok d : readv_ok (delivers d).
Proof. intros fd lens data. unfold delivers. case_decide; [|done]. by intros [= <-]. Qed.

Definition ex_start : conn ConnBuffer.Buffer := new_TcpConnection 5 true true.
(** The greeting is written in part; a request arrives; another thread shuts the
    connection down; the rest is written in two rounds. *)
Definition ex_events : list event :=
  [Established; IO 1 (takes 9 false) (delivers (chars "abc")); OtherThread AShutdown;
   RunFunctor (takes 9 false); IO 4 (takes 2 false) (delivers []); IO 4 (takes 9 false) (delivers [])].

Ltac event_ex :=
  match goal with
  | |- events_ok _ _ (_ :: _) _ => split;
      [cbn; first [reflexivity | exact I | split_and!; first [apply takes_range; lia | apply delivers_ok | apply takes_false_ok; [lia | reflexivity]
                | discriminate | intros [=] | intros [[=]|[=]] | reflexivity | done | idtac ]]
      | let c := fresh "c" in let E := fresh "E" in
        intros c E; vm_compute in E; injection E as <-; event_ex]
  | |- events_ok _ _ [] _ => exact I
  end.

Lemma ex_events_ok : events_ok false echo ex_events ex_start.
Proof. unfold ex_events. event_ex. Qed.

Definition ex_end : conn ConnBuffer.Buffer :=
  match ofold (exec_event echo) ex_events ex_start with Ok c => c | Fault _ => ex_start end.
Lemma ex_end_Ok : ofold (exec_event echo) ex_events ex_start = Ok ex_end.
Proof. vm_compute. reflexivity. Qed.

Lemma stream_integrity_witness :
  wire ex_end ++ sb_bytes (outputBuffer_ ex_end) = chars "helloabc".
Proof.
  destruct (stream_integrity echo ex_events 5 true true ex_end (echo_ok false) ex_events_ok ex_end_Ok) as [H _].
  rewrite H. vm_compute. reflexivity.
Defined.

Lemma shutdown_after_drain_witness : wire ex_end = chars "helloabc".
Proof.
  rewrite (shutdown_after_drain echo ex_events 5 true true ex_end (echo_ok false) ex_events_ok ex_end_Ok);
    [vm_compute; reflexivity | vm_compute; reflexivity | vm_compute; discriminate].
Defined.

(** Before the last write. *)
Definition ex_mid : conn ConnBuffer.Buffer :=
  match ofold (exec_event echo) (take 5 ex_events) ex_start with Ok c => c | Fault _ => ex_start end.
Lemma ex_mid_good : good false ex_mid.
Proof.
  assert (H : events_ok false echo (take 5 ex_events) ex_start) by (cbn [take ex_events]; event_ex).
  pose proof (exec_events_Ok false echo (echo_ok false) _ _ (good_new false 5 true true) H) as Hg.
  assert (E : ofold (exec_event echo) (take 5 ex_events) ex_start = Ok ex_mid) by (vm_compute; reflexivity).
  unfold ex_start in E. rewrite E in Hg. apply Hg.
Qed.
Lemma shutdown_is_delivered_witness :
  exists c', HandleWrite (takes 9 false) ex_mid = Ok c' /\ shutWr c' = true.
Proof.
  destruct (HandleWrite (takes 9 false) ex_mid) as [c'|] eqn:E; [|vm_compute in E; discriminate E].
  exists c'. split; [reflexivity|].
  apply (shutdown_is_delivered false (takes 9 false) ex_mid c' ex_mid_good);
    [apply takes_range; lia | vm_compute; reflexivity | vm_compute; reflexivity | exact E |].
  vm_compute in E. injection E as <-. vm_compute. reflexivity.
Defined.

(** The peer closes; the server destroys the connection. *)
Definition ex_closing : list event :=
  [IO 1 (takes 9 false) (delivers []); Destroy; RunFunctor (takes 9 false)].
Lemma ex_closing_ok : events_ok true nobody ([Established] ++ ex_closing) ex_start.
Proof. cbn [app]. unfold ex_closing. event_ex. all: first [split; [reflexivity | intros [=]] | right; split; [reflexivity | discriminate]]. Qed.
Lemma ex_closing_ok_false : events_ok false nobody ([Established] ++ ex_closing) ex_start.
Proof. cbn [app]. unfold ex_closing. event_ex. all: first [split; [reflexivity | intros [=]] | right; split; [reflexivity | discriminate]]. Qed.

Lemma connection_lifecycle_witness :
  exists c c', ofold (exec_event nobody) [Established] ex_start = Ok c /\
    ofold (exec_event nobody) ex_closing c = Ok c' /\
    conn_cbs (trace c') = [ConnectionCb true; ConnectionCb false].
Proof.
  destruct (ofold (exec_event nobody) [Established] ex_start) as [c|] eqn:E;
    [|vm_compute in E; discriminate E].
  destruct (ofold (exec_event nobody) ex_closing c) as [c'|] eqn:E';
    [|vm_compute in E; injection E as <-; vm_compute in E'; discriminate E'].
  exists c, c'. split; [reflexivity|]. split; [exact E'|].
  destruct (connection_lifecycle nobody [Established] ex_closing 5 true true c c' (nobody_ok false)
    ex_closing_ok_false E E') as (_ & H & _).
  rewrite H. vm_compute in E. injection E as <-. vm_compute in E'. injection E' as <-. reflexivity.
Defined.

Lemma connection_never_aborts_witness :
  exists c, ofold (exec_event nobody) ([Established] ++ ex_closing) ex_start = Ok c.
Proof.
  destruct (connection_never_aborts nobody ([Established] ++ ex_closing) 5 true true (nobody_ok true) ex_closing_ok)
    as [H|(what & E)]; [exact H|].
  vm_compute in E. discriminate E.
Defined.

(** ** Calls that make an assertion fail *)

(** Reading is stopped, then the connection is force-closed: the disabled channel
    is registered again ([DisableAll_adds_again]) and a hang-up on it runs
    [HandleClose] a second time. *)
Lemma stop_read_then_close_aborts :
  ofold (exec_event nobody)
    [Established; OtherThread AStopRead; RunFunctor (takes 9 false); OtherThread AForceClose;
     RunFunctor (takes 9 false); IO EPOLLHUP (takes 9 false) (delivers [])] ex_start
  = Fault (Assertion "state_ == kConnected || state_ == kDisconnecting").
Proof. vm_compute. reflexivity. Qed.

(** [ShutdownInLoop] looks only at whether the channel is writing: queued by another thread
    while bytes wait, it shuts the write side of a connection that its peer closed
    meanwhile, and the bytes are never written. *)
Lemma shutdown_after_close :
  (fun c => (state_ c, shutWr c, wire c, sent c)) <$> ofold (exec_event echo)
    [Established; OtherThread AShutdown; IO EPOLLIN (takes 3 false) (delivers []); RunFunctor (takes 3 false)] ex_start
  = Ok (kDisconnected, true, chars "hel", chars "hello").
Proof. vm_compute. reflexivity. Qed.

(** The server destroys a connection that is shut down but not closed yet. *)
Lemma destroy_half_closed_aborts :
  ofold (exec_event nobody)
    [Established; OtherThread AShutdown; RunFunctor (takes 9 false); Destroy; RunFunctor (takes 9 false)] ex_start
  = Fault (Assertion "IsNoneEvent()").
Proof. vm_compute. reflexivity. Qed.

(** Reading is started on a connection the peer has closed. *)
Lemma start_read_after_close_aborts :
  ofold (exec_event nobody)
    [Established; IO EPOLLIN (takes 9 false) (delivers []); OtherThread AStartRead; RunFunctor (takes 9 false);
     Destroy; RunFunctor (takes 9 false)] ex_start
  = Fault (Assertion "IsNoneEvent()").
Proof. vm_compute. reflexivity. Qed.
