(* ===== verification/Http.v ===== *)
(** * The HTTP server (src/http/HttpRequest.h, HttpParser.h, HttpParser.cc,
    HttpResponse.h, HttpResponse.cc, HttpConnection.h, HttpConnection.cc)

    Text is a list of bytes; an index past the end of a vector or view is
    undefined.  The header map is a finite map.  asio is not modelled: a read
    handler is a function of the bytes delivered, and what it starts (reads,
    writes) is recorded in order. *)
From S2P Require Import Prelude ConnBuffer.

Abbreviation text := (list byte) (only parsing).

(** ** HttpRequest *)
Record HttpRequest : Type := mkRequest {
  version_ : text;
  method_ : text;
  uri_ : text;
  read_buffer_ : text;
  headers_ : gmap (list byte) (list byte);
}.
Definition new_HttpRequest : HttpRequest := mkRequest [] [] [] [] ∅.

(** [unordered_map::insert] keeps the entry that is there. *)
Definition addHeader (h : text * text) (r : HttpRequest) : HttpRequest :=
  match headers_ r !! h.1 with
  | Some _ => r
  | None => mkRequest (version_ r) (method_ r) (uri_ r) (read_buffer_ r) (<[h.1 := h.2]> (headers_ r))
  end.
Definition getHeader (key : text) (r : HttpRequest) : option text := headers_ r !! key.
Definition addBuffer (b : text) (r : HttpRequest) : HttpRequest :=
  mkRequest (version_ r) (method_ r) (uri_ r) (read_buffer_ r ++ b) (headers_ r).

(** ** HttpParser *)
Inductive Result : Type := INTERMIDIATE | FINISH | ERROR.
Inductive ParseState : Type := START | LINE_OPEN.
Record HttpParser : Type := mkParser { temp_line_ : text; state_ : ParseState }.
Definition new_HttpParser : HttpParser := mkParser [] START.

(** [str_view.find(delimeter, last_pos)]. *)
Definition find_char (s : text) (c : byte) (from : nat) : option nat :=
  (fun k => (from + k)%nat) <$> memchr (drop from s) c.
(** [str_view.find("\r\n", last_pos)]. *)
Definition find_crlf (s : text) (from : nat) : option nat :=
  let k := std_search (drop from s) kCRLF in
  if decide (k = length (drop from s)) then None else Some (from + k)%nat.

Fixpoint split_loop (fuel : nat) (s : text) (d : byte) (last_pos : nat) (pos : option nat) : list text :=
  match pos with
  | None => [drop last_pos s]
  | Some p =>
      match fuel with
      | O => []
      | S fuel => take (p - last_pos) (drop last_pos s) ::
                  split_loop fuel s d (p + 1) (find_char s d (p + 1))
      end
  end.
(** Every round moves [last_pos] forward: one more round than there are bytes is
    enough ([split_join]). *)
Definition splitStringView (s : text) (d : byte) : list text :=
  match s with
  | [] => []
  | _ => split_loop (S (length s)) s d 0 (find_char s d 0)
  end.

(** [str_vec[i]]. *)
Definition at_index (v : list text) (i : nat) : outcome text :=
  match v !! i with Some x => Ok x | None => Fault (Undefined "vector index out of range") end.

Definition parseOneLine (line : text) (p : HttpParser) (r : HttpRequest)
    : outcome (Result * HttpParser * HttpRequest) :=
  match state_ p with
  | START =>
      let str_vec := splitStringView line Byte.x20 in
      m ← at_index str_vec 0;
      u ← at_index str_vec 1;
      v ← at_index str_vec 2;
      Ok (INTERMIDIATE, mkParser (temp_line_ p) LINE_OPEN,
          mkRequest v m u (read_buffer_ r) (headers_ r))
  | LINE_OPEN =>
      if decide (line = []) then Ok (FINISH, p, r)
      else
        let str_vec := splitStringView line Byte.x3a in
        k ← at_index str_vec 0;
        v ← at_index str_vec 1;
        Ok (INTERMIDIATE, p, addHeader (k, v) r)
  end.

(** The loop of [parse]; the iterator returned is an offset from [begin]. *)
Fixpoint parse_loop (fuel : nat) (s : text) (last_pos : nat) (pos : option nat)
    (p : HttpParser) (r : HttpRequest) : outcome (Result * nat * HttpParser * HttpRequest) :=
  match pos with
  | None =>
      (** temp_line_.append(begin + last_pos + 2, end) *)
      if decide (last_pos + 2 <= length s)%nat
      then Ok (INTERMIDIATE, length s, mkParser (temp_line_ p ++ drop (last_pos + 2) s) (state_ p), r)
      else Fault (Undefined "iterator past the end")
  | Some q =>
      match fuel with
      | O => Fault (Undefined "out of fuel")
      | S fuel =>
          let line := temp_line_ p ++ take (q - last_pos) (drop last_pos s) in
          x ← parseOneLine line p r;
          let '(result, p, r) := x in
          let p := mkParser [] (state_ p) in
          match result with
          | FINISH => Ok (FINISH, q, p, r)
          | ERROR => Ok (ERROR, length s, p, r)
          | INTERMIDIATE =>
              let last_pos := (q + 2)%nat in
              parse_loop fuel s last_pos
                (if decide (last_pos < length s)%nat then find_crlf s last_pos else None) p r
          end
      end
  end.
Definition parse (s : text) (p : HttpParser) (r : HttpRequest)
    : outcome (Result * nat * HttpParser * HttpRequest) :=
  parse_loop (S (length s)) s 0 (find_crlf s 0) p r.

(** ** HttpResponse *)
Inductive Status : Type :=
  | OK | CREATED | ACCEPTED | NO_CONTENT | MULTIPLE_CHOICES | MOVED_PERMANENTLY | MOVED_TEMPORARILY
  | NOT_MODIFIED | BAD_REQUEST | UNAUTHORIZED | FORBIDDEN | NOT_FOUND | INTERNAL_SERVER_ERROR
  | NOT_IMPLEMENTED | BAD_GATEWAY | SERVICE_UNAVAILABLE.
Record HttpResponse : Type := mkResponse {
  status_ : Status;
  rheaders : list (text * text);
  content : text;
  head_line_ : text;
  rep_header_ : text;
}.
Definition new_HttpResponse : HttpResponse := mkResponse OK [] [] [] [].
(** The argument has no name in the source: it is not used. *)
Definition buildResponse (_ : Status) : HttpResponse := new_HttpResponse.

Definition statusToString (s : Status) : outcome text :=
  match s with OK => Ok (chars "OK") | _ => Fault (Exception "out_of_range") end.

(** The two buffers, header and content; [to_string] is [std::to_string]. *)
Definition toBuffers (to_string : Z -> text) (r : HttpResponse) : text * text * HttpResponse :=
  let h := rep_header_ r ++ head_line_ r ++
    mjoin ((fun kv => kv.1 ++ chars ":" ++ kv.2 ++ kCRLF) <$> rheaders r) ++
    chars "Content-Length:" ++ to_string (zlen (content r)) ++ kCRLF ++ kCRLF in
  (h, content r, mkResponse (status_ r) (rheaders r) (content r) (head_line_ r) h).

(** ** HttpConnection *)
Definition kBufferSize : Z := 1024 * 8.
Inductive State : Type := PARSE | READ_BUFFER | READ_FINISH | CONN_ERROR.
Inductive FsError : Type := FS_NOT_FOUND | FS_NONE | FS_PERMISSION_OUT.
(** What a handler starts. *)
Inductive action : Type :=
  | AsyncRead
  | AsyncWrite (header content : text)
  | StopConnection.

Record HttpConnection : Type := mkHttpConn {
  conn_state_ : State;
  need_read_ : Z;
  rbuffer_ : text;
  request_ : HttpRequest;
  request_parser_ : HttpParser;
  response_ : HttpResponse;
  started : list action;
}.
Definition new_HttpConnection : HttpConnection :=
  mkHttpConn PARSE 0 (replicate (Z.to_nat kBufferSize) Byte.x00) new_HttpRequest new_HttpParser new_HttpResponse [].

Definition set_conn_state x c :=
  mkHttpConn x (need_read_ c) (rbuffer_ c) (request_ c) (request_parser_ c) (response_ c) (started c).
Definition set_need_read x c :=
  mkHttpConn (conn_state_ c) x (rbuffer_ c) (request_ c) (request_parser_ c) (response_ c) (started c).
Definition set_rbuffer x c :=
  mkHttpConn (conn_state_ c) (need_read_ c) x (request_ c) (request_parser_ c) (response_ c) (started c).
Definition set_request x p c :=
  mkHttpConn (conn_state_ c) (need_read_ c) (rbuffer_ c) x p (response_ c) (started c).
Definition set_response x c :=
  mkHttpConn (conn_state_ c) (need_read_ c) (rbuffer_ c) (request_ c) (request_parser_ c) x (started c).
Definition start (a : action) c :=
  mkHttpConn (conn_state_ c) (need_read_ c) (rbuffer_ c) (request_ c) (request_parser_ c) (response_ c) (started c ++ [a]).

(** [path.find("..") != npos]. *)
Definition dotdot : text := chars "..".
Definition contains (pat s : text) : bool := bool_decide (std_search s pat <> length s).
Definition isValidatePath (path : text) : bool :=
  match path with
  | [] => false
  | c :: _ => bool_decide (c = Byte.x2f) && negb (contains dotdot path)
  end.
(** The body is a TODO: nothing is written to [out]. *)
Definition decodeUri (uri out : text) : bool * text := (true, out).

(** std::stoi: white space, a sign, digits; anything may follow. *)
Definition is_space (c : byte) : bool :=
  bool_decide (c = Byte.x20) || ((9 <=? Byte.byte.unsigned c) && (Byte.byte.unsigned c <=? 13)).
Fixpoint skip_spaces (s : text) : text :=
  match s with c :: t => if is_space c then skip_spaces t else s | [] => [] end.
Fixpoint digits_value (s : text) (acc : Z) (any : bool) : option Z :=
  match s with
  | c :: t => let d := Byte.byte.unsigned c - 48 in
      if (0 <=? d) && (d <=? 9) then digits_value t (10 * acc + d) true
      else if any then Some acc else None
  | [] => if any then Some acc else None
  end.
Definition stoi (s : text) : outcome Z :=
  let s := skip_spaces s in
  let '(neg, s) := match s with
                   | c :: t => if decide (c = Byte.x2d) then (true, t)
                               else if decide (c = Byte.x2b) then (false, t) else (false, s)
                   | [] => (false, [])
                   end in
  match digits_value s 0 false with
  | None => Fault (Exception "invalid_argument")
  | Some v => let v := if neg : bool then - v else v in
              if in_sint 32 v then Ok v else Fault (Exception "out_of_range")
  end.

Section Handler.
(** [fileSize] and [readFile] of the file system: the size, or nothing when the
    path does not exist. *)
Context (document_root : text) (exists_file : text -> option Z) (to_string : Z -> text).

Definition fileSize (path : text) : Z * FsError :=
  match exists_file path with Some n => (n, FS_NONE) | None => (0, FS_NOT_FOUND) end.

(** [content.reserve] does not change the size: what [readFile] stores in
    the reserved storage is not part of the string. *)
Definition handleRequest (c : HttpConnection) : HttpConnection :=
  let '(ok, path) := decodeUri (uri_ (request_ c)) [] in
  if negb ok || negb (isValidatePath path) then set_response (buildResponse BAD_REQUEST) c
  else
    let path := if decide (last path = Some Byte.x2f) then path ++ chars "index.html" else path in
    let path := document_root ++ path in
    let '(file_size, result) := fileSize path in
    match result with
    | FS_NOT_FOUND => set_response (buildResponse NOT_FOUND) c
    | FS_PERMISSION_OUT => set_response (buildResponse INTERNAL_SERVER_ERROR) c
    | FS_NONE =>
        let r := response_ c in
        set_response (mkResponse (status_ r)
          (rheaders r ++ [(chars "Content-Length", to_string file_size); (chars "Content-Type", chars "txt/html")])
          (content r) (head_line_ r) (rep_header_ r)) c
    end.

Definition write (c : HttpConnection) : HttpConnection :=
  let '(h, b, r) := toBuffers to_string (response_ c) in
  start (AsyncWrite h b) (set_response r c).

(** The tail the cases of the switch fall through to. *)
Definition read_finish (c : HttpConnection) : HttpConnection := write (handleRequest c).
(** The two cases of the switch that look at the bytes read; [read_bytes] of them
    are at the start of [rbuffer_]. *)
Definition read_buffer (read_bytes content_offset : Z) (c : HttpConnection) : outcome HttpConnection :=
  n ← sint_checked 32 (need_read_ c - i32 (read_bytes - content_offset));
  let c := set_need_read n c in
  v ← read_from content_offset read_bytes (rbuffer_ c);
  let c := set_request (addBuffer v (request_ c)) (request_parser_ c) c in
  let c := if need_read_ c =? 0 then set_conn_state READ_FINISH c else c in
  Ok (read_finish c).
Definition on_parse (read_bytes : Z) (c : HttpConnection) : outcome HttpConnection :=
  x ← parse (ztake read_bytes (rbuffer_ c)) (request_parser_ c) (request_ c);
  let '(result, itr, p, r) := x in
  let c := set_request r p c in
  match result with
  | FINISH =>
      match getHeader (chars "Content-Length") (request_ c) with
      | None =>
          let c := write (set_response (buildResponse BAD_REQUEST) (set_conn_state CONN_ERROR c)) in
          read_buffer read_bytes 0 c
      | Some len =>
          n ← stoi len;
          let c := set_need_read n c in
          let content_offset := Z.of_nat itr in
          v ← read_from content_offset (read_bytes - content_offset) (rbuffer_ c);
          let c := set_request (addBuffer v (request_ c)) (request_parser_ c) c in
          read_buffer read_bytes content_offset (set_conn_state READ_BUFFER c)
      end
  | INTERMIDIATE => read_buffer read_bytes 0 (start AsyncRead c)
  | ERROR =>
      read_buffer read_bytes 0 (write (set_conn_state CONN_ERROR (set_response (buildResponse BAD_REQUEST) c)))
  end.
(** The completion handler of [read], with the bytes the socket stored at the start
    of [rbuffer_]: an error other than operation_aborted stops
    the connection. *)
Definition on_read (ec : option bool) (data : text) (c : HttpConnection) : outcome HttpConnection :=
  match ec with
  | Some aborted => Ok (if aborted : bool then c else start StopConnection c)
  | None =>
      let c := set_rbuffer (zsplice 0 data (rbuffer_ c)) c in
      let read_bytes := zlen data in
      match conn_state_ c with
      | PARSE => on_parse read_bytes c
      | READ_BUFFER => read_buffer read_bytes 0 c
      | READ_FINISH => Ok (read_finish c)
      | CONN_ERROR => Ok c
      end
  end.
End Handler.

(** ** Splitting *)
Fixpoint split_ref (d : byte) (s : text) : list text :=
  match s with
  | [] => [[]]
  | c :: t => if decide (c = d) then [] :: split_ref d t
              else match split_ref d t with x :: xs => (c :: x) :: xs | [] => [[c]] end
  end.

Lemma split_ref_last d a : d ∉ a -> split_ref d a = [a].
Proof.
  induction a as [|c a IH]; cbn; [done|]. intros [Hc Ha]%not_elem_of_cons.
  rewrite decide_False by congruence. by rewrite IH.
Qed.
Lemma split_ref_app d a b : d ∉ a -> split_ref d (a ++ d :: b) = a :: split_ref d b.
Proof.
  induction a as [|c a IH]; cbn; [by rewrite decide_True|]. intros [Hc Ha]%not_elem_of_cons.
  rewrite decide_False by congruence. by rewrite IH.
Qed.
Lemma split_at (s : text) d k : s !! k = Some d -> (forall j, (j < k)%nat -> s !! j <> Some d) ->
  s = take k s ++ d :: drop (S k) s /\ d ∉ take k s.
Proof.
  intros Hk Hlt. split; [by rewrite take_drop_middle|].
  intros (j & Hj)%list_elem_of_lookup. pose proof (lookup_lt_Some _ _ _ Hj) as Hl. rewrite length_take in Hl.
  rewrite lookup_take_lt in Hj by lia. apply (Hlt j); [lia | done].
Qed.

Lemma split_loop_ref s d fuel last_pos : (length (drop last_pos s) < fuel)%nat ->
  split_loop fuel s d last_pos (find_char s d last_pos) = split_ref d (drop last_pos s).
Proof.
  revert last_pos; induction fuel as [|fuel IH]; intros n Hf; [lia|].
  unfold find_char. pose proof (memchr_spec (drop n s) d) as Hm.
  destruct (memchr (drop n s) d) as [k|]; cbn [fmap option_fmap option_map split_loop].
  - destruct Hm as [Hk Hlt]. destruct (split_at _ _ _ Hk Hlt) as [Hs Hd].
    assert (Hlen : (k < length (drop n s))%nat) by by eapply lookup_lt_Some.
    replace (n + k - n)%nat with k by lia. rewrite Hs at 2. rewrite split_ref_app by done. f_equal.
    replace (drop (S k) (drop n s)) with (drop (n + k + 1) s) by (rewrite drop_drop; f_equal; lia).
    apply IH. rewrite length_drop in *. lia.
  - by rewrite split_ref_last.
Qed.
Lemma splitStringView_ref s d : s <> [] -> splitStringView s d = split_ref d s.
Proof. intros Hs. unfold splitStringView. destruct s; [done|]. apply (split_loop_ref _ _ _ 0). cbn. lia. Qed.

Fixpoint join (d : byte) (l : list text) : text :=
  match l with [] => [] | [x] => x | x :: xs => x ++ d :: join d xs end.
Lemma split_ref_spec d s : split_ref d s <> [] /\ join d (split_ref d s) = s /\ Forall (fun x => d ∉ x) (split_ref d s).
Proof.
  induction s as [|c s (Hne & Hj & Hf)]; cbn; [split; [done|]; split; [done|]; by repeat constructor; set_solver|].
  destruct (decide (c = d)) as [->|Hc].
  - split; [done|]. split; [|by constructor; [set_solver|]].
    destruct (split_ref d s) as [|x xs] eqn:E; [done|]. by rewrite <- Hj.
  - destruct (split_ref d s) as [|x xs] eqn:E; [done|]. apply Forall_cons in Hf as [Hx Hxs].
    split; [done|]. split; [destruct xs; cbn in *; congruence|]. constructor; [set_solver | done].
Qed.

(** [splitStringView] cuts a non-empty text at every delimiter: the pieces
    contain no delimiter and joining them with it gives the text back. *)
Lemma split_join s d : s <> [] ->
  join d (splitStringView s d) = s /\ Forall (fun x => d ∉ x) (splitStringView s d).
Proof. intros Hs. rewrite splitStringView_ref by done. apply split_ref_spec. Qed.

(** ** Parsing *)
Definition LF : byte := Byte.x0a.

Lemma std_search_first s k : kCRLF `prefix_of` drop k s ->
  (forall j, (j < k)%nat -> ~ kCRLF `prefix_of` drop j s) -> std_search s kCRLF = k /\ (k < length s)%nat.
Proof.
  intros Hk Hlt. pose proof (prefix_length _ _ Hk) as Hl. rewrite length_drop in Hl. cbn in Hl.
  destruct (std_search_spec s kCRLF) as (Hle & Hmin & Hfound). split; [|lia].
  set (m := std_search s kCRLF) in *. destruct (lt_eq_lt_dec m k) as [[H|H]|H]; [|done|].
  - exfalso. destruct Hfound as [E|E]; [lia | by apply (Hlt m)].
  - exfalso. by apply (Hmin k).
Qed.

(** A line without line feed ends at its CRLF. *)
Lemma find_crlf_line s from line rest :
  drop from s = line ++ kCRLF ++ rest -> LF ∉ line -> find_crlf s from = Some (from + length line)%nat.
Proof.
  intros Hs Hl. unfold find_crlf. rewrite Hs.
  destruct (std_search_first (line ++ kCRLF ++ rest) (length line)) as [E Hlt].
  - rewrite drop_app_length. by apply prefix_app_r.
  - intros j Hj Hp. assert (Hlf : (line ++ kCRLF ++ rest) !! S j = Some LF).
    { destruct Hp as [k Hk]. replace (S j) with (j + 1)%nat by lia. rewrite <- lookup_drop, Hk. done. }
    destruct (decide (S j < length line)%nat).
    + rewrite lookup_app_l in Hlf by done. apply Hl. by eapply list_elem_of_lookup_2.
    + rewrite lookup_app_r in Hlf by lia. replace (S j - length line)%nat with 0%nat in Hlf by lia. done.
  - rewrite E. case_decide; [lia | done].
Qed.

Definition header_line (h : text * text) : text := h.1 ++ Byte.x3a :: h.2.
Definition header_ok (h : text * text) : Prop := (Byte.x3a ∉ h.1) /\ (LF ∉ h.1) /\ (LF ∉ h.2).
(** What the parser keeps of a header value: the part before its first colon. *)
Fixpoint upto_colon (v : text) : text :=
  match v with
  | [] => []
  | c :: v => if decide (c = Byte.x3a) then [] else c :: upto_colon v
  end.
Definition kept (h : text * text) : text * text := (h.1, upto_colon h.2).
(** The value of the first header of that name. *)
Fixpoint first_value (key : text) (hs : list (text * text)) : option text :=
  match hs with
  | [] => None
  | h :: hs => if decide (h.1 = key) then Some (upto_colon h.2) else first_value key hs
  end.
Definition render_headers (hs : list (text * text)) : text := mjoin ((fun h => header_line h ++ kCRLF) <$> hs).
Definition start_line (m u v : text) : text := m ++ Byte.x20 :: u ++ Byte.x20 :: v.

Lemma render_headers_cons h hs : render_headers (h :: hs) = header_line h ++ kCRLF ++ render_headers hs.
Proof. unfold render_headers. cbn. by rewrite <- app_assoc. Qed.

Lemma upto_colon_whole v : Byte.x3a ∉ v -> upto_colon v = v.
Proof. induction v as [|c v IH]; cbn; [done|]. intros [Hc Hv]%not_elem_of_cons. rewrite decide_False by congruence. by rewrite IH. Qed.
Lemma split_upto v : exists rest, split_ref Byte.x3a v = upto_colon v :: rest.
Proof.
  induction v as [|c v [rest IH]]; cbn; [by eexists|]. destruct (decide (c = Byte.x3a)); [by eexists|]. rewrite IH. by eexists.
Qed.
Lemma parse_header h t r : header_ok h ->
  parseOneLine (header_line h) (mkParser t LINE_OPEN) r = Ok (INTERMIDIATE, mkParser t LINE_OPEN, addHeader (kept h) r).
Proof.
  intros (H1 & _). unfold parseOneLine. cbn [state_]. unfold header_line.
  rewrite decide_False by (by destruct h as [[] ?]).
  rewrite splitStringView_ref by (by destruct h as [[] ?]). rewrite split_ref_app by done.
  destruct (split_upto h.2) as [rest ->]. done.
Qed.
Lemma addHeaders_lookup hs r : let r' := foldl (fun r h => addHeader (kept h) r) r hs in
  version_ r' = version_ r /\ method_ r' = method_ r /\ uri_ r' = uri_ r /\ read_buffer_ r' = read_buffer_ r /\
  forall key, headers_ r' !! key = match headers_ r !! key with Some x => Some x | None => first_value key hs end.
Proof.
  revert r. induction hs as [|h hs IH]; intros r; cbn [foldl].
  - split_and!; try done. intros key. cbn. by destruct (headers_ r !! key).
  - destruct (IH (addHeader (kept h) r)) as (E1 & E2 & E3 & E4 & Hk). rewrite E1, E2, E3, E4.
    unfold addHeader, kept in *. cbn [fst snd] in *. destruct (headers_ r !! h.1) as [x|] eqn:Ex; cbn [headers_ version_ method_ uri_ read_buffer_] in *.
    + split_and!; try done. intros key. rewrite Hk. cbn [first_value]. destruct (decide (h.1 = key)) as [<-|]; [by rewrite Ex | done].
    + split_and!; try done. intros key. rewrite Hk. cbn [first_value]. destruct (decide (h.1 = key)) as [<-|].
      * by rewrite lookup_insert_eq, Ex.
      * by rewrite lookup_insert_ne.
Qed.
Lemma parse_start m u v t r : Byte.x20 ∉ m -> Byte.x20 ∉ u -> Byte.x20 ∉ v ->
  parseOneLine (start_line m u v) (mkParser t START) r =
    Ok (INTERMIDIATE, mkParser t LINE_OPEN, mkRequest v m u (read_buffer_ r) (headers_ r)).
Proof.
  intros Hm Hu Hv. unfold parseOneLine, start_line. cbn [state_].
  rewrite splitStringView_ref by (by destruct m). by rewrite !split_ref_app, split_ref_last by done.
Qed.

Lemma LF_not_header h : header_ok h -> LF ∉ header_line h.
Proof.
  intros (_ & H1 & H2). unfold header_line. rewrite elem_of_app, elem_of_cons.
  intros [?|[E|?]]; [done | discriminate E | done].
Qed.

(** One round of the loop on a line that is not the last. *)
Lemma parse_round fuel s n line rest x p p' r r' :
  drop n s = line ++ kCRLF ++ x :: rest -> LF ∉ line -> temp_line_ p = [] ->
  parseOneLine line p r = Ok (INTERMIDIATE, p', r') ->
  parse_loop (S fuel) s n (find_crlf s n) p r =
    parse_loop fuel s (n + length line + 2) (find_crlf s (n + length line + 2)) (mkParser [] (state_ p')) r'.
Proof.
  intros Hs Hl Ht Hp. rewrite (find_crlf_line s n line (x :: rest)) by done. cbn [parse_loop].
  rewrite Ht, Hs. replace (n + length line - n)%nat with (length line) by lia.
  rewrite take_app_length. cbn [app]. rewrite Hp. cbn [mbind outcome_bind].
  rewrite decide_True; [done|]. apply (f_equal length) in Hs. rewrite length_drop, !length_app in Hs. cbn in Hs. lia.
Qed.
Lemma drop_line s n line (rest : text) : drop n s = line ++ kCRLF ++ rest ->
  drop (n + length line + 2) s = rest.
Proof.
  intros Hs. replace (n + length line + 2)%nat with (n + (length line + 2))%nat by lia.
  rewrite <- drop_drop, Hs, <- drop_drop, drop_app_length. done.
Qed.

Lemma parse_headers hs fuel s n rest r :
  drop n s = render_headers hs ++ kCRLF ++ rest -> Forall header_ok hs -> (length hs < fuel)%nat ->
  parse_loop fuel s n (find_crlf s n) (mkParser [] LINE_OPEN) r =
    Ok (FINISH, (n + length (render_headers hs))%nat, mkParser [] LINE_OPEN, foldl (fun r h => addHeader (kept h) r) r hs).
Proof.
  revert fuel n r; induction hs as [|h hs IH]; intros fuel n r Hs Hok Hf; (destruct fuel as [|fuel]; [cbn in Hf; lia|]).
  - cbn in Hs. rewrite (find_crlf_line s n [] rest) by (done || set_solver). cbn [parse_loop temp_line_ length].
    replace (n + 0 - n)%nat with 0%nat by lia. rewrite take_0. done.
  - apply Forall_cons in Hok as [Hh Hok].
    assert (Hs' : exists x rest', render_headers hs ++ kCRLF ++ rest = x :: rest').
    { destruct (render_headers hs); cbn; eauto. }
    destruct Hs' as (x & rest' & Ex).
    assert (Hd : drop n s = header_line h ++ kCRLF ++ render_headers hs ++ kCRLF ++ rest).
    { rewrite Hs, render_headers_cons. by rewrite <- !app_assoc. }
    rewrite (parse_round fuel s n (header_line h) rest' x _ (mkParser [] LINE_OPEN) r (addHeader (kept h) r));
      [|by rewrite Hd, Ex | by apply LF_not_header | done | by apply parse_header].
    cbn [state_]. rewrite IH; [|by apply drop_line in Hd | done | cbn in Hf; lia].
    replace (n + length (render_headers (h :: hs)))%nat
      with (n + length (header_line h) + 2 + length (render_headers hs))%nat; [done|].
    rewrite render_headers_cons, !length_app. change (length kCRLF) with 2%nat. lia.
Qed.

(** The text of a request. *)
Definition render (m u v : text) (hs : list (text * text)) (body : text) : text :=
  start_line m u v ++ kCRLF ++ render_headers hs ++ kCRLF ++ body.

(** C29: a request delivered in one piece is parsed back.  When the method, URI and
    version contain no space, the header names no colon, and none of them nor the header
    values a line feed, [parse] ends with FINISH, the iterator at the CRLF that closes
    the header, the method, URI and version as sent, and for every name the map
    holds the value of the first header of that name, up to the first colon in that value
    (so whole when it has none: [upto_colon_whole]; a port is cut off:
    [host_port_cut]), and nothing else.  A request that arrives in several pieces is
    not parsed back: [partial_line_loses_bytes]. *)
Theorem parse_render m u v hs body :
  Byte.x20 ∉ m -> Byte.x20 ∉ u -> Byte.x20 ∉ v -> LF ∉ start_line m u v -> Forall header_ok hs ->
  exists r, parse (render m u v hs body) new_HttpParser new_HttpRequest =
    Ok (FINISH, length (start_line m u v ++ kCRLF ++ render_headers hs), mkParser [] LINE_OPEN, r) /\
    version_ r = v /\ method_ r = m /\ uri_ r = u /\ read_buffer_ r = [] /\
    forall key, headers_ r !! key = first_value key hs.
Proof.
  intros Hm Hu Hv Hl Hok. unfold parse. set (s := render m u v hs body).
  assert (Hs' : exists x rest', render_headers hs ++ kCRLF ++ body = x :: rest').
  { destruct (render_headers hs); cbn; eauto. }
  destruct Hs' as (x & rest' & Ex).
  assert (Hd : drop 0 s = start_line m u v ++ kCRLF ++ render_headers hs ++ kCRLF ++ body) by done.
  exists (foldl (fun r h => addHeader (kept h) r) (mkRequest v m u [] ∅) hs).
  split; [|exact (addHeaders_lookup hs (mkRequest v m u [] ∅))].
  rewrite (parse_round (length s) s 0 (start_line m u v) rest' x _ (mkParser [] LINE_OPEN) new_HttpRequest
    (mkRequest v m u [] ∅)); [|by rewrite Hd, Ex | done | done | by apply parse_start].
  cbn [state_]. apply drop_line in Hd.
  rewrite (parse_headers hs (length s) s _ body); [| done | done |].
  - replace (length (start_line m u v ++ kCRLF ++ render_headers hs))
      with (0 + length (start_line m u v) + 2 + length (render_headers hs))%nat; [done|].
    rewrite !length_app. change (length kCRLF) with 2%nat. lia.
  - assert (Hlen : (length hs <= length (render_headers hs))%nat).
    { clear. induction hs as [|h hs IH]; [done|]. rewrite render_headers_cons, !length_app. cbn [length kCRLF]. lia. }
    subst s. unfold render. rewrite !length_app. cbn. lia.
Qed.

Lemma parse_render_witness :
  exists r, parse (render (chars "GET") (chars "/a") (chars "HTTP/1.1") [(chars "Host", chars "x:8080"); (chars "Host", chars "y")] (chars "body"))
    new_HttpParser new_HttpRequest = Ok (FINISH, 38%nat, mkParser [] LINE_OPEN, r) /\
  method_ r = chars "GET" /\ headers_ r !! chars "Host" = Some (chars "x").
Proof.
  destruct (parse_render (chars "GET") (chars "/a") (chars "HTTP/1.1") [(chars "Host", chars "x:8080"); (chars "Host", chars "y")] (chars "body"))
    as (r & E & _ & Hm & _ & _ & Hh); try (apply (bool_decide_unpack _); vm_compute; exact I).
  exists r. split; [exact E|]. split; [exact Hm|]. rewrite (Hh (chars "Host")). vm_compute. reflexivity.
Defined.

(** A header value is cut at its first colon. *)
Lemma host_port_cut : exists n p r,
  parse (chars "GET / HTTP/1.1" ++ kCRLF ++ chars "Host: localhost:8080" ++ kCRLF ++ kCRLF) new_HttpParser new_HttpRequest = Ok (FINISH, n, p, r) /\
  headers_ r !! chars "Host" = Some (chars " localhost").
Proof. eexists _, _, _. split; vm_compute; reflexivity. Qed.

(** ** Paths *)

(** A path that passes the check is absolute and has no two dots in a row
    anywhere, so that it cannot climb out of the document root. *)
Theorem isValidatePath_safe path :
  isValidatePath path = true <->
  head path = Some Byte.x2f /\ forall j, ~ dotdot `prefix_of` drop j path.
Proof.
  unfold isValidatePath, contains. destruct path as [|c path]; [split; [done | by intros [? _]]|].
  destruct (std_search_spec (c :: path) dotdot) as (Hle & Hmin & Hfound).
  set (k := std_search (c :: path) dotdot) in *. rewrite andb_true_iff, negb_true_iff, bool_decide_eq_true, bool_decide_eq_false.
  cbn [head]. split.
  - intros [-> Hk]. split; [done|]. intros j Hj. apply dec_stable in Hk.
    destruct (decide (j < k)%nat) as [H|H]; [by apply (Hmin j)|].
    apply prefix_length in Hj. rewrite length_drop in Hj. change (length dotdot) with 2%nat in Hj. lia.
  - intros [[= ->] Hj]. split; [done|]. intros Hk. apply Hk. destruct Hfound as [|Hp]; [done|]. by apply Hj in Hp.
Qed.

(** ** What the handlers do *)

(** [decodeUri] leaves the path empty, so every request is refused, and the
    refusal carries neither a status line nor the status: the same empty
    response for every request. *)
Lemma handleRequest_always_refuses root fs to_string c :
  handleRequest root fs to_string c = set_response new_HttpResponse c.
Proof. reflexivity. Qed.

(** A first part of a request is answered at once, besides starting the next read. *)
Lemma partial_request_is_answered :
  exists c, on_read [] (fun _ => None) (fun _ => chars "0") None (chars "GET / HTTP/1.1") new_HttpConnection = Ok c /\
    started c = [AsyncRead; AsyncWrite (chars "Content-Length:0" ++ kCRLF ++ kCRLF) []].
Proof. eexists. split; [vm_compute; reflexivity | reflexivity]. Qed.

(** A part without CRLF loses its first two bytes. *)
Lemma partial_line_loses_bytes :
  parse (chars "GET / HT") new_HttpParser new_HttpRequest =
    Ok (INTERMIDIATE, 8%nat, mkParser (chars "T / HT") START, new_HttpRequest).
Proof. vm_compute. reflexivity. Qed.
(** A part that ends with CRLF, or a header line without colon, is undefined behaviour. *)
Lemma partial_at_crlf_undefined :
  parse (chars "GET / HTTP/1.1" ++ kCRLF) new_HttpParser new_HttpRequest = Fault (Undefined "iterator past the end").
Proof. vm_compute. reflexivity. Qed.
Lemma header_without_colon_undefined :
  parse (chars "GET / HTTP/1.1" ++ kCRLF ++ chars "x" ++ kCRLF ++ kCRLF) new_HttpParser new_HttpRequest =
    Fault (Undefined "vector index out of range").
Proof. vm_compute. reflexivity. Qed.
