(* ===== verification/HttpServer.v ===== *)
(** * The accept loop of the HTTP server (src/http/HttpServer.cc, and the completion
    handlers of src/http/HttpConnection.cc that end a connection)

    The server runs in one thread: asio calls a completion handler for every operation
    that was started, and the handlers start the next ones.  [ConnectionManager] has no
    body in the repository: it is an interface with the two calls the server makes.
    asio's [local_endpoint] is an argument. *)
From S2P Require Import Prelude LogStream Http.

Class ConnectionManager (M Sock : Type) := {
  mgr_start : Sock -> M -> M;           (** [connections_.start(make_shared<HttpConnection>(socket, ...))] *)
  mgr_stopAll : M -> M;                 (** [stopAllConnection] *)
}.

Section HttpServer.
Context {M Sock : Type} `{ConnectionManager M Sock}.
(** [accepter_.local_endpoint()] of an open and of a closed acceptor. *)
Context (local_endpoint : bool -> outcome text).

Record HttpServer : Type := mkHttpServer {
  is_open : bool;                       (** [accepter_.is_open()] *)
  accepting : nat;                      (** async_accept operations under way *)
  waiting : bool;                       (** async_wait for a signal under way *)
  connections_ : M;
}.
Definition accept (s : HttpServer) : HttpServer := mkHttpServer (is_open s) (S (accepting s)) (waiting s) (connections_ s).
Definition handleSignal (s : HttpServer) : HttpServer := mkHttpServer (is_open s) (accepting s) true (connections_ s).
(** [resolved]: the name of the address could be resolved. *)
Definition new_HttpServer (resolved : bool) (m : M) : outcome HttpServer :=
  let s := handleSignal (mkHttpServer false 0 false m) in
  if resolved then Ok (accept (mkHttpServer true (accepting s) (waiting s) (connections_ s)))
  else Fault (Exception "resolve").

(** The completion handlers.  [ec] tells an error of the accept. *)
Definition on_accept (ec : bool) (socket : Sock) (s : HttpServer) : outcome HttpServer :=
  let s := mkHttpServer (is_open s) (pred (accepting s)) (waiting s) (connections_ s) in
  if negb (is_open s) then
    _ ← local_endpoint (is_open s);
    Ok s
  else
    let s := if negb ec then mkHttpServer (is_open s) (accepting s) (waiting s) (mgr_start socket (connections_ s)) else s in
    Ok (accept s).
Definition on_signal (s : HttpServer) : HttpServer :=
  mkHttpServer false (accepting s) false (mgr_stopAll (connections_ s)).

Inductive server_event : Type :=
  | Accepted (ec : bool) (socket : Sock)
  | Signal.
Definition exec_server (x : server_event) (s : HttpServer) : outcome HttpServer :=
  match x with
  | Accepted ec socket => if (accepting s =? 0)%nat then Ok s else on_accept ec socket s
  | Signal => if waiting s then Ok (on_signal s) else Ok s
  end.

(** The sockets accepted without an error. *)
Definition accepted_sockets (l : list server_event) : list Sock :=
  omap (fun x => match x with Accepted false s => Some s | _ => None end) l.
Definition is_accept (x : server_event) : Prop := match x with Accepted _ _ => True | Signal => False end.

Lemma accept_run l s : Forall is_accept l -> is_open s = true -> accepting s = 1%nat -> exists s', ofold exec_server l s = Ok s' /\
  is_open s' = true /\ accepting s' = 1%nat /\ waiting s' = waiting s /\
  connections_ s' = foldl (fun m socket => mgr_start socket m) (connections_ s) (accepted_sockets l).
Proof.
  revert s. induction l as [|x l IH]; intros s Hl Ho Ha; cbn [ofold]; [by exists s|].
  inversion Hl as [|? ? Hx Hl']; subst. destruct x as [ec socket|]; [|done]. cbn [exec_server]. rewrite Ha. cbn [Nat.eqb].
  unfold on_accept. cbn [is_open]. rewrite Ho, Ha. cbn [negb mbind outcome_bind].
  destruct ec; cbn [negb]; (match goal with |- context [ofold exec_server l ?s1] => destruct (IH s1 Hl') as (s' & -> & Ho' & Ha' & Hw' & Hc'); [done | done |] end);
    exists s'; split_and!; try done.
Qed.

(** The accept loop.  As long as no signal comes, whatever sequence of successful
    and failed accepts asio reports, the handlers throw nothing, the acceptor stays open
    with exactly one accept under way, and every socket accepted without an error was
    handed to the connection manager exactly once, in the order of acceptance. *)
Theorem http_accept_loop l m s0 : new_HttpServer true m = Ok s0 -> Forall is_accept l ->
  exists s, ofold exec_server l s0 = Ok s /\ is_open s = true /\ accepting s = 1%nat /\ waiting s = true /\
    connections_ s = foldl (fun m socket => mgr_start socket m) m (accepted_sockets l).
Proof. intros [= <-] Hl. destruct (accept_run l (mkHttpServer true 1 true m) Hl) as (s & E & ? & ? & Hw & Hc); [done | done |]. by exists s. Qed.

(** What asio documents: on a closed acceptor [local_endpoint] throws. *)
Definition endpoint_closed : Prop := exists what, local_endpoint false = Fault (Exception what).
(** A signal closes the acceptor, which completes the accept under way; its handler asks
    the closed acceptor for its address and throws out of [run]. *)
Lemma http_shutdown_throws s socket : endpoint_closed -> is_open s = true -> accepting s = 1%nat -> waiting s = true ->
  exists what, ofold exec_server [Signal; Accepted true socket] s = Fault (Exception what).
Proof.
  intros (what & Hw) Ho Ha Hs. exists what. cbn [ofold exec_server]. rewrite Hs. cbn [mbind outcome_bind on_signal accepting is_open]. rewrite Ha. cbn [Nat.eqb].
  unfold on_accept. cbn. by rewrite Hw.
Qed.
End HttpServer.

(** ** The end of a connection *)
(** [HttpConnection::start]. *)
Definition start_connection (c : HttpConnection) : HttpConnection := Http.start AsyncRead c.
(** The completion handler of [write]: whether the socket is shut down, and the
    connection.  [write_bytes] is not looked at. *)
Definition on_write (ec : bool) (write_bytes : Z) (c : HttpConnection) : bool * HttpConnection :=
  if negb ec then (true, Http.start StopConnection c) else (false, c).
#[local] Instance list_manager : ConnectionManager (list Z) Z := { mgr_start s m := m ++ [s]; mgr_stopAll _ := [] }.
Lemma http_accept_loop_witness : exists s0 s, new_HttpServer true ([] : list Z) = Ok s0 /\
  ofold (exec_server (fun o : bool => if o then Ok (chars "0.0.0.0") else Fault (Exception "bad_descriptor")))
    [Accepted false 5; Accepted true 0; Accepted false 7] s0 = Ok s /\ connections_ s = [5; 7].
Proof.
  destruct (http_accept_loop (fun o : bool => if o then Ok (chars "0.0.0.0") else Fault (Exception "bad_descriptor"))
    [Accepted false 5; Accepted true 0; Accepted false 7] [] (mkHttpServer true 1 true [])) as (s & E & _ & _ & _ & Hc); [reflexivity | by repeat constructor |].
  eexists _, s. split; [reflexivity|]. split; [exact E|]. exact Hc.
Defined.
