(* ===== verification/File.v ===== *)
(** * Files (src/src/file/File.h, File.cc, FileOpt.h, FileOpt.cc)

    The C library and the kernel are arguments: what one call of fopen, fwrite,
    open, fstat, read or pread does.  An [AppendFile] is the bytes that went
    through its FILE, how many of them were there at the last fflush or fclose (the
    code does not look at what these return, so this says that the flush was asked for,
    not that it succeeded), and the counter [writtenBytes_]. *)
From S2P Require Import Prelude.

(** ** AppendFile *)
Record AppendFile : Type := mkAppendFile {
  stored : list byte;
  flushed : Z;
  writtenBytes_ : Z;
}.
(** [opened]: whether fopen succeeded. *)
Definition new_AppendFile (opened : bool) : outcome AppendFile :=
  _ ← massert opened "fp_"; Ok (mkAppendFile [] 0 0).

(** fwrite_unlocked: the number of bytes taken and ferror afterwards. *)
Definition fwrite_t : Type := list byte -> Z * bool.

Definition Write (fw : fwrite_t) (d : list byte) (f : AppendFile) : Z * bool * AppendFile :=
  let '(n, err) := fw d in (n, err, mkAppendFile (stored f ++ ztake n d) (flushed f) (writtenBytes_ f)).

(** The loop of [Append]: [written] bytes of [line] are done.  [fuel] bounds the
    rounds; [None] means that it ran out. *)
Fixpoint append_loop (fuel : nat) (fw : fwrite_t) (line : list byte) (written : Z) (f : AppendFile)
    : option (Z * AppendFile) :=
  if written =? zlen line then Some (written, f)
  else match fuel with
       | O => None
       | S fuel =>
           let remain := zlen line - written in
           let '(n, err, f) := Write fw (zdrop written line) f in
           if negb (n =? remain) && err then Some (written, f)
           else append_loop fuel fw line (written + n) f
       end.
(** A short count comes with an error, so that two rounds are enough
    ([append_loop_total]). *)
Definition Append (fw : fwrite_t) (line : list byte) (f : AppendFile) : option AppendFile :=
  '(written, f) ← append_loop 2 fw line 0 f;
  Some (mkAppendFile (stored f) (flushed f) (writtenBytes_ f + written)).
Definition Flush (f : AppendFile) : AppendFile :=
  mkAppendFile (stored f) (zlen (stored f)) (writtenBytes_ f).
(** fclose(3) flushes. *)
Definition destroy_AppendFile (f : AppendFile) : AppendFile := Flush f.
(** fflush or fclose was called after the last byte. *)
Definition all_flushed (f : AppendFile) : Prop := flushed f = zlen (stored f).
Definition WrittenBytes (f : AppendFile) : Z := writtenBytes_ f.

(** fwrite takes at most what it is given, and fewer only on error. *)
Definition fwrite_ok (fw : fwrite_t) : Prop :=
  forall d, 0 <= fst (fw d) <= zlen d /\ (fst (fw d) < zlen d -> snd (fw d) = true).

Lemma append_loop_total fw line f : fwrite_ok fw ->
  let '(n, err) := fw line in
  append_loop 2 fw line 0 f =
    Some (if n =? zlen line then zlen line else 0, mkAppendFile (stored f ++ ztake n line) (flushed f) (writtenBytes_ f)) \/
  (line = [] /\ append_loop 2 fw line 0 f = Some (0, f)).
Proof.
  intros Hfw. destruct (fw line) as [n err] eqn:E. pose proof (Hfw line) as [Hn Hs]. rewrite E in Hn, Hs.
  cbn in Hn, Hs. cbn [append_loop]. destruct (Z.eqb_spec 0 (zlen line)) as [Hz|Hz].
  - right. split; [by apply zlen_zero | done].
  - left. unfold Write at 1. rewrite zdrop_0, E, Z.sub_0_r, Z.add_0_l.
    destruct (Z.eqb_spec n (zlen line)) as [->|Hne]; cbn [negb andb].
    + done.
    + by rewrite Hs by lia.
Qed.

(** The bytes of a line that reach the file. *)
Definition taken (fw : fwrite_t) (line : list byte) : list byte := ztake (fst (fw line)) line.

Lemma AppendFile_total fw line f : fwrite_ok fw ->
  exists w, Append fw line f = Some (mkAppendFile (stored f ++ taken fw line) (flushed f) (writtenBytes_ f + w)) /\
    (taken fw line = line -> w = zlen line) /\ 0 <= w <= zlen line.
Proof.
  intros Hfw. pose proof (append_loop_total fw line f Hfw) as H. unfold taken.
  pose proof (Hfw line) as [Hn _]. destruct (fw line) as [n err]. cbn [fst] in *. unfold Append.
  pose proof (zlen_nonneg line). destruct H as [->|[-> ->]]; cbn [mbind option_bind].
  - eexists. split; [done|]. destruct (Z.eqb_spec n (zlen line)); [split; [done | lia]|]. split; [|lia].
    intros Hx. apply (f_equal zlen) in Hx. rewrite zlen_ztake in Hx. lia.
  - exists 0. unfold ztake. rewrite take_nil, app_nil_r. by destruct f.
Qed.

(** ** FileReader *)
Definition kBufferSize : Z := 16 * 1024.

(** [read off n]: read(2) of at most [n] bytes at offset [off]: an error number
    or the bytes. *)
Fixpoint read_loop (fuel : nat) (read : Z -> Z -> Z + list byte) (maxSize : Z) (content : list byte) (err : Z)
    : option (list byte * Z) :=
  if zlen content <? maxSize then
    match fuel with
    | O => None
    | S fuel =>
        let toRead := Z.min (maxSize - zlen content) kBufferSize in
        match read (zlen content) toRead with
        | inr [] => Some (content, err)
        | inr d => read_loop fuel read maxSize (content ++ d) err
        | inl errno => Some (content, errno)
        end
    end
  else Some (content, err).

(** fstat and the out-parameters: [None] is a null pointer or a variable left as it
    was. *)
Inductive file_type : Type := S_IFREG | S_IFDIR | S_IFOTHER.
Record stat : Type := mkStat { st_mode : file_type; st_size : Z; st_mtime : Z; st_ctime : Z }.
Definition outs : Type := option Z * option Z * option Z.
Definition read_stat (fstat : Z + stat) (modifyTime createTime : bool) (err : Z) : Z * outs :=
  match fstat with
  | inr statbuf =>
      ((match st_mode statbuf with S_IFDIR => EISDIR | _ => err end),
       ((match st_mode statbuf with S_IFREG => Some (st_size statbuf) | _ => None end),
        (if modifyTime then Some (st_mtime statbuf) else None),
        (if createTime then Some (st_ctime statbuf) else None)))
  | inl errno => (errno, (None, None, None))
  end.
(** A [FileReader] is [fd_] and [err_]; open(2) gives a descriptor or an error
    number.  [fileSize], [modifyTime], [createTime] say which pointers are not null. *)
Definition FileReader : Type := Z * Z.
Definition new_FileReader (open_ : Z + Z) : FileReader :=
  match open_ with inr fd => (fd, 0) | inl errno => (-1, errno) end.
(** The destructor: the descriptors it closes. *)
Definition destroy_FileReader (r : FileReader) : list Z := if 0 <=? r.1 then [r.1] else [].
Definition ReadToString (fstat : Z + stat) (read : Z -> Z -> Z + list byte) (r : FileReader) (maxSize : Z)
    (fileSize modifyTime createTime : bool) (content : list byte) : option (list byte * Z * outs) :=
  let '(fd_, err) := r in
  if 0 <=? fd_ then
    let '(err, o) := if fileSize then read_stat fstat modifyTime createTime err else (err, (None, None, None)) in
    '(content, err) ← read_loop (Z.to_nat maxSize) read maxSize [] err;
    Some (content, err, o)
  else Some (content, err, (None, None, None)).
(** The last component: the descriptors closed when the reader goes. *)
Definition ReadFile (open_ : Z + Z) (fstat : Z + stat) (read : Z -> Z -> Z + list byte) (maxSize : Z)
    (fileSize modifyTime createTime : bool) (content : list byte) : option (list byte * Z * outs * list Z) :=
  let file := new_FileReader open_ in
  res ← ReadToString fstat read file maxSize fileSize modifyTime createTime content;
  Some (res, destroy_FileReader file).
(** [ReadToBuffer]: [pread n] is pread of at most [n] bytes at offset 0; the bytes
    put in [buf_], the terminator included, the size and the error number. *)
Definition ReadToBuffer (pread : Z -> Z + list byte) (r : FileReader) (size : bool)
    : list byte * option Z * Z :=
  let '(fd_, err) := r in
  if 0 <=? fd_ then
    match pread (kBufferSize - 1) with
    | inr d => (d ++ [Byte.x00], (if size then Some (i32 (zlen d)) else None), err)
    | inl errno => ([], None, errno)
    end
  else ([], None, err).

(** read(2) on a regular file: some bytes of it from the offset on, none only at
    its end. *)
Definition reads (read : Z -> Z -> Z + list byte) (file : list byte) : Prop :=
  forall off n, 0 <= off -> 0 < n -> exists d, read off n = inr d /\ d `prefix_of` zdrop off file /\
    zlen d <= n /\ (d = [] -> zlen file <= off).

Lemma read_loop_prefix read file maxSize content err fuel :
  reads read file -> 0 <= maxSize -> content `prefix_of` file -> zlen content <= maxSize ->
  (Z.to_nat (maxSize - zlen content) <= fuel)%nat ->
  read_loop fuel read maxSize content err = Some (ztake maxSize file, err).
Proof.
  intros Hr Hm. revert content; induction fuel as [|fuel IH]; intros content [rest ->] Hc Hf; cbn [read_loop].
  - destruct (Z.ltb_spec (zlen content) maxSize); [lia|].
    replace maxSize with (zlen content) by lia. by rewrite ztake_app_len.
  - destruct (Z.ltb_spec (zlen content) maxSize) as [Hlt|Hge].
    2:{ replace maxSize with (zlen content) by lia. by rewrite ztake_app_len. }
    destruct (Hr (zlen content) (Z.min (maxSize - zlen content) kBufferSize)) as (d & -> & Hp & Hl & He);
      [apply zlen_nonneg | unfold kBufferSize; lia |].
    rewrite zdrop_app_len in Hp. destruct d as [|b d].
    + assert (Hx := He eq_refl). rewrite zlen_app in Hx. assert (rest = []) as ->.
      { apply zlen_zero. pose proof (zlen_nonneg rest). lia. }
      rewrite app_nil_r. by rewrite ztake_all by lia.
    + apply IH.
      * by apply prefix_app.
      * rewrite zlen_app. lia.
      * rewrite zlen_app, zlen_cons in *. pose proof (zlen_nonneg d). lia.
Qed.

(** [ReadFile] on a regular file returns its first [maxSize] bytes, error 0 and
    the size that fstat gave, however read(2) cuts the data (the loop ends), and closes
    the descriptor it opened; on a file that cannot be opened it leaves the string alone,
    closes nothing and returns errno. *)
Theorem ReadFile_reads fstat read file maxSize content open_ sz mtime ctime :
  reads read file -> 0 <= maxSize -> fstat = inr (mkStat S_IFREG sz mtime ctime) ->
  (forall fd, open_ = inr fd -> 0 <= fd) ->
  ReadFile open_ fstat read maxSize true true true content =
    match open_ with
    | inr fd => Some (ztake maxSize file, 0, (Some sz, Some mtime, Some ctime), [fd])
    | inl errno => Some (content, errno, (None, None, None), [])
    end.
Proof.
  intros Hr Hm -> Hfd. destruct open_ as [errno|fd]; [done|]. unfold ReadFile, ReadToString, new_FileReader, destroy_FileReader, read_stat.
  cbn [fst]. rewrite (proj2 (Z.leb_le 0 fd) (Hfd fd eq_refl)).
  rewrite (read_loop_prefix read file); [done | done | done | apply prefix_nil | done |].
  rewrite zlen_nil, Z.sub_0_r. done.
Qed.

(** A read that delivers two bytes at a time. *)
Definition ex_read (off n : Z) : Z + list byte := inr (ztake (Z.min n 2) (zdrop off (chars "hello"))).
Lemma ex_reads : reads ex_read (chars "hello").
Proof.
  intros off n Ho Hn. eexists. split; [done|]. set (z := zdrop off (chars "hello")). split_and!.
  - exists (zdrop (Z.min n 2) z). by rewrite ztake_zdrop.
  - rewrite zlen_ztake. pose proof (zlen_nonneg z). lia.
  - intros E. apply (f_equal zlen) in E. rewrite zlen_ztake in E. subst z. rewrite zlen_zdrop in E.
    change (zlen (chars "hello")) with 5 in *. unfold zlen in E. cbn [length] in E. lia.
Qed.
Lemma ReadFile_reads_witness :
  ReadFile (inr 3) (inr (mkStat S_IFREG 5 7 8)) ex_read 4 true true true [] =
    Some (chars "hell", 0, (Some 5, Some 7, Some 8), [3]).
Proof.
  apply (ReadFile_reads _ ex_read (chars "hello") 4 [] (inr 3) 5 7 8 ex_reads ltac:(lia) eq_refl).
  intros fd [= <-]. lia.
Defined.

(** ** FileOpt.h, FileOpt.cc
    std::filesystem::file_size throws when the size cannot be had. *)
Definition FileSize (file_size : Z + Z) : outcome Z :=
  match file_size with inr n => Ok n | inl _ => Fault (Exception "filesystem_error") end.

(** [GetFileContent]: [is_open] tells whether the stream could be opened; then a string
    of [fileSize] characters '0' and the loop, in which [readNum] never changes ([None]:
    out of fuel). *)
Definition kReadBufSize : Z := 1024 * 5.
Fixpoint get_loop (fuel : nat) (readNum : Z) (content : list byte) : option (list byte) :=
  if 0 <? readNum then match fuel with O => None | S fuel => get_loop fuel readNum content end
  else Some content.
Definition GetFileContent (fuel : nat) (is_open : bool) (file_size : Z + Z) : outcome (option (list byte)) :=
  if is_open then
    fileSize ← FileSize file_size;
    Ok (get_loop fuel (fileSize / kReadBufSize) (replicate (Z.to_nat fileSize) Byte.x30))
  else Fault (Exception "exception").
Lemma GetFileContent_broken fuel is_open file_size : (forall n, file_size = inr n -> 0 <= n) ->
  GetFileContent fuel is_open file_size =
    match is_open, file_size with
    | true, inr n => Ok (if n <? kReadBufSize then Some (replicate (Z.to_nat n) Byte.x30) else None)
    | true, inl _ => Fault (Exception "filesystem_error")
    | false, _ => Fault (Exception "exception")
    end.
Proof.
  intros Hn. unfold GetFileContent, FileSize. destruct is_open; [|done]. destruct file_size as [e|n]; [done|].
  specialize (Hn n eq_refl). cbn [mbind outcome_bind]. f_equal. set (c := replicate _ _). clearbody c.
  assert (Hd : (0 <? n / kReadBufSize) = negb (n <? kReadBufSize)).
  { destruct (Z.ltb_spec n kReadBufSize).
    - by rewrite Z.div_small by (unfold kReadBufSize in *; lia).
    - apply Z.ltb_lt. apply Z.div_str_pos. unfold kReadBufSize in *. lia. }
  destruct (n <? kReadBufSize); cbn in Hd.
  - by destruct fuel; cbn; rewrite Hd.
  - induction fuel as [|fuel IH]; cbn; rewrite Hd; done.
Qed.
