(* ===== verification/Process.v ===== *)
(** * Information about the process (src/src/unix/ProcssInfo.h, ProcssInfo.cc)

    What the kernel answers is a record of arguments; the files under /proc are read
    with [ReadFile] of File.v, and the directories with scandir, whose filters count or
    collect entries and select none. *)
From Stdlib Require Import Sorting.Sorted.
From stdpp Require Import sorting.
From S2P Require Import Prelude LogStream CString Time Calendar Thread File.

Record proc_env : Type := mkEnv {
  getpid : Z;
  getuid : Z;
  geteuid : Z;
  gettid : Z;
  getpwuid : Z -> option (list byte);                       (** the login name, if there is an entry *)
  gethostname : option (list byte);                          (** the 256 characters filled in, or an error *)
  open_file : list byte -> Z + Z;
  read_file : list byte -> Z -> Z -> Z + list byte;          (** path, offset, count *)
  readlink : Z + list byte;
  scandir : list byte -> Z + list (list byte);               (** the names in a directory *)
  getrlimit : Z + Z;                                         (** rlim_cur *)
  clock_ticks : Z;
  page_size : Z;
  start_time : Timestamp;
}.

Section Process.
Variable e : proc_env.

Definition Pid : Z := getpid e.
Definition Uid : Z := getuid e.
Definition Euid : Z := geteuid e.
Definition StartTime : Timestamp := start_time e.
Definition ClockTicksPerSecond : Z := i32 (clock_ticks e).
Definition PageSize : Z := i32 (page_size e).
(** NDEBUG is not defined. *)
Definition IsDebugBuild : bool := true.

Definition PidString : outcome (list byte) :=
  d ← Convert Pid; '(buf, _) ← snprintf (replicate 32 Byte.x00) 32 d; Ok (cstr buf).
Definition Username : list byte :=
  match getpwuid e Uid with Some name => name | None => chars "unknownUser" end.
Definition Hostname : outcome (list byte) :=
  match gethostname e with
  | Some buf => buf ← copy_into 255 [Byte.x00] buf; Ok (cstr buf)
  | None => Ok (chars "unknownhost")
  end.

(** ** Files *)
(** The results of [ReadFile] into an empty string; the error number is dropped. *)
Definition read_proc (path : list byte) : option (list byte) :=
  '(content, _, _, _) ← ReadFile (open_file e path) (inl 0) (read_file e path) 65536 false false false []; Some content.
Definition ProcStatus : option (list byte) := read_proc (chars "/proc/self/status").
Definition ProcStat : option (list byte) := read_proc (chars "/proc/self/stat").
Definition ThreadStat (t : tls) : outcome (option (list byte) * tls) :=
  '(id, t) ← Tid (gettid e) t;
  d ← Convert id;
  '(buf, _) ← snprintf (replicate 64 Byte.x00) 64 (chars "/proc/self/task/" ++ d ++ chars "/stat");
  Ok (read_proc (cstr buf), t).
Definition ExePath : list byte :=
  match readlink e with
  | inr d => if 0 <? zlen d then ztake 1024 d else []
  | inl _ => []
  end.

(** The name between the first opening and the last closing parenthesis. *)
Definition Procname_of (stat : list byte) : list byte :=
  match find_char Byte.x28 stat, rfind_char Byte.x29 stat with
  | Some lp, Some rp => if lp <? rp then zslice (lp + 1) (i32 (rp - lp - 1)) stat else []
  | _, _ => []
  end.
Definition Procname : option (list byte) := stat ← ProcStat; Some (Procname_of stat).

Definition NumThreads : option (outcome Z) :=
  status ← ProcStatus;
  Some (match find_sub (chars "Threads:") status with
        | Some pos => atoi (zdrop (pos + 8) status)
        | None => Ok 0
        end).

(** ** Directories *)
(** scandir asks the filter about every entry; [sel] are the entries it keeps. *)
Definition ScanDir {S} (dirpath : list byte) (filter : list byte -> S -> outcome (bool * S)) (s : S) : outcome (Z * S) :=
  match scandir e dirpath with
  | inl _ => Ok (-1, s)
  | inr names =>
      '(sel, s) ← ofold (fun d '(sel, s) => '(k, s) ← filter d s; Ok ((if (k : bool) then sel ++ [d] else sel), s)) names ([], s);
      _ ← massert (bool_decide (sel = [])) "namelist == nullptr";
      Ok (zlen sel, s)
  end.
Definition starts_with_digit (d_name : list byte) : bool := match d_name with c :: _ => isdigit c | [] => false end.
(** The counter and the vector are thread-local variables. *)
Definition FdDirFilter (d_name : list byte) (tNumOpenedFiles : Z) : outcome (bool * Z) :=
  if starts_with_digit d_name then n ← sint_checked 32 (tNumOpenedFiles + 1); Ok (false, n) else Ok (false, tNumOpenedFiles).
Definition TaskDirFilter (d_name : list byte) (tPids : list Z) : outcome (bool * list Z) :=
  if starts_with_digit d_name then p ← atoi d_name; Ok (false, tPids ++ [p]) else Ok (false, tPids).
Definition OpenedFiles : outcome Z := '(_, n) ← ScanDir (chars "/proc/self/fd") FdDirFilter 0; Ok n.
Definition MaxOpenFiles : outcome Z :=
  match getrlimit e with
  | inl _ => OpenedFiles
  | inr rlim_cur => Ok (i32 rlim_cur)
  end.
Definition Threads : outcome (list Z) :=
  '(_, result) ← ScanDir (chars "/proc/self/task") TaskDirFilter []; Ok (merge_sort Z.le result).
End Process.

(** ** Reading /proc *)
(** The file at [path] can be opened and has the contents [file]. *)
Definition has_file (e : proc_env) (path file : list byte) : Prop :=
  (exists fd, 0 <= fd /\ open_file e path = inr fd) /\ reads (read_file e path) file /\ zlen file <= 65536.

Lemma read_proc_file e path file : has_file e path file -> read_proc e path = Some file.
Proof.
  intros ((fd & Hfd & Ho) & Hr & Hl). unfold read_proc, ReadFile, ReadToString, new_FileReader. rewrite Ho. cbn [mbind option_bind].
  rewrite (proj2 (Z.leb_le 0 fd) Hfd).
  rewrite (read_loop_prefix _ file); try done; try apply prefix_nil.
  cbn. by rewrite ztake_all.
Qed.

Lemma Procname_of_stat a name rest :
  Byte.x28 ∉ a -> Byte.x29 ∉ rest -> zlen name < 2 ^ 31 ->
  Procname_of (a ++ [Byte.x28] ++ name ++ [Byte.x29] ++ rest) = name.
Proof.
  intros Ha Hr Hn. pose proof (zlen_nonneg name). unfold Procname_of. cbn [app].
  rewrite find_char_app by done.
  assert (E : a ++ Byte.x28 :: name ++ Byte.x29 :: rest = (a ++ Byte.x28 :: name) ++ Byte.x29 :: rest) by (by rewrite <- app_assoc).
  rewrite E at 1. rewrite rfind_char_app by done. rewrite zlen_app, zlen_cons.
  rewrite (proj2 (Z.ltb_lt _ _)) by lia. replace (zlen a + (1 + zlen name) - zlen a - 1) with (zlen name) by lia.
  unfold i32. rewrite sint_small by lia. unfold zslice.
  assert (E2 : a ++ Byte.x28 :: name ++ Byte.x29 :: rest = (a ++ [Byte.x28]) ++ name ++ Byte.x29 :: rest) by (by rewrite <- app_assoc).
  rewrite E2. replace (zlen a + 1) with (zlen (a ++ [Byte.x28])) by (rewrite zlen_app; done).
  by rewrite zdrop_app_len, ztake_app_len.
Qed.

(** [Procname] finds the name of the process.  The kernel prints
    "pid (name) state ..."; whatever characters the name has, parentheses and spaces
    included, [Procname] returns exactly it, however read(2) cuts the file. *)
Theorem Procname_exact e pid name rest :
  has_file e (chars "/proc/self/stat") (pid ++ chars " " ++ [Byte.x28] ++ name ++ [Byte.x29] ++ rest) ->
  Forall is_digit pid -> Byte.x29 ∉ rest ->
  Procname e = Some name.
Proof.
  intros Hf Hp Hr. unfold Procname, ProcStat. rewrite (read_proc_file _ _ _ Hf). cbn [mbind option_bind].
  destruct Hf as (_ & _ & Hl). rewrite !zlen_app in Hl. pose proof (zlen_nonneg pid). pose proof (zlen_nonneg (chars " ")).
  pose proof (zlen_nonneg rest). pose proof (zlen_nonneg [Byte.x28]). pose proof (zlen_nonneg [Byte.x29]).
  rewrite app_assoc. rewrite Procname_of_stat; [done | | done | lia].
  intros Hin. apply elem_of_app in Hin as [Hin|Hin]; [|apply list_elem_of_singleton in Hin; done].
  rewrite Forall_forall in Hp. apply Hp in Hin. unfold is_digit, digit_of in Hin. cbn in Hin. lia.
Qed.

(** read(2) that serves a file a few bytes at a time. *)
Definition serve (file : list byte) (off n : Z) : Z + list byte := inr (ztake (Z.min n 5) (zdrop off file)).
Lemma serve_reads file : reads (serve file) file.
Proof.
  intros off n Ho Hn. eexists. split; [reflexivity|]. split; [apply prefix_take|]. rewrite zlen_ztake. split; [lia|].
  intros E. apply (f_equal zlen) in E. rewrite zlen_ztake, zlen_zdrop in E. change (zlen (@nil byte)) with 0 in E. lia.
Qed.
Definition ex_env (files : list byte -> list byte) (names : list (list byte)) : proc_env :=
  mkEnv 42 0 0 42 (fun _ => Some (chars "root")) None (fun _ => inr 3) (fun p => serve (files p)) (inl 2) (fun _ => inr names)
    (inr 1024) 100 4096 0.
Lemma Procname_exact_witness :
  Procname (ex_env (fun _ => chars "42 (a) (b) S 1 42") []) = Some (chars "a) (b").
Proof.
  apply (Procname_exact _ (chars "42") (chars "a) (b") (chars " S 1 42")).
  - split; [by exists 3|]. split; [apply (serve_reads (chars "42 (a) (b) S 1 42")) | by vm_compute].
  - repeat (constructor; [by vm_compute|]). constructor.
  - by apply (bool_decide_eq_true_1 _); vm_compute.
Defined.

(** [NumThreads] is the number behind the first "Threads:" of the status file. *)
Lemma NumThreads_reads e pre d rest :
  let key := chars "Threads:" in
  let tail := [Byte.x09] ++ d ++ [Byte.x0a] ++ rest in
  has_file e (chars "/proc/self/status") (pre ++ key ++ tail) ->
  (forall a b, pre ++ key ++ tail = a ++ key ++ b -> (length pre <= length a)%nat) ->
  canonical d -> 0 <= dec_nat d < 2 ^ 31 ->
  NumThreads e = Some (Ok (dec_nat d)).
Proof.
  intros key tail Hf Hfirst Hc Hd. unfold NumThreads, ProcStatus. rewrite (read_proc_file _ _ _ Hf). cbn [mbind option_bind]. fold key.
  rewrite (find_sub_first key pre tail Hfirst). replace (zlen pre + 8) with (zlen (pre ++ key)) by (rewrite zlen_app; done).
  rewrite app_assoc, zdrop_app_len. unfold tail. cbn [app]. rewrite atoi_space by done. rewrite atoi_digits by (done || lia). done.
Qed.
(** A process whose own name holds the key is taken at its word: the status file
    begins with the name. *)
Lemma NumThreads_fooled :
  NumThreads (ex_env (fun _ => chars "Name:Threads:9 Threads: 1 ") []) = Some (Ok 9).
Proof. vm_compute. reflexivity. Qed.

(** ** The tasks of the process *)
(** A filter that keeps no entry leaves [namelist] null. *)
Lemma ScanDir_none {S} e dir (filter : list byte -> S -> outcome (bool * S)) (step : list byte -> S -> S) names s :
  scandir e dir = inr names -> (forall d s, In d names -> filter d s = Ok (false, step d s)) ->
  ScanDir e dir filter s = Ok (0, foldl (fun s d => step d s) s names).
Proof.
  intros Hs Hf. unfold ScanDir. rewrite Hs. clear Hs.
  set (f := fun d '(sel, s) => '(k, s) ← filter d s; Ok (if (k : bool) then sel ++ [d] else sel, s)).
  assert (E : forall names s, (forall d s, In d names -> filter d s = Ok (false, step d s)) ->
    ofold f names ([] : list (list byte), s) = Ok ([], foldl (fun s d => step d s) s names)).
  { clear. induction names as [|d names IH]; intros s Hf; cbn; [done|]. rewrite Hf by (by left). cbn. apply IH. intros. apply Hf. by right. }
  rewrite E by done. done.
Qed.

(** The thread an entry of /proc/self/task stands for. *)
Definition task_tid (d_name : list byte) : option Z := if starts_with_digit d_name then Some (dec_nat d_name) else None.
Definition task_ok (d_name : list byte) : Prop := starts_with_digit d_name = true -> canonical d_name /\ 0 <= dec_nat d_name < 2 ^ 31.

(** [Threads] lists the threads of the process: exactly the numeric entries of
    /proc/self/task, each once, in ascending order, whatever else the directory holds
    and in whatever order it is read; no assertion fails. *)
Theorem Threads_sorted e names :
  scandir e (chars "/proc/self/task") = inr names -> (forall d, In d names -> task_ok d) ->
  exists tids, Threads e = Ok tids /\ Sorted Z.le tids /\ tids ≡ₚ omap task_tid names.
Proof.
  intros Hs Hok. unfold Threads.
  rewrite (ScanDir_none _ _ _ (fun d acc => acc ++ match task_tid d with Some p => [p] | None => [] end) names [] Hs).
  - cbn [mbind outcome_bind]. eexists. split; [reflexivity|]. split; [apply Sorted_merge_sort; apply _|].
    rewrite merge_sort_Permutation.
    assert (E : forall names acc, foldl (fun acc d => acc ++ match task_tid d with Some p => [p] | None => [] end) acc names =
      acc ++ omap task_tid names).
    { clear. induction names as [|d names IH]; intros acc; cbn; [by rewrite app_nil_r|]. rewrite IH. destruct (task_tid d); cbn; [by rewrite <- app_assoc | by rewrite app_nil_r]. }
    by rewrite E.
  - intros d acc Hin. unfold TaskDirFilter, task_tid. destruct (starts_with_digit d) eqn:E; [|by rewrite app_nil_r].
    destruct (Hok d Hin E) as (Hc & Hb). pose proof (atoi_digits d [] Hc ltac:(lia) I ltac:(lia)) as Ea. rewrite app_nil_r in Ea. by rewrite Ea.
Qed.
Lemma Threads_sorted_witness :
  exists tids, Threads (ex_env (fun _ => []) [chars "."; chars ".."; chars "107"; chars "42"; chars "93"]) = Ok tids /\
    Sorted Z.le tids /\ tids ≡ₚ [107; 42; 93].
Proof.
  set (names := [chars "."; chars ".."; chars "107"; chars "42"; chars "93"]).
  assert (Et : omap task_tid names = [107; 42; 93]) by (vm_compute; reflexivity). rewrite <- Et.
  apply (Threads_sorted (ex_env (fun _ => []) names) names); [reflexivity|].
  assert (Hc : forall s, (forallb isdigit s && negb (bool_decide (s = [])) && negb (bool_decide (head s = Some Byte.x30)) &&
    (0 <=? dec_nat s) && (dec_nat s <? 2 ^ 31)) = true -> canonical s /\ 0 <= dec_nat s < 2 ^ 31).
  { intros s H. rewrite !andb_true_iff, !negb_true_iff, !bool_decide_eq_false, Z.leb_le, Z.ltb_lt in H.
    destruct H as [[[[Hd Hn] Hz] ?] ?]. split; [|lia]. split; [done|]. split; [|done]. apply List.Forall_forall. intros x Hx.
    apply isdigit_spec. rewrite forallb_forall in Hd. by apply Hd. }
  intros d [<-|[<-|[<-|[<-|[<-|[]]]]]] H; try (exfalso; revert H; vm_compute; discriminate); apply Hc; vm_compute; reflexivity.
Defined.

(** [OpenedFiles] counts the numeric entries of /proc/self/fd. *)
Lemma OpenedFiles_counts e names :
  scandir e (chars "/proc/self/fd") = inr names -> zlen names < 2 ^ 31 ->
  OpenedFiles e = Ok (zlen (filter (fun d => starts_with_digit d = true) names)).
Proof.
  intros Hs Hl. unfold OpenedFiles, ScanDir. rewrite Hs.
  set (f := fun d '(sel, s) => '(k, s) ← FdDirFilter d s; Ok (if (k : bool) then sel ++ [d] else sel, s)).
  assert (E : forall names n, 0 <= n -> n + zlen names < 2 ^ 31 ->
    ofold f names ([] : list (list byte), n) = Ok ([], n + zlen (filter (fun d => starts_with_digit d = true) names))).
  { clear. induction names as [|d names IH]; intros n Hn Hb; [cbn; f_equal; f_equal; change (zlen (@nil (list byte))) with 0; lia|].
    rewrite zlen_cons in Hb. pose proof (zlen_nonneg names). cbn [ofold]. rewrite filter_cons.
    assert (f d ([], n) = Ok ([], if starts_with_digit d then n + 1 else n)) as ->.
    { unfold f, FdDirFilter. destruct (starts_with_digit d); [|done]. rewrite sint_checked_Ok by (change (32 - 1) with 31; lia). done. }
    cbn [mbind outcome_bind]. destruct (starts_with_digit d); rewrite IH by lia.
    - rewrite decide_True by done. rewrite zlen_cons. do 2 f_equal. lia.
    - by rewrite decide_False by done. }
  rewrite E by lia. cbn. do 2 f_equal.
Qed.
(** Without a limit on descriptors (RLIM_INFINITY) [MaxOpenFiles] is -1. *)
Lemma MaxOpenFiles_unlimited e : getrlimit e = inr (2 ^ 64 - 1) -> MaxOpenFiles e = Ok (-1).
Proof. intros H. unfold MaxOpenFiles. rewrite H. vm_compute. reflexivity. Qed.
(** A host name of up to 255 characters is returned whole. *)
Lemma Hostname_exact e host rest : gethostname e = Some (host ++ Byte.x00 :: rest) -> no_nul host -> zlen (host ++ Byte.x00 :: rest) = 256 ->
  Hostname e = Ok host.
Proof.
  intros Hh Hn Hl. unfold Hostname. rewrite Hh. rewrite zlen_app, zlen_cons in Hl. pose proof (zlen_nonneg rest).
  rewrite copy_into_Ok; [|lia|change (zlen [Byte.x00]) with 1; rewrite zlen_app, zlen_cons; lia]. cbn [mbind outcome_bind]. f_equal.
  unfold zsplice. change (zlen [Byte.x00]) with 1. destruct (decide (zlen host = 255)) as [E|E].
  - rewrite <- E, ztake_app_len. by apply cstr_app.
  - assert (ztake 255 (host ++ Byte.x00 :: rest) = host ++ Byte.x00 :: ztake (254 - zlen host) rest) as ->.
    { unfold ztake, zlen in *. rewrite take_app_ge by lia.
      replace (Z.to_nat 255 - length host)%nat with (S (Z.to_nat (254 - Z.of_nat (length host)))) by lia. done. }
    rewrite <- app_assoc. by apply cstr_app.
Qed.
