(* ===== verification/LogFile.v ===== *)
(** * Rolling log files (src/src/log/LogFile.h, LogFile.cc)

    A [LogFile] owns the [AppendFile] it writes to and replaces it when it has
    grown past [rollSize] or when a new day (UTC) has begun.  The model keeps the
    files it closed with their names.  Each call is given what its system calls
    see: the clock, whether fopen succeeds, what fwrite does; the date in a file name
    is strftime of Calendar.v. *)
From Stdlib Require Import Sorting.Sorted.
From S2P Require Import Prelude LogStream Calendar File.

Definition kRollPerSeconds : Z := 60 * 60 * 24.

(** A file that was opened, with its name and the time in it. *)
Record named_file : Type := mkNamed { opened_at : Z; file_name : list byte; contents : AppendFile }.

(** The destructor of the file runs. *)
Definition close_file (nf : named_file) : named_file := mkNamed (opened_at nf) (file_name nf) (destroy_AppendFile (contents nf)).

Record LogFile : Type := mkLogFile {
  basename : list byte;
  rollSize : Z;
  flushInterval : Z;
  checkEveryN : Z;
  count_ : Z;
  startOfPeriod_ : Z;
  lastRoll_ : Z;
  lastFlush_ : Z;
  file_ : option named_file;
  closed : list named_file;
}.

Section Environment.
(** The host name and the process id. *)
Context (hostname : list byte) (pid : Z).

Definition GetLogFileName (basename : list byte) (now : Z) : outcome (list byte) :=
  timebuf ← strftime_log now;
  pidbuf ← Convert pid;
  Ok (basename ++ timebuf ++ hostname ++ chars "." ++ pidbuf ++ chars ".log").

(** What one call of [RollFile] sees: time() and whether fopen succeeds. *)
Record roll_env : Type := mkRoll { now : Z; opens : bool }.

Definition RollFile (e : roll_env) (l : LogFile) : outcome (bool * LogFile) :=
  filename ← GetLogFileName (basename l) (now e);
  let start := Z.quot (now e) kRollPerSeconds * kRollPerSeconds in
  if lastRoll_ l <? now e then
    f ← new_AppendFile (opens e);
    Ok (true, mkLogFile (basename l) (rollSize l) (flushInterval l) (checkEveryN l) (count_ l) start (now e) (now e)
                (Some (mkNamed (now e) filename f)) (closed l ++ map close_file (option_list (file_ l))))
  else Ok (false, l).

Definition new_LogFile (bname : list byte) (roll flush check : Z) (e : roll_env) : outcome LogFile :=
  _ ← massert (bool_decide (Byte.x2f ∉ bname)) "basename.find('/') == std::string::npos";
  '(_, l) ← RollFile e (mkLogFile bname roll flush check 0 0 0 0 None []);
  Ok l.

(** The files that are left: the file still open is closed with the object. *)
Definition destroy_LogFile (l : LogFile) : list named_file := closed l ++ map close_file (option_list (file_ l)).

(** [file_->f()]: dereferencing the pointer. *)
Definition on_file (f : AppendFile -> outcome AppendFile) (l : LogFile) : outcome LogFile :=
  match file_ l with
  | None => Fault (Undefined "null file_")
  | Some nf =>
      a ← f (contents nf);
      Ok (mkLogFile (basename l) (rollSize l) (flushInterval l) (checkEveryN l) (count_ l) (startOfPeriod_ l)
            (lastRoll_ l) (lastFlush_ l) (Some (mkNamed (opened_at nf) (file_name nf) a)) (closed l))
  end.
Definition Flush (l : LogFile) : outcome LogFile := on_file (fun a => Ok (File.Flush a)) l.

Definition set_count (n : Z) (l : LogFile) : LogFile :=
  mkLogFile (basename l) (rollSize l) (flushInterval l) (checkEveryN l) n (startOfPeriod_ l)
    (lastRoll_ l) (lastFlush_ l) (file_ l) (closed l).
Definition set_lastFlush (t : Z) (l : LogFile) : LogFile :=
  mkLogFile (basename l) (rollSize l) (flushInterval l) (checkEveryN l) (count_ l) (startOfPeriod_ l)
    (lastRoll_ l) t (file_ l) (closed l).

(** What one call of [AppendUnlocked] sees: fwrite, its own time(), and the
    environment of the [RollFile] it may call. *)
Record append_env : Type := mkAppend { fwrite : fwrite_t; check_now : Z; roll : roll_env }.

Definition written (l : LogFile) : Z := match file_ l with Some nf => WrittenBytes (contents nf) | None => 0 end.

Definition AppendUnlocked (e : append_env) (logline : list byte) (l : LogFile) : outcome LogFile :=
  l ← on_file (fun a => match File.Append (fwrite e) logline a with
                        | Some a => Ok a
                        | None => Fault (Undefined "endless loop in AppendFile::Append")
                        end) l;
  if rollSize l <? written l then '(_, l) ← RollFile (roll e) l; Ok l
  else
    let l := set_count (count_ l + 1) l in
    if checkEveryN l <=? count_ l then
      let l := set_count 0 l in
      let thisPeriod := Z.quot (check_now e) kRollPerSeconds * kRollPerSeconds in
      if negb (thisPeriod =? startOfPeriod_ l) then '(_, l) ← RollFile (roll e) l; Ok l
      else if flushInterval l <? check_now e - lastFlush_ l then Flush (set_lastFlush (check_now e) l)
      else Ok l
    else Ok l.

(** [Append] runs [AppendUnlocked] with the mutex held when there is one. *)
Definition Append (e : append_env) (logline : list byte) (l : LogFile) : outcome LogFile :=
  AppendUnlocked e logline l.

(** ** What the object keeps *)

(** The files opened so far, oldest first, and all bytes written to them. *)
Definition files (l : LogFile) : list named_file := closed l ++ option_list (file_ l).
Definition bytes (l : LogFile) : list byte := concat (map (fun nf => stored (contents nf)) (files l)).
Definition names (l : LogFile) : list (list byte) := map file_name (files l).
Definition times (l : LogFile) : list Z := map opened_at (files l).

(** A file is open; it was opened at the last roll, in the period recorded; the
    names are the ones [GetLogFileName] makes for strictly later and later
    seconds. *)
Record inv (l : LogFile) : Prop := {
  inv_open : exists nf, file_ l = Some nf /\ opened_at nf = lastRoll_ l;
  inv_period : startOfPeriod_ l = Z.quot (lastRoll_ l) kRollPerSeconds * kRollPerSeconds;
  inv_sorted : StronglySorted Z.lt (0 :: times l);
  inv_last : forall t, t ∈ times l -> t <= lastRoll_ l;
  inv_clock : Forall (fun t => 0 <= t < year_10000) (times l);
  inv_names : Forall (fun nf => GetLogFileName (basename l) (opened_at nf) = Ok (file_name nf))
                (files l);
  inv_closed : Forall (fun nf => all_flushed (contents nf)) (closed l);
}.

(** Rolling away from a file happens for a reason. *)
Definition may_roll (e : append_env) (logline : list byte) (l : LogFile) : Prop :=
  rollSize l < written l + zlen logline \/
  Z.quot (check_now e) kRollPerSeconds * kRollPerSeconds <> startOfPeriod_ l.

Section Laws.
Hypothesis Hpid : 0 <= pid < 2 ^ 31.

(** The clock is between 1970 and the year 9999. *)
Definition clock_ok (e : roll_env) : Prop := 0 <= now e < year_10000.
Lemma GetLogFileName_Ok bname t : 0 <= t < year_10000 -> exists s, GetLogFileName bname t = Ok s.
Proof.
  intros Ht. unfold GetLogFileName. destruct (strftime_log_Ok t Ht) as (y & mo & d & h & mi & s & -> & _).
  destruct (Convert_Ok pid) as (p & -> & _); [lia|]. cbn [mbind outcome_bind]. eauto.
Qed.

Lemma StronglySorted_snoc l t : StronglySorted Z.lt l -> Forall (fun x => x < t) l -> StronglySorted Z.lt (l ++ [t]).
Proof.
  intros Hs Hf. induction Hs as [|x l Hs IH Hx]; cbn; [by repeat constructor|].
  inversion Hf; subst. constructor; [by apply IH|]. apply Forall_app; split; [done | by constructor].
Qed.

Lemma RollFile_Ok e l : inv l -> clock_ok e -> opens e = true ->
  exists b l', RollFile e l = Ok (b, l') /\ inv l' /\ bytes l' = bytes l /\
    (b = false -> l' = l) /\
    (b = true -> lastRoll_ l < now e /\ length (closed l') = length (files l) /\ lastRoll_ l' = now e /\
                 written l' = 0 /\ rollSize l' = rollSize l).
Proof.
  intros [(nf & Hnf & Hat) Hper Hsort Hlast Hclk Hnames Hdisk] Hck Ho. unfold RollFile.
  destruct (GetLogFileName_Ok (basename l) (now e) Hck) as [fn Hfn]. rewrite Hfn. cbn [mbind outcome_bind].
  destruct (Z.ltb_spec (lastRoll_ l) (now e)) as [Hlt|Hge].
  2:{ exists false, l. split_and!; try done. split; eauto. }
  rewrite Ho. cbn [new_AppendFile massert mbind outcome_bind]. eexists true, _. split; [done|].
  set (l' := mkLogFile _ _ _ _ _ _ _ _ _ _).
  assert (Hf : files l' = (closed l ++ [close_file nf]) ++ [mkNamed (now e) fn (mkAppendFile [] 0 0)])
    by (unfold files, l'; cbn; by rewrite Hnf).
  assert (Hfl : files l = closed l ++ [nf]) by (unfold files; by rewrite Hnf).
  assert (Ht : times l' = times l ++ [now e]) by (unfold times; by rewrite Hf, Hfl, !map_app).
  assert (H0 : 0 < lastRoll_ l).
  { inversion Hsort as [|? ? _ Hall]; subst. rewrite Forall_forall in Hall. apply Hall. rewrite <- Hat.
    unfold times, files. rewrite Hnf, map_app. apply elem_of_app. right. cbn. by apply list_elem_of_singleton. }
  rewrite Hfl in Hnames. split; [|split_and!; try done].

  - split.
    + eauto.
    + done.
    + rewrite Ht, app_comm_cons. apply StronglySorted_snoc; [done|]. constructor; [lia|].
      apply Forall_forall. intros x Hx%Hlast. lia.
    + rewrite Ht. intros x. rewrite elem_of_app, list_elem_of_singleton. cbn. intros [Hx%Hlast | ->]; lia.
    + rewrite Ht. apply Forall_app. split; [done|]. by apply Forall_singleton.
    + rewrite Hf. apply Forall_app in Hnames as [Hc Hn]. inversion Hn; subst. repeat apply Forall_app_2; [done | by repeat constructor..].
    + unfold l'. cbn. rewrite Hnf. apply Forall_app_2; [done | by repeat constructor].
  - unfold bytes. rewrite Hf, Hfl, !map_app, !concat_app. cbn. by rewrite !app_nil_r.
  - intros _. split_and!; try done. rewrite Hfl. unfold l'. cbn. rewrite Hnf. by rewrite !length_app.
Qed.

(** A call on the open file that adds [d] to it. *)
Lemma on_file_Ok f d l : inv l -> (forall a, exists a', f a = Ok a' /\ stored a' = stored a ++ d) ->
  exists nf a', file_ l = Some nf /\ f (contents nf) = Ok a' /\
  let l' := mkLogFile (basename l) (rollSize l) (flushInterval l) (checkEveryN l) (count_ l) (startOfPeriod_ l)
              (lastRoll_ l) (lastFlush_ l) (Some (mkNamed (opened_at nf) (file_name nf) a')) (closed l) in
  on_file f l = Ok l' /\ inv l' /\ bytes l' = bytes l ++ d.
Proof.
  intros [(nf & Hnf & Hat) Hper Hsort Hlast Hclk Hnames Hdisk] Hf. destruct (Hf (contents nf)) as (a' & Ha & Hs).
  exists nf, a'. split; [done|]. split; [done|]. unfold on_file. rewrite Hnf, Ha. cbn zeta.
  split; [done|]. set (l' := mkLogFile _ _ _ _ _ _ _ _ _ _).
  assert (Ht : times l' = times l) by (unfold times, files; by rewrite Hnf, !map_app).
  split; [split|].
  - eauto.
  - done.
  - by rewrite Ht.
  - by rewrite Ht.
  - by rewrite Ht.
  - unfold files in *. rewrite Hnf in Hnames. apply Forall_app in Hnames as [? Hn]. apply Forall_app. split; [done|].
    inversion Hn; subst. by repeat constructor.
  - done.
  - unfold bytes, files. rewrite Hnf, !map_app, !concat_app. cbn. rewrite Hs, !app_nil_r. by rewrite app_assoc.
Qed.

Lemma Flush_Ok l : inv l -> exists l', Flush l = Ok l' /\ inv l' /\ bytes l' = bytes l /\
  closed l' = closed l /\ exists nf, file_ l' = Some nf /\ flushed (contents nf) = zlen (stored (contents nf)).
Proof.
  intros Hl. destruct (on_file_Ok (fun a => Ok (File.Flush a)) [] l) as (nf & a' & Hnf & [= <-] & E & Hi & Hb);
    [done | intros a; eexists; split; [done|]; by rewrite app_nil_r |].
  eexists. split; [exact E|]. rewrite app_nil_r in Hb. split_and!; eauto.
Qed.

Lemma inv_set_count n l : inv l -> inv (set_count n l).
Proof. by intros []. Qed.
Lemma inv_set_lastFlush t l : inv l -> inv (set_lastFlush t l).
Proof. by intros []. Qed.

(** The system calls of one [Append] behave: fwrite is short only on error, and the
    clock is in range. *)
Definition env_ok (e : append_env) : Prop := fwrite_ok (fwrite e) /\ clock_ok (roll e).

(** [RollFile] as [AppendUnlocked] calls it. *)
Lemma roll_Ok e l : inv l -> clock_ok e -> opens e = true ->
  exists l', ('(_, l') ← RollFile e l; Ok l') = Ok l' /\ inv l' /\ bytes l' = bytes l /\
    (lastRoll_ l < now e -> length (closed l') = length (files l) /\ written l' = 0) /\
    (closed l' = closed l \/ lastRoll_ l < now e).
Proof.
  intros Hl Hck Ho. destruct (RollFile_Ok e l Hl Hck Ho) as (b & l' & E & Hi & Hb & Hf & Ht). rewrite E. cbn.
  exists l'. split_and!; try done.
  - intros Hlt. destruct b; [split; by apply Ht|]. exfalso. unfold RollFile in E.
    destruct (GetLogFileName_Ok (basename l) (now e) Hck) as [fn Hfn]. rewrite Hfn in E. cbn in E.
    apply Z.ltb_lt in Hlt. rewrite Hlt, Ho in E. done.
  - destruct b; [right; by apply Ht | left; by rewrite Hf].
Qed.

Lemma AppendUnlocked_Ok e line l : inv l -> env_ok e -> opens (roll e) = true ->
  exists l', AppendUnlocked e line l = Ok l' /\ inv l' /\ bytes l' = bytes l ++ taken (fwrite e) line /\
    (closed l' <> closed l -> may_roll e line l) /\
    (taken (fwrite e) line = line -> rollSize l < written l + zlen line -> lastRoll_ l < now (roll e) ->
      length (closed l') = S (length (closed l)) /\ written l' = 0).
Proof.
  intros Hl [Hfw Hck] Ho. unfold AppendUnlocked, may_roll.
  destruct (on_file_Ok (fun a => match File.Append (fwrite e) line a with
                        | Some a => Ok a | None => Fault (Undefined "endless loop in AppendFile::Append") end)
              (taken (fwrite e) line) l Hl) as (nf & a' & Hnf & Ha & -> & Hi & Hb).
  { intros a. destruct (AppendFile_total (fwrite e) line a Hfw) as (w & -> & _). eauto. }
  set (l1 := mkLogFile _ _ _ _ _ _ _ _ _ _) in *. cbn [mbind outcome_bind].
  assert (Hw : written l1 <= written l + zlen line /\
               (taken (fwrite e) line = line -> written l1 = written l + zlen line)).
  { destruct (AppendFile_total (fwrite e) line (contents nf) Hfw) as (w & E & Hfull & Hle). rewrite E in Ha.
    injection Ha as <-. unfold written. rewrite Hnf. subst l1. cbn [file_ contents]. unfold WrittenBytes. cbn [writtenBytes_]. split; [lia|]. intros ?%Hfull. lia. }
  assert (Hlen : length (files l1) = S (length (closed l))) by (unfold files; cbn; rewrite length_app; cbn; lia).
  change (rollSize l1) with (rollSize l). destruct (Z.ltb_spec (rollSize l) (written l1)) as [Hbig|Hsmall].
  - destruct (roll_Ok (roll e) l1 Hi Hck Ho) as (l' & -> & Hi' & Hb' & Hroll & Hc). exists l'.
    split_and!; try done; [by rewrite Hb' | intros _; left; lia |].
    intros _ _ Hlt. destruct (Hroll Hlt) as [-> ?]. by split.
  - set (l2 := set_count _ l1). assert (inv l2) as Hi2 by by apply inv_set_count.
    assert (Hno : taken (fwrite e) line = line -> rollSize l < written l + zlen line -> False)
      by (intros Hx%Hw; lia).
    destruct (checkEveryN l2 <=? count_ l2).
    2:{ exists l2. split_and!; try done. intros H1 H2. by destruct (Hno H1 H2). }
    set (l3 := set_count 0 l2). assert (inv l3) as Hi3 by by apply inv_set_count.
    destruct (Z.eqb_spec (Z.quot (check_now e) kRollPerSeconds * kRollPerSeconds) (startOfPeriod_ l3)) as [Hp|Hp];
      cbn [negb].
    + destruct (_ <? _).
      * destruct (Flush_Ok (set_lastFlush (check_now e) l3)) as (l' & -> & Hi' & Hb' & Hc & _);
          [by apply inv_set_lastFlush|].
        exists l'. split_and!; try done; [by rewrite Hb' | intros H1 H2; by destruct (Hno H1 H2)].
      * exists l3. split_and!; try done. intros H1 H2. by destruct (Hno H1 H2).
    + destruct (roll_Ok (roll e) l3 Hi3 Hck Ho) as (l' & -> & Hi' & Hb' & _). exists l'.
      split_and!; try done; [by rewrite Hb' | intros _; right; exact Hp | intros H1 H2; by destruct (Hno H1 H2)].
Qed.

(** When fopen fails the constructor of the new file aborts, and that is all it
    changes. *)
Definition with_open (e : append_env) : append_env := mkAppend (fwrite e) (check_now e) (mkRoll (now (roll e)) true).
Lemma roll_or_assert e l : RollFile e l = RollFile (mkRoll (now e) true) l \/
  (opens e = false /\ RollFile e l = Fault (Assertion "fp_")).
Proof.
  destruct e as [t [|]]; [by left|]. unfold RollFile. cbn [now opens].
  destruct (GetLogFileName (basename l) t); [|by left]. cbn [mbind outcome_bind]. case_if; [by right | by left].
Qed.
Lemma append_or_assert e line l : AppendUnlocked e line l = AppendUnlocked (with_open e) line l \/
  (opens (roll e) = false /\ AppendUnlocked e line l = Fault (Assertion "fp_")).
Proof.
  unfold AppendUnlocked. cbn [fwrite check_now roll with_open]. destruct (on_file _ l) as [l1|]; [|by left]. cbn [mbind outcome_bind].
  assert (Hr : forall x, ('(_, l') ← RollFile (roll e) x; Ok l') = ('(_, l') ← RollFile (mkRoll (now (roll e)) true) x; Ok l') \/
    (opens (roll e) = false /\ ('(_, l') ← RollFile (roll e) x; Ok l') = Fault (Assertion "fp_"))).
  { intros x. destruct (roll_or_assert (roll e) x) as [->|[? ->]]; [by left | by right]. }
  destruct (rollSize l1 <? written l1); [apply Hr|]. destruct (checkEveryN _ <=? _); [|by left].
  destruct (negb _); [apply Hr | by left].
Qed.
Lemma Append_cases e line l : inv l -> env_ok e ->
  (exists l', Append e line l = Ok l' /\ inv l' /\ bytes l' = bytes l ++ taken (fwrite e) line) \/
  (opens (roll e) = false /\ Append e line l = Fault (Assertion "fp_")).
Proof.
  intros Hl [Hfw Hck]. destruct (append_or_assert e line l) as [E|?]; [left | by right]. unfold Append. rewrite E.
  destruct (AppendUnlocked_Ok (with_open e) line l Hl) as (l' & -> & ? & ? & _); [by split | done |]. by exists l'.
Qed.

(** A run of appends goes on to its end, or to the first fopen that fails. *)
Lemma appends_Ok es l : inv l -> Forall (fun x => env_ok x.1) es ->
  exists k l', ofold (fun x => Append x.1 x.2) (take k es) l = Ok l' /\ inv l' /\
    bytes l' = bytes l ++ concat (map (fun x => taken (fwrite x.1) x.2) (take k es)) /\
    (take k es = es \/ exists x, es !! k = Some x /\ opens (roll x.1) = false /\ Append x.1 x.2 l' = Fault (Assertion "fp_")).
Proof.
  revert l. induction es as [|[e line] es IH]; intros l Hl Hes.
  - exists 0%nat, l. cbn. rewrite app_nil_r. by split_and!; [| | |left].
  - inversion Hes; subst. destruct (Append_cases e line l) as [(l1 & E & Hi & Hb)|[Ho E]]; [done..| |].
    + destruct (IH l1) as (k & l' & Er & Hi' & Hb' & Hend); [done..|]. exists (S k), l'. cbn [take ofold].
      change (Append (e, line).1 (e, line).2 l) with (Append e line l). rewrite E. cbn [mbind outcome_bind].
      split; [exact Er|]. split; [done|]. split; [rewrite Hb', Hb; cbn; by rewrite app_assoc|].
      destruct Hend as [->|(x & ? & ?)]; [by left | right; by exists x].
    + exists 0%nat, l. cbn. rewrite app_nil_r. split_and!; try done. right. by exists (e, line).
Qed.

Lemma new_LogFile_Ok bname rsz fl chk e : Byte.x2f ∉ bname -> 0 < now e -> clock_ok e -> opens e = true ->
  exists l, new_LogFile bname rsz fl chk e = Ok l /\ inv l /\ bytes l = [] /\ rollSize l = rsz.
Proof.
  intros Hb Hn Hck Ho. unfold new_LogFile. rewrite bool_decide_true by done. cbn [massert mbind outcome_bind].
  unfold RollFile. destruct (GetLogFileName_Ok bname (now e) Hck) as [fn Hfn]. cbn [basename lastRoll_]. rewrite Hfn.
  cbn [mbind outcome_bind]. apply Z.ltb_lt in Hn as Hn'. rewrite Hn', Ho.
  cbn [new_AppendFile massert mbind outcome_bind]. eexists. split; [done|]. split_and!; try done.
  split; [by eexists | done | | | | by apply Forall_singleton | by constructor]; unfold times, files; cbn.
  - repeat constructor. by apply Z.ltb_lt.
  - intros t. rewrite list_elem_of_singleton. intros ->. done.
  - by apply Forall_singleton.
Qed.

Lemma GetLogFileName_inj bname t t' s : 0 <= t < year_10000 -> 0 <= t' < year_10000 ->
  GetLogFileName bname t = Ok s -> GetLogFileName bname t' = Ok s -> t = t'.
Proof.
  intros Ht Ht'. unfold GetLogFileName. destruct (strftime_log t) as [x|f] eqn:E1; cbn [mbind outcome_bind]; [|discriminate].
  destruct (strftime_log t') as [x'|f] eqn:E2; cbn [mbind outcome_bind]; [|discriminate].
  destruct (Convert pid) as [p|f]; cbn [mbind outcome_bind]; [|discriminate]. intros E E'. injection E as E. injection E' as E'.
  rewrite <- E' in E. apply app_inv_head in E. apply app_inv_tail in E. subst x'. by apply (strftime_log_inj t t' x).
Qed.

Lemma destroy_bytes l : concat (map (fun nf => stored (contents nf)) (destroy_LogFile l)) = bytes l.
Proof. unfold bytes, destroy_LogFile, files. rewrite !map_app. by destruct (file_ l). Qed.

(** Files opened at different seconds have different names. *)
Lemma names_NoDup l : inv l -> NoDup (names l).
Proof.
  intros [_ _ Hs _ Hc Hn _]. unfold names, times in *. inversion Hs as [|? ? Hs' _]; subst. clear Hs.
  induction (files l) as [|nf fs IH]; cbn [map] in *; [constructor|].
  inversion Hs' as [|? ? Hs'' Hlt]; inversion Hn as [|? ? E Hn']; inversion Hc as [|? ? Hc1 Hc']; subst.
  constructor; [|by apply IH]. intros (nf' & Heq & Hin)%list_elem_of_fmap.
  rewrite Forall_forall in Hlt. rewrite Forall_forall in Hn'. rewrite Forall_forall in Hc'.
  assert (opened_at nf < opened_at nf') by (apply Hlt, list_elem_of_fmap; eauto).
  assert (opened_at nf = opened_at nf'); [|lia]. rewrite Heq in E.
  eapply GetLogFileName_inj; [done | apply Hc', list_elem_of_fmap; eauto | exact E | by apply Hn'].
Qed.
End Laws.
End Environment.

(** C26: A rolling log keeps every byte in order.  A log file is created with a valid
    name, and lines are appended at times between 1970 and the year 9999; fwrite is
    short only on error.  Then only a failing fopen stops it, in the assertion of
    [AppendFile] (in the constructor, or at an append that rolls): up to there, or
    to the end, no append faults, the rolled files, oldest first, together hold exactly
    the bytes that fwrite took, in order, and no two of them have the same name, because
    each is opened in a later second than the one before and the date in the
    name tells seconds apart.  Every file rolled away from was closed after its last
    byte, and so is the last one when the object is destroyed ([all_flushed]: fclose was
    called; what it returns nobody looks at). *)
Theorem LogFile_keeps hostname pid bname rsz fl chk e0 es :
  0 <= pid < 2 ^ 31 -> Byte.x2f ∉ bname -> 0 < now e0 -> clock_ok e0 ->
  Forall (fun x => env_ok x.1) es ->
  (opens e0 = false /\ new_LogFile hostname pid bname rsz fl chk e0 = Fault (Assertion "fp_")) \/
  exists l0 k l, new_LogFile hostname pid bname rsz fl chk e0 = Ok l0 /\
    ofold (fun x => Append hostname pid x.1 x.2) (take k es) l0 = Ok l /\
    (take k es = es \/ exists x, es !! k = Some x /\ opens (roll x.1) = false /\
       Append hostname pid x.1 x.2 l = Fault (Assertion "fp_")) /\
    bytes l = concat (map (fun x => taken (fwrite x.1) x.2) (take k es)) /\
    NoDup (names l) /\ Forall (fun nf => all_flushed (contents nf)) (closed l) /\
    Forall (fun nf => all_flushed (contents nf)) (destroy_LogFile l) /\
    concat (map (fun nf => stored (contents nf)) (destroy_LogFile l)) = bytes l.
Proof.
  intros Hp Hb Hn Hc Hes. destruct (opens e0) eqn:Ho; [right | left; split; [done|]].
  - destruct (new_LogFile_Ok hostname pid Hp bname rsz fl chk e0 Hb Hn Hc Ho) as (l0 & E0 & Hi0 & Hb0 & _).
    destruct (appends_Ok hostname pid Hp es l0 Hi0 Hes) as (k & l & E & Hi & Hbl & Hend).
    exists l0, k, l. split_and!; try done; [by rewrite Hbl, Hb0 | by eapply names_NoDup | apply Hi | | apply destroy_bytes].
    apply Forall_app_2; [apply Hi|]. destruct (inv_open _ _ _ Hi) as (nf & -> & _). by repeat constructor.
  - unfold new_LogFile. rewrite bool_decide_true by done. cbn [massert mbind outcome_bind]. unfold RollFile.
    destruct (GetLogFileName_Ok hostname pid Hp bname (now e0) Hc) as [fn Hfn]. cbn [basename lastRoll_]. rewrite Hfn.
    cbn [mbind outcome_bind]. apply Z.ltb_lt in Hn. by rewrite Hn, Ho.
Qed.

(** Rolling happens when it is due, and only then.  After the object is
    constructed, any further append returns; it leaves the current file only when
    that has grown past [rollSize] or the clock shows another day, and it does leave
    it when the line makes it larger than [rollSize] and a second has passed since
    the last roll: the new file starts empty. *)
Theorem LogFile_rolls_when_due hostname pid l e line :
  0 <= pid < 2 ^ 31 -> inv hostname pid l -> env_ok e -> opens (roll e) = true ->
  exists l', Append hostname pid e line l = Ok l' /\ inv hostname pid l' /\
    (closed l' <> closed l -> may_roll e line l) /\
    (taken (fwrite e) line = line -> rollSize l < written l + zlen line -> lastRoll_ l < now (roll e) ->
      length (closed l') = S (length (closed l)) /\ written l' = 0).
Proof.
  intros Hp Hl He Ho. destruct (AppendUnlocked_Ok hostname pid Hp e line l Hl He Ho) as (l' & ? & ? & _ & ?).
  exists l'. tauto.
Qed.

(** *** Example: a log that rolls at three bytes *)
Definition ex_fwrite : fwrite_t := fun d => (zlen d, false).
Lemma ex_fwrite_ok : fwrite_ok ex_fwrite.
Proof. intros d. pose proof (zlen_nonneg d). cbn [ex_fwrite fst snd]. split; lia. Qed.
Definition ex_env (t : Z) : append_env := mkAppend ex_fwrite t (mkRoll t true).
Lemma ex_env_ok t : 0 <= t < year_10000 -> env_ok (ex_env t).
Proof. intros H. split; [exact ex_fwrite_ok | exact H]. Qed.

(** The second append rolls, the third cannot open its file. *)
Definition ex_appends : list (append_env * list byte) :=
  [(ex_env 2, chars "abcd"); (ex_env 3, chars "ef"); (mkAppend ex_fwrite 4 (mkRoll 4 false), chars "ghij")].
Lemma LogFile_keeps_witness :
  exists l0 k l, new_LogFile [] 7 (chars "log") 3 3 1 (mkRoll 1 true) = Ok l0 /\
    ofold (fun x => Append [] 7 x.1 x.2) (take k ex_appends) l0 = Ok l /\
    bytes l = concat (map (fun x => taken (fwrite x.1) x.2) (take k ex_appends)) /\ NoDup (names l) /\
    ofold (fun x => Append [] 7 x.1 x.2) ex_appends l0 = Fault (Assertion "fp_").
Proof.
  destruct (LogFile_keeps [] 7 (chars "log") 3 3 1 (mkRoll 1 true) ex_appends) as [[Ho _]|(l0 & k & l & E0 & E & _ & Hb & Hn & _)].
  - lia.
  - apply (bool_decide_unpack _). vm_compute. exact I.
  - reflexivity.
  - unfold clock_ok, year_10000. cbn. lia.
  - repeat (constructor; [split; [exact ex_fwrite_ok | unfold clock_ok, year_10000; cbn; lia]|]). constructor.
  - discriminate Ho.
  - exists l0, k, l. split; [exact E0|]. split; [exact E|]. split; [exact Hb|]. split; [exact Hn|].
    vm_compute in E0. injection E0 as <-. vm_compute. reflexivity.
Defined.

Lemma LogFile_rolls_when_due_witness :
  exists l l', new_LogFile [] 7 (chars "log") 3 3 1 (mkRoll 1 true) = Ok l /\
    Append [] 7 (ex_env 2) (chars "abcd") l = Ok l' /\ length (closed l') = 1%nat /\ written l' = 0.
Proof.
  destruct (new_LogFile_Ok [] 7 ltac:(lia) (chars "log") 3 3 1 (mkRoll 1 true)) as (l & E & Hi & _);
    [apply (bool_decide_unpack _); vm_compute; exact I | reflexivity | unfold clock_ok, year_10000; cbn; lia | reflexivity |].
  destruct (LogFile_rolls_when_due [] 7 l (ex_env 2) (chars "abcd") ltac:(lia) Hi (ex_env_ok 2 ltac:(unfold year_10000; lia)) eq_refl)
    as (l' & E' & _ & _ & Hroll).
  exists l, l'. split; [exact E|]. split; [exact E'|]. vm_compute in E. injection E as E.
  subst l. apply Hroll; [vm_compute; reflexivity | vm_compute; reflexivity | vm_compute; reflexivity].
Defined.
