(* ===== verification/AsyncLogging.v ===== *)
(** * The asynchronous log backend (src/src/log/AsynLogBackend.h, AsynLogBackend.cc)

    Front-end threads append lines to [currentBuffer_] under the mutex; one
    backend thread takes the full buffers away, again under the mutex, and writes
    them to the log file without it.  Critical sections are atomic, the backend's
    work between them touches only its own variables, so a run of the program is a
    sequence of [event]s.  [BufferPtr] is a unique_ptr: [None] is null, and moving
    from it leaves it null. *)
From S2P Require Import Prelude SizedBuffer Calendar File LogFile.

(** ** What the backend needs of the file it writes to *)
Class LogSink (O E : Type) : Type := {
  sink_append : E -> list byte -> O -> outcome O;
  sink_flush : O -> outcome O;
  sink_bytes : O -> list byte;
  sink_synced : O -> Prop;
  sink_inv : O -> Prop;
  sink_ok : E -> Prop;
}.
Class LogSinkLaws (O E : Type) `{!LogSink O E} : Prop := {
  sink_append_law e d o : sink_inv o -> sink_ok e ->
    exists o', sink_append e d o = Ok o' /\ sink_inv o' /\ sink_bytes o' = sink_bytes o ++ d;
  sink_flush_law o : sink_inv o ->
    exists o', sink_flush o = Ok o' /\ sink_inv o' /\ sink_bytes o' = sink_bytes o /\ sink_synced o';
}.

Abbreviation BufferPtr := (option SizedBuffer).

(** Where the backend thread is: at the test of the [while], in [wait_for], behind
    the critical section with buffers to write, or gone. *)
Inductive place : Type := Top | Waiting | Swapped | Done.

Section Async.
Context {O E : Type} `{!LogSink O E}.
(** The size of a buffer; the code takes [kLargeSize]. *)
Context (SIZE : Z).

Record AsyncLogging : Type := mkAsync {
  running_ : bool;
  currentBuffer_ : BufferPtr;
  nextBuffer_ : BufferPtr;
  buffers_ : list BufferPtr;
}.
(** The locals of [ThreadFunction]; [dropped] counts the buffers it discarded. *)
Record backend : Type := mkBackend {
  pc : place;
  newBuffer1 : BufferPtr;
  newBuffer2 : BufferPtr;
  buffersToWrite : list BufferPtr;
  output : O;
  dropped : Z;
}.

Definition newBuffer : BufferPtr := Some (new_SizedBuffer SIZE).
Definition new_AsyncLogging : AsyncLogging :=
  mkAsync false (Bzero <$> newBuffer) (Bzero <$> newBuffer) [].

(** [Start]: sets [running_] and runs [ThreadFunction] up to its loop; [o] is the
    log file it constructs. *)
Definition ThreadFunction_start (running : bool) (o : O) : outcome backend :=
  _ ← massert running "running_ == true";
  Ok (mkBackend Top (Bzero <$> newBuffer) (Bzero <$> newBuffer) [] o 0).
Definition Start (o : O) (a : AsyncLogging) : outcome (AsyncLogging * backend) :=
  let a := mkAsync true (currentBuffer_ a) (nextBuffer_ a) (buffers_ a) in
  b ← ThreadFunction_start (running_ a) o; Ok (a, b).
Definition Stop (a : AsyncLogging) : AsyncLogging :=
  mkAsync false (currentBuffer_ a) (nextBuffer_ a) (buffers_ a).
Definition destroy_AsyncLogging (a : AsyncLogging) : AsyncLogging := if running_ a then Stop a else a.

(** [p->...]: dereferencing. *)
Definition deref (p : BufferPtr) : outcome SizedBuffer :=
  match p with Some b => Ok b | None => Fault (Undefined "null buffer") end.

Definition Append (logline : list byte) (a : AsyncLogging) : outcome AsyncLogging :=
  c ← deref (currentBuffer_ a);
  if zlen logline <? Avail c then
    c ← SizedBuffer.Append logline c;
    Ok (mkAsync (running_ a) (Some c) (nextBuffer_ a) (buffers_ a))
  else
    let buffers := buffers_ a ++ [Some c] in
    c ← deref (match nextBuffer_ a with Some b => Some b | None => newBuffer end);
    c ← SizedBuffer.Append logline c;
    Ok (mkAsync (running_ a) (Some c) None buffers).

(** The [while] test and the checks behind it; after the loop, the last flush. *)
Definition empty_ptr (p : BufferPtr) : bool := match p with Some b => Length b =? 0 | None => false end.
Definition loop_top (running : bool) (b : backend) : outcome backend :=
  if running then
    _ ← massert (empty_ptr (newBuffer1 b)) "newBuffer1 && newBuffer1->Length() == 0";
    _ ← massert (empty_ptr (newBuffer2 b)) "newBuffer2 && newBuffer2->Length() == 0";
    _ ← massert (bool_decide (buffersToWrite b = [])) "buffersToWrite.empty()";
    Ok (mkBackend Waiting (newBuffer1 b) (newBuffer2 b) (buffersToWrite b) (output b) (dropped b))
  else
    o ← sink_flush (output b);
    Ok (mkBackend Done (newBuffer1 b) (newBuffer2 b) (buffersToWrite b) o (dropped b)).

(** The critical section; [wait_for] has returned, notified or timed out. *)
Definition swap (a : AsyncLogging) (b : backend) : AsyncLogging * backend :=
  let buffers := buffers_ a ++ [currentBuffer_ a] in
  let '(next, new2) := match nextBuffer_ a with Some n => (Some n, newBuffer2 b) | None => (newBuffer2 b, None) end in
  (mkAsync (running_ a) (newBuffer1 b) next (buffersToWrite b),
   mkBackend Swapped None new2 buffers (output b) (dropped b)).

Fixpoint write_buffers (env : nat -> E) (i : nat) (bufs : list BufferPtr) (o : O) : outcome O :=
  match bufs with
  | [] => Ok o
  | p :: bufs =>
      b ← deref p; d ← ToStrView b; o ← sink_append (env i) d o;
      write_buffers env (S i) bufs o
  end.

(** [newBuffer = move(buffersToWrite.back()); pop_back(); newBuffer->Reset()],
    when the pointer is null. *)
Definition refill (p : BufferPtr) (bufs : list BufferPtr) : outcome (BufferPtr * list BufferPtr) :=
  match p with
  | Some b => Ok (Some b, bufs)
  | None =>
      _ ← massert (negb (bool_decide (bufs = []))) "!buffersToWrite.empty()";
      b ← deref (default None (last bufs));
      Ok (Some (Reset b), take (length bufs - 1) bufs)
  end.

(** The rest of the loop body; [env i] is what the [i]th append to the file sees,
    [msg] the text of the message about dropped buffers. *)
Definition process (env : nat -> E) (msg : list byte) (b : backend) : outcome backend :=
  let bufs := buffersToWrite b in
  _ ← massert (negb (bool_decide (bufs = []))) "!buffersToWrite.empty()";
  '(bufs, o, d) ← (if (25 <? length bufs)%nat then
                     o ← sink_append (env 0%nat) msg (output b); Ok (take 2 bufs, o, zlen bufs - 2)
                   else Ok (bufs, output b, 0));
  o ← write_buffers env 1 bufs o;
  let bufs := if (2 <? length bufs)%nat then take 2 bufs else bufs in
  '(new1, bufs) ← refill (newBuffer1 b) bufs;
  '(new2, bufs) ← refill (newBuffer2 b) bufs;
  o ← sink_flush o;
  Ok (mkBackend Top new1 new2 [] o (dropped b + d)).

(** ** Runs *)
Inductive event : Type :=
  | EvAppend (logline : list byte)
  | EvBackend (env : nat -> E) (msg : list byte)
  | EvStop.
Definition state : Type := AsyncLogging * backend.

Definition exec (ev : event) (s : state) : outcome state :=
  let '(a, b) := s in
  match ev with
  | EvAppend line => a ← Append line a; Ok (a, b)
  | EvBackend env msg =>
      match pc b with
      | Top => b ← loop_top (running_ a) b; Ok (a, b)
      | Waiting => Ok (swap a b)
      | Swapped => b ← process env msg b; Ok (a, b)
      | Done => Ok (a, b)
      end
  | EvStop => Ok (Stop a, b)
  end.

(** ** Invariant *)
Definition good (b : SizedBuffer) : Prop := wf b /\ zlen (data_ b) = SIZE.
Definition good_ptr (p : BufferPtr) : Prop := exists b, p = Some b /\ good b.
Definition fresh (p : BufferPtr) : Prop := exists b, p = Some b /\ good b /\ text b = [].
Definition ptr_text (p : BufferPtr) : list byte := match p with Some b => text b | None => [] end.
Definition texts (ps : list BufferPtr) : list byte := concat (map ptr_text ps).
#[local] Arguments texts : simpl never.

(** The text that is on its way: in the backend's hands, then in the full buffers,
    then in the current one. *)
Definition shared_text (a : AsyncLogging) : list byte := texts (buffers_ a) ++ ptr_text (currentBuffer_ a).
Definition pending (s : state) : list byte := texts (buffersToWrite s.2) ++ shared_text s.1.

Record front_inv (a : AsyncLogging) : Prop := {
  fi_current : good_ptr (currentBuffer_ a);
  fi_next : nextBuffer_ a = None \/ fresh (nextBuffer_ a);
  fi_buffers : Forall good_ptr (buffers_ a);
  fi_used : nextBuffer_ a = None -> buffers_ a <> [];
}.
Definition back_inv (b : backend) : Prop :=
  sink_inv (output b) /\ 0 <= dropped b /\
  match pc b with
  | Swapped => newBuffer1 b = None /\ Forall good_ptr (buffersToWrite b) /\ buffersToWrite b <> [] /\
      (fresh (newBuffer2 b) \/ newBuffer2 b = None /\ (2 <= length (buffersToWrite b))%nat)
  | _ => fresh (newBuffer1 b) /\ fresh (newBuffer2 b) /\ buffersToWrite b = []
  end.

(** The bytes of the lines a buffer can hold at all. *)
Definition accepted (line : list byte) : list byte := if zlen line <? SIZE then line else [].
Definition ev_text (ev : event) : list byte := match ev with EvAppend line => accepted line | _ => [] end.
Definition ev_ok (ev : event) : Prop := match ev with EvBackend env _ => forall i, sink_ok (env i) | _ => True end.

(** What a step keeps: both invariants, and, as long as nothing was dropped, that the file
    and the text on its way are all that was appended. *)
Definition all_text (s : state) : list byte := sink_bytes (output s.2) ++ pending s.
Definition inv (s : state) : Prop := front_inv s.1 /\ back_inv s.2.

(** ** Lemmas *)
Section Laws.
Context `{!LogSinkLaws O E}.
Hypothesis Hsize : 0 < SIZE < 2 ^ 31.

Lemma fresh_good p : fresh p -> good_ptr p.
Proof. intros (b & ? & ? & ?). by exists b. Qed.
Lemma fresh_text p : fresh p -> ptr_text p = [].
Proof. by intros (b & -> & ? & ?). Qed.
Lemma fresh_empty p : fresh p -> empty_ptr p = true.
Proof.
  intros (b & -> & [Hw _] & Ht). cbn. rewrite Length_wf by done. apply Z.eqb_eq.
  by rewrite <- zlen_text, Ht by done.
Qed.
Lemma newBuffer_fresh : fresh newBuffer.
Proof.
  destruct (new_SizedBuffer_wf SIZE Hsize) as [Hw Ht]. eexists. split_and!; try done.
  split; [done|]. cbn. rewrite zlen_replicate. lia.
Qed.
Lemma Bzero_fresh : fresh (Bzero <$> newBuffer).
Proof.
  eexists. split; [done|]. unfold good, wf, text, Bzero. cbn [data_ cur_ new_SizedBuffer].
  rewrite length_replicate, zlen_replicate. split; [split; lia | done].
Qed.
Lemma Reset_fresh b : good b -> fresh (Some (Reset b)).
Proof. intros [Hw Hl]. destruct (Reset_spec b Hw). by exists (Reset b). Qed.

Lemma texts_app ps qs : texts (ps ++ qs) = texts ps ++ texts qs.
Proof. unfold texts. by rewrite map_app, concat_app. Qed.
Lemma texts_one p : texts [p] = ptr_text p.
Proof. unfold texts. cbn. by rewrite app_nil_r. Qed.

(** Appending to a good buffer that has room, or that is empty. *)
Lemma Sized_append_good line b : good b -> zlen line < Avail b \/ text b = [] ->
  exists b', SizedBuffer.Append line b = Ok b' /\ good b' /\ text b' = text b ++ accepted line.
Proof.
  intros [Hw Hl] Hroom. destruct (SizedAppend_spec b line Hw) as (b' & E1 & Hw' & Hl' & Ht).
  exists b'. split_and!; [done | split; [done | congruence] |]. rewrite Ht. f_equal. unfold accepted.
  pose proof (Avail_wf b Hw) as Ha. pose proof Hw as [_ Hc]. destruct Hroom as [Hr|Hr].
  - destruct (Z.ltb_spec (zlen line) (Avail b)); [|lia]. destruct (Z.ltb_spec (zlen line) SIZE); [done | lia].
  - assert (cur_ b = 0) by (rewrite <- zlen_text by done; by rewrite Hr).
    replace (Avail b) with SIZE by lia. done.
Qed.

Lemma AsyncAppend_Ok line a : front_inv a ->
  exists a', Append line a = Ok a' /\ front_inv a' /\ shared_text a' = shared_text a ++ accepted line.
Proof.
  intros [(c & Hc & Hg) Hn Hb Hu]. unfold Append. rewrite Hc. cbn [deref mbind outcome_bind].
  destruct (Z.ltb_spec (zlen line) (Avail c)) as [Hr|Hr].
  - destruct (Sized_append_good line c) as (c' & -> & Hg' & Ht); [done | by left |]. eexists. split; [done|].
    split; [split; cbn; try done; by exists c'|]. unfold shared_text. cbn. by rewrite Hc, Ht, app_assoc.
  - set (p := match nextBuffer_ a with Some b => Some b | None => newBuffer end).
    assert (fresh p) as (n & -> & Hgn & Htn).
    { unfold p. destruct Hn as [->|Hn]; [exact newBuffer_fresh|]. by destruct Hn as (n & -> & ?); exists n. }
    cbn [deref mbind outcome_bind].
    destruct (Sized_append_good line n) as (n' & -> & Hg' & Ht); [done | by right |]. eexists. split; [done|].
    split; [split; cbn|].
    + by exists n'.
    + by left.
    + apply Forall_app; split; [done|]. repeat constructor. by exists c.
    + intros _ H. by apply app_nil in H as [_ ?].
    + unfold shared_text. cbn. by rewrite texts_app, texts_one, Hc, Ht, Htn.
Qed.

Lemma write_buffers_Ok env i ps o : (forall i, sink_ok (env i)) -> sink_inv o -> Forall good_ptr ps ->
  exists o', write_buffers env i ps o = Ok o' /\ sink_inv o' /\ sink_bytes o' = sink_bytes o ++ texts ps.
Proof.
  intros He. revert i o; induction ps as [|p ps IH]; intros i o Ho Hps; cbn [write_buffers].
  - exists o. split_and!; try done. unfold texts. cbn. by rewrite app_nil_r.
  - inversion Hps as [|? ? (b & -> & Hw & _) Hps']; subst. cbn [deref mbind outcome_bind].
    change (ToStrView b) with (ToString b). rewrite ToString_spec by done. cbn [mbind outcome_bind].
    destruct (sink_append_law (env i) (text b) o) as (o1 & -> & Ho1 & Hb1); [done..|]. cbn [mbind outcome_bind].
    destruct (IH (S i) o1) as (o' & -> & Ho' & Hb'); [done..|]. exists o'. split_and!; try done.
    rewrite Hb', Hb1. unfold texts. cbn. by rewrite app_assoc.
Qed.

Lemma refill_Ok p ps : fresh p \/ p = None /\ ps <> [] -> Forall good_ptr ps ->
  exists p' ps', refill p ps = Ok (p', ps') /\ fresh p' /\ Forall good_ptr ps' /\
    (length ps - 1 <= length ps')%nat.
Proof.
  intros Hp Hps. destruct Hp as [(b & -> & Hb)|[-> Hne]]; cbn [refill].
  - exists (Some b), ps. split_and!; try done; [by exists b | lia].
  - rewrite bool_decide_false by done. cbn [negb massert mbind outcome_bind].
    destruct (last ps) as [q|] eqn:El; [|by apply last_None in El].
    rewrite Forall_forall in Hps. destruct (Hps q) as (b & -> & Hb); [by apply last_Some_elem_of|].
    cbn. eexists _, _. split; [done|]. split; [by apply Reset_fresh|]. split; [|rewrite length_take; lia].
    apply Forall_take. by apply Forall_forall.
Qed.

Lemma good_if_take (c : bool) n ps : Forall good_ptr ps -> Forall good_ptr (if c then take n ps else ps).
Proof. destruct c; [apply Forall_take | done]. Qed.

Lemma process_Ok env msg b : (forall i, sink_ok (env i)) -> back_inv b -> pc b = Swapped ->
  exists b', process env msg b = Ok b' /\ back_inv b' /\ pc b' = Top /\ dropped b <= dropped b' /\
    sink_synced (output b') /\
    (dropped b' = dropped b <-> (length (buffersToWrite b) <= 25)%nat) /\
    (dropped b' = dropped b -> sink_bytes (output b') = sink_bytes (output b) ++ texts (buffersToWrite b)).
Proof.
  intros He (Ho & Hd & Hb) Hpc. rewrite Hpc in Hb. destruct Hb as (H1 & Hg & Hne & H2).
  unfold process. rewrite bool_decide_false by done. cbn [negb massert mbind outcome_bind].
  set (ps := buffersToWrite b) in *.
  assert (Hpre : exists o1 d, (if (25 <? length ps)%nat then
       o ← sink_append (env 0%nat) msg (output b); Ok (take 2 ps, o, zlen ps - 2) else Ok (ps, output b, 0))
     = Ok (if (25 <? length ps)%nat then take 2 ps else ps, o1, d) /\ sink_inv o1 /\ 0 <= d /\
     (d = 0 <-> (length ps <= 25)%nat) /\ ((length ps <= 25)%nat -> o1 = output b)).
  { destruct (Nat.ltb_spec 25 (length ps)).
    - destruct (sink_append_law (env 0%nat) msg (output b)) as (o1 & -> & Ho1 & _); [done..|].
      exists o1, (zlen ps - 2). unfold zlen. split_and!; try done; lia.
    - exists (output b), 0. split_and!; done || lia. }
  destruct Hpre as (o1 & d & -> & Ho1 & Hd0 & Hd1 & Heq). cbn [mbind outcome_bind].
  set (ps1 := if (25 <? length ps)%nat then take 2 ps else ps).
  assert (Hg1 : Forall good_ptr ps1) by (by apply good_if_take).
  assert (Hl1 : (length ps1 `min` 2 = length ps `min` 2)%nat).
  { unfold ps1. destruct (Nat.ltb_spec 25 (length ps)); rewrite ?length_take; lia. }
  destruct (write_buffers_Ok env 1 ps1 o1) as (o2 & -> & Ho2 & Hb2); [done..|]. cbn [mbind outcome_bind].
  set (ps2 := if (2 <? length ps1)%nat then take 2 ps1 else ps1).
  assert (Hg2 : Forall good_ptr ps2) by (by apply good_if_take).
  assert (Hl2 : length ps2 = (length ps `min` 2)%nat).
  { unfold ps2. destruct (Nat.ltb_spec 2 (length ps1)); rewrite ?length_take; lia. }
  assert (length ps <> 0)%nat by (by destruct ps).
  destruct (refill_Ok (newBuffer1 b) ps2) as (n1 & ps3 & -> & Hn1 & Hg3 & Hl3);
    [right; split; [done | intros ->; cbn in Hl2; lia] | done |].
  cbn [mbind outcome_bind].
  destruct (refill_Ok (newBuffer2 b) ps3) as (n2 & ps4 & -> & Hn2 & _ & _).
  { destruct H2 as [?|[? ?]]; [by left | right]. split; [done|]. intros ->. cbn in Hl3. lia. }
  { done. }
  cbn [mbind outcome_bind]. destruct (sink_flush_law o2 Ho2) as (o3 & -> & Ho3 & Hb3 & Hs3).
  cbn [mbind outcome_bind]. eexists. split; [done|]. cbn.
  split; [unfold back_inv; cbn; split_and!; try done; lia|]. split; [done|]. split; [lia|]. split; [done|].
  split; [rewrite <- Hd1; lia|].
  intros Hz. rewrite Hb3, Hb2. assert (Hs : (length ps <= 25)%nat) by (apply Hd1; lia).
  rewrite Heq by done. unfold ps1. apply Nat.ltb_ge in Hs. by rewrite Hs.
Qed.

Lemma loop_top_Ok running b : back_inv b -> pc b = Top ->
  exists b', loop_top running b = Ok b' /\ back_inv b' /\ pc b' = (if running then Waiting else Done) /\
    dropped b' = dropped b /\ buffersToWrite b' = buffersToWrite b /\ sink_bytes (output b') = sink_bytes (output b) /\
    (running = false -> sink_synced (output b')).
Proof.
  intros (Ho & Hd & Hb) Hpc. rewrite Hpc in Hb. destruct Hb as (H1 & H2 & H3). unfold loop_top. destruct running.
  - rewrite !fresh_empty, bool_decide_true by done. cbn. eexists. split_and!; try done.
  - destruct (sink_flush_law (output b) Ho) as (o' & -> & Ho' & Hb' & Hs). cbn. eexists. split_and!; try done.
Qed.

Lemma swap_Ok a b : front_inv a -> back_inv b -> pc b = Waiting ->
  let s := swap a b in
  inv s /\ pc s.2 = Swapped /\ dropped s.2 = dropped b /\ output s.2 = output b /\ shared_text s.1 = [] /\
  buffersToWrite s.2 = buffers_ a ++ [currentBuffer_ a].
Proof.
  intros [Hc Hn Hb Hu] (Ho & Hd & Hw) Hpc. rewrite Hpc in Hw. destruct Hw as (H1 & H2 & H3). unfold swap.
  rewrite H3.
  assert (Hg : Forall good_ptr (buffers_ a ++ [currentBuffer_ a])) by (apply Forall_app; split; [done|]; by repeat constructor).
  assert (Hne : buffers_ a ++ [currentBuffer_ a] <> []) by (intros H; by apply app_nil in H as [_ ?]).
  destruct Hn as [Hn|Hn].
  - rewrite Hn. cbn. unfold shared_text, inv, back_inv. cbn. rewrite (fresh_text _ H1). split_and!; try done.
    + split; cbn; [by apply fresh_good | by right | done |]. destruct H2 as (? & -> & _). done.
    + right. split; [done|]. rewrite length_app. cbn. specialize (Hu Hn). destruct (buffers_ a); [done | cbn; lia].
  - destruct Hn as (n & -> & Hgn). cbn. unfold shared_text, inv, back_inv. cbn. rewrite (fresh_text _ H1).
    split_and!; try done; [|by left]. split; cbn; [by apply fresh_good | right; by exists n | done | done].
Qed.

Lemma exec_Ok ev s : ev_ok ev -> inv s ->
  exists s', exec ev s = Ok s' /\ inv s' /\ dropped s.2 <= dropped s'.2 /\
    (dropped s'.2 = dropped s.2 -> all_text s' = all_text s ++ ev_text ev).
Proof.
  destruct s as [a b]. intros Hev [Ha Hb]. cbn [fst snd] in *. unfold all_text, pending. destruct ev as [line|env msg|]; cbn [exec ev_text].
  - destruct (AsyncAppend_Ok line a Ha) as (a' & -> & Ha' & Ht). cbn [mbind outcome_bind]. eexists. split; [done|].
    cbn [fst snd]. split; [by split|]. split; [lia|]. intros _. by rewrite Ht, !app_assoc.
  - destruct (pc b) eqn:Hpc.
    + destruct (loop_top_Ok (running_ a) b Hb Hpc) as (b' & -> & Hb' & _ & Hd & Hw & Hs & _). cbn [mbind outcome_bind].
      eexists. split; [done|]. cbn [fst snd]. split; [by split|]. split; [lia|]. by rewrite Hs, Hw, app_nil_r.
    + destruct (swap_Ok a b Ha Hb Hpc) as (Hi & _ & Hd & Ho & Hs & Hw). eexists. split; [done|].
      destruct (swap a b) as [a' b']. cbn [fst snd] in *. split; [done|]. split; [lia|]. intros _.
      rewrite Ho, Hs, Hw, texts_app, texts_one, !app_nil_r. unfold shared_text.
      destruct Hb as (_ & _ & Hb). rewrite Hpc in Hb. destruct Hb as (_ & _ & ->). done.
    + destruct (process_Ok env msg b Hev Hb Hpc) as (b' & -> & Hb' & Hpc' & Hd & _ & _ & Ht). cbn [mbind outcome_bind].
      eexists. split; [done|]. cbn [fst snd]. split; [by split|]. split; [lia|]. intros Hx%Ht. rewrite Hx.
      destruct Hb' as (_ & _ & Hb'). rewrite Hpc' in Hb'. destruct Hb' as (_ & _ & ->).
      change (texts []) with (@nil byte). rewrite app_nil_l, app_nil_r. by rewrite <- app_assoc.
    + eexists. split; [done|]. cbn [fst snd]. split; [by split|]. split; [lia|]. by rewrite app_nil_r.
  - eexists. split; [done|]. cbn [fst snd]. split; [|split; [lia | by rewrite app_nil_r]].
    split; [|done]. destruct Ha. by split.
Qed.

Lemma run_Ok evs s : Forall ev_ok evs -> inv s ->
  exists s', ofold exec evs s = Ok s' /\ inv s' /\ dropped s.2 <= dropped s'.2 /\
    (dropped s'.2 = dropped s.2 -> all_text s' = all_text s ++ concat (map ev_text evs)).
Proof.
  revert s; induction evs as [|ev evs IH]; intros s Hevs Hs; cbn [ofold].
  - exists s. cbn. split; [done|]. split; [done|]. split; [lia | by rewrite app_nil_r].
  - inversion Hevs; subst. destruct (exec_Ok ev s) as (s1 & -> & Hs1 & Hd1 & Ht1); [done..|].
    cbn [mbind outcome_bind]. destruct (IH s1) as (s' & -> & Hs' & Hd' & Ht'); [done..|]. exists s'.
    split; [done|]. split; [done|]. split; [lia|]. intros Hx. rewrite Ht', Ht1 by lia. cbn. by rewrite app_assoc.
Qed.

(** ** The end of the backend *)
Definition is_backend (ev : event) : bool := match ev with EvBackend _ _ => true | _ => false end.
(** How many steps of the thread are left once [running_] is reset. *)
Definition steps_left (p : place) : nat := match p with Waiting => 3 | Swapped => 2 | Top => 1 | Done => 0 end.
Definition ended_synced (s : state) : Prop := pc s.2 = Done -> sink_synced (output s.2).
Lemma exec_ends ev s s' : ev_ok ev -> inv s -> ended_synced s -> exec ev s = Ok s' ->
  ended_synced s' /\ (running_ s.1 = false -> running_ s'.1 = false /\
    steps_left (pc s'.2) = (steps_left (pc s.2) - if is_backend ev then 1 else 0)%nat).
Proof.
  destruct s as [a b]. intros Hev [Ha Hb] Hs. cbn [fst snd] in *. destruct ev as [line|env msg|]; cbn [exec is_backend]; intros X.
  - inv_ok. cbn [fst snd]. split; [done|]. intros Hr. split; [|lia].
    match goal with H : Append _ _ = Ok _ |- _ => unfold Append in H; inv_ok; case_match; inv_ok; done end.
  - destruct (pc b) eqn:Hpc.
    + destruct (loop_top_Ok (running_ a) b Hb Hpc) as (b' & Eb & _ & Hpc' & _ & _ & _ & Hsync). rewrite Eb in X. injection X as <-. cbn [fst snd].
      split; [intros Hd; cbn in Hd; apply Hsync; rewrite Hpc' in Hd; by destruct (running_ a)|]. intros Hr. split; [done|]. by rewrite Hpc', Hr.
    + destruct (swap_Ok a b Ha Hb Hpc) as (_ & Hpc' & _). injection X as <-. unfold ended_synced. rewrite Hpc'. split; [done|]. intros Hr.
      split; [|done]. unfold swap. by destruct (nextBuffer_ a).
    + destruct (process_Ok env msg b Hev Hb Hpc) as (b' & Eb & _ & Hpc' & _). rewrite Eb in X. injection X as <-. unfold ended_synced. cbn [fst snd]. by rewrite Hpc'.
    + injection X as <-. cbn [fst snd]. rewrite Hpc. split; [done|]. by intros Hr.
  - injection X as <-. split; [done|]. intros _. cbn [fst snd]. split; [done | lia].
Qed.
Lemma run_ends evs s s' : Forall ev_ok evs -> inv s -> ended_synced s -> ofold exec evs s = Ok s' ->
  ended_synced s' /\ (running_ s.1 = false -> steps_left (pc s'.2) = (steps_left (pc s.2) - length (filter (fun ev => is_backend ev = true) evs))%nat).
Proof.
  revert s; induction evs as [|ev evs IH]; intros s Hevs Hi Hs X; cbn [ofold] in X.
  - injection X as <-. split; [done|]. intros _. cbn. lia.
  - inversion Hevs; subst. apply bind_Ok in X as (s1 & E1 & X). destruct (exec_Ok ev s) as (s1' & E1' & Hi1 & _); [done..|].
    rewrite E1 in E1'. injection E1' as <-. destruct (exec_ends ev s s1) as [Hs1 Hr1]; [done..|]. destruct (IH s1) as [Hs' Hr']; [done..|].
    split; [done|]. intros Hr. destruct (Hr1 Hr) as [Hr1' Hl]. rewrite (Hr' Hr1'), Hl.
    rewrite filter_cons. destruct (is_backend ev); case_decide; cbn; try done; lia.
Qed.

Lemma Start_Ok o : sink_inv o ->
  exists s, Start o new_AsyncLogging = Ok s /\ inv s /\ dropped s.2 = 0 /\ all_text s = sink_bytes o.
Proof.
  intros Ho. pose proof Bzero_fresh as Hf. eexists. split; [done|]. split; [split; [split|]|split; [done|]].
  - by apply fresh_good.
  - by right.
  - constructor.
  - done.
  - unfold back_inv. cbn. by split_and!.
  - unfold all_text, pending, shared_text. cbn [fst snd buffersToWrite buffers_ output currentBuffer_ new_AsyncLogging].
    rewrite (fresh_text (Bzero <$> newBuffer)) by done. cbn. by rewrite app_nil_r.
Qed.
End Laws.
End Async.

(** ** A rolling log file is such a sink *)
#[global] Instance LogFile_sink (hostname : list byte) (pid : Z) :
    LogSink LogFile append_env := {
  sink_append := LogFile.Append hostname pid;
  sink_flush := LogFile.Flush;
  sink_bytes := bytes;
  sink_synced l := Forall (fun nf => all_flushed (contents nf)) (files l);
  sink_inv := LogFile.inv hostname pid;
  sink_ok e := env_ok e /\ opens (roll e) = true /\ forall d, taken (fwrite e) d = d;
}.
Lemma LogFile_sink_laws hostname pid : 0 <= pid < 2 ^ 31 ->
  @LogSinkLaws LogFile append_env (LogFile_sink hostname pid).
Proof.
  intros Hp. split.
  - intros e d o Ho (He & Hop & Ht). destruct (AppendUnlocked_Ok hostname pid Hp e d o Ho He Hop) as (l & E & Hi & Hb & _).
    exists l. rewrite Ht in Hb. by split_and!.
  - intros o Ho. destruct (Flush_Ok hostname pid o Ho) as (l & E & Hi & Hb & _ & Hs).
    exists l. split_and!; try done. destruct Hs as (nf & Hf & Hd). unfold sink_synced. cbn. unfold files. rewrite Hf.
    apply Forall_app_2; [apply Hi | by repeat constructor].
Qed.

(** When fwrite may be short, what is kept in order is the bytes the file was given: a
    log file together with them. *)
#[global] Instance Handed_sink (hostname : list byte) (pid : Z) :
    LogSink (list byte * LogFile) append_env := {
  sink_append e d o := l ← LogFile.Append hostname pid e d o.2; Ok (o.1 ++ d, l);
  sink_flush o := l ← LogFile.Flush o.2; Ok (o.1, l);
  sink_bytes := fst;
  sink_synced o := Forall (fun nf => all_flushed (contents nf)) (files o.2);
  sink_inv o := LogFile.inv hostname pid o.2;
  sink_ok e := env_ok e /\ opens (roll e) = true;
}.
Lemma Handed_sink_laws hostname pid : 0 <= pid < 2 ^ 31 ->
  @LogSinkLaws (list byte * LogFile) append_env (Handed_sink hostname pid).
Proof.
  intros Hp. split.
  - intros e d [h l] Ho (He & Hop). destruct (AppendUnlocked_Ok hostname pid Hp e d l Ho He Hop) as (l' & E & Hi & _).
    exists (h ++ d, l'). cbn. unfold LogFile.Append. by rewrite E.
  - intros [h l] Ho. destruct (Flush_Ok hostname pid l Ho) as (l' & E & Hi & _ & _ & Hs). exists (h, l'). cbn. rewrite E.
    split_and!; try done. destruct Hs as (nf & Hf & Hd). unfold sink_synced. cbn. unfold files. rewrite Hf.
    apply Forall_app_2; [apply Hi | by repeat constructor].
Qed.

(** ** Theorems *)

(** C15: Log lines reach the file once and in order, and nothing faults.  In every
    interleaving of appends, of the backend's steps and of [Stop], no null buffer
    is used and no assertion of [ThreadFunction] fails; and as long as the
    backend never discarded buffers, the bytes in the sink followed by the bytes
    still in memory are exactly the lines appended, in the order in which [Append] took
    the mutex, except those of [SIZE] bytes or more, which are discarded
    ([ev_text], [long_line_discarded]).  The sink is any that meets [LogSinkLaws] where
    [ev_ok] holds: a log file whose fopen succeeds and whose fwrite takes every byte
    ([LogFile_sink_laws]); or, when fwrite may be short, the bytes the log file was
    given, its fopen succeeding ([Handed_sink_laws]).  A failing fopen ends the
    program. *)
Theorem async_log_in_order {O E} `{!LogSink O E, !LogSinkLaws O E} SIZE o evs :
  0 < SIZE < 2 ^ 31 -> sink_inv o -> sink_bytes o = [] -> Forall ev_ok evs ->
  exists s, (s ← Start SIZE o (new_AsyncLogging SIZE); ofold (exec SIZE) evs s) = Ok s /\
    (dropped s.2 = 0 -> sink_bytes (output s.2) ++ pending s = concat (map (ev_text SIZE) evs)).
Proof.
  intros Hs Ho Hb Hev. destruct (Start_Ok SIZE Hs o Ho) as (s0 & -> & Hi & Hd & Ht). cbn [mbind outcome_bind].
  destruct (run_Ok SIZE Hs evs s0 Hev Hi) as (s & -> & _ & _ & Hr). exists s. split; [done|].
  rewrite Hb in Ht. rewrite Hd, Ht in Hr. exact Hr.
Qed.

(** One round of the backend writes everything.  From any reachable state in
    which the backend is about to take the buffers and fewer than 25 are full, its
    two steps put every byte appended so far in the file and flush it. *)
Theorem backend_round_writes_all {O E} `{!LogSink O E, !LogSinkLaws O E} SIZE o evs s env msg :
  0 < SIZE < 2 ^ 31 -> sink_inv o -> sink_bytes o = [] -> Forall ev_ok evs -> (forall i, sink_ok (env i)) ->
  (s ← Start SIZE o (new_AsyncLogging SIZE); ofold (exec SIZE) evs s) = Ok s ->
  pc s.2 = Waiting -> dropped s.2 = 0 -> (length (buffers_ s.1) < 25)%nat ->
  exists s', ofold (exec SIZE) [EvBackend env msg; EvBackend env msg] s = Ok s' /\
    sink_bytes (output s'.2) = concat (map (ev_text SIZE) evs) /\ sink_synced (output s'.2) /\
    dropped s'.2 = 0 /\ pc s'.2 = Top.
Proof.
  intros Hs Ho Hb Hev He Hrun Hpc Hd0 Hfew.
  destruct (Start_Ok SIZE Hs o Ho) as (s0 & E0 & Hi & Hd & Ht). rewrite E0 in Hrun. cbn [mbind outcome_bind] in Hrun.
  destruct (run_Ok SIZE Hs evs s0 Hev Hi) as (s1 & E1 & [Ha Hbk] & _ & Hr). rewrite Hrun in E1. injection E1 as <-.
  rewrite Hd, Ht, Hb in Hr. specialize (Hr Hd0). destruct s as [a b]. cbn [fst snd] in *.
  cbn [ofold exec]. rewrite Hpc. cbn [mbind outcome_bind].
  destruct (swap_Ok SIZE a b Ha Hbk Hpc) as ([_ Hi2] & Hpc2 & Hd2 & Ho2 & Hsh & Hw2).
  destruct (swap a b) as [a2 b2]. cbn [fst snd] in *. cbn [ofold exec mbind outcome_bind]. rewrite Hpc2.
  destruct (process_Ok SIZE env msg b2 He Hi2 Hpc2) as (b3 & -> & _ & Hpc3 & _ & Hsync & Hiff & Htext).
  cbn [mbind outcome_bind]. eexists. split; [done|]. cbn [fst snd].
  assert (Heq : dropped b3 = dropped b2) by (apply Hiff; rewrite Hw2, length_app; cbn; lia).
  split; [|split_and!; [done | lia | done]].
  rewrite Htext, Ho2, Hw2, texts_app, texts_one by done. rewrite app_nil_l in Hr. rewrite <- Hr. unfold all_text, pending, shared_text.
  cbn [fst snd]. destruct Hbk as (_ & _ & Hbk). rewrite Hpc in Hbk. destruct Hbk as (_ & _ & ->). done.
Qed.

(** C33: [Stop] returns.  Once [running_] is reset, whatever is appended meanwhile, at
    most three steps of the backend thread (the critical section it waits for, the rest
    of the loop body, the test of the loop) end it, so that the join returns; and when it
    has ended, everything it wrote has been flushed (fflush was called after it). *)
Theorem stop_ends {O E} `{!LogSink O E, !LogSinkLaws O E} SIZE o evs s evs' :
  0 < SIZE < 2 ^ 31 -> sink_inv o -> Forall ev_ok evs -> Forall ev_ok evs' ->
  (s ← Start SIZE o (new_AsyncLogging SIZE); ofold (exec SIZE) evs s) = Ok s -> running_ s.1 = false ->
  (3 <= length (filter (fun ev => is_backend ev = true) evs'))%nat ->
  exists s', ofold (exec SIZE) evs' s = Ok s' /\ pc s'.2 = Done /\ sink_synced (output s'.2).
Proof.
  intros Hs Ho Hev Hev' Hrun Hr Hn. destruct (Start_Ok SIZE Hs o Ho) as (s0 & E0 & Hi & _). rewrite E0 in Hrun. cbn [mbind outcome_bind] in Hrun.
  assert (Hs0 : ended_synced s0) by (unfold Start, ThreadFunction_start in E0; inv_ok; done).
  destruct (run_Ok SIZE Hs evs s0 Hev Hi) as (s1 & E1 & Hi1 & _). rewrite Hrun in E1. injection E1 as <-.
  destruct (run_ends SIZE Hs evs s0 s Hev Hi Hs0 Hrun) as [Hs1 _].
  destruct (run_Ok SIZE Hs evs' s Hev' Hi1) as (s' & E' & _). exists s'. split; [done|].
  destruct (run_ends SIZE Hs evs' s s' Hev' Hi1 Hs1 E') as [Hs' Hl]. specialize (Hl Hr).
  assert (Hd : pc s'.2 = Done) by (destruct (pc s'.2), (pc s.2); cbn in Hl; (done || lia)). split; [done | by apply Hs'].
Qed.

(** *** Examples: buffers of eight bytes on a log that rolls at three *)
Definition ex_sink : LogSink LogFile append_env := LogFile_sink [] 7.
Lemma ex_sink_laws : @LogSinkLaws LogFile append_env ex_sink.
Proof. apply LogFile_sink_laws. lia. Qed.
Definition ex_log : LogFile :=
  match new_LogFile [] 7 (chars "log") 3 3 1 (mkRoll 1 true) with
  | Ok l => l
  | Fault _ => mkLogFile [] 0 0 0 0 0 0 0 None []
  end.
Lemma ex_log_inv : LogFile.inv [] 7 ex_log.
Proof.
  destruct (new_LogFile_Ok [] 7 ltac:(lia) (chars "log") 3 3 1 (mkRoll 1 true)) as (l & E & Hi & _);
    [apply (bool_decide_unpack _); vm_compute; exact I | reflexivity | unfold clock_ok, year_10000; cbn; lia | reflexivity |].
  unfold ex_log. by rewrite E.
Qed.
Definition ex_envs : nat -> append_env := fun i => ex_env (2 + Z.of_nat (Nat.min i 100)).
Lemma ex_envs_ok i : @sink_ok _ _ ex_sink (ex_envs i).
Proof. split; [apply ex_env_ok; unfold year_10000; lia|]. split; [reflexivity|]. intros d. unfold taken. cbn. by rewrite ztake_all by lia. Qed.
Definition ex_evs : list event :=
  [EvAppend (chars "one "); EvBackend ex_envs []; EvAppend (chars "two "); EvAppend (chars "three ")].
Lemma ex_evs_ok : Forall (@ev_ok _ _ ex_sink) ex_evs.
Proof. repeat constructor; apply ex_envs_ok. Qed.

Lemma async_log_in_order_witness :
  exists s, (s ← @Start LogFile 8 ex_log (new_AsyncLogging 8); ofold (@exec _ _ ex_sink 8) ex_evs s) = Ok s /\
    (dropped s.2 = 0 -> bytes (output s.2) ++ pending s = chars "one two three ").
Proof.
  exact (@async_log_in_order _ _ ex_sink ex_sink_laws 8 ex_log ex_evs ltac:(lia) ex_log_inv eq_refl ex_evs_ok).
Defined.

Lemma backend_round_writes_all_witness :
  exists s s', (s ← @Start LogFile 8 ex_log (new_AsyncLogging 8); ofold (@exec _ _ ex_sink 8) ex_evs s) = Ok s /\
    ofold (@exec _ _ ex_sink 8) [EvBackend ex_envs []; EvBackend ex_envs []] s = Ok s' /\
    bytes (output s'.2) = chars "one two three ".
Proof.
  set (m := s ← @Start LogFile 8 ex_log (new_AsyncLogging 8); ofold (@exec _ _ ex_sink 8) ex_evs s).
  destruct m as [s|f] eqn:E; [|vm_compute in E; discriminate E]. subst m.
  destruct (@backend_round_writes_all _ _ ex_sink ex_sink_laws 8 ex_log ex_evs s ex_envs []) as (s' & E' & Hb & _);
    [lia | exact ex_log_inv | reflexivity | exact ex_evs_ok | exact ex_envs_ok | exact E
    | vm_compute in E; injection E as <-; reflexivity
    | vm_compute in E; injection E as <-; reflexivity
    | vm_compute in E; injection E as <-; vm_compute; lia |].
  exists s, s'. split; [reflexivity|]. split; [exact E' | exact Hb].
Defined.

(** Lines appended while the backend is writing, just before [Stop], stay in memory:
    the loop ends without another swap. *)
Lemma Stop_loses_lines :
  let log_then_stop := [EvBackend ex_envs []; EvBackend ex_envs []; EvAppend (chars "last"); EvStop;
                        EvBackend ex_envs []; EvBackend ex_envs []] in
  exists s, (s ← @Start LogFile 8 ex_log (new_AsyncLogging 8); ofold (@exec _ _ ex_sink 8) log_then_stop s) = Ok s /\
    pc s.2 = Done /\ bytes (output s.2) = [] /\ pending s = chars "last".
Proof. eexists. split; [vm_compute; reflexivity|]. by vm_compute. Qed.

(** A line that does not fit in an empty buffer is discarded, and a fresh buffer is
    used up. *)
Lemma long_line_discarded :
  exists a, Append 8 (chars "12345678") (new_AsyncLogging 8) = Ok a /\ shared_text a = [] /\
    length (buffers_ a) = 1%nat.
Proof. eexists. split; [vm_compute; reflexivity|]. by vm_compute. Qed.
Lemma stop_ends_witness :
  exists s s', (s ← @Start LogFile 8 ex_log (new_AsyncLogging 8); ofold (@exec _ _ ex_sink 8) (ex_evs ++ [EvStop]) s) = Ok s /\
    ofold (@exec _ _ ex_sink 8) [EvBackend ex_envs []; EvAppend (chars "four"); EvBackend ex_envs []; EvBackend ex_envs []] s = Ok s' /\
    pc s'.2 = Done /\ Forall (fun nf => all_flushed (contents nf)) (files (output s'.2)).
Proof.
  set (m := s ← @Start LogFile 8 ex_log (new_AsyncLogging 8); ofold (@exec _ _ ex_sink 8) (ex_evs ++ [EvStop]) s).
  destruct m as [s|f] eqn:E; [|vm_compute in E; discriminate E]. subst m.
  destruct (@stop_ends _ _ ex_sink ex_sink_laws 8 ex_log (ex_evs ++ [EvStop]) s
    [EvBackend ex_envs []; EvAppend (chars "four"); EvBackend ex_envs []; EvBackend ex_envs []]) as (s' & E' & Hd & Hs);
    [lia | exact ex_log_inv | apply Forall_app_2; [exact ex_evs_ok | repeat constructor] | repeat constructor; apply ex_envs_ok | exact E
    | vm_compute in E; injection E as <-; reflexivity | vm_compute; lia |].
  exists s, s'. split; [reflexivity|]. split; [exact E'|]. split; [exact Hd | exact Hs].
Defined.
