(* ===== verification/LogPipeline.v ===== *)
(** * From log statements to the log file (Logger.cc with AsynLogBackend.cc behind it)

    The usual set-up of the library: [Logger::SetOutput] is given a function that hands
    every line to [AsyncLogging::Append].  Any number of threads execute log statements,
    each with its own thread-local caches, while the backend thread takes the buffers and
    writes them.  A statement formats its line in the stack of its thread and touches
    shared state only in [Append], which is one critical section, so that a whole
    statement is a step of the interleaving. *)
From S2P Require Import Prelude SizedBuffer LogStream CString Time Calendar Thread Logger LogFile AsyncLogging.

Section Pipeline.
Context {double float : Type} (fmt_g : double -> list byte) (double_of_float : float -> double) (strerror : Z -> list byte).
Context {O E : Type} `{!LogSink O E} (SIZE : Z).
(** The kernel's id of each thread, and the log level. *)
Context (ktid : nat -> Z) (level : LogLevel).

(** The hooks: lines go to the backend, flushing stays that of stdout. *)
Definition hooks : globals (state (O:=O)) :=
  SetOutput (fun line s => exec SIZE (EvAppend line) s) (mkGlobals level (fun _ s => Ok s) (fun s => Ok s)).

Record application : Type := mkApp {
  caches : gmap nat logger_tls;
  logging : state (O:=O);
  aborted : bool;
}.
Definition cache (t : nat) (x : application) : logger_tls := default new_logger_tls (caches x !! t).
Inductive step : Type :=
  | PLog (t : nat) (s : @statement double float)      (** thread [t] executes a log statement *)
  | PBackend (env : nat -> E) (msg : list byte).      (** the backend thread runs on *)
Definition exec_step (p : step) (x : application) : outcome application :=
  if aborted x then Ok x else
  match p with
  | PLog t s =>
      '((w, st), ab) ← log_one fmt_g double_of_float strerror (ktid t) hooks s (cache t x) (logging x);
      Ok (mkApp (<[t := st]> (caches x)) w ab)
  | PBackend env msg => w ← exec SIZE (EvBackend env msg) (logging x); Ok (mkApp (caches x) w false)
  end.

(** The line of a statement: what a logger without caches hands to its output. *)
Definition collect : globals (list byte) := mkGlobals level (fun line w => Ok (w ++ line)) (fun w => Ok w).
Definition line_of (p : step) : list byte :=
  match p with
  | PLog t s => match log_one fmt_g double_of_float strerror (ktid t) collect s new_logger_tls [] with Ok (w, _, _) => w | Fault _ => [] end
  | PBackend _ _ => []
  end.

Definition step_ok (p : step) : Prop :=
  match p with
  | PLog t s => statement_ok s /\ macro_level (s_macro s) <> fatal
  | PBackend env _ => forall i, sink_ok (env i)
  end.

Context (Hg : forall v, zlen (fmt_g v) < kMaxNumericSize) (Hk : forall t, 0 < ktid t < 2 ^ 31).
Context `{!LogSinkLaws O E} (Hsize : kSmallSize <= SIZE < 2 ^ 31).

Lemma log_one_appends t s st w : statement_ok s -> macro_level (s_macro s) <> fatal -> cache_ok (ktid t) st ->
  exists st', cache_ok (ktid t) st' /\ zlen (line_of (PLog t s)) < kSmallSize /\
    log_one fmt_g double_of_float strerror (ktid t) hooks s st w =
      (if enabled (s_macro s) hooks then w ← exec SIZE (EvAppend (line_of (PLog t s))) w; Ok (w, st', false) else Ok (w, st', false)) /\
    (enabled (s_macro s) hooks = false -> line_of (PLog t s) = []).
Proof.
  intros (Ht & Hn & Hf & Hl & He & Hi) Hm Hc. unfold line_of, log_one.
  assert (Een : enabled (s_macro s) collect = enabled (s_macro s) hooks) by done. destruct (enabled (s_macro s) hooks) eqn:En.
  - destruct (log_emits fmt_g double_of_float strerror (ktid t) (Hk t) Hg hooks (s_macro s) (s_file s) (s_line s) (s_func s) (s_errno s) (s_now s)
      (s_items s) st w) as (d & u & ti & st1 & Ed & Eu & Et & Hc1 & E1); try done.
    destruct (log_emits fmt_g double_of_float strerror (ktid t) (Hk t) Hg collect (s_macro s) (s_file s) (s_line s) (s_func s) (s_errno s) (s_now s)
      (s_items s) new_logger_tls []) as (d' & u' & t' & st2 & Ed' & Eu' & Et' & _ & E2); try done; [apply new_logger_tls_ok|].
    rewrite Ed in Ed'. rewrite Eu in Eu'. rewrite Et in Et'. simplify_eq. exists st1. split; [done|]. rewrite E1, E2.
    unfold emit. cbn [globalOutput hooks SetOutput collect mbind outcome_bind app]. rewrite !decide_False by done.
    split; [by apply line_short|]. split; [|done].
    match goal with |- (?m ≫= _) = _ => destruct m as [w1|] end; cbn [mbind outcome_bind]; [by rewrite decide_False | done].
  - exists st. split; [done|]. unfold log. rewrite En, Een. done.
Qed.

Lemma step_Ok p x : step_ok p -> aborted x = false -> (forall t, cache_ok (ktid t) (cache t x)) -> AsyncLogging.inv SIZE (logging x) ->
  exists x', exec_step p x = Ok x' /\ aborted x' = false /\ (forall t, cache_ok (ktid t) (cache t x')) /\ AsyncLogging.inv SIZE (logging x') /\
    dropped (logging x).2 <= dropped (logging x').2 /\
    (dropped (logging x').2 = dropped (logging x).2 -> all_text (logging x') = all_text (logging x) ++ line_of p).
Proof.
  intros Hp Ha Hc Hi. assert (Hs : 0 < SIZE < 2 ^ 31) by (unfold kSmallSize in Hsize; lia). unfold exec_step. rewrite Ha. destruct p as [t s|env msg].
  - destruct Hp as [Hp Hm]. destruct (log_one_appends t s (cache t x) (logging x) Hp Hm (Hc t)) as (st & Hst & Hl & -> & Hno).
    assert (Hcs : forall w b t', cache_ok (ktid t') (cache t' (mkApp (<[t := st]> (caches x)) w b))).
    { intros w b t'. unfold cache. cbn. destruct (decide (t = t')) as [<-|]; [by rewrite lookup_insert_eq|]. rewrite lookup_insert_ne by done. apply Hc. }
    destruct (enabled (s_macro s) hooks) eqn:En.
    + destruct (exec_Ok SIZE Hs (EvAppend (line_of (PLog t s))) (logging x) Logic.I Hi) as (w & -> & Hi' & Hd & Htext). cbn [mbind outcome_bind].
      eexists. split; [reflexivity|]. cbn [aborted logging]. split; [done|]. split; [apply Hcs|]. split; [done|]. split; [done|].
      intros Hx. rewrite (Htext Hx). cbn [ev_text]. unfold accepted. rewrite (proj2 (Z.ltb_lt _ _)) by lia. done.
    + cbn [mbind outcome_bind]. eexists. split; [reflexivity|]. cbn [aborted logging]. split; [done|]. split; [apply Hcs|]. split; [done|]. split; [lia|].
      intros _. by rewrite Hno, app_nil_r.
  - destruct (exec_Ok SIZE Hs (EvBackend env msg) (logging x) Hp Hi) as (w & -> & Hi' & Hd & Htext). cbn [mbind outcome_bind].
    eexists. split; [reflexivity|]. cbn [aborted logging]. done.
Qed.
Lemma steps_Ok ps x : Forall step_ok ps -> aborted x = false -> (forall t, cache_ok (ktid t) (cache t x)) -> AsyncLogging.inv SIZE (logging x) ->
  exists x', ofold exec_step ps x = Ok x' /\ dropped (logging x).2 <= dropped (logging x').2 /\
    (dropped (logging x').2 = dropped (logging x).2 -> all_text (logging x') = all_text (logging x) ++ concat (line_of <$> ps)).
Proof.
  revert x. induction ps as [|p ps IH]; intros x Hps Ha Hc Hi; cbn [ofold].
  - exists x. cbn. split; [done|]. split; [lia|]. by rewrite app_nil_r.
  - inversion Hps as [|? ? Hp Hps']; subst. destruct (step_Ok p x Hp Ha Hc Hi) as (x1 & -> & Ha1 & Hc1 & Hi1 & Hd1 & Ht1). cbn [mbind outcome_bind].
    destruct (IH x1 Hps' Ha1 Hc1 Hi1) as (x' & -> & Hd' & Ht'). exists x'. split; [done|]. split; [lia|].
    intros Hx. rewrite Ht', Ht1 by lia. rewrite fmap_cons. cbn [concat]. by rewrite app_assoc.
Qed.
End Pipeline.

(** C18: the logging pipeline.  Any number of threads execute log statements, none of
    them fatal (a fatal line is lost: [fatal_line_lost]), while the backend thread runs, in
    every interleaving: nothing faults, and unless the backend discarded buffers, what is
    in the sink followed by what is still in the buffers is exactly the lines of the
    enabled statements, complete and in the order of their [Append]; no line is too
    long for a buffer.  The sink is as in AsyncLogging.v: a log file whose fopen
    succeeds and whose fwrite takes every byte, or, when fwrite may be short, the bytes
    that the log file was given.  On a full disk, therefore, lines reach the file
    object in this order, but what fwrite refuses is lost. *)
Theorem log_pipeline {double float O E : Type} `{!LogSink O E, !LogSinkLaws O E} (fmt_g : double -> list byte) (double_of_float : float -> double)
    strerror SIZE (ktid : nat -> Z) level (ps : list (@step double float E)) o :
  (forall v, zlen (fmt_g v) < kMaxNumericSize) -> (forall t, 0 < ktid t < 2 ^ 31) -> kSmallSize <= SIZE < 2 ^ 31 ->
  sink_inv o -> sink_bytes o = [] -> Forall step_ok ps ->
  exists x, (s ← Start SIZE o (new_AsyncLogging SIZE);
             ofold (exec_step fmt_g double_of_float strerror SIZE ktid level) ps (mkApp ∅ s false)) = Ok x /\
    (dropped (logging x).2 = 0 ->
     sink_bytes (output (logging x).2) ++ AsyncLogging.pending (logging x) = concat (line_of fmt_g double_of_float strerror ktid level <$> ps)).
Proof.
  intros Hg Hk Hs Ho Hb Hps. assert (Hs' : 0 < SIZE < 2 ^ 31) by (unfold kSmallSize in Hs; lia).
  destruct (Start_Ok SIZE Hs' o Ho) as (s & -> & Hi & Hd & Ht). cbn [mbind outcome_bind].
  destruct (steps_Ok fmt_g double_of_float strerror SIZE ktid level Hg Hk Hs ps (mkApp ∅ s false) Hps eq_refl) as (x & E' & _ & Hx); [|done|].
  - intros t. unfold cache. cbn. apply new_logger_tls_ok.
  - exists x. split; [done|]. cbn [logging] in Hx. rewrite Hd, Ht, Hb in Hx. exact Hx.
Qed.

(** ** Two threads and a rolling file *)
Definition ex_stmt (m : macro) (msg : string) (n : Z) : @statement unit unit :=
  mkStatement m (chars "src/main.cc") 3 [] 0 n [ICString (Some (chars msg))].
Definition ex_steps : list (@step unit unit append_env) :=
  [PLog 0 (ex_stmt LOG_INFO "one" 1660000000000042); PLog 1 (ex_stmt LOG_WARN "two" 1660000000000043); PBackend ex_envs [];
   PLog 0 (ex_stmt LOG_DEBUG "off" 1660000001000000); PBackend ex_envs []; PLog 1 (ex_stmt LOG_INFO "three" 1660000001000000); PBackend ex_envs []].
Definition ex_tid (t : nat) : Z := if decide (t = 0%nat) then 7 else 8.
Definition ex_run (ps : list (@step unit unit append_env)) : outcome application :=
  s ← @Start LogFile kSmallSize ex_log (new_AsyncLogging kSmallSize);
  ofold (@exec_step _ _ ex_fmt ex_float ex_strerror _ _ ex_sink kSmallSize ex_tid info) ps (mkApp ∅ s false).
Lemma log_pipeline_witness : exists x, ex_run ex_steps = Ok x /\ (dropped (logging x).2 = 0 ->
  bytes (output (logging x).2) ++ AsyncLogging.pending (logging x) =
    chars "20220808 23:06:40.000042Z     7 INFO  one - main.cc:3" ++ [Byte.x0a] ++
    chars "20220808 23:06:40.000043Z     8 WARN  two - main.cc:3" ++ [Byte.x0a] ++
    chars "20220808 23:06:41.000000Z     8 INFO  three - main.cc:3" ++ [Byte.x0a]).
Proof.
  destruct (@log_pipeline _ _ _ _ ex_sink ex_sink_laws ex_fmt ex_float ex_strerror kSmallSize ex_tid info ex_steps ex_log) as (x & E & Hx).
  - intros v. vm_compute. reflexivity.
  - intros t. unfold ex_tid. case_decide; lia.
  - unfold kSmallSize. lia.
  - exact ex_log_inv.
  - reflexivity.
  - assert (Hs : forall m msg n, macro_level m <> fatal -> Logger.time_ok n -> statement_ok (ex_stmt m msg n) /\ macro_level (s_macro (ex_stmt m msg n)) <> fatal).
    { intros m msg n Hm Hn. split; [|exact Hm]. split; [exact Hn|]. split; [no_nul_lit|]. split; [vm_compute; reflexivity|]. split; [cbn; lia|]. split; [cbn; lia|].
      by repeat constructor. }
    repeat constructor; cbn [step_ok]; try (apply Hs; [discriminate | unfold Logger.time_ok, year_10000, kMicroSecondsPerSecond; lia]); apply ex_envs_ok.
  - exists x. split; [exact E|]. intros Hd. etransitivity; [exact (Hx Hd) | vm_compute; reflexivity].
Defined.

(** A fatal statement flushes stdout and aborts: with the backend behind the logger
    neither its line nor the lines in the buffers reach the file. *)
Lemma fatal_line_lost : (x ← ex_run [PLog 0 (ex_stmt LOG_INFO "one" 1660000000000042); PLog 0 (ex_stmt LOG_FATAL "dead" 1660000000000043); PBackend ex_envs []; PBackend ex_envs []];
  Ok (aborted x, bytes (output (logging x).2))) = Ok (true, []).
Proof. vm_compute. reflexivity. Qed.
