(* ===== verification/Connector.v ===== *)
(** * Outgoing connections (src/src/network/Connector.h, Connector.cc)

    One connector in its loop thread.  [channel_] is a unique_ptr to a channel of
    Epoll.v; [queue] holds the functors the connector queued in the loop, [timers]
    the [StartInLoop] timers it armed (their delays in milliseconds).  What
    socket(2), connect(2) and getsockopt(2) return are arguments of the steps.
    [open_fds] are the sockets it created and neither closed nor handed over;
    closing a descriptor outside that set is a fault.  [delays] are the retry
    delays used since construction or the last [Restart], [delivered] the sockets
    handed to [newConnectionCallback_]. *)
From S2P Require Import Prelude Epoll.

Inductive States : Type := kDisconnected | kConnecting | kConnected.
#[global] Instance States_eq_dec : EqDecision States.
Proof. solve_decision. Defined.

Definition kMaxRetryDelayMs : Z := 30 * 1000.
Definition kInitRetryDelayMs : Z := 500.

Inductive functor : Type := FStartInLoop | FStopInLoop | FResetChannel.

Record Connector : Type := mkConnector {
  connect_ : bool;
  state_ : States;
  channel_ : option Channel;
  retryDelayMs_ : Z;
  queue : list functor;
  timers : list Z;
  open_fds : gset Z;
  delays : list Z;
  delivered : list Z;
}.
Definition new_Connector : Connector := mkConnector false kDisconnected None kInitRetryDelayMs [] [] ∅ [] [].

Definition set_connect x c := mkConnector x (state_ c) (channel_ c) (retryDelayMs_ c) (queue c) (timers c) (open_fds c) (delays c) (delivered c).
Definition SetState x c := mkConnector (connect_ c) x (channel_ c) (retryDelayMs_ c) (queue c) (timers c) (open_fds c) (delays c) (delivered c).
Definition set_channel x c := mkConnector (connect_ c) (state_ c) x (retryDelayMs_ c) (queue c) (timers c) (open_fds c) (delays c) (delivered c).
Definition set_delay x c := mkConnector (connect_ c) (state_ c) (channel_ c) x (queue c) (timers c) (open_fds c) (delays c) (delivered c).
Definition set_queue x c := mkConnector (connect_ c) (state_ c) (channel_ c) (retryDelayMs_ c) x (timers c) (open_fds c) (delays c) (delivered c).
Definition set_timers x c := mkConnector (connect_ c) (state_ c) (channel_ c) (retryDelayMs_ c) (queue c) x (open_fds c) (delays c) (delivered c).
Definition set_open x c := mkConnector (connect_ c) (state_ c) (channel_ c) (retryDelayMs_ c) (queue c) (timers c) x (delays c) (delivered c).
Definition set_delays x c := mkConnector (connect_ c) (state_ c) (channel_ c) (retryDelayMs_ c) (queue c) (timers c) (open_fds c) x (delivered c).
Definition set_delivered x c := mkConnector (connect_ c) (state_ c) (channel_ c) (retryDelayMs_ c) (queue c) (timers c) (open_fds c) (delays c) x.

Definition queueInLoop (f : functor) (c : Connector) : Connector := set_queue (queue c ++ [f]) c.
(** [loop_->runAfter(ms / 1000.0, startInLoop)]. *)
Definition runAfter (ms : Z) (c : Connector) : Connector :=
  set_delays (delays c ++ [ms]) (set_timers (timers c ++ [ms]) c).
Definition close (fd : Z) (c : Connector) : outcome Connector :=
  if decide (fd ∈ open_fds c) then Ok (set_open (open_fds c ∖ {[fd]}) c)
  else Fault (Undefined "close of a descriptor that is not owned").

Definition Retry (sockfd : Z) (c : Connector) : outcome Connector :=
  c ← close sockfd c;
  let c := SetState kDisconnected c in
  if connect_ c then
    let c := runAfter (retryDelayMs_ c) c in
    Ok (set_delay (Z.min (retryDelayMs_ c * 2) kMaxRetryDelayMs) c)
  else Ok c.

Definition Connecting (sockfd : Z) (c : Connector) : outcome Connector :=
  let c := SetState kConnecting c in
  _ ← massert (bool_decide (channel_ c = None)) "!channel_";
  let ch := SetCallback ErrorCallback (SetCallback WriteCallback (new_Channel sockfd)) in
  Ok (set_channel (Some (changed (fun e => Z.lor e kWriteEvent) ch)) c).

(** The socket and errno of connect, 0 when it returned 0. *)
Record connect_env : Type := mkEnv { sockfd : Z; savedErrno : Z }.

Definition Connect (e : connect_env) (c : Connector) : outcome Connector :=
  if sockfd e <? 0 then Fault (LogFatal "sockets::createNonblockingOrDie")
  else
    let c := set_open (open_fds c ∪ {[sockfd e]}) c in
    if decide (savedErrno e ∈ [0; EINPROGRESS; EINTR; EISCONN]) then Connecting (sockfd e) c
    else if decide (savedErrno e ∈ [EAGAIN; EADDRINUSE; EADDRNOTAVAIL; ECONNREFUSED; ENETUNREACH])
    then Retry (sockfd e) c
    else if decide (savedErrno e ∈ [EACCES; EPERM; EAFNOSUPPORT; EALREADY; EBADF; EFAULT; ENOTSOCK])
    then close (sockfd e) c
    else close (sockfd e) c.

Definition StartInLoop (e : connect_env) (c : Connector) : outcome Connector :=
  _ ← massert (bool_decide (state_ c = kDisconnected)) "state_ == kDisconnected";
  if connect_ c then Connect e c else Ok c.
(** [inLoop]: called in the loop thread, so that runInLoop runs it at once. *)
Definition Start (inLoop : bool) (e : connect_env) (c : Connector) : outcome Connector :=
  let c := set_connect true c in
  if inLoop then StartInLoop e c else Ok (queueInLoop FStartInLoop c).

Definition RemoveAndResetChannel (c : Connector) : outcome (Z * Connector) :=
  match channel_ c with
  | None => Fault (Undefined "null channel_")
  | Some ch =>
      let ch := changed (fun _ => kNoneEvent) ch in
      _ ← massert (IsNoneEvent ch) "IsNoneEvent()";
      _ ← massert (negb (index_ ch =? kNew)) "channels_.find(fd) != channels_.end()";
      let ch := SetIndex kNew (with_added false ch) in
      Ok (fd ch, queueInLoop FResetChannel (set_channel (Some ch) c))
  end.
(** The destructor of the connector. *)
Definition destroy_Connector (c : Connector) : outcome unit := massert (bool_decide (channel_ c = None)) "!channel_".
(** [channel_.reset()] runs the destructor. *)
Definition ResetChannel (c : Connector) : outcome Connector :=
  match channel_ c with
  | None => Ok c
  | Some ch =>
      _ ← massert (negb (addedToLoop_ ch)) "!addedToLoop_";
      Ok (set_channel None c)
  end.

Definition StopInLoop (c : Connector) : outcome Connector :=
  if decide (state_ c = kConnecting) then
    '(sockfd, c) ← RemoveAndResetChannel (SetState kDisconnected c);
    Retry sockfd c
  else Ok c.
Definition Stop (c : Connector) : Connector := queueInLoop FStopInLoop (set_connect false c).

Definition Restart (e : connect_env) (c : Connector) : outcome Connector :=
  let c := SetState kDisconnected c in
  let c := set_delays [] (set_delay kInitRetryDelayMs c) in
  StartInLoop e (set_connect true c).

(** [err]: SO_ERROR; [self]: isSelfConnect. *)
Definition HandleWrite (err : Z) (self : bool) (c : Connector) : outcome Connector :=
  if decide (state_ c = kConnecting) then
    '(sockfd, c) ← RemoveAndResetChannel c;
    if negb (err =? 0) then Retry sockfd c
    else if self then Retry sockfd c
    else
      let c := SetState kConnected c in
      if connect_ c then
        Ok (set_delivered (delivered c ++ [sockfd]) (set_open (open_fds c ∖ {[sockfd]}) c))
      else close sockfd c
  else
    _ ← massert (bool_decide (state_ c = kDisconnected)) "state_ == kDisconnected"; Ok c.
Definition HandleError (c : Connector) : outcome Connector :=
  if decide (state_ c = kConnecting) then
    '(sockfd, c) ← RemoveAndResetChannel c;
    Retry sockfd c
  else Ok c.

(** ** Steps *)
Inductive event : Type :=
  | EvStart (inLoop : bool) (e : connect_env)
  | EvRestart (e : connect_env)
  | EvStop
  | EvFunctor (e : connect_env)                       (** the loop runs the first functor *)
  | EvTimer (e : connect_env)                         (** the oldest timer expires *)
  | EvIO (revents : Z) (err : Z) (self : bool).       (** the poller reports [revents] *)

Definition handle (err : Z) (self : bool) (k : event_kind) (c : Connector) : outcome Connector :=
  match k with
  | WriteCallback => HandleWrite err self c
  | ErrorCallback => HandleError c
  | _ => Ok c
  end.
Definition run_functor (e : connect_env) (f : functor) (c : Connector) : outcome Connector :=
  match f with
  | FStartInLoop => StartInLoop e c
  | FStopInLoop => StopInLoop c
  | FResetChannel => ResetChannel c
  end.
Definition exec_event (ev : event) (c : Connector) : outcome Connector :=
  match ev with
  | EvStart inLoop e => Start inLoop e c
  | EvRestart e => Restart e c
  | EvStop => Ok (Stop c)
  | EvFunctor e => match queue c with [] => Ok c | f :: q => run_functor e f (set_queue q c) end
  | EvTimer e => match timers c with [] => Ok c | _ :: ts => StartInLoop e (set_timers ts c) end
  | EvIO revents err self =>
      match channel_ c with
      | Some ch => ofold (handle err self) (planned (SetRevents revents ch)) c
      | None => Ok c
      end
  end.

(** ** How it is used

    The socket is a new descriptor.  [Start] is called when no attempt is under way
    or scheduled, [Restart] after a connection was delivered; and neither of them
    before the loop has run the [ResetChannel] the last attempt queued.  The same
    order is assumed of the retry timer: it is armed half a second or more ahead in a
    handler, while the functor queued with it runs at the end of the same
    round, so the loop runs the functor first unless a handler of that round takes half
    a second ([timer_before_reset_aborts]).  The poller reports only registered
    channels. *)
Definition env_ok (e : connect_env) (c : Connector) : Prop := 0 <= sockfd e /\ sockfd e ∉ open_fds c.
Fixpoint count (f : functor -> bool) (q : list functor) : nat :=
  match q with [] => 0 | x :: q => (if f x then 1 else 0) + count f q end.
Definition is_start (f : functor) : bool := match f with FStartInLoop => true | _ => false end.
Definition is_reset (f : functor) : bool := match f with FResetChannel => true | _ => false end.
Definition starts (c : Connector) : nat := length (timers c) + count is_start (queue c).

(** The loop has run the [ResetChannel] of the last attempt. *)
Definition drained (c : Connector) : Prop := count is_reset (queue c) = 0%nat.

Definition allowed (ev : event) (c : Connector) : Prop :=
  match ev with
  | EvStart _ e => state_ c = kDisconnected /\ starts c = 0%nat /\ drained c /\ env_ok e c
  | EvRestart e => state_ c = kConnected /\ drained c /\ env_ok e c
  | EvStop => True
  | EvFunctor e => env_ok e c
  | EvTimer e => drained c /\ env_ok e c
  | EvIO _ _ _ => exists ch, channel_ c = Some ch /\ index_ ch = kAdded
  end.
#[global] Instance allowed_dec ev c : Decision (allowed ev c).
Proof.
  destruct ev; cbn; unfold env_ok, drained; try apply _.
  destruct (channel_ c) as [ch|].
  - destruct (decide (index_ ch = kAdded)) as [E|E]; [left; eauto | right; intros (? & [= <-] & ?); done].
  - right. by intros (? & ? & _).
Defined.

Inductive reachable : Connector -> Prop :=
  | reach_new : reachable new_Connector
  | reach_step c ev c' : reachable c -> allowed ev c -> exec_event ev c = Ok c' -> reachable c'.

(** ** Invariant *)

(** The channel of an attempt under way. *)
Definition trying (c : Connector) (fd0 : Z) : Prop :=
  exists ch, channel_ c = Some ch /\ fd ch = fd0 /\ index_ ch = kAdded /\ addedToLoop_ ch = true /\
    callbacks ch = [ErrorCallback; WriteCallback].
(** A channel that waits for [ResetChannel]. *)
Definition retired (c : Connector) : Prop :=
  exists ch, channel_ c = Some ch /\ index_ ch = kNew /\ addedToLoop_ ch = false.

Definition backoff (k : nat) : Z := Z.min (kInitRetryDelayMs * 2 ^ Z.of_nat k) kMaxRetryDelayMs.

Record inv (c : Connector) : Prop := {
  inv_starts : (starts c <= 1)%nat;
  inv_pending : starts c <> 0%nat -> state_ c = kDisconnected;
  inv_start_functor : count is_start (queue c) <> 0%nat -> channel_ c = None;
  inv_connecting : state_ c = kConnecting ->
    exists fd0, trying c fd0 /\ open_fds c = {[fd0]} /\ count is_reset (queue c) = 0%nat;
  inv_idle : state_ c <> kConnecting ->
    open_fds c = ∅ /\
    (channel_ c = None /\ count is_reset (queue c) = 0%nat \/ retired c /\ count is_reset (queue c) = 1%nat);
  inv_delay : retryDelayMs_ c = backoff (length (delays c));
  inv_delays : delays c = map backoff (seq 0 (length (delays c)));
}.

Lemma count_app f q1 q2 : count f (q1 ++ q2) = (count f q1 + count f q2)%nat.
Proof. induction q1 as [|x q1 IH]; cbn; [done|]. rewrite IH. lia. Qed.

Lemma backoff_S k : backoff (S k) = Z.min (backoff k * 2) kMaxRetryDelayMs.
Proof.
  unfold backoff, kMaxRetryDelayMs, kInitRetryDelayMs. rewrite Nat2Z.inj_succ, Z.pow_succ_r by lia.
  pose proof (Z.pow_pos_nonneg 2 (Z.of_nat k)). lia.
Qed.
Lemma backoff_bounds k : kInitRetryDelayMs <= backoff k <= kMaxRetryDelayMs.
Proof.
  unfold backoff, kMaxRetryDelayMs, kInitRetryDelayMs. pose proof (Z.pow_pos_nonneg 2 (Z.of_nat k)). lia.
Qed.
Lemma delays_snoc l : l = map backoff (seq 0 (length l)) ->
  l ++ [backoff (length l)] = map backoff (seq 0 (length l + 1)).
Proof. intros H. rewrite Nat.add_1_r, seq_S, map_app, <- H. done. Qed.

(** [Retry] of the only socket that is open, when the old channel is gone or waits
    for its reset and nothing is pending. *)
Lemma Retry_Ok fd0 c :
  open_fds c = {[fd0]} -> starts c = 0%nat ->
  (channel_ c = None /\ count is_reset (queue c) = 0%nat \/ retired c /\ count is_reset (queue c) = 1%nat) ->
  retryDelayMs_ c = backoff (length (delays c)) -> delays c = map backoff (seq 0 (length (delays c))) ->
  exists c', Retry fd0 c = Ok c' /\ inv c' /\ state_ c' = kDisconnected.
Proof.
  intros Ho Hs Hch Hd Hl. unfold Retry, close. rewrite decide_True by (rewrite Ho; set_solver).
  cbn [mbind outcome_bind]. assert (He : open_fds c ∖ {[fd0]} = ∅) by (rewrite Ho; set_solver).
  unfold starts in Hs. assert (Hq : count is_start (queue c) = 0%nat) by lia. assert (Ht : length (timers c) = 0%nat) by lia.
  cbn [connect_ SetState set_open]. destruct (connect_ c); (eexists; split; [done|]; split; [split|done]);
    cbn -[count Z.min Z.mul]; unfold starts; cbn -[count]; rewrite ?length_app, ?Hq, ?Ht; cbn; try lia; try done.
  - rewrite Nat.add_1_r, backoff_S, Hd. done.
  - rewrite Hd. by apply delays_snoc.
Qed.

(** The current attempt is given up: its channel is retired. *)
Lemma connector_Remove_Ok c fd0 : trying c fd0 ->
  exists c', RemoveAndResetChannel c = Ok (fd0, c') /\ retired c' /\
    c' = queueInLoop FResetChannel (set_channel (channel_ c') c).
Proof.
  intros (ch & Hc & Hf & Hi & Ha & _). unfold RemoveAndResetChannel. rewrite Hc.
  assert (Hidx : index_ (changed (fun _ => kNoneEvent) ch) = kDeleted) by (unfold changed; cbn; by rewrite Hi).
  assert (IsNoneEvent (changed (fun _ => kNoneEvent) ch) = true) as -> by done.
  rewrite Hidx. cbn. eexists. split; [by rewrite <- Hf|]. split; [|done]. by eexists.
Qed.
Lemma give_up_Ok c fd0 s : inv c -> trying c fd0 -> open_fds c = {[fd0]} -> starts c = 0%nat ->
  count is_reset (queue c) = 0%nat ->
  exists c', RemoveAndResetChannel (SetState s c) = Ok (fd0, c') /\ retired c' /\
    count is_reset (queue c') = 1%nat /\ starts c' = 0%nat /\ open_fds c' = {[fd0]} /\
    retryDelayMs_ c' = backoff (length (delays c')) /\ delays c' = map backoff (seq 0 (length (delays c'))) /\
    connect_ c' = connect_ c /\ state_ c' = s.
Proof.
  intros Hi Ht Ho Hs Hr. destruct (connector_Remove_Ok (SetState s c) fd0) as (c' & E & Hret & Hc'); [by destruct Ht as (ch & ?); exists ch|].
  exists c'. split; [done|]. split; [done|]. unfold starts in *. rewrite Hc'. cbn -[count].
  rewrite !count_app, Hr. cbn. destruct Hi. split_and!; try done; lia.
Qed.

Lemma starts_connecting c : inv c -> state_ c <> kDisconnected -> starts c = 0%nat.
Proof. intros Hi Hs. destruct (decide (starts c = 0%nat)) as [|E]; [done|]. by apply (inv_pending _ Hi) in E. Qed.

(** An attempt under way and what giving it up leaves. *)
Lemma attempt_Ok c s : inv c -> state_ c = kConnecting ->
  exists fd0 c', RemoveAndResetChannel (SetState s c) = Ok (fd0, c') /\ retired c' /\
    count is_reset (queue c') = 1%nat /\ starts c' = 0%nat /\ open_fds c' = {[fd0]} /\
    retryDelayMs_ c' = backoff (length (delays c')) /\ delays c' = map backoff (seq 0 (length (delays c'))) /\
    connect_ c' = connect_ c /\ state_ c' = s.
Proof.
  intros Hi Hs. destruct (inv_connecting _ Hi Hs) as (fd0 & Ht & Ho & Hr). exists fd0.
  apply give_up_Ok; try done. apply starts_connecting; [done | congruence].
Qed.

Lemma StopInLoop_Ok c : inv c -> exists c', StopInLoop c = Ok c' /\ inv c'.
Proof.
  intros Hi. unfold StopInLoop. case_decide as Hs; [|eauto].
  destruct (attempt_Ok c kDisconnected Hi Hs) as (fd0 & c1 & -> & Hret & Hr & Hs1 & Ho & Hd & Hl & _).
  cbn [mbind outcome_bind]. destruct (Retry_Ok fd0 c1) as (c' & -> & ? & _); eauto.
Qed.
Lemma SetState_same c : SetState (state_ c) c = c.
Proof. by destruct c. Qed.

Lemma HandleError_Ok c : inv c -> exists c', HandleError c = Ok c' /\ inv c' /\ (state_ c' = state_ c \/ state_ c' = kDisconnected).
Proof.
  intros Hi. unfold HandleError. case_decide as Hs; [|eauto 6].
  destruct (attempt_Ok c (state_ c) Hi Hs) as (fd0 & c1 & E & Hret & Hr & Hs1 & Ho & Hd & Hl & _).
  rewrite SetState_same in E. rewrite E. cbn [mbind outcome_bind].
  destruct (Retry_Ok fd0 c1) as (c' & -> & ? & ?); eauto 6.
Qed.

(** A channel whose socket left the connector. *)
Lemma connected_inv c fd0 : retired c -> count is_reset (queue c) = 1%nat -> starts c = 0%nat -> open_fds c = {[fd0]} ->
  retryDelayMs_ c = backoff (length (delays c)) -> delays c = map backoff (seq 0 (length (delays c))) ->
  forall l, inv (set_delivered l (set_open (open_fds c ∖ {[fd0]}) (SetState kConnected c))).
Proof.
  intros Hret Hr Hs Ho Hd Hl l. unfold starts in Hs. split; cbn -[count]; unfold starts; cbn -[count]; try done; try lia.
  intros _. split; [rewrite Ho; set_solver | by right].
Qed.

Lemma connector_HandleWrite_Ok err self c : inv c -> state_ c <> kConnected ->
  exists c', HandleWrite err self c = Ok c' /\ inv c'.
Proof.
  intros Hi Hne. unfold HandleWrite. case_decide as Hs.
  2:{ rewrite bool_decide_true by (by destruct (state_ c)). cbn. eauto. }
  destruct (attempt_Ok c (state_ c) Hi Hs) as (fd0 & c1 & E & Hret & Hr & Hs1 & Ho & Hd & Hl & Hcn & _).
  rewrite SetState_same in E. rewrite E. cbn [mbind outcome_bind].
  destruct (Retry_Ok fd0 c1) as (c' & ER & ? & _); eauto.
  destruct (negb (err =? 0)); [rewrite ER; eauto|]. destruct self; [rewrite ER; eauto|].
  cbn [connect_ SetState]. pose proof (connected_inv c1 fd0 Hret Hr Hs1 Ho Hd Hl) as Hk. destruct (connect_ c1).
  - eexists. split; [done | apply Hk].
  - unfold close. cbn [open_fds SetState]. rewrite decide_True by (rewrite Ho; set_solver).
    eexists. split; [done|]. exact (Hk (delivered c1)).
Qed.

Lemma planned_write_error r ch : callbacks ch = [ErrorCallback; WriteCallback] ->
  planned (SetRevents r ch) =
    (if error_test r then [ErrorCallback] else []) ++ (if write_test r then [WriteCallback] else []).
Proof.
  intros Hc. unfold planned. cbn. rewrite Hc.
  destruct (close_test r), (error_test r), (read_test r), (write_test r); reflexivity.
Qed.

(** Nothing under way and nothing pending. *)
Record idle (c : Connector) : Prop := {
  idle_state : state_ c = kDisconnected;
  idle_starts : starts c = 0%nat;
  idle_channel : channel_ c = None;
  idle_reset : count is_reset (queue c) = 0%nat;
  idle_open : open_fds c = ∅;
  idle_delay : retryDelayMs_ c = backoff (length (delays c));
  idle_delays : delays c = map backoff (seq 0 (length (delays c)));
}.
Lemma idle_inv c : idle c -> inv c.
Proof.
  intros [Hst Hs Hc Hr Ho Hd Hl]. unfold starts in Hs. split; unfold starts; try done; try lia; try congruence.
  intros _. auto.
Qed.

Lemma StartInLoop_Ok e c : idle c -> 0 <= sockfd e -> exists c', StartInLoop e c = Ok c' /\ inv c'.
Proof.
  intros Hi Hfd. pose proof Hi as [Hst Hs Hc Hr Ho Hd Hl]. unfold StartInLoop. rewrite bool_decide_true by done.
  cbn [massert mbind outcome_bind]. destruct (connect_ c); [|eauto using idle_inv]. unfold Connect.
  destruct (Z.ltb_spec (sockfd e) 0); [lia|]. set (c1 := set_open _ c).
  assert (Ho1 : open_fds c1 = {[sockfd e]}) by (subst c1; cbn; rewrite Ho; set_solver).
  assert (Hclose : exists c', close (sockfd e) c1 = Ok c' /\ inv c').
  { unfold close. rewrite decide_True by (rewrite Ho1; set_solver). eexists. split; [done|]. apply idle_inv.
    split; cbn; try done. rewrite Ho. set_solver. }
  case_decide.
  - unfold Connecting. rewrite bool_decide_true by done. cbn [massert mbind outcome_bind].
    eexists. split; [done|]. unfold starts in Hs.
    split; cbn -[count]; unfold starts; cbn -[count]; try done; try lia.
    intros _. exists (sockfd e). split; [|done]. by eexists.
  - case_decide; [|by case_decide].
    destruct (Retry_Ok (sockfd e) c1) as (c' & -> & ? & _); eauto.
Qed.

Lemma ResetChannel_Ok q c : inv c -> queue c = FResetChannel :: q ->
  exists c', ResetChannel (set_queue q c) = Ok c' /\ inv c'.
Proof.
  intros [Hs Hp Hf Hc Hid Hd Hl] Hq. unfold starts in *. rewrite Hq in *. cbn in *.
  assert (state_ c <> kConnecting) as Hne by (intros E; destruct (Hc E) as (? & _ & _ & ?); lia).
  destruct (Hid Hne) as (Ho & [[_ ?]|[(ch & Hch & Hi & Ha) Hr]]); [lia|]. unfold ResetChannel. cbn. rewrite Hch, Ha. cbn.
  eexists. split; [done|]. split; unfold starts; cbn; try done. intros _. split; [done|]. left. split; [done | lia].
Qed.

(** A [StartInLoop] that comes due finds the connector idle. *)
Lemma start_functor_idle q c : inv c -> queue c = FStartInLoop :: q -> idle (set_queue q c).
Proof.
  intros [Hs Hp Hf Hc Hid Hd Hl] Hq. unfold starts in *. rewrite Hq in *. cbn in *.
  assert (state_ c = kDisconnected) as Hst by (apply Hp; lia). rewrite Hst in Hid.
  destruct (Hid ltac:(done)) as (Ho & [[? ?]|[(ch & Hch & _) _]]); [|rewrite Hf in Hch by lia; done].
  split; unfold starts; cbn; try done; lia.
Qed.
(** A drained connector with no attempt under way has no channel. *)
Lemma drained_channel c : inv c -> drained c -> state_ c <> kConnecting -> channel_ c = None.
Proof. intros Hi Hdr Hs. destruct (inv_idle _ Hi Hs) as (_ & [[? _]|[_ Hr]]); [done|]. unfold drained in Hdr. lia. Qed.
Lemma timer_idle t ts c : inv c -> timers c = t :: ts -> drained c -> idle (set_timers ts c).
Proof.
  intros Hi Ht Hdr. pose proof (drained_channel c Hi Hdr) as Hch. destruct Hi as [Hs Hp Hf Hc Hid Hd Hl].
  unfold starts in *. rewrite Ht in *. cbn in *.
  assert (state_ c = kDisconnected) as Hst by (apply Hp; lia). rewrite Hst in *. specialize (Hch ltac:(done)).
  destruct (Hid ltac:(done)) as (Ho & [[? ?]|[(ch & Hch' & _) _]]); [|congruence].
  split; unfold starts; cbn; try done; lia.
Qed.

Lemma inv_pop q c f : inv c -> queue c = f :: q -> is_start f = false -> is_reset f = false -> inv (set_queue q c).
Proof.
  intros [Hs Hp Hf Hc Hid Hd Hl] Hq H1 H2. unfold starts in *. rewrite Hq in *. cbn in *. rewrite H1, H2 in *.
  by split.
Qed.

Lemma connector_IO_Ok r err self ch c : inv c -> channel_ c = Some ch -> index_ ch = kAdded ->
  exists c', ofold (handle err self) (planned (SetRevents r ch)) c = Ok c' /\ inv c'.
Proof.
  intros Hi Hc Hidx. assert (state_ c = kConnecting) as Hst.
  { destruct (decide (state_ c = kConnecting)) as [|E]; [done|].
    destruct (inv_idle _ Hi E) as (_ & [[? _]|[(ch' & Hc' & Hi' & _) _]]); [congruence|].
    rewrite Hc in Hc'. injection Hc' as <-. rewrite Hidx in Hi'. done. }
  destruct (inv_connecting _ Hi Hst) as (fd0 & (ch' & Hc' & _ & _ & _ & Hcb) & _). rewrite Hc in Hc'. injection Hc' as <-.
  rewrite planned_write_error by done. destruct (error_test r), (write_test r); cbn [app ofold handle].
  - destruct (HandleError_Ok c Hi) as (c1 & -> & Hi1 & Hst1). cbn [mbind outcome_bind].
    destruct (connector_HandleWrite_Ok err self c1) as (c' & -> & ?); [done | intros E; destruct Hst1; congruence |].
    cbn. eauto.
  - destruct (HandleError_Ok c Hi) as (c1 & -> & Hi1 & _). cbn. eauto.
  - destruct (connector_HandleWrite_Ok err self c) as (c' & -> & ?); [done | congruence |]. cbn. eauto.
  - eauto.
Qed.

Lemma connector_exec_event_Ok ev c : inv c -> allowed ev c -> exists c', exec_event ev c = Ok c' /\ inv c'.
Proof.
  intros Hi Ha. destruct ev as [inLoop e|e| |e|e|r err self]; cbn [exec_event allowed] in *.
  - destruct Ha as (Hst & Hs & Hdr & Hfd & Hfr).
    assert (Hch : channel_ c = None) by (apply drained_channel; [done | done | congruence]).
    assert (idle (set_connect true c)) as Hid.
    { destruct Hi as [_ _ _ _ Hid Hd Hl]. rewrite Hst in Hid. destruct (Hid ltac:(done)) as (Ho & [[_ ?]|[(ch & ? & _) _]]);
        [by split | congruence]. }
    unfold Start. destruct inLoop; [by apply StartInLoop_Ok|]. eexists. split; [done|].
    destruct Hid as [? Hs' ? Hr ? ? ?]. unfold starts in *. split; cbn -[count] in *; unfold starts; cbn -[count] in *;
      rewrite ?count_app; cbn [count is_start is_reset]; try done; try congruence; try lia.
    intros _. split; [done|]. left. split; [done | lia].
  - destruct Ha as (Hst & Hdr & Hfd & Hfr). apply StartInLoop_Ok; [|done].
    assert (Hch : channel_ c = None) by (apply drained_channel; [done | done | congruence]).
    assert (Hs : starts c = 0%nat) by (apply starts_connecting; [done | congruence]).
    destruct Hi as [_ _ _ _ Hid _ _]. rewrite Hst in Hid. destruct (Hid ltac:(done)) as (Ho & [[_ ?]|[(ch & ? & _) _]]);
      [by split | congruence].
  - eexists. split; [done|]. destruct Hi as [Hs Hp Hf Hc Hid Hd Hl]. unfold starts in *.
    split; unfold starts, Stop, queueInLoop; cbn -[count]; rewrite ?count_app; cbn [count is_start is_reset];
      rewrite ?Nat.add_0_r; try done.
  - destruct (queue c) as [|f q] eqn:Hq; [eauto|]. destruct f; cbn [run_functor].
    + apply StartInLoop_Ok; [by apply start_functor_idle | apply Ha].
    + apply StopInLoop_Ok. by apply (inv_pop q c FStopInLoop).
    + by apply ResetChannel_Ok.
  - destruct (timers c) as [|t ts] eqn:Ht; [eauto|]. apply StartInLoop_Ok; [|apply Ha].
    apply (timer_idle t); [done | done | apply Ha].
  - destruct Ha as (ch & Hc & Hidx). rewrite Hc. by apply connector_IO_Ok.
Qed.

Lemma new_idle : idle new_Connector.
Proof. by split. Qed.
Lemma connector_reachable_inv c : reachable c -> inv c.
Proof.
  induction 1 as [|c ev c' _ IH Ha E]; [apply idle_inv, new_idle|].
  destruct (connector_exec_event_Ok ev c IH Ha) as (c1 & E1 & ?). congruence.
Qed.

(** ** Theorems *)

(** A connector with no attempt under way and no functor queued can be destroyed: it
    owns neither a channel nor a socket. *)
Lemma connector_destructible c : reachable c -> state_ c <> kConnecting -> queue c = [] -> destroy_Connector c = Ok tt /\ open_fds c = ∅.
Proof.
  intros Hr Hs Hq. destruct (inv_idle _ (connector_reachable_inv c Hr) Hs) as [Ho Hch]. split; [|done]. unfold destroy_Connector.
  rewrite Hq in Hch. destruct Hch as [[Hc _]|[_ Hc]]; [|done]. by rewrite bool_decide_true.
Qed.
(** C22: used within its contract ([allowed]) a connector never aborts and never leaks
    or double-closes a socket.  The contract: [Start] only when no attempt is under
    way or scheduled, [Restart] only after a connection was delivered, and the loop
    runs the [ResetChannel] that an attempt queued before it starts the next one,
    be it by a call or by the retry timer.  Then, whatever connect(2), the socket
    errors, the poller and calls of [Stop] do, in every reachable state the next step
    returns: no assertion of connector or channel fails, no null channel is used and
    no descriptor is closed twice; and the sockets it still owns are exactly the
    one of the attempt under way.  Outside the contract it aborts: see
    [timer_before_reset_aborts], [stop_start_aborts] and [two_attempts_abort]. *)
Theorem connector_safe c ev :
  reachable c -> allowed ev c ->
  (exists c', exec_event ev c = Ok c') /\
  (state_ c = kConnecting -> exists ch, channel_ c = Some ch /\ open_fds c = {[fd ch]}) /\
  (state_ c <> kConnecting -> open_fds c = ∅).
Proof.
  intros Hr Ha. pose proof (connector_reachable_inv c Hr) as Hi. split_and!.
  - destruct (connector_exec_event_Ok ev c Hi Ha) as (c' & E & _). eauto.
  - intros Hs. destruct (inv_connecting _ Hi Hs) as (fd0 & (ch & Hc & <- & _) & Ho & _). eauto.
  - intros Hs. apply (inv_idle _ Hi Hs).
Qed.

(** C38: Retries back off exponentially.  Used within its contract ([allowed]: above all,
    [Start] only when no attempt is under way or scheduled), the k-th retry delay since
    construction or the last [Restart], which starts the count again, is
    [min (500 * 2 ^ k) 30000] milliseconds, so always between half a second and
    thirty, and at most one attempt is scheduled, and then none is under way. *)
Theorem connector_backoff c :
  reachable c ->
  delays c = map backoff (seq 0 (length (delays c))) /\
  Forall (fun d => kInitRetryDelayMs <= d <= kMaxRetryDelayMs) (delays c) /\
  (starts c <= 1)%nat /\ (starts c <> 0%nat -> state_ c = kDisconnected).
Proof.
  intros Hr. pose proof (connector_reachable_inv c Hr) as [Hs Hp _ _ _ _ Hl]. split_and!; try done.
  rewrite Hl. apply Forall_forall. intros d (k & -> & _)%list_elem_of_fmap. apply backoff_bounds.
Qed.

(** *** Examples: refused once, then connected *)
Definition ex_run : list event :=
  [EvStart true (mkEnv 3 ECONNREFUSED); EvTimer (mkEnv 4 EINPROGRESS); EvIO EPOLLOUT 0 false].
Fixpoint run_allowed (evs : list event) (c : Connector) : option Connector :=
  match evs with
  | [] => Some c
  | ev :: evs =>
      if decide (allowed ev c) then
        match exec_event ev c with Ok c => run_allowed evs c | Fault _ => None end
      else None
  end.
Lemma run_allowed_reachable evs c c' : reachable c -> run_allowed evs c = Some c' -> reachable c'.
Proof.
  revert c; induction evs as [|ev evs IH]; intros c Hr; cbn [run_allowed]; [by intros [= <-]|].
  case_decide as Ha; [|done]. destruct (exec_event ev c) as [c1|f] eqn:E; [|done]. apply IH.
  by apply (reach_step c ev).
Qed.

Lemma connector_safe_witness :
  exists c, run_allowed (take 2 ex_run) new_Connector = Some c /\ open_fds c = {[4]} /\
    exists c', exec_event (EvIO EPOLLOUT 0 false) c = Ok c'.
Proof.
  eexists. split; [vm_compute; reflexivity|]. split; [reflexivity|].
  eapply connector_safe.
  - apply (run_allowed_reachable (take 2 ex_run) new_Connector); [constructor | vm_compute; reflexivity].
  - eexists. split; reflexivity.
Defined.
Lemma connector_backoff_witness :
  exists c, run_allowed ex_run new_Connector = Some c /\ delivered c = [4] /\ delays c = [500].
Proof.
  eexists. split; [vm_compute; reflexivity|]. split; [reflexivity|].
  refine (proj1 (connector_backoff _ _)).
  apply (run_allowed_reachable ex_run new_Connector); [constructor | vm_compute; reflexivity].
Defined.

(** Starting again before the old channel is reset, or twice, aborts. *)
Lemma stop_start_aborts :
  ofold exec_event [EvStart true (mkEnv 3 EINPROGRESS); EvStop; EvFunctor (mkEnv 0 0);
                    EvStart true (mkEnv 3 EINPROGRESS)] new_Connector = Fault (Assertion "!channel_").
Proof. reflexivity. Qed.
Lemma start_twice_aborts :
  ofold exec_event [EvStart true (mkEnv 3 EINPROGRESS); EvStart true (mkEnv 4 EINPROGRESS)] new_Connector =
    Fault (Assertion "state_ == kDisconnected").
Proof. reflexivity. Qed.
(** An attempt fails, which queues [ResetChannel] and arms the retry timer.  A handler that
    takes half a second before the same round gets to the timers lets the timer come first:
    [Connecting] finds the old channel. *)
Lemma timer_before_reset_aborts : exists c,
  run_allowed [EvStart true (mkEnv 3 EINPROGRESS); EvIO EPOLLERR 0 false] new_Connector = Some c /\
  queue c = [FResetChannel] /\ timers c = [500] /\
  exec_event (EvTimer (mkEnv 4 EINPROGRESS)) c = Fault (Assertion "!channel_").
Proof. eexists. split; [vm_compute; reflexivity|]. split_and!; vm_compute; reflexivity. Qed.
(** [Stop] does not cancel the retry timer: a [Start] that follows leaves two attempts
    scheduled, and when the first of them is under way the second aborts. *)
Lemma two_attempts_abort : exists c,
  ofold exec_event [EvStart true (mkEnv 3 ECONNREFUSED); EvStop; EvFunctor (mkEnv 0 0);
                    EvStart true (mkEnv 3 ECONNREFUSED)] new_Connector = Ok c /\ timers c = [500; 1000] /\
  ofold exec_event [EvTimer (mkEnv 3 EINPROGRESS); EvTimer (mkEnv 4 EINPROGRESS)] c =
    Fault (Assertion "state_ == kDisconnected").
Proof. eexists. split; [vm_compute; reflexivity|]. split; vm_compute; reflexivity. Qed.
