(* ===== verification/LoopThreadPool.v ===== *)
(** * The pool of I/O loops (src/src/network/LoopThreadPool.h, LoopThreadPool.cc,
    and [StartLoop] of LoopThread.cc)

    An [EventLoop*] is an integer.  [StartLoop] returns the loop a new thread
    created; which one is an argument of [Start] (LoopThread.v shows that it returns
    one).  Every call is made in the
    thread of the base loop. *)
From S2P Require Import Prelude LogStream.

(** ** EventLoopThread: the hand-over of the loop

    The thread runs [ThreadFunc]: it creates its loop, calls the callback, stores
    the pointer and notifies; [StartLoop] waits until the pointer is set. *)
Record EventLoopThread : Type := mkThread {
  loop_ : option Z;
  exiting_ : bool;
  started : bool;
  callback_ : bool;
  inits : list Z;                         (** loops the callback was called with *)
}.
Definition new_EventLoopThread (cb : bool) : EventLoopThread := mkThread None false false cb [].
(** [ThreadFunc] up to [loop.loop()]; [l] is the loop it created. *)
Definition ThreadFunc (l : Z) (t : EventLoopThread) : EventLoopThread :=
  mkThread (Some l) (exiting_ t) (started t) (callback_ t) (inits t ++ if callback_ t then [l] else []).
(** The end of [ThreadFunc], after the loop has quit. *)
Definition ThreadFunc_exit (t : EventLoopThread) : EventLoopThread :=
  mkThread None (exiting_ t) (started t) (callback_ t) (inits t).
Definition StartLoop (l : Z) (t : EventLoopThread) : outcome (Z * EventLoopThread) :=
  _ ← massert (negb (started t)) "!thread_.Started()";
  let t := ThreadFunc l (mkThread (loop_ t) (exiting_ t) true (callback_ t) (inits t)) in
  match loop_ t with
  | Some x => Ok (x, t)
  | None => Fault (Undefined "wait without end")
  end.

(** ** EventLoopThreadPool *)
Record EventLoopThreadPool : Type := mkPool {
  baseLoop_ : Z;
  name_ : list byte;
  started_ : bool;
  numThreads_ : Z;
  next_ : Z;
  threads_ : list (list byte * EventLoopThread);
  loops_ : list Z;
  base_inits : list Z;                    (** calls of the callback with the base loop *)
}.
Definition new_EventLoopThreadPool (baseLoop : Z) (nameArg : list byte) : EventLoopThreadPool :=
  mkPool baseLoop nameArg false 0 0 [] [] [].
Definition SetThreadNum (numThreads : Z) (p : EventLoopThreadPool) : EventLoopThreadPool :=
  mkPool (baseLoop_ p) (name_ p) (started_ p) numThreads (next_ p) (threads_ p) (loops_ p) (base_inits p).

(** One round of the [for]: [new_loop i] is the loop the [i]th thread creates. *)
Definition start_one (new_loop : Z -> Z) (cb : bool) (i : Z) (p : EventLoopThreadPool) : outcome EventLoopThreadPool :=
  n ← Convert i;
  let buf := name_ p ++ n in
  '(l, t) ← StartLoop (new_loop i) (new_EventLoopThread cb);
  Ok (mkPool (baseLoop_ p) (name_ p) (started_ p) (numThreads_ p) (next_ p) (threads_ p ++ [(buf, t)])
        (loops_ p ++ [l]) (base_inits p)).
Definition Start (new_loop : Z -> Z) (cb : bool) (p : EventLoopThreadPool) : outcome EventLoopThreadPool :=
  _ ← massert (negb (started_ p)) "!started_";
  let p := mkPool (baseLoop_ p) (name_ p) true (numThreads_ p) (next_ p) (threads_ p) (loops_ p) (base_inits p) in
  p ← ofold (start_one new_loop cb) (map Z.of_nat (seq 0 (Z.to_nat (numThreads_ p)))) p;
  Ok (if (numThreads_ p =? 0) && cb then
        mkPool (baseLoop_ p) (name_ p) (started_ p) (numThreads_ p) (next_ p) (threads_ p) (loops_ p)
          (base_inits p ++ [baseLoop_ p])
      else p).

Definition set_next (n : Z) (p : EventLoopThreadPool) : EventLoopThreadPool :=
  mkPool (baseLoop_ p) (name_ p) (started_ p) (numThreads_ p) n (threads_ p) (loops_ p) (base_inits p).
(** [loops_[i]]. *)
Definition loop_at (i : Z) (p : EventLoopThreadPool) : outcome Z :=
  match loops_ p !! Z.to_nat i with
  | Some l => if 0 <=? i then Ok l else Fault (Undefined "vector index out of range")
  | None => Fault (Undefined "vector index out of range")
  end.

Definition GetNextLoop (p : EventLoopThreadPool) : outcome (Z * EventLoopThreadPool) :=
  _ ← massert (started_ p) "started_";
  if decide (loops_ p = []) then Ok (baseLoop_ p, p)
  else
    l ← loop_at (next_ p) p;
    let next := next_ p + 1 in
    Ok (l, set_next (if zlen (loops_ p) <=? next then 0 else next) p).
Definition GetLoopForHash (hashCode : Z) (p : EventLoopThreadPool) : outcome Z :=
  if decide (loops_ p = []) then Ok (baseLoop_ p) else loop_at (hashCode mod zlen (loops_ p)) p.
Definition GetAllLoops (p : EventLoopThreadPool) : outcome (list Z) :=
  _ ← massert (started_ p) "started_";
  Ok (if decide (loops_ p = []) then [baseLoop_ p] else loops_ p).

(** The loop of the [k]th connection of a started pool. *)
Definition assigned (p : EventLoopThreadPool) (k : nat) : Z :=
  match loops_ p with
  | [] => baseLoop_ p
  | _ => default (baseLoop_ p) (loops_ p !! (k mod length (loops_ p))%nat)
  end.
(** [k] calls of [GetNextLoop]. *)
Fixpoint next_loops (k : nat) (p : EventLoopThreadPool) : outcome (list Z * EventLoopThreadPool) :=
  match k with
  | O => Ok ([], p)
  | S k => '(l, p) ← GetNextLoop p; '(ls, p) ← next_loops k p; Ok (l :: ls, p)
  end.

(** [next_] after [k] calls. *)
Definition at_turn (k : nat) (p : EventLoopThreadPool) : Prop :=
  started_ p = true /\ (loops_ p <> [] -> next_ p = Z.of_nat (k mod length (loops_ p))).

Lemma mod_succ k n : (n <> 0)%nat ->
  (S k mod n = if decide (S (k mod n) = n) then 0 else S (k mod n))%nat.
Proof.
  intros Hn. pose proof (Nat.mod_upper_bound k n Hn). rewrite (Nat.div_mod_eq k n) at 1.
  replace (S (n * (k / n) + k mod n))%nat with (S (k mod n) + (k / n) * n)%nat by lia.
  rewrite Nat.Div0.mod_add. case_decide as E; [rewrite E; apply Nat.Div0.mod_same|]. apply Nat.mod_small. lia.
Qed.

Lemma GetNextLoop_Ok k p : at_turn k p ->
  exists p', GetNextLoop p = Ok (assigned p k, p') /\ at_turn (S k) p' /\ loops_ p' = loops_ p /\ baseLoop_ p' = baseLoop_ p.
Proof.
  intros [Hs Ht]. unfold GetNextLoop, assigned. rewrite Hs. cbn [massert mbind outcome_bind]. case_decide as El.
  - exists p. rewrite El. split_and!; try done.
  - set (n := length (loops_ p)) in *. assert (Hn : n <> 0%nat) by (by destruct (loops_ p)).
    pose proof (Nat.mod_upper_bound k n Hn) as Hk. unfold loop_at. rewrite (Ht El), Nat2Z.id.
    destruct (lookup_lt_is_Some_2 (loops_ p) (k mod n)) as [l Hl]; [done|]. rewrite Hl.
    destruct (Z.leb_spec 0 (Z.of_nat (k mod n))); [|lia]. cbn [mbind outcome_bind]. eexists. split.
    + f_equal. f_equal. by destruct (loops_ p).
    + split; [|done]. split; [done|]. intros _. cbn [set_next loops_ next_]. fold n. rewrite mod_succ by done.
      change (zlen (loops_ p)) with (Z.of_nat n). destruct (Z.leb_spec (Z.of_nat n) (Z.of_nat (k mod n) + 1));
        case_decide; lia.
Qed.

Lemma start_one_Ok new_loop cb i p : 0 <= i < 2 ^ 31 ->
  exists p', start_one new_loop cb i p = Ok p' /\ loops_ p' = loops_ p ++ [new_loop i] /\
    started_ p' = started_ p /\ next_ p' = next_ p /\ baseLoop_ p' = baseLoop_ p /\ numThreads_ p' = numThreads_ p.
Proof.
  intros Hi. unfold start_one. destruct (Convert_Ok i) as (s & -> & _); [lia|]. cbn. eexists. by split.
Qed.
Lemma start_all_Ok new_loop cb ks p : Forall (fun i => 0 <= i < 2 ^ 31) ks ->
  exists p', ofold (start_one new_loop cb) ks p = Ok p' /\ loops_ p' = loops_ p ++ map new_loop ks /\
    started_ p' = started_ p /\ next_ p' = next_ p /\ baseLoop_ p' = baseLoop_ p /\ numThreads_ p' = numThreads_ p.
Proof.
  intros Hf. revert p; induction Hf as [|i ks Hi _ IH]; intros p; cbn [ofold].
  - exists p. by rewrite app_nil_r.
  - destruct (start_one_Ok new_loop cb i p Hi) as (p1 & -> & Hl & H1 & H2 & H3 & H4). cbn [mbind outcome_bind].
    destruct (IH p1) as (p' & -> & Hl' & H1' & H2' & H3' & H4'). exists p'. split; [done|].
    rewrite Hl', Hl, <- app_assoc. split_and!; try congruence; done.
Qed.
Lemma Start_pool_Ok new_loop cb base name n : 0 <= n < 2 ^ 31 ->
  exists p, Start new_loop cb (SetThreadNum n (new_EventLoopThreadPool base name)) = Ok p /\ at_turn 0 p /\
    loops_ p = map new_loop (map Z.of_nat (seq 0 (Z.to_nat n))) /\ baseLoop_ p = base.
Proof.
  intros Hn. unfold Start. cbn [massert negb started_ SetThreadNum new_EventLoopThreadPool mbind outcome_bind numThreads_].
  edestruct (start_all_Ok new_loop cb (map Z.of_nat (seq 0 (Z.to_nat n)))) as (p' & -> & Hl & Hs & Hx & Hb & Hm).
  { apply Forall_forall. intros x (k & -> & Hk)%list_elem_of_fmap. apply elem_of_seq in Hk. lia. }
  cbn in Hl, Hs, Hx, Hb, Hm. cbn [mbind outcome_bind].
  destruct (_ && cb); eexists; (split; [done|]); cbn; (split; [|by split]); (split; [done|]); cbn; intros Hne;
    rewrite Hx, Nat.Div0.mod_0_l; done.
Qed.

Lemma next_loops_Ok k j p : at_turn j p ->
  exists p', next_loops k p = Ok (map (assigned p) (seq j k), p') /\ at_turn (j + k) p' /\
    loops_ p' = loops_ p /\ baseLoop_ p' = baseLoop_ p.
Proof.
  revert j p; induction k as [|k IH]; intros j p Hp; cbn [next_loops seq map].
  - exists p. by rewrite Nat.add_0_r.
  - destruct (GetNextLoop_Ok j p Hp) as (p1 & -> & Hp1 & Hl & Hb). cbn [mbind outcome_bind].
    destruct (IH (S j) p1 Hp1) as (p' & -> & Hp' & Hl' & Hb'). cbn [mbind outcome_bind]. exists p'.
    replace (j + S k)%nat with (S j + k)%nat by lia. split; [|split_and!; try done; congruence].
    f_equal. f_equal. f_equal. apply map_ext. intros i. unfold assigned. by rewrite Hl, Hb.
Qed.

(** Connections are spread round-robin.  After [SetThreadNum n] and [Start] the
    pool has the n loops its threads made, and k calls of [GetNextLoop] return loop
    0, 1, ..., n-1, 0, 1, ... in turn (the base loop when n is 0); no index leaves
    the vector. *)
Theorem pool_round_robin new_loop cb base name n k :
  0 <= n < 2 ^ 31 ->
  exists p p', Start new_loop cb (SetThreadNum n (new_EventLoopThreadPool base name)) = Ok p /\
    next_loops k p = Ok (map (fun i => if n =? 0 then base else new_loop (Z.of_nat i mod n)) (seq 0 k), p').
Proof.
  intros Hn. destruct (Start_pool_Ok new_loop cb base name n Hn) as (p & E & Ht & Hl & Hb).
  destruct (next_loops_Ok k 0 p Ht) as (p' & Ek & _). exists p, p'. split; [done|]. rewrite Ek.
  f_equal. f_equal. apply map_ext. intros i. unfold assigned. rewrite Hl, Hb.
  destruct (Z.eqb_spec n 0) as [->|Hne]; [done|]. rewrite !length_map, length_seq.
  assert (Hlt : (i mod Z.to_nat n < Z.to_nat n)%nat) by (apply Nat.mod_upper_bound; lia).
  destruct (map new_loop (map Z.of_nat (seq 0 (Z.to_nat n)))) as [|l ls] eqn:Em.
  { apply (f_equal length) in Em. rewrite !length_map, length_seq in Em. cbn in Em. lia. }
  rewrite <- Em, !list_lookup_fmap, lookup_seq_lt by done. cbn. f_equal.
  rewrite Nat2Z.inj_mod, Z2Nat.id by lia. done.
Qed.
Lemma pool_round_robin_witness :
  exists p p', Start (fun i => 10 + i) true (SetThreadNum 2 (new_EventLoopThreadPool 1 (chars "io"))) = Ok p /\
    next_loops 3 p = Ok ([10; 11; 10], p').
Proof. exact (pool_round_robin (fun i => 10 + i) true 1 (chars "io") 2 3 ltac:(lia)). Defined.
