(* ===== verification/TcpServer.v ===== *)
(** * The server and its registry of connections (src/src/network/TcpServer.h,
    TcpServer.cc)

    The server lives in the thread of its base loop; connections live in the I/O
    loops of the pool.  A connection is its position in [conns], where only the phase
    of its life is kept (ServerConns.v puts the full connections in): it must be established once, then
    closes at most once (calling the close callback, which is [RemoveConnection]),
    and must be destroyed once after that ([phase]).  [pending] are the functors
    queued in the loops, oldest first. *)
From S2P Require Import Prelude LogStream LoopThreadPool.

Inductive phase : Type :=
  | Fresh          (** constructed, kConnecting *)
  | Up             (** established *)
  | Down           (** HandleClose has run *)
  | Gone.          (** ConnectDestroyed has run *)
#[global] Instance phase_eq_dec : EqDecision phase.
Proof. solve_decision. Defined.
Record TcpConnection : Type := mkConn { cname : list byte; cloop : Z; cphase : phase }.
Definition set_phase (ph : phase) (c : TcpConnection) : TcpConnection := mkConn (cname c) (cloop c) ph.

Inductive functor : Type :=
  | FConnectEstablished (id : nat)
  | FConnectDestroyed (id : nat)
  | FRemoveConnectionInLoop (id : nat).
Definition fid (f : functor) : nat :=
  match f with FConnectEstablished i | FConnectDestroyed i | FRemoveConnectionInLoop i => i end.

Record TcpServer : Type := mkServer {
  loop_ : Z;
  ipPort : list byte;
  name : list byte;
  pool : EventLoopThreadPool;
  started_ : Z;
  nextConnId_ : Z;
  connections_ : gmap (list byte) nat;
  conns : list TcpConnection;
  pending : list (Z * functor);
  listening : bool;
}.
Definition new_TcpServer (loop : Z) (ipPort_ nameArg : list byte) : TcpServer :=
  mkServer loop ipPort_ nameArg (new_EventLoopThreadPool loop nameArg) 0 1 ∅ [] [] false.
Definition set_pool x s := mkServer (loop_ s) (ipPort s) (name s) x (started_ s) (nextConnId_ s) (connections_ s) (conns s) (pending s) (listening s).
Definition set_started x l s := mkServer (loop_ s) (ipPort s) (name s) (pool s) x (nextConnId_ s) (connections_ s) (conns s) (pending s) l.
Definition set_nextConnId x s := mkServer (loop_ s) (ipPort s) (name s) (pool s) (started_ s) x (connections_ s) (conns s) (pending s) (listening s).
Definition set_connections x s := mkServer (loop_ s) (ipPort s) (name s) (pool s) (started_ s) (nextConnId_ s) x (conns s) (pending s) (listening s).
Definition set_conns x s := mkServer (loop_ s) (ipPort s) (name s) (pool s) (started_ s) (nextConnId_ s) (connections_ s) x (pending s) (listening s).
Definition set_pending x s := mkServer (loop_ s) (ipPort s) (name s) (pool s) (started_ s) (nextConnId_ s) (connections_ s) (conns s) x (listening s).

Definition queueInLoop (loop : Z) (f : functor) (s : TcpServer) : TcpServer :=
  set_pending (pending s ++ [(loop, f)]) s.
Definition conn_at (id : nat) (s : TcpServer) : outcome TcpConnection :=
  match conns s !! id with Some c => Ok c | None => Fault (Undefined "no such connection") end.
Definition move (id : nat) (ph : phase) (c : TcpConnection) (s : TcpServer) : TcpServer :=
  set_conns (<[id := set_phase ph c]> (conns s)) s.

(** What the connection asserts when it is established and when it is destroyed. *)
Definition ConnectEstablished (id : nat) (s : TcpServer) : outcome TcpServer :=
  c ← conn_at id s;
  _ ← massert (bool_decide (cphase c = Fresh)) "state_ == kConnecting";
  Ok (move id Up c s).
(** The server queues it when the connection is [Down].  The destructor of the server also
    runs it when it is [Up]; ServerDestroy.v adds what happens when the connection is half
    closed, which this phase does not tell from connected. *)
Definition ConnectDestroyed (id : nat) (s : TcpServer) : outcome TcpServer :=
  c ← conn_at id s;
  _ ← massert (bool_decide (cphase c = Up \/ cphase c = Down)) "channels_.find(fd) != channels_.end()";
  Ok (move id Gone c s).

Definition SetThreadNum (numThreads : Z) (s : TcpServer) : outcome TcpServer :=
  _ ← massert (0 <=? numThreads) "0 <= numThreads";
  Ok (set_pool (LoopThreadPool.SetThreadNum numThreads (pool s)) s).
(** Called in the base loop's thread, so that runInLoop runs [Listen] at once. *)
Definition Start (new_loop : Z -> Z) (cb : bool) (s : TcpServer) : outcome TcpServer :=
  if started_ s =? 0 then
    p ← LoopThreadPool.Start new_loop cb (pool s);
    _ ← massert (negb (listening s)) "!acceptor_->listening()";
    Ok (set_pool p (set_started 1 true s))
  else Ok s.

(** [snprintf(buf, 64, "-%s#%d", ...)] cuts at 63 characters. *)
Definition connName (nm ip : list byte) (id : Z) : outcome (list byte) :=
  n ← Convert id;
  Ok (nm ++ ztake 63 (chars "-" ++ ip ++ chars "#" ++ n)).
(** [NewConnection] up to the last line: the loop and the server with the new
    connection, which is the last of [conns]. *)
Definition register_conn (s : TcpServer) : outcome (Z * TcpServer) :=
  '(ioLoop, p) ← GetNextLoop (pool s);
  let s := set_pool p s in
  nm ← connName (name s) (ipPort s) (nextConnId_ s);
  next ← sint_checked 32 (nextConnId_ s + 1);
  let s := set_nextConnId next s in
  let id := length (conns s) in
  let s := set_conns (conns s ++ [mkConn nm ioLoop Fresh]) s in
  Ok (ioLoop, set_connections (<[nm := id]> (connections_ s)) s).
Definition NewConnection (s : TcpServer) : outcome TcpServer :=
  let id := length (conns s) in
  '(ioLoop, s) ← register_conn s;
  if ioLoop =? loop_ s then ConnectEstablished id s
  else Ok (queueInLoop ioLoop (FConnectEstablished id) s).

Definition RemoveConnectionInLoop (id : nat) (s : TcpServer) : outcome TcpServer :=
  c ← conn_at id s;
  let n := match connections_ s !! cname c with Some _ => 1 | None => 0 end in
  let s := set_connections (delete (cname c) (connections_ s)) s in
  _ ← massert (n =? 1) "n == 1";
  Ok (queueInLoop (cloop c) (FConnectDestroyed id) s).
(** Called in the thread of loop [thread]. *)
Definition RemoveConnection (thread : Z) (id : nat) (s : TcpServer) : outcome TcpServer :=
  if thread =? loop_ s then RemoveConnectionInLoop id s
  else Ok (queueInLoop (loop_ s) (FRemoveConnectionInLoop id) s).

(** ** Steps *)
Definition run_functor (f : functor) (s : TcpServer) : outcome TcpServer :=
  match f with
  | FConnectEstablished id => ConnectEstablished id s
  | FConnectDestroyed id => ConnectDestroyed id s
  | FRemoveConnectionInLoop id => RemoveConnectionInLoop id s
  end.
(** The first functor queued in [loop], and the others. *)
Fixpoint take_first (loop : Z) (l : list (Z * functor)) : option (functor * list (Z * functor)) :=
  match l with
  | [] => None
  | (x, f) :: l => if x =? loop then Some (f, l)
                   else match take_first loop l with Some (g, l') => Some (g, (x, f) :: l') | None => None end
  end.
Inductive event : Type :=
  | EvAccept                        (** the acceptor hands over a socket *)
  | EvClose (id : nat)              (** an established connection runs HandleClose in its loop *)
  | EvRun (loop : Z).               (** a loop runs its first functor *)
Definition exec_event (ev : event) (s : TcpServer) : outcome TcpServer :=
  match ev with
  | EvAccept => NewConnection s
  | EvClose id =>
      match conns s !! id with
      | Some c => if decide (cphase c = Up) then RemoveConnection (cloop c) id (move id Down c s) else Ok s
      | None => Ok s
      end
  | EvRun loop =>
      match take_first loop (pending s) with
      | Some (f, l) => run_functor f (set_pending l s)
      | None => Ok s
      end
  end.

(** ** Invariant *)
Definition mine (i : nat) (l : list (Z * functor)) : list (Z * functor) := filter (fun x => fid x.2 = i) l.
#[local] Arguments mine : simpl never.
(** A connection, the functors queued for it, and whether the registry holds it. *)
Definition status_ok (base : Z) (i : nat) (c : TcpConnection) (p : list (Z * functor)) (r : Prop) : Prop :=
  match cphase c with
  | Fresh => p = [(cloop c, FConnectEstablished i)] /\ r
  | Up => p = [] /\ r
  | Down => p = [(base, FRemoveConnectionInLoop i)] /\ r \/ p = [(cloop c, FConnectDestroyed i)] /\ ~ r
  | Gone => p = [] /\ ~ r
  end.
Definition registered (i : nat) (c : TcpConnection) (s : TcpServer) : Prop := connections_ s !! cname c = Some i.

Record inv (s : TcpServer) : Prop := {
  inv_turn : at_turn (length (conns s)) (pool s);
  inv_next : nextConnId_ s = 1 + zlen (conns s);
  inv_bound : zlen (conns s) < 2 ^ 31 - 1;
  inv_ip : zlen (ipPort s) <= 51;
  inv_conn : forall i c, conns s !! i = Some c ->
    connName (name s) (ipPort s) (1 + Z.of_nat i) = Ok (cname c) /\ cloop c = assigned (pool s) i;
  inv_status : forall i c, conns s !! i = Some c ->
    status_ok (loop_ s) i c (mine i (pending s)) (registered i c s);
  inv_registry : forall nm i, connections_ s !! nm = Some i -> exists c, conns s !! i = Some c /\ cname c = nm;
  inv_pending : forall x, x ∈ pending s -> (fid x.2 < length (conns s))%nat;
}.

(** ** Names *)
(** With an address of at most 51 characters nothing is cut off. *)
Lemma connName_Ok nm ip id : zlen ip <= 51 -> 0 <= id < 2 ^ 31 ->
  exists n, connName nm ip id = Ok (nm ++ chars "-" ++ ip ++ chars "#" ++ n) /\ dec_value n = id.
Proof.
  intros Hip Hid. destruct (Convert_digits 10 id) as (n & E & Hl & Hv); [lia | lia | lia |]. exists n. split; [|done].
  unfold connName. rewrite E. cbn [mbind outcome_bind]. rewrite ztake_all; [done|].
  rewrite !zlen_app. change (zlen (chars "-")) with 1. change (zlen (chars "#")) with 1. lia.
Qed.
Lemma connName_inj nm ip id id' x : zlen ip <= 51 -> 0 <= id < 2 ^ 31 -> 0 <= id' < 2 ^ 31 ->
  connName nm ip id = Ok x -> connName nm ip id' = Ok x -> id = id'.
Proof.
  intros Hip H1 H2. destruct (connName_Ok nm ip id Hip H1) as (n & -> & <-).
  destruct (connName_Ok nm ip id' Hip H2) as (n' & -> & <-). intros [= E] [= E']. rewrite <- E' in E.
  apply app_inv_head in E. injection E as E. apply app_inv_head in E. by injection E as ->.
Qed.

(** ** Queues *)
Lemma mine_app i l1 l2 : mine i (l1 ++ l2) = mine i l1 ++ mine i l2.
Proof. apply filter_app. Qed.
Lemma mine_one_eq L f : mine (fid f) [(L, f)] = [(L, f)].
Proof. unfold mine. by rewrite filter_cons_True. Qed.
Lemma mine_one_ne i L f : i <> fid f -> mine i [(L, f)] = [].
Proof. intros H. unfold mine. by rewrite filter_cons_False by (cbn; congruence). Qed.
Lemma take_first_spec L l f l' : take_first L l = Some (f, l') ->
  exists l1 l2, l = l1 ++ [(L, f)] ++ l2 /\ l' = l1 ++ l2.
Proof.
  revert l'; induction l as [|[x g] l IH]; intros l' H; cbn in H; [done|].
  destruct (Z.eqb_spec x L) as [->|_]; [injection H as <- <-; by exists [], l|].
  destruct (take_first L l) as [[h l'']|]; [|done]. injection H as <- <-.
  destruct (IH _ eq_refl) as (l1 & l2 & -> & ->). by exists ((x, g) :: l1), l2.
Qed.
(** The functor taken is the only one of its connection. *)
Lemma take_first_mine L l f l' : take_first L l = Some (f, l') ->
  (forall j, j <> fid f -> mine j l' = mine j l) /\ (L, f) ∈ mine (fid f) l /\
  (forall x, mine (fid f) l = [x] -> x = (L, f) /\ mine (fid f) l' = []) /\ (forall x, x ∈ l' -> x ∈ l).
Proof.
  intros (l1 & l2 & -> & ->)%take_first_spec. split_and!.
  - intros j Hj. by rewrite !mine_app, mine_one_ne.
  - rewrite !mine_app, mine_one_eq. set_solver.
  - intros x. rewrite !mine_app, mine_one_eq. destruct (mine (fid f) l1) as [|y [|z m]]; cbn.
    + intros [= <- E]. by rewrite E.
    + done.
    + done.
  - intros x. rewrite !elem_of_app. tauto.
Qed.

(** ** Steps keep the invariant *)
Lemma inv_names s i j ci cj : inv s -> conns s !! i = Some ci -> conns s !! j = Some cj ->
  cname ci = cname cj -> i = j.
Proof.
  intros Hi H1 H2 E. destruct (inv_conn _ Hi _ _ H1) as [E1 _]. destruct (inv_conn _ Hi _ _ H2) as [E2 _].
  rewrite E in E1. pose proof (inv_bound _ Hi) as Hb. apply lookup_lt_Some in H1, H2. unfold zlen in Hb.
  assert (1 + Z.of_nat i = 1 + Z.of_nat j); [|lia].
  apply (connName_inj (name s) (ipPort s) _ _ (cname cj)); try done; [apply Hi | lia | lia].
Qed.

(** One connection moves on. *)
Lemma inv_update s i c ph pend m :
  inv s -> conns s !! i = Some c ->
  (forall j, j <> i -> mine j pend = mine j (pending s)) ->
  (forall x, x ∈ pend -> (fid x.2 < length (conns s))%nat) ->
  m = connections_ s \/ m = delete (cname c) (connections_ s) ->
  status_ok (loop_ s) i (set_phase ph c) (mine i pend) (m !! cname c = Some i) ->
  inv (set_connections m (set_pending pend (move i ph c s))).
Proof.
  intros Hi Hc Hmine Hpend Hm Hst. split; cbn.
  - rewrite length_insert. apply Hi.
  - unfold zlen. rewrite length_insert. apply Hi.
  - unfold zlen. rewrite length_insert. apply Hi.
  - apply Hi.
  - intros j cj [(<- & <- & _)|[Hj Hcj]]%list_lookup_insert_Some; cbn; by apply (inv_conn _ Hi).
  - intros j cj [(<- & <- & _)|[Hj Hcj]]%list_lookup_insert_Some; [done|].
    pose proof (inv_status _ Hi _ _ Hcj) as Hs. rewrite Hmine by done. unfold registered in *. cbn.
    destruct Hm as [->| ->]; [done|]. rewrite lookup_delete_ne; [done|].
    intros E. apply Hj. by eapply (inv_names s i j).
  - intros nm j Hnm. assert (connections_ s !! nm = Some j) as Hnm'.
    { destruct Hm as [->| ->]; [done|]. by apply lookup_delete_Some in Hnm as [_ ?]. }
    destruct (inv_registry _ Hi _ _ Hnm') as (cj & Hcj & <-). destruct (decide (i = j)) as [<-|Hj].
    + exists (set_phase ph c). rewrite list_lookup_insert_eq by (by eapply lookup_lt_Some).
      split; [done|]. cbn. congruence.
    + exists cj. by rewrite list_lookup_insert_ne.
  - intros x Hx. rewrite length_insert. by apply Hpend.
Qed.

Lemma functor_lt s i : inv s -> (i < length (conns s))%nat -> exists c, conns s !! i = Some c.
Proof. intros _ H. by apply lookup_lt_is_Some_2 in H as [c ?]; exists c. Qed.

Lemma pending_snoc s L f (l : list (Z * functor)) : (forall x, x ∈ l -> (fid x.2 < length (conns s))%nat) -> (fid f < length (conns s))%nat ->
  forall x, x ∈ l ++ [(L, f)] -> (fid x.2 < length (conns s))%nat.
Proof. intros H1 H2 x. rewrite elem_of_app, list_elem_of_singleton. intros [?| ->]; [by apply H1 | done]. Qed.

(** Removing a closed connection that the registry holds. *)
Lemma RemoveConnectionInLoop_Ok s i c pend :
  inv s -> conns s !! i = Some c -> registered i c s ->
  (forall j, j <> i -> mine j pend = mine j (pending s)) -> mine i pend = [] ->
  (forall x, x ∈ pend -> (fid x.2 < length (conns s))%nat) ->
  exists s', RemoveConnectionInLoop i (set_pending pend (move i Down c s)) = Ok s' /\ inv s' /\
    length (conns s') = length (conns s).
Proof.
  intros Hi Hc Hr Hm Hmi Hp. pose proof (lookup_lt_Some _ _ _ Hc) as Hlt.
  unfold RemoveConnectionInLoop, conn_at. cbn [conns set_pending move set_conns].
  rewrite list_lookup_insert_eq by done. cbn [mbind outcome_bind cname set_phase connections_ set_pending move set_conns].
  rewrite Hr. cbn [massert mbind outcome_bind]. eexists. split; [done|].
  split; [|cbn; by rewrite length_insert].
  apply (inv_update s i c Down (pend ++ [(cloop c, FConnectDestroyed i)]) (delete (cname c) (connections_ s)));
    try done; try by right.
  - intros j Hj. rewrite mine_app, mine_one_ne, app_nil_r by done. by apply Hm.
  - by apply pending_snoc.
  - right. rewrite mine_app, Hmi, lookup_delete_eq. split; [|done].
    change (mine i [(cloop c, FConnectDestroyed i)]) with (mine (fid (FConnectDestroyed i)) [(cloop c, FConnectDestroyed i)]).
    apply mine_one_eq.
Qed.

Lemma set_pending_same s : set_pending (pending s) s = s.
Proof. by destruct s. Qed.

Lemma Close_Ok s i : inv s -> exists s', exec_event (EvClose i) s = Ok s' /\ inv s' /\ length (conns s') = length (conns s).
Proof.
  intros Hi. cbn. destruct (conns s !! i) as [c|] eqn:Hc; [|eauto]. case_decide as Hph; [|eauto].
  pose proof (inv_status _ Hi _ _ Hc) as Hst. unfold status_ok in Hst. rewrite Hph in Hst. destruct Hst as [Hmi Hr].
  pose proof (lookup_lt_Some _ _ _ Hc) as Hlt. unfold RemoveConnection.
  change (loop_ (move i Down c s)) with (loop_ s). destruct (Z.eqb_spec (cloop c) (loop_ s)) as [El|El].
  - apply (RemoveConnectionInLoop_Ok s i c (pending s)); try done. apply Hi.
  - eexists. split; [done|]. split; [|cbn; by rewrite length_insert].
    apply (inv_update s i c Down (pending s ++ [(loop_ s, FRemoveConnectionInLoop i)]) (connections_ s)); try done; try by left.
    + intros j Hj. by rewrite mine_app, mine_one_ne, app_nil_r.
    + apply pending_snoc; [apply Hi | done].
    + left. split; [|done]. rewrite mine_app, Hmi. apply (mine_one_eq _ (FRemoveConnectionInLoop i)).
Qed.

Lemma Run_Ok s L : inv s -> exists s', exec_event (EvRun L) s = Ok s' /\ inv s' /\ length (conns s') = length (conns s).
Proof.
  intros Hi. cbn. destruct (take_first L (pending s)) as [[f l]|] eqn:Ht; [|eauto].
  destruct (take_first_mine _ _ _ _ Ht) as (Hother & Hin & Hone & Hsub).
  assert (Hlt : (fid f < length (conns s))%nat).
  { apply (inv_pending _ Hi (L, f)). by apply list_elem_of_filter in Hin as [_ ?]. }
  destruct (functor_lt s (fid f) Hi Hlt) as [c Hc]. pose proof (inv_status _ Hi _ _ Hc) as Hst.
  assert (Hl : forall x, x ∈ l -> (fid x.2 < length (conns s))%nat) by (intros x ?%Hsub; by apply (inv_pending _ Hi)).
  unfold status_ok in Hst. destruct (cphase c) eqn:Hph.
  - destruct Hst as [Hm Hr]. destruct (Hone _ Hm) as [E Hnil]. injection E as <- <-. cbn [fid] in *. cbn [run_functor].
    unfold ConnectEstablished, conn_at. cbn [conns set_pending]. rewrite Hc. cbn [mbind outcome_bind]. rewrite Hph. cbn.
    eexists. split; [done|]. split; [|cbn; by rewrite length_insert].
    apply (inv_update s (fid f) c Up l (connections_ s)); try done; by left.
  - destruct Hst as [Hm _]. rewrite Hm in Hin. set_solver.
  - destruct Hst as [[Hm Hr]|[Hm Hr]]; destruct (Hone _ Hm) as [E Hnil]; injection E as <- <-; cbn [fid run_functor] in *.
    + replace (set_pending l s) with (set_pending l (move (fid f) Down c s)).
      * by apply (RemoveConnectionInLoop_Ok s (fid f) c l).
      * unfold move. rewrite list_insert_id; [by destruct s|]. rewrite Hc. f_equal. destruct c. cbn in *. by subst.
    + unfold ConnectDestroyed, conn_at. cbn [conns set_pending]. rewrite Hc. cbn [mbind outcome_bind].
      rewrite bool_decide_true by (by right). cbn. eexists. split; [done|]. split; [|cbn; by rewrite length_insert].
      apply (inv_update s (fid f) c Gone l (connections_ s)); try done; by left.
  - destruct Hst as [Hm _]. rewrite Hm in Hin. set_solver.
Qed.

(** The state with one more connection, in phase [ph], with the functors [q] for it. *)
Definition with_conn (nm : list byte) (io : Z) (ph : phase) (q : list (Z * functor)) (p : EventLoopThreadPool)
    (s : TcpServer) : TcpServer :=
  set_pending (pending s ++ q) (set_connections (<[nm := length (conns s)]> (connections_ s))
    (set_conns (conns s ++ [mkConn nm io ph]) (set_nextConnId (nextConnId_ s + 1) (set_pool p s)))).
Lemma inv_with_conn s nm ph q p :
  inv s -> zlen (conns s) + 1 < 2 ^ 31 - 1 ->
  connName (name s) (ipPort s) (nextConnId_ s) = Ok nm ->
  at_turn (S (length (conns s))) p -> loops_ p = loops_ (pool s) -> baseLoop_ p = baseLoop_ (pool s) ->
  let io := assigned (pool s) (length (conns s)) in
  (ph = Up /\ q = [] \/ ph = Fresh /\ q = [(io, FConnectEstablished (length (conns s)))]) ->
  inv (with_conn nm io ph q p s).
Proof.
  intros Hi Hb Hnm Ht Hl Hbase io Hq. set (n := length (conns s)) in *.
  assert (Hasg : forall i, assigned p i = assigned (pool s) i) by (intros i; unfold assigned; by rewrite Hl, Hbase).
  assert (Hqm : forall j, j <> n -> mine j q = []).
  { intros j Hj. destruct Hq as [[_ ->]|[_ ->]]; [done|]. by apply mine_one_ne. }
  assert (Hmn : mine n (pending s) = []).
  { unfold mine. apply filter_none. intros x Hx. apply (inv_pending _ Hi) in Hx. unfold n. lia. }
  assert (Hfresh : forall j cj, conns s !! j = Some cj -> cname cj <> nm).
  { intros j cj Hj E. destruct (inv_conn _ Hi _ _ Hj) as [Ej _]. rewrite E in Ej. apply lookup_lt_Some in Hj.
    pose proof (inv_next _ Hi) as Hnx. unfold zlen in *.
    assert (1 + Z.of_nat j = nextConnId_ s); [|unfold n in *; lia].
    apply (connName_inj (name s) (ipPort s) _ _ nm); try done; [apply Hi | lia | lia]. }
  assert (Hlk : forall i c, (conns s ++ [mkConn nm io ph]) !! i = Some c ->
     conns s !! i = Some c /\ i <> n \/ i = n /\ c = mkConn nm io ph).
  { intros i c [Hc|[Hge Hc]]%lookup_app_Some.
    - left. split; [done|]. apply lookup_lt_Some in Hc. unfold n. lia.
    - right. fold n in Hge, Hc. destruct (i - n)%nat eqn:E; cbn in Hc; [|done]. injection Hc as <-. split; [lia | done]. }
  split; cbn -[mine connName].
  - rewrite length_app, Nat.add_1_r. done.
  - rewrite zlen_app. change (zlen [_]) with 1. pose proof (inv_next _ Hi). lia.
  - rewrite zlen_app. change (zlen [_]) with 1. lia.
  - apply Hi.
  - intros i c [[Hc _]|[-> ->]]%Hlk; rewrite Hasg; [by apply (inv_conn _ Hi)|].
    cbn [cname cloop]. split; [|done]. replace (1 + Z.of_nat n) with (nextConnId_ s); [done|]. apply Hi.
  - intros i c [[Hc Hne]|[-> ->]]%Hlk; rewrite mine_app; unfold registered; cbn -[mine].
    + rewrite Hqm, app_nil_r, lookup_insert_ne by (done || intros E; by apply (Hfresh _ _ Hc)).
      apply (inv_status _ Hi _ _ Hc).
    + rewrite Hmn, lookup_insert_eq. destruct Hq as [[-> ->]|[-> ->]]; cbn -[mine]; split; try done.
      apply (mine_one_eq _ (FConnectEstablished n)).
  - intros x i [[<- <-]|[Hne Hx]]%lookup_insert_Some.
    + eexists. split; [apply lookup_app_Some; right; split; [done|]; by rewrite Nat.sub_diag | done].
    + destruct (inv_registry _ Hi _ _ Hx) as (c & Hc & <-). exists c. split; [|done]. by apply lookup_app_l_Some.
  - intros x. rewrite length_app, elem_of_app. cbn. intros [Hx|Hx]; [apply (inv_pending _ Hi) in Hx; lia|].
    destruct Hq as [[_ ->]|[_ ->]]; [by apply elem_of_nil in Hx|]. apply list_elem_of_singleton in Hx as ->. cbn. lia.
Qed.

Lemma Accept_Ok s : inv s -> zlen (conns s) + 1 < 2 ^ 31 - 1 ->
  exists s', exec_event EvAccept s = Ok s' /\ inv s' /\ length (conns s') = S (length (conns s)).
Proof.
  intros Hi Hb. pose proof (inv_next _ Hi) as Hnx. pose proof (zlen_nonneg (conns s)) as H0.
  cbn [exec_event]. unfold NewConnection, register_conn. destruct (GetNextLoop_Ok _ _ (inv_turn _ Hi)) as (p & -> & Ht & Hl & Hbase).
  cbn [mbind outcome_bind]. set (io := assigned (pool s) (length (conns s))).
  destruct (connName_Ok (name s) (ipPort s) (nextConnId_ s) (inv_ip _ Hi)) as (dg & En & _); [lia|].
  change (name (set_pool p s)) with (name s). change (ipPort (set_pool p s)) with (ipPort s).
  change (nextConnId_ (set_pool p s)) with (nextConnId_ s). rewrite En. set (nm := name s ++ _) in *. cbn [mbind outcome_bind].
  unfold sint_checked, in_sint. destruct (Z.leb_spec (- 2 ^ (32 - 1)) (nextConnId_ s + 1)); [|lia].
  destruct (Z.ltb_spec (nextConnId_ s + 1) (2 ^ (32 - 1))); [|lia]. cbn [andb mbind outcome_bind].
  cbn [conns connections_ loop_ set_nextConnId set_pool set_conns set_connections].
  pose proof (inv_with_conn s nm) as Hadm.
  destruct (Z.eqb_spec io (loop_ s)) as [Ei|Ei].
  - unfold ConnectEstablished, conn_at. cbn [conns set_connections set_conns].
    rewrite lookup_app_r, Nat.sub_diag by done. cbn [lookup list_lookup mbind outcome_bind cphase].
    eexists. split; [reflexivity|]. unfold move. cbn [conns set_connections set_conns].
    rewrite insert_app_r_alt, Nat.sub_diag by done. split; [|cbn; rewrite length_app; cbn; lia].
    specialize (Hadm Up [] p Hi Hb En Ht Hl Hbase). unfold with_conn in Hadm. rewrite app_nil_r in Hadm. apply Hadm. by left.
  - eexists. split; [reflexivity|]. split; [|cbn; rewrite length_app; cbn; lia].
    apply (Hadm Fresh [(io, FConnectEstablished (length (conns s)))] p); try done. by right.
Qed.

Lemma server_exec_event_Ok s ev : inv s -> zlen (conns s) + 1 < 2 ^ 31 - 1 ->
  exists s', exec_event ev s = Ok s' /\ inv s' /\ zlen (conns s') <= zlen (conns s) + 1.
Proof.
  intros Hi Hb. unfold zlen in *. destruct ev as [|i|L].
  - destruct (Accept_Ok s Hi Hb) as (s' & ? & ? & Hl). exists s'. split_and!; [done | done | lia].
  - destruct (Close_Ok s i Hi) as (s' & ? & ? & Hl). exists s'. split_and!; [done | done | lia].
  - destruct (Run_Ok s L Hi) as (s' & ? & ? & Hl). exists s'. split_and!; [done | done | lia].
Qed.
Lemma server_run_Ok evs s : inv s -> zlen (conns s) + zlen evs < 2 ^ 31 - 1 ->
  exists s', ofold exec_event evs s = Ok s' /\ inv s'.
Proof.
  revert s; induction evs as [|ev evs IH]; intros s Hi Hb; cbn [ofold]; [eauto|].
  rewrite zlen_cons in Hb. pose proof (zlen_nonneg evs).
  destruct (server_exec_event_Ok s ev Hi) as (s1 & -> & Hi1 & Hl); [lia|]. cbn [mbind outcome_bind]. apply IH; [done | lia].
Qed.

(** A server with [n] I/O threads after [evs]. *)
Definition serve (new_loop : Z -> Z) (cb : bool) (base : Z) (ip nm : list byte) (n : Z) (evs : list event)
    : outcome TcpServer :=
  s ← SetThreadNum n (new_TcpServer base ip nm);
  s ← Start new_loop cb s;
  ofold exec_event evs s.
Lemma serve_Ok new_loop cb base ip nm n evs :
  0 <= n < 2 ^ 31 -> zlen ip <= 51 -> zlen evs < 2 ^ 31 - 1 ->
  exists s p, serve new_loop cb base ip nm n evs = Ok s /\ inv s /\
    LoopThreadPool.Start new_loop cb (LoopThreadPool.SetThreadNum n (new_EventLoopThreadPool base nm)) = Ok p.
Proof.
  intros Hn Hip Hev. unfold serve, SetThreadNum. destruct (Z.leb_spec 0 n); [|lia]. cbn [massert mbind outcome_bind].
  unfold Start. cbn [started_ set_pool new_TcpServer Z.eqb pool].
  destruct (Start_pool_Ok new_loop cb base nm n Hn) as (p & E & Ht & _). rewrite E.
  cbn [mbind outcome_bind massert negb listening set_pool new_TcpServer].
  destruct (server_run_Ok evs (set_pool p (set_started 1 true (set_pool (LoopThreadPool.SetThreadNum n (new_EventLoopThreadPool base nm))
              (new_TcpServer base ip nm))))) as (s & E' & Hi); [|unfold zlen in *; cbn [length conns set_pool set_started new_TcpServer]; lia | by exists s, p].
  split; cbn; try done. intros x Hx. by apply elem_of_nil in Hx.
Qed.

(** C16: The registry is exact and no connection is established, removed or
    destroyed twice.  In every interleaving of accepts, closes and runs of the
    loops no assertion fails (in particular [n == 1] in [RemoveConnectionInLoop]);
    every connection that is not closed is registered under its name, the registry
    holds only connections that were not destroyed, and once no functor is queued
    the registered ones are exactly the established ones, all others having been
    destroyed. *)
Theorem server_registry new_loop cb base ip nm n evs :
  0 <= n < 2 ^ 31 -> zlen ip <= 51 -> zlen evs < 2 ^ 31 - 1 ->
  exists s, serve new_loop cb base ip nm n evs = Ok s /\
    (forall i c, conns s !! i = Some c -> cphase c = Fresh \/ cphase c = Up -> registered i c s) /\
    (forall x i, connections_ s !! x = Some i ->
       exists c, conns s !! i = Some c /\ cname c = x /\ cphase c <> Gone) /\
    (pending s = [] -> forall i c, conns s !! i = Some c ->
       cphase c = Up /\ registered i c s \/ cphase c = Gone /\ ~ registered i c s).
Proof.
  intros Hn Hip Hev. destruct (serve_Ok new_loop cb base ip nm n evs Hn Hip Hev) as (s & _ & E & Hi & _).
  exists s. split; [done|]. split; [|split].
  - intros i c Hc Hph. pose proof (inv_status _ Hi _ _ Hc) as Hst. unfold status_ok in Hst.
    destruct Hph as [->| ->] in Hst; apply Hst.
  - intros x i Hx. destruct (inv_registry _ Hi _ _ Hx) as (c & Hc & <-). exists c. split_and!; try done.
    intros Hg. pose proof (inv_status _ Hi _ _ Hc) as Hst. unfold status_ok in Hst. rewrite Hg in Hst. by apply Hst.
  - intros Hq i c Hc. pose proof (inv_status _ Hi _ _ Hc) as Hst. unfold status_ok in Hst. rewrite Hq in Hst.
    change (mine i []) with (@nil (Z * functor)) in Hst. destruct (cphase c); [by destruct Hst | left; split; [done|]; apply Hst |
      by destruct Hst as [[? _]|[? _]] | right; split; [done|]; apply Hst].
Qed.

(** Connection names are unique, and connections are dealt out in turn.  With
    an address of at most 51 characters, all connections a server ever accepted have
    different names, and the k-th one runs in the loop that round-robin assigns
    it. *)
Theorem server_names_unique new_loop cb base ip nm n evs s :
  0 <= n < 2 ^ 31 -> zlen ip <= 51 -> zlen evs < 2 ^ 31 - 1 ->
  serve new_loop cb base ip nm n evs = Ok s ->
  NoDup (map cname (conns s)) /\
  forall i c, conns s !! i = Some c -> cloop c = assigned (pool s) i.
Proof.
  intros Hn Hip Hev E. destruct (serve_Ok new_loop cb base ip nm n evs Hn Hip Hev) as (s' & _ & E' & Hi & _).
  rewrite E in E'. injection E' as <-. split.
  - apply NoDup_alt. intros i j x Hx Hy. rewrite list_lookup_fmap in Hx, Hy. apply fmap_Some in Hx as (ci & Hci & ->).
    apply fmap_Some in Hy as (cj & Hcj & Hn'). by eapply (inv_names s i j).
  - intros i c Hc. apply (inv_conn _ Hi _ _ Hc).
Qed.

(** *** Example: two I/O threads, three connections, the first closes *)
Definition ex_evs : list event := [EvAccept; EvAccept; EvAccept; EvRun 10; EvClose 0; EvRun 1; EvRun 11; EvRun 10; EvRun 10].
Definition ex_loop (i : Z) : Z := 10 + i.
Lemma server_registry_witness :
  exists s, serve ex_loop false 1 (chars "0.0.0.0:80") (chars "srv") 2 ex_evs = Ok s /\
    (forall x i, connections_ s !! x = Some i -> exists c, conns s !! i = Some c /\ cname c = x /\ cphase c <> Gone).
Proof.
  destruct (server_registry ex_loop false 1 (chars "0.0.0.0:80") (chars "srv") 2 ex_evs) as (s & E & _ & H & _);
    [lia | vm_compute; discriminate | vm_compute; reflexivity | exists s; split; [exact E | exact H]].
Defined.
Lemma ex_phases :
  (fun s => map cphase (conns s)) <$> serve ex_loop false 1 (chars "0.0.0.0:80") (chars "srv") 2 ex_evs = Ok [Gone; Up; Up].
Proof. vm_compute. reflexivity. Qed.
Lemma server_names_unique_witness :
  exists s, serve ex_loop false 1 (chars "0.0.0.0:80") (chars "srv") 2 ex_evs = Ok s /\ NoDup (map cname (conns s)) /\
    map cphase (conns s) = [Gone; Up; Up].
Proof.
  pose proof ex_phases as Hph.
  destruct (serve ex_loop false 1 (chars "0.0.0.0:80") (chars "srv") 2 ex_evs) as [s|f] eqn:E; [|discriminate Hph].
  exists s. split; [reflexivity|]. split; [|injection Hph as Hph; exact Hph].
  apply (server_names_unique ex_loop false 1 (chars "0.0.0.0:80") (chars "srv") 2 ex_evs s);
    [lia | vm_compute; discriminate | vm_compute; reflexivity | exact E].
Defined.
