(* ===== verification/ServerDestroy.v ===== *)
(** * The end of a server ([TcpServer::~TcpServer] of src/src/network/TcpServer.cc)

    The destructor walks over the registry and has every connection destroyed in its
    own loop.  What is still queued for the server object itself, or calls it later,
    then refers to an object that is gone.  The phase [Up] of TcpServer.v covers
    [kConnected] and [kDisconnecting]; here they have to be told apart, since
    [ConnectDestroyed] switches the channel off only in the first: [half i] says that
    connection [i] is half closed (shut down for writing, not closed yet) when it runs. *)
From S2P Require Import Prelude LogStream LoopThreadPool TcpServer.

Section ServerDestroy.
Context (half : nat -> bool).
(** [connectDestroyed]: [Remove] asserts that the channel has no events left. *)
Definition destroyed (i : nat) (s : TcpServer) : outcome TcpServer :=
  c ← conn_at i s;
  massert (negb (bool_decide (cphase c = Up) && half i)) "IsNoneEvent()";;
  ConnectDestroyed i s.

(** [runInLoop(connectDestroyed)] of one connection: at once in the base loop, queued in
    another. *)
Definition destroy_one (item : list byte * nat) (s : TcpServer) : outcome TcpServer :=
  c ← conn_at item.2 s;
  if cloop c =? loop_ s then destroyed item.2 s else Ok (queueInLoop (cloop c) (FConnectDestroyed item.2) s).
(** [items]: the registry in the order of its keys. *)
Definition destroy_TcpServer (items : list (list byte * nat)) (s : TcpServer) : outcome TcpServer :=
  s ← ofold destroy_one items s; Ok (set_connections ∅ s).

(** The loops and connections go on without the server. *)
Definition run_orphan (f : functor) (s : TcpServer) : outcome TcpServer :=
  match f with
  | FRemoveConnectionInLoop _ => Fault (Undefined "removeConnectionInLoop of a destroyed server")
  | FConnectDestroyed i => destroyed i s
  | _ => run_functor f s
  end.
Inductive orphan_event : Type :=
  | OClose (id : nat)              (** a connection closes and calls back *)
  | ORun (loop : Z).               (** a loop runs its first functor *)
Definition orphan_exec (ev : orphan_event) (s : TcpServer) : outcome TcpServer :=
  match ev with
  | OClose id =>
      match conns s !! id with
      | Some c => if decide (cphase c = Up) then Fault (Undefined "closeCallback_ of a destroyed server") else Ok s
      | None => Ok s
      end
  | ORun loop =>
      match take_first loop (pending s) with
      | Some (f, l) => run_orphan f (set_pending l s)
      | None => Ok s
      end
  end.

#[local] Arguments mine : simpl never.
(** ** Invariant of the orphaned connections *)
Definition orphan_ok (i : nat) (c : TcpConnection) (p : list (Z * functor)) : Prop :=
  match cphase c with
  | Fresh => p = [(cloop c, FConnectEstablished i); (cloop c, FConnectDestroyed i)]
  | Up | Down => p = [(cloop c, FConnectDestroyed i)]
  | Gone => p = []
  end.
Record orphans (s : TcpServer) : Prop := {
  or_status : forall i c, conns s !! i = Some c -> orphan_ok i c (mine i (pending s));
  or_pending : forall x, x ∈ pending s -> (fid x.2 < length (conns s))%nat;
}.

(** While the destructor runs: [items] are still to be dealt with. *)
Record ending (items : list (list byte * nat)) (s0 s : TcpServer) : Prop := {
  en_status : forall i c, conns s !! i = Some c ->
    if decide (i ∈ items.*2) then status_ok (loop_ s) i c (mine i (pending s)) (registered i c s0) /\ conns s0 !! i = Some c
    else orphan_ok i c (mine i (pending s));
  en_pending : forall x, x ∈ pending s -> (fid x.2 < length (conns s))%nat;
  en_length : length (conns s) = length (conns s0);
  en_loop : loop_ s = loop_ s0;
  en_remove : forall x, x ∈ pending s -> match x.2 with FRemoveConnectionInLoop _ => False | _ => True end;
}.

Lemma mine_none i L f : i <> fid f -> forall l, mine i (l ++ [(L, f)]) = mine i l.
Proof. intros H l. by rewrite mine_app, mine_one_ne, app_nil_r. Qed.
Lemma mine_last L f l : mine (fid f) (l ++ [(L, f)]) = mine (fid f) l ++ [(L, f)].
Proof. by rewrite mine_app, mine_one_eq. Qed.

Hypothesis whole : forall i, half i = false.
Lemma destroyed_whole i s : destroyed i s = ConnectDestroyed i s.
Proof. unfold destroyed, ConnectDestroyed. destruct (conn_at i s); [|done]. cbn [mbind outcome_bind]. by rewrite whole, andb_false_r. Qed.
(** A registered connection, with no removal under way, ends in its loop. *)
Lemma destroy_one_Ok nm i items s0 s : NoDup ((nm, i) :: items).*2 -> inv s0 -> connections_ s0 !! nm = Some i ->
  (forall i c, conns s0 !! i = Some c -> cphase c = Fresh -> cloop c <> loop_ s0) ->
  ending ((nm, i) :: items) s0 s -> exists s', destroy_one (nm, i) s = Ok s' /\ ending items s0 s'.
Proof.
  intros Hnd Hi Hreg Hfresh [Hst Hp Hlen Hloop Hrem]. cbn in Hnd. apply NoDup_cons in Hnd as [Hni Hnd].
  destruct (inv_registry _ Hi _ _ Hreg) as (c & Hc & Hnm). unfold destroy_one. cbn [snd].
  destruct (conns s !! i) as [c'|] eqn:Hc'; [|apply lookup_ge_None in Hc'; apply lookup_lt_Some in Hc; lia].
  unfold conn_at. rewrite Hc'. cbn [mbind outcome_bind]. pose proof (Hst i c' Hc') as Hs. rewrite decide_True in Hs by (cbn; left).
  destruct Hs as [Hs Ec]. rewrite Hc in Ec. injection Ec as <-. assert (Hr : registered i c s0) by (unfold registered; by rewrite Hnm).
  assert (Hkeep : forall j cj, j <> i -> conns s !! j = Some cj -> if decide (j ∈ items.*2)
    then status_ok (loop_ s) j cj (mine j (pending s)) (registered j cj s0) /\ conns s0 !! j = Some cj else orphan_ok j cj (mine j (pending s))).
  { intros j cj Hne Hj. specialize (Hst j cj Hj). cbn in Hst. destruct (decide (j ∈ items.*2)) as [Hin|Hin].
    - rewrite decide_True in Hst by (by right). done.
    - rewrite decide_False in Hst by (rewrite elem_of_cons; tauto). done. }
  assert (Hdown : cphase c = Down -> False).
  { intros E. unfold status_ok in Hs. rewrite E in Hs. destruct Hs as [[Hm _]|[_ ?]]; [|done].
    assert (Hin : (loop_ s, FRemoveConnectionInLoop i) ∈ mine i (pending s)) by (rewrite Hm; left).
    apply list_elem_of_filter in Hin as [_ Hin]. by apply Hrem in Hin. }
  destruct (Z.eqb_spec (cloop c) (loop_ s)) as [El|El].
  - assert (Hup : cphase c = Up /\ mine i (pending s) = []).
    { unfold status_ok in Hs. destruct (cphase c) eqn:E; [|by split; [|apply Hs]| by destruct Hdown | by destruct Hs].
      exfalso. apply (Hfresh i c Hc E). congruence. }
    destruct Hup as [Hup Hm]. rewrite destroyed_whole. unfold ConnectDestroyed, conn_at. rewrite Hc'. cbn [mbind outcome_bind]. rewrite bool_decide_true by (by left).
    cbn [massert mbind outcome_bind]. eexists. split; [done|]. split; cbn; try done.
    + intros j cj [(<- & <- & _)|[Hj Hcj]]%list_lookup_insert_Some; [|by apply Hkeep; [congruence|]].
      rewrite decide_False by done. by unfold orphan_ok.
    + intros x Hx. rewrite length_insert. by apply Hp.
    + by rewrite length_insert.
  - eexists. split; [done|]. split; cbn; try done.
    + intros j cj Hj. destruct (decide (j = i)) as [->|Hne].
      * rewrite Hc' in Hj. injection Hj as <-. rewrite decide_False by done.
        pose proof (mine_last (cloop c) (FConnectDestroyed i) (pending s)) as Hml. cbn [fid] in Hml. rewrite Hml. unfold status_ok in Hs. unfold orphan_ok.
        destruct (cphase c); [by destruct Hs as [-> _] | by destruct Hs as [-> _] | by destruct Hdown | by destruct Hs].
      * rewrite mine_none by done. by apply Hkeep.
    + apply pending_snoc; [done|]. cbn. by eapply lookup_lt_Some.
    + intros x [Hx| ->%list_elem_of_singleton]%elem_of_app; [by apply Hrem | done].
Qed.

Lemma destroy_all_Ok items s0 s : NoDup items.*2 -> inv s0 -> (forall x, x ∈ items -> connections_ s0 !! x.1 = Some x.2) ->
  (forall i c, conns s0 !! i = Some c -> cphase c = Fresh -> cloop c <> loop_ s0) ->
  ending items s0 s -> exists s', ofold destroy_one items s = Ok s' /\ ending [] s0 s'.
Proof.
  intros Hnd Hi Hreg Hf. revert s. induction items as [|[nm i] items IH]; intros s He; cbn [ofold]; [by exists s|].
  destruct (destroy_one_Ok nm i items s0 s Hnd Hi) as (s1 & -> & He1); [apply (Hreg (nm, i)); left | done | done |].
  cbn [mbind outcome_bind]. apply IH; [by apply NoDup_cons in Hnd as [_ ?] | | done]. intros x Hx. apply Hreg. by right.
Qed.

(** The base loop never holds a connection that waits to be established. *)
Lemma fresh_elsewhere s i c : inv s -> (forall L j, (L, FConnectEstablished j) ∈ pending s -> L <> loop_ s) ->
  conns s !! i = Some c -> cphase c = Fresh -> cloop c <> loop_ s.
Proof.
  intros Hi Hp Hc Hf. pose proof (inv_status _ Hi _ _ Hc) as Hs. unfold status_ok in Hs. rewrite Hf in Hs. destruct Hs as [Hm _].
  apply (Hp (cloop c) i). assert (Hin : (cloop c, FConnectEstablished i) ∈ mine i (pending s)) by (rewrite Hm; left).
  by apply list_elem_of_filter in Hin as [_ ?].
Qed.

(** The functor a loop takes is the oldest of its connection, all of which are in that
    loop. *)
Lemma take_first_head L l f l' : take_first L l = Some (f, l') -> (forall x, x ∈ mine (fid f) l -> x.1 = L) ->
  exists m, mine (fid f) l = (L, f) :: m /\ mine (fid f) l' = m.
Proof.
  revert l'. induction l as [|[x g] l IH]; intros l' H Hall; cbn in H; [done|].
  destruct (Z.eqb_spec x L) as [->|Hne].
  - injection H as <- <-. exists (mine (fid g) l). split; [|done]. change ((L, g) :: l) with ([(L, g)] ++ l). by rewrite mine_app, mine_one_eq.
  - destruct (take_first L l) as [[h l'']|]; [|done]. injection H as <- <-.
    change ((x, g) :: l) with ([(x, g)] ++ l) in *. change ((x, g) :: l'') with ([(x, g)] ++ l'').
    assert (Hg : mine (fid h) [(x, g)] = []).
    { destruct (decide (fid h = fid g)) as [E|E]; [|by apply mine_one_ne]. exfalso. apply Hne. apply (Hall (x, g)).
      rewrite mine_app. apply elem_of_app. left. rewrite E, mine_one_eq. left. }
    rewrite !mine_app, Hg. cbn [app]. apply IH; [done|]. intros y Hy. apply Hall. rewrite mine_app. apply elem_of_app. by right.
Qed.

Lemma orphan_update s i c ph l : orphans s -> conns s !! i = Some c ->
  (forall j, j <> i -> mine j l = mine j (pending s)) -> (forall x, x ∈ l -> x ∈ pending s) ->
  orphan_ok i (set_phase ph c) (mine i l) -> orphans (move i ph c (set_pending l s)).
Proof.
  intros [Hs Hp] Hc Hm Hsub Hok. split; cbn.
  - intros j cj [(<- & <- & _)|[Hj Hcj]]%list_lookup_insert_Some; [done|]. rewrite Hm by done. by apply Hs.
  - intros x Hx. rewrite length_insert. by apply Hp, Hsub.
Qed.
Lemma orphan_run_Ok s L : orphans s -> exists s', orphan_exec (ORun L) s = Ok s' /\ orphans s' /\
  length (conns s') = length (conns s) /\
  (forall f l, take_first L (pending s) = Some (f, l) -> length (pending s) = S (length (pending s'))).
Proof.
  intros Ho. cbn [orphan_exec]. destruct (take_first L (pending s)) as [[f l]|] eqn:Ht; [|exists s; by split_and!].
  destruct (take_first_mine _ _ _ _ Ht) as (Hother & Hin & _ & Hsub). destruct (take_first_spec _ _ _ _ Ht) as (l1 & l2 & Epend & El').
  assert (Hlen : length (pending s) = S (length l)) by (rewrite Epend, El', !length_app; cbn; lia).
  assert (Hlt : (fid f < length (conns s))%nat).
  { apply (or_pending _ Ho (L, f)). by apply list_elem_of_filter in Hin as [_ ?]. }
  apply lookup_lt_is_Some_2 in Hlt as [c Hc]. pose proof (or_status _ Ho _ _ Hc) as Hst.
  assert (Hall : forall x, x ∈ mine (fid f) (pending s) -> x.1 = L).
  { assert (HL : forall x, x ∈ mine (fid f) (pending s) -> x.1 = cloop c).
    { intros x Hx. unfold orphan_ok in Hst. destruct (cphase c); rewrite Hst in Hx; set_solver. }
    intros x Hx. rewrite (HL x Hx). symmetry. exact (HL _ Hin). }
  destruct (take_first_head _ _ _ _ Ht Hall) as (m & Em & Em'). unfold orphan_ok in Hst. rewrite Em in Hst.
  assert (Hgoal : forall ph, orphan_ok (fid f) (set_phase ph c) m -> orphans (move (fid f) ph c (set_pending l s))).
  { intros ph Hok. apply orphan_update; try done. by rewrite Em'. }
  destruct (cphase c) eqn:Hph.
  - injection Hst as _ -> ->. cbn [run_orphan run_functor fid] in *. unfold ConnectEstablished, conn_at. cbn [conns set_pending]. rewrite Hc.
    cbn [mbind outcome_bind]. rewrite Hph. cbn [massert mbind outcome_bind bool_decide decide]. eexists. split; [reflexivity|].
    split; [by apply Hgoal|]. cbn. rewrite length_insert. split; [done|]. intros ? ? [= <- <-]. done.
  - injection Hst as _ -> ->. cbn [run_orphan run_functor fid] in *. rewrite destroyed_whole. unfold ConnectDestroyed, conn_at. cbn [conns set_pending]. rewrite Hc.
    cbn [mbind outcome_bind]. rewrite bool_decide_true by auto. cbn [massert mbind outcome_bind]. eexists. split; [reflexivity|].
    split; [by apply Hgoal|]. cbn. rewrite length_insert. split; [done|]. intros ? ? [= <- <-]. done.
  - injection Hst as _ -> ->. cbn [run_orphan run_functor fid] in *. rewrite destroyed_whole. unfold ConnectDestroyed, conn_at. cbn [conns set_pending]. rewrite Hc.
    cbn [mbind outcome_bind]. rewrite bool_decide_true by auto. cbn [massert mbind outcome_bind]. eexists. split; [reflexivity|].
    split; [by apply Hgoal|]. cbn. rewrite length_insert. split; [done|]. intros ? ? [= <- <-]. done.
  - done.
Qed.

(** ** Connections to be established wait outside of the base loop *)
Definition est_elsewhere (s : TcpServer) : Prop := forall L j, (L, FConnectEstablished j) ∈ pending s -> L <> loop_ s.
Lemma RemoveConnectionInLoop_est i s s' : RemoveConnectionInLoop i s = Ok s' -> est_elsewhere s -> est_elsewhere s'.
Proof.
  unfold RemoveConnectionInLoop. intros E H. inv_ok. intros L j. cbn. rewrite elem_of_app, list_elem_of_singleton.
  intros [Hin|[=]]. by apply (H L j).
Qed.
Lemma phase_est i s s' : ConnectEstablished i s = Ok s' \/ ConnectDestroyed i s = Ok s' -> est_elsewhere s -> est_elsewhere s'.
Proof. unfold ConnectEstablished, ConnectDestroyed. intros [E|E] H; inv_ok; exact H. Qed.
Lemma exec_event_est ev s s' : exec_event ev s = Ok s' -> est_elsewhere s -> est_elsewhere s'.
Proof.
  destruct ev as [|i|L]; cbn [exec_event]; intros E H.
  - unfold NewConnection, register_conn in E. inv_ok. revert E.
    match goal with |- context [ConnectEstablished ?i ?s] => set (s1 := s) end. assert (H1 : est_elsewhere s1) by exact H.
    destruct (Z.eqb_spec z (loop_ s1)) as [El|El]; [intros E; by eapply phase_est; eauto|].
    intros [= <-] L j. cbn. rewrite elem_of_app, list_elem_of_singleton. intros [Hin|[= -> ->]]; [by apply (H L j) | done].
  - destruct (conns s !! i) as [c|]; [|by simplify_eq]. case_decide; [|by simplify_eq]. unfold RemoveConnection in E.
    assert (H1 : est_elsewhere (move i Down c s)) by exact H.
    revert E. case_if; intros E; [by eapply RemoveConnectionInLoop_est|]. simplify_eq.
    intros L j. cbn. rewrite elem_of_app, list_elem_of_singleton. intros [Hin|[=]]. by apply (H L j).
  - destruct (take_first L (pending s)) as [[f l]|] eqn:Ht; [|by simplify_eq].
    assert (H1 : est_elsewhere (set_pending l s)).
    { intros L' j Hin. apply (H L' j). by apply (take_first_mine _ _ _ _ Ht). }
    destruct f; cbn [run_functor] in E; eauto using phase_est, RemoveConnectionInLoop_est.
Qed.
Lemma serve_est new_loop cb base ip nm n evs s : serve new_loop cb base ip nm n evs = Ok s -> est_elsewhere s.
Proof.
  assert (Hrun : forall evs s0, est_elsewhere s0 -> ofold exec_event evs s0 = Ok s -> est_elsewhere s).
  { clear. induction evs as [|ev evs IH]; intros s0 H0 E; cbn [ofold] in E; [by simplify_eq|].
    apply bind_Ok in E as (s1 & E1 & E2). eapply IH; [|exact E2]. by eapply exec_event_est. }
  unfold serve, SetThreadNum, Start. intros E. apply bind_Ok in E as (s1 & E1 & E). apply bind_Ok in E as (s2 & E2 & E).
  apply (Hrun evs s2); [|done]. inv_ok. cbn [started_ set_pool new_TcpServer Z.eqb] in E2. inv_ok.
  intros L j Hin. by apply elem_of_nil in Hin.
Qed.

(** ** All connections end *)
Lemma orphans_run Ls s : orphans s -> exists s', ofold (fun L => orphan_exec (ORun L)) Ls s = Ok s' /\ orphans s' /\
  length (conns s') = length (conns s).
Proof.
  revert s. induction Ls as [|L Ls IH]; intros s Ho; cbn [ofold]; [by exists s|].
  destruct (orphan_run_Ok s L Ho) as (s1 & -> & Ho1 & Hl & _). cbn [mbind outcome_bind].
  destruct (IH s1 Ho1) as (s' & -> & Ho' & Hl'). exists s'. split_and!; [done..|congruence].
Qed.
Lemma orphans_drain n s : orphans s -> length (pending s) = n -> exists Ls s', length Ls = n /\
  ofold (fun L => orphan_exec (ORun L)) Ls s = Ok s' /\ pending s' = [].
Proof.
  revert s. induction n as [|n IH]; intros s Ho Hn.
  - exists [], s. split_and!; try done. by apply length_zero_iff_nil.
  - destruct (pending s) as [|[L f] l] eqn:Ep; [done|].
    destruct (orphan_run_Ok s L Ho) as (s1 & E1 & Ho1 & _ & Hlen). specialize (Hlen f l).
    rewrite Ep in Hlen. cbn [take_first] in Hlen. rewrite Z.eqb_refl in Hlen. specialize (Hlen eq_refl). cbn in Hlen, Hn.
    destruct (IH s1 Ho1 ltac:(lia)) as (Ls & s' & HL & E & Hp). exists (L :: Ls), s'. split_and!; [cbn; lia | | done].
    cbn [ofold]. by rewrite E1.
Qed.

End ServerDestroy.



(** The closing race the source marks as unsafe: a connection that closes after its
    server was destroyed, but before its loop destroys it, calls the dead server. *)
Lemma close_after_destruction :
  (s ← serve ex_loop false 1 (chars "0.0.0.0:80") (chars "srv") 2 [EvAccept; EvRun 10];
   s ← destroy_TcpServer (fun _ => false) (map_to_list (connections_ s)) s; orphan_exec (fun _ => false) (OClose 0) s) = Fault (Undefined "closeCallback_ of a destroyed server").
Proof. vm_compute. reflexivity. Qed.
(** So does a removal that was still queued in the base loop. *)
Lemma removal_after_destruction :
  (s ← serve ex_loop false 1 (chars "0.0.0.0:80") (chars "srv") 2 [EvAccept; EvRun 10; EvClose 0];
   s ← destroy_TcpServer (fun _ => false) (map_to_list (connections_ s)) s; orphan_exec (fun _ => false) (ORun 1) s) = Fault (Undefined "removeConnectionInLoop of a destroyed server").
Proof. vm_compute. reflexivity. Qed.
(** A connection that is shut down but not closed aborts in its destruction. *)
Lemma half_closed_destruction :
  (s ← serve ex_loop false 1 (chars "0.0.0.0:80") (chars "srv") 2 [EvAccept; EvRun 10];
   s ← destroy_TcpServer (fun _ => true) (map_to_list (connections_ s)) s; orphan_exec (fun _ => true) (ORun 10) s) = Fault (Assertion "IsNoneEvent()").
Proof. vm_compute. reflexivity. Qed.
