(* ===== verification/ConnEnd.v ===== *)
(** * The end of a connection (destructor, defaults and small members of
    src/src/network/TcpConnection.cc)

    A connection object is released when the last shared pointer to it goes: the
    registry of the server and the queued functors hold them.  Its destructor asserts
    that the connection went through [ConnectDestroyed], and destroys the channel (which
    must be out of the loop) and the socket (which closes the descriptor). *)
From S2P Require Import Prelude LogStream CString LoopThreadPool TcpServer.
From S2P Require Import Epoll ByteStream Socket TcpConnection.

Definition StateToString (x : StateE) : list byte :=
  match x with
  | kDisconnected => chars "kDisconnected"
  | kConnecting => chars "kConnecting"
  | kConnected => chars "kConnected"
  | kDisconnecting => chars "kDisconnecting"
  end.

Section ConnEnd.
Context {B : Type} `{StreamBuffer B}.
Abbreviation conn := (conn B) (only parsing).

Definition Connected (c : conn) : bool := bool_decide (state_ c = kConnected).
Definition Disconnected (c : conn) : bool := bool_decide (state_ c = kDisconnected).

(** The destructor: the assertion of the body, [~Channel], [~Socket]; the result is the
    descriptor that is closed. *)
Definition destroy_TcpConnection (c : conn) : outcome Z :=
  massert (bool_decide (state_ c = kDisconnected)) "state_ == kDisconnected";;
  massert (negb (ch_eventHandling_ (channel_ c))) "!eventHandling_";;
  massert (negb (addedToLoop_ (channel_ c))) "!addedToLoop_";;
  massert (index_ (channel_ c) =? kNew) "!loop_->HasChannel(this)";;
  Ok (fd (channel_ c)).

(** The members that only forward to the socket. *)
Section Forward.
Context {K : Type} (sys : calls K).
Definition conn_GetTcpInfo (c : conn) (k : K) : option tcp_info := GetTcpInfo sys (fd (channel_ c)) k.
(** [buf] is the uninitialised local array of 1024 characters. *)
Definition conn_GetTcpInfoString (buf : list byte) (c : conn) (k : K) : outcome (list byte) :=
  buf ← copy_into 0 [Byte.x00] buf;
  '(_, buf) ← GetTcpInfoString sys (fd (channel_ c)) buf 1024 k;
  Ok (cstr buf).
Definition conn_SetTcpNoDelay (on : bool) (c : conn) (k : K) : K := SetTcpNoDelay sys (fd (channel_ c)) on k.
End Forward.

(** The callbacks a connection has when the user sets none: the first only logs, the
    second throws the input away. *)
Definition DefaultConnectionCallback (localAddr peerAddr : list byte) (c : conn) : list byte :=
  localAddr ++ chars " -> " ++ peerAddr ++ chars " is " ++ (if Connected c then chars "UP" else chars "DOWN").
Definition DefaultMessageCallback (c : conn) : list api := [ARetrieve (sb_readable (inputBuffer_ c))].
Definition defaults (cb : callback) (c : conn) : list api :=
  match cb with MessageCb => DefaultMessageCallback c | _ => [] end.

(** ** What the code of a connection does to its channel

    Whatever relation the channel calls keep, and code that makes none, every call,
    callback and handler keeps. *)
(** The connection when an event begins: the loop has taken the functor it runs. *)
Definition taken (x : event) (c : conn) : conn := match x with RunFunctor _ => set_queue (tail (queue c)) c | _ => c end.
Ltac by_local R_local := apply R_local; try done; first [exists []; by rewrite app_nil_r | by eexists | idtac].
Section Traverse.
Context (R : conn -> conn -> Prop) `{!PreOrder R}.
Hypothesis R_local : forall c c', channel_ c' = channel_ c -> chanLog c' = chanLog c -> queue c `prefix_of` queue c' -> R c c'.
Hypothesis R_chan : forall f c, R c (chan f c).
Hypothesis R_tie : forall c, R c (logged ChTie (set_channel (Tie (channel_ c)) c)).

Lemma keep_write_now data w c n r f c' : write_now data w c = (n, r, f, c') -> R c c'.
Proof using R_local. clear -R_local. unfold write_now. intros E. repeat case_match; simplify_eq; by_local R_local. Qed.
Lemma keep_buffer_rest data n r c c' : buffer_rest data n r c = Ok c' -> R c c'.
Proof using R_local R_chan PreOrder0.
  unfold buffer_rest. intros E. inv_ok. match goal with |- context [set_output ?o ?x] => set (c1 := set_output o x) end.
  assert (R c c1) by (subst c1; case_match; by_local R_local). case_if; [|done]. etrans; [done | apply R_chan].
Qed.
Lemma keep_DoSend data w c c' : DoSendInLoop data w c = Ok c' -> R c c'.
Proof using R_local R_chan PreOrder0.
  unfold DoSendInLoop. intros E. case_decide; [by inv_ok|].
  destruct (write_now data w c) as [[[n r] f] c1] eqn:Ew. apply keep_write_now in Ew. etrans; [exact Ew|]. inv_ok.
  assert (R c1 (if f then c1 else set_sent (sent c1 ++ data) c1)) by (destruct f; by_local R_local).
  destruct (negb f && (0 <? r)); [apply keep_buffer_rest in E; by etrans | by inv_ok].
Qed.
Lemma keep_reading f x c : R c (set_reading x (chan f c)).
Proof using R_local R_chan PreOrder0. etrans; [apply R_chan | by_local R_local]. Qed.
Lemma keep_exec_api inLoop a c c' : exec_api inLoop a c = Ok c' -> R c c'.
Proof using R_local R_chan PreOrder0.
  destruct a; cbn [exec_api]; intros E.
  - unfold Send, SendInLoop in E. repeat case_match; [by apply keep_DoSend in E | inv_ok; by_local R_local | by inv_ok].
  - unfold SendInput in E. case_decide; [|by inv_ok]. inv_ok. destruct inLoop; inv_ok; [|by_local R_local].
    match goal with E : DoSendInLoop _ _ _ = Ok _ |- _ => apply keep_DoSend in E; etrans; [exact E | by_local R_local] end.
  - injection E as <-. unfold Shutdown, ShutdownInLoop. repeat case_match; by_local R_local.
  - injection E as <-. unfold ForceClose. repeat case_match; by_local R_local.
  - injection E as <-. unfold StartRead, StartReadInLoop. destruct inLoop; [|by_local R_local]. case_match; [apply keep_reading | done].
  - injection E as <-. unfold StopRead, StopReadInLoop. destruct inLoop; [|by_local R_local]. case_match; [apply keep_reading | done].
  - inv_ok. by_local R_local.
  - injection E as <-. by_local R_local.
  - injection E as <-. by_local R_local.
Qed.
Lemma keep_fold {A} (f : A -> conn -> outcome conn) l : (forall x c c', f x c = Ok c' -> R c c') ->
  forall c c', ofold f l c = Ok c' -> R c c'.
Proof using PreOrder0.
  intros Hf. induction l as [|x l IH]; intros c c' E; cbn [ofold] in E; [by inv_ok|]. inv_ok. etrans; [by eapply Hf | by apply IH].
Qed.

Context (user : callback -> conn -> list api).
Lemma keep_call cb c c' : call user cb c = Ok c' -> R c c'.
Proof using R_local R_chan PreOrder0.
  unfold call. intros E. apply (keep_fold _ _ (keep_exec_api true)) in E. etrans; [|exact E]. by_local R_local.
Qed.
(** The connection goes down: state, channel, callback. *)
Lemma keep_down c c' : call user (ConnectionCb false) (disableAll (SetState kDisconnected c)) = Ok c' -> R c c'.
Proof using R_local R_chan PreOrder0.
  intros E%keep_call. etrans; [|exact E]. etrans; [|apply R_chan]. by_local R_local.
Qed.
Lemma keep_HandleClose c c' : HandleClose user c = Ok c' -> R c c'.
Proof using R_local R_chan PreOrder0. unfold HandleClose. intros E. inv_ok. etrans; [by apply keep_down | by_local R_local]. Qed.
Lemma keep_ConnectEstablished c c' : TcpConnection.ConnectEstablished user c = Ok c' -> R c c'.
Proof using R_local R_chan R_tie PreOrder0.
  unfold TcpConnection.ConnectEstablished. intros E. inv_ok. apply keep_call in E. etrans; [|exact E].
  etrans; [|apply R_chan]. etrans; [|apply R_tie]. by_local R_local.
Qed.
Lemma keep_handle w readv k c c' : handle user w readv k c = Ok c' -> R c c'.
Proof using R_local R_chan PreOrder0.
  destruct k; cbn [handle].
  - apply keep_HandleClose.
  - by intros [= <-].
  - unfold HandleRead. intros E. inv_ok. trans (set_input b c); [by_local R_local|].
    destruct (0 <? z); [by apply keep_call in E|]. destruct (z =? 0); [by apply keep_HandleClose in E | by inv_ok].
  - unfold HandleWrite. intros E. destruct (isWriting c); [|by inv_ok]. inv_ok. destruct (w a) as [n e].
    case_match; [|by inv_ok]. inv_ok. case_match; inv_ok; [|by_local R_local].
    match goal with |- context [set_output ?o ?x] => trans (set_output o x); [by_local R_local|] end.
    etrans; [apply (R_chan (fun e => Z.land e (Z.lnot kWriteEvent)))|]. unfold ShutdownInLoop. repeat case_match; by_local R_local.
Qed.
Lemma keep_run_functor w f c c' : f <> TcpConnection.FConnectDestroyed -> TcpConnection.run_functor user w f c = Ok c' -> R c c'.
Proof using R_local R_chan PreOrder0.
  destruct f; cbn [TcpConnection.run_functor]; intros Hf E; [..|done].
  - by apply keep_call in E.
  - by apply keep_call in E.
  - unfold ForceCloseInLoop in E. case_decide; [by apply keep_HandleClose in E | by inv_ok].
  - by apply keep_DoSend in E.
  - injection E as <-. unfold ShutdownInLoop. case_match; by_local R_local.
  - injection E as <-. unfold StartReadInLoop. case_match; [apply keep_reading | done].
  - injection E as <-. unfold StopReadInLoop. case_match; [apply keep_reading | done].
Qed.
(** An event that does not run [ConnectDestroyed] makes no [Remove]. *)
Lemma keep_event x c c' : (forall w, x = RunFunctor w -> head (queue c) <> Some TcpConnection.FConnectDestroyed) ->
  exec_event user x c = Ok c' -> R (taken x c) c'.
Proof using R_local R_chan R_tie PreOrder0.
  destruct x; cbn [exec_event taken]; intros Hx E.
  - by apply keep_ConnectEstablished.
  - by apply (keep_fold _ _ (keep_handle w readv)) in E.
  - specialize (Hx w eq_refl). destruct (queue c) as [|f q] eqn:Eq; [inv_ok; by_local R_local; by rewrite Eq|].
    eapply keep_run_functor; [|exact E]. cbn in Hx. congruence.
  - by apply keep_exec_api in E.
  - inv_ok. by_local R_local.
Qed.
Hypothesis R_remove : forall c c', remove c = Ok c' -> R c c'.
Lemma keep_ConnectDestroyed c c' : TcpConnection.ConnectDestroyed user c = Ok c' -> R c c'.
Proof using R_local R_chan R_remove PreOrder0.
  unfold TcpConnection.ConnectDestroyed. intros E. inv_ok. etrans; [|by apply R_remove].
  case_decide; inv_ok; [by eapply keep_down | done].
Qed.
Lemma keep_exec_event x c c' : exec_event user x c = Ok c' -> R (taken x c) c'.
Proof using R_local R_chan R_tie R_remove PreOrder0.
  intros E. destruct x as [| |w| |]; try (by apply keep_event in E). cbn [exec_event taken] in *.
  destruct (queue c) as [|f q] eqn:Eq; [inv_ok; by_local R_local; by rewrite Eq|].
  destruct f; try (by apply keep_run_functor in E). by apply keep_ConnectDestroyed.
Qed.
End Traverse.

(** No event changes the descriptor, nor the flag of the dispatch, which only the
    channel sets. *)
Definition same_channel (c c' : conn) : Prop :=
  fd (channel_ c') = fd (channel_ c) /\ ch_eventHandling_ (channel_ c') = ch_eventHandling_ (channel_ c).
#[local] Instance same_channel_preorder : PreOrder same_channel.
Proof. split; [done|]. intros x y z [? ?] [? ?]. split; congruence. Qed.

Section User.
Context (user : callback -> conn -> list api).
Lemma same_exec_event x c c' : exec_event user x c = Ok c' -> same_channel c c'.
Proof.
  intros E. trans (taken x c); [by destruct x|]. revert E.
  apply keep_exec_event; [apply _ | | done | done |]; unfold same_channel.
  - by intros ? ? -> _ _.
  - unfold remove. intros c1 c2 E. by inv_ok.
Qed.

Context `{!StreamBufferLaws B}.

Lemma events_ok_app l l' c0 c : events_ok true user (l ++ l') c0 -> ofold (exec_event user) l c0 = Ok c ->
  events_ok true user l c0 /\ events_ok true user l' c.
Proof.
  revert c0. induction l as [|x l IH]; intros c0 Hl E; cbn in *; [by inv_ok|]. destruct Hl as [Hx Hl].
  inv_ok. destruct (IH a) as [? ?]; [by apply Hl | done|]. split; [|done]. split; [done|].
  intros c1 E1. rewrite E1 in E0. by injection E0 as ->.
Qed.

(** A connection that went through [ConnectDestroyed] can be destroyed.  After any
    admissible run that ends with [ConnectDestroyed], the destructor fails no assertion
    (neither its own nor that of the channel) and closes the descriptor the connection
    was made with. *)
Theorem connection_destructible l w q sockfd wcb hcb c c' :
  user_ok true user -> events_ok true user (l ++ [RunFunctor w]) (new_TcpConnection sockfd wcb hcb) ->
  ofold (exec_event user) l (new_TcpConnection sockfd wcb hcb) = Ok c -> queue c = FConnectDestroyed :: q ->
  exec_event user (RunFunctor w) c = Ok c' ->
  destroy_TcpConnection c' = Ok sockfd.
Proof.
  intros Hu Hl E Hq E'. assert (Hs : same_channel (new_TcpConnection sockfd wcb hcb) c') by (etrans; [by apply (keep_fold same_channel _ _ same_exec_event) in E | by apply same_exec_event in E']).
  assert (Hg : good true c').
  { pose proof (exec_events_Ok true user Hu (l ++ [RunFunctor w]) _ (good_new true sockfd wcb hcb) Hl) as Hg.
    rewrite ofold_app, E in Hg. cbn [mbind outcome_bind ofold] in Hg. rewrite E' in Hg. apply Hg. }
  destruct (events_ok_app l [RunFunctor w] _ c Hl E) as [Hl1 [(_ & Hk & _) _]].
  assert (Hlate : later c c').
  { pose proof (exec_events_Ok true user Hu l _ (good_new true sockfd wcb hcb) Hl1) as Hc. rewrite E in Hc. destruct Hc as [G _].
    destruct (events_ok_app l [RunFunctor w] _ c Hl E) as [_ [Hev _]].
    pose proof (exec_event_Ok true user Hu (RunFunctor w) c G Hev) as Hx. rewrite E' in Hx. apply Hx. }
  assert (Hr : exists c1, c' = logged ChRemove (set_channel (SetIndex kNew (with_added false (channel_ c1))) c1)).
  { cbn [exec_event] in E'. rewrite Hq in E'. cbn [TcpConnection.run_functor] in E'. unfold TcpConnection.ConnectDestroyed, remove in E'. inv_ok. by exists a. }
  destruct Hr as [c1 ->]. pose proof (g_live _ _ Hg eq_refl) as Hlive. unfold live in Hlive. cbn in Hlive. unfold later, rank in Hlate. cbn in Hlate.
  unfold destroy_TcpConnection. destruct Hs as [Hfd Hh]. cbn in Hfd, Hh. cbn. rewrite Hh, Hfd.
  destruct (state_ c1); [done | destruct (state_ c); [cbn in Hlate; lia | done | cbn in Hlate; lia..] | by destruct Hlive as [? _] ..].
Qed.
End User.

(** The defaults keep the contract of user callbacks; they leave no input behind. *)
Context `{!StreamBufferLaws B}.
Lemma defaults_ok strict : user_ok strict defaults.
Proof.
  intros cb c G. destruct cb; cbn; try done. split; [|done]. pose proof (sb_readable_len _ (g_in _ _ G)) as Hl. pose proof (zlen_nonneg (sb_bytes (inputBuffer_ c))). cbn. lia.
Qed.
Lemma default_discards strict readv c c' : good strict c -> readv_ok readv -> HandleRead defaults readv c = Ok c' ->
  sb_bytes (inputBuffer_ c) = [] -> sb_bytes (inputBuffer_ c') = [].
Proof.
  intros G Hrv E Hin. unfold HandleRead in E.
  destruct (sb_readfd_Ok readv (fd (channel_ c)) (inputBuffer_ c) (g_in _ _ G) Hrv) as [(e & Er)|[(d & b & Er & Wb & Hb)|Er]]; rewrite Er in E; [| |done];
    cbn [mbind outcome_bind] in E.
  - change (0 <? -1) with false in E. change (-1 =? 0) with false in E. by injection E as <-.
  - destruct (Z.ltb_spec 0 (zlen d)) as [|Hd]; [|destruct (zlen d =? 0) eqn:Ez].
    + unfold call in E. cbn [defaults DefaultMessageCallback ofold exec_api set_trace set_input inputBuffer_] in E. inv_ok. cbn.
      destruct (sb_retrieve_Ok b (sb_readable b) Wb) as (b' & Eb & W1 & H1); [rewrite (sb_readable_len b Wb); pose proof (zlen_nonneg (sb_bytes b)); lia|].
      rewrite Eb in *. inv_ok. cbn. rewrite H1, (sb_readable_len b Wb). apply zdrop_all. lia.
    + apply Z.eqb_eq in Ez. apply zlen_zero in Ez as ->. unfold HandleClose, call in E. cbn [defaults ofold] in E. inv_ok. cbn. by rewrite Hb, Hin.
    + pose proof (zlen_nonneg d). apply Z.eqb_neq in Ez. lia.
Qed.
End ConnEnd.

(** ** In the server *)
(** Something still holds a shared pointer to connection [i]. *)
Definition referenced (i : nat) (c : TcpServer.TcpConnection) (s : TcpServer.TcpServer) : Prop :=
  TcpServer.registered i c s \/ exists L f, (L, f) ∈ TcpServer.pending s /\ TcpServer.fid f = i.
(** The server releases a connection only when it may be destroyed.  In every
    interleaving of accepts, closes and loop runs, a connection to which neither the
    registry nor a queued functor refers any more has run [ConnectDestroyed]. *)
Theorem released_when_destroyed new_loop cb base ip nm n evs s i c :
  0 <= n < 2 ^ 31 -> zlen ip <= 51 -> zlen evs < 2 ^ 31 - 1 -> serve new_loop cb base ip nm n evs = Ok s ->
  TcpServer.conns s !! i = Some c -> ~ referenced i c s -> TcpServer.cphase c = Gone.
Proof.
  intros Hn Hip Hev E Hc Href. destruct (serve_Ok new_loop cb base ip nm n evs Hn Hip Hev) as (s' & _ & E' & Hi & _).
  rewrite E in E'. injection E' as <-. pose proof (TcpServer.inv_status _ Hi _ _ Hc) as Hs.
  assert (Hm : TcpServer.mine i (TcpServer.pending s) = []).
  { unfold TcpServer.mine. apply filter_none. intros [L f] Hin Hf. apply Href. right. by exists L, f. }
  assert (Hr : ~ TcpServer.registered i c s) by (intros Hr; apply Href; by left).
  rewrite Hm in Hs. unfold TcpServer.status_ok in Hs. destruct (TcpServer.cphase c); [by destruct Hs | by destruct Hs | | done].
  destruct Hs as [[? _]|[? _]]; done.
Qed.
Lemma released_when_destroyed_witness :
  exists s c, serve TcpServer.ex_loop false 1 (chars "0.0.0.0:80") (chars "srv") 2 [EvAccept; EvRun 10; EvClose 0; EvRun 1; EvRun 10] = Ok s /\
    TcpServer.conns s !! 0%nat = Some c /\ TcpServer.cphase c = Gone.
Proof.
  set (evs := [EvAccept; EvRun 10; EvClose 0; EvRun 1; EvRun 10]).
  assert (Hph : (fun s => (TcpServer.conns s !! 0%nat, TcpServer.pending s, bool_decide (TcpServer.connections_ s = ∅))) <$> serve TcpServer.ex_loop false 1 (chars "0.0.0.0:80") (chars "srv") 2 evs =
    Ok (Some (TcpServer.mkConn (chars "srv-0.0.0.0:80#1") 10 Gone), [], true)) by (vm_compute; reflexivity).
  destruct (serve TcpServer.ex_loop false 1 (chars "0.0.0.0:80") (chars "srv") 2 evs) as [s|f] eqn:E; [|discriminate Hph].
  injection Hph as Hc Hp Hm. exists s, (TcpServer.mkConn (chars "srv-0.0.0.0:80#1") 10 Gone). split; [reflexivity|]. split; [exact Hc|].
  apply (released_when_destroyed TcpServer.ex_loop false 1 (chars "0.0.0.0:80") (chars "srv") 2 evs s 0%nat);
    [lia | vm_compute; discriminate | vm_compute; reflexivity | exact E | exact Hc |].
  apply bool_decide_eq_true_1 in Hm. intros [Hr|(L & f & Hin & _)]; [unfold TcpServer.registered in Hr; rewrite Hm in Hr; discriminate Hr | rewrite Hp in Hin; inversion Hin].
Defined.

(** ** A connection closed by its peer *)
Lemma connection_destructible_witness :
  exists c c', ofold (exec_event nobody) [Established; IO 1 (takes 9 false) (delivers []); Destroy] ex_start = Ok c /\
    exec_event nobody (RunFunctor (takes 9 false)) c = Ok c' /\ destroy_TcpConnection c' = Ok 5.
Proof.
  destruct (ofold (exec_event nobody) [Established; IO 1 (takes 9 false) (delivers []); Destroy] ex_start) as [c|] eqn:E;
    [|vm_compute in E; discriminate E].
  destruct (exec_event nobody (RunFunctor (takes 9 false)) c) as [c'|] eqn:E';
    [|vm_compute in E; injection E as <-; vm_compute in E'; discriminate E'].
  exists c, c'. split; [reflexivity|]. split; [exact E'|].
  apply (connection_destructible nobody [Established; IO 1 (takes 9 false) (delivers []); Destroy] (takes 9 false) [] 5 true true c c' (nobody_ok true) ex_closing_ok E);
    [vm_compute in E; injection E as <-; reflexivity | exact E'].
Defined.
(** Releasing a connection whose [ConnectDestroyed] was dropped fails the assertion. *)
Lemma destroy_established_aborts :
  (c ← ofold (exec_event nobody) [Established] ex_start; destroy_TcpConnection c) = Fault (Assertion "state_ == kDisconnected").
Proof. vm_compute. reflexivity. Qed.
