(* ===== verification/ConnPoller.v ===== *)
(** * Connections on the poller (src/src/network/TcpConnection.cc over Channel.cc, Epoll.cc
    and the loop of EventLoop.cc)

    TcpConnection.v runs one connection on its own copy of the channel and records the
    calls it makes on it; Epoll.v runs channel calls on the poller.  Here many connections
    live on one poller: each call a connection made is made on the poller, and what the
    poller reports is dispatched to the connections; the loop runs the functors of all
    of them in the order in which they were queued, whether the connection they were bound
    to still exists or not.  A connection is known by the address of its channel.  The copy of the channel decides the branches of the
    connection; that it stays equal to the channel the poller sees is the invariant.
    The calls one handler makes are run on the poller when it returns: it reads nothing
    of the poller in between, and a call the kernel refuses aborts the process. *)
From S2P Require Import Prelude ByteStream Epoll TcpConnection ConnEnd.

(** The outcome of a step: the process may be aborted because the kernel refused a
    registration, and an allocation may throw. *)
Definition sound {A} (P : A -> Prop) (m : outcome A) : Prop :=
  match m with
  | Ok a => P a
  | Fault (LogFatal _) | Fault (Exception _) => True
  | Fault _ => False
  end.
Lemma sound_bind {A C} (P : A -> Prop) (Q : C -> Prop) m k :
  sound P m -> (forall a, P a -> sound Q (k a)) -> sound Q (m ≫= k).
Proof. destruct m as [a|[]]; cbn; auto. Qed.
Lemma sound_mono {A} (P Q : A -> Prop) m : sound P m -> (forall a, P a -> Q a) -> sound Q m.
Proof. destruct m as [a|[]]; cbn; auto. Qed.

(** ** The calls a connection makes on its channel *)
(** [removes] tells whether [Remove] may be among them. *)
Definition chan_step (removes : bool) (o : chan_op) (ch ch' : Channel) : Prop :=
  match o with
  | ChChange f => ch' = changed f ch
  | ChRemove => removes = true /\ IsNoneEvent ch = true /\ index_ ch <> kNew /\
      ch' = SetIndex kNew (with_added false ch)
  | ChTie => ch' = Tie ch
  end.
Fixpoint chan_run (removes : bool) (l : list chan_op) (ch ch' : Channel) : Prop :=
  match l with
  | [] => ch' = ch
  | o :: l' => exists ch1, chan_step removes o ch ch1 /\ chan_run removes l' ch1 ch'
  end.
Lemma chan_run_app removes l l' x y z :
  chan_run removes l x y -> chan_run removes l' y z -> chan_run removes (l ++ l') x z.
Proof. revert x. induction l as [|o l IH]; cbn; [by intros x ->|]. intros x (x1 & ? & ?) ?. eauto. Qed.

Section ConnLog.
Context {B : Type} `{StreamBuffer B}.
Abbreviation conn := (conn B) (only parsing).

(** The log of a connection tells what happened to its channel. *)
Definition logs (removes : bool) (c c' : conn) : Prop :=
  exists l, chanLog c' = chanLog c ++ l /\ chan_run removes l (channel_ c) (channel_ c').
#[local] Instance logs_preorder removes : PreOrder (logs removes).
Proof.
  split.
  - intros c. exists []. by rewrite app_nil_r.
  - intros x y z (l & E & Hl) (l' & E' & Hl'). exists (l ++ l'). rewrite E', E, app_assoc. split; [done|].
    by eapply chan_run_app.
Qed.
Lemma logs_local removes c c' : channel_ c' = channel_ c -> chanLog c' = chanLog c -> queue c `prefix_of` queue c' -> logs removes c c'.
Proof. intros E E' _. exists []. by rewrite app_nil_r. Qed.
Lemma logs_taken removes x c c' : logs removes (taken x c) c' -> logs removes c c'.
Proof. by destruct x. Qed.
Lemma logs_step removes o c x :
  chan_step removes o (channel_ c) x -> logs removes c (logged o (set_channel x c)).
Proof. intros Hs. exists [o]. split; [done|]. cbn. by exists x. Qed.

Lemma logs_event user x c c' :
  (forall w, x = RunFunctor w -> head (queue c) <> Some FConnectDestroyed) ->
  exec_event user x c = Ok c' -> logs false c c'.
Proof.
  intros Hx E. apply (logs_taken _ x). revert Hx E.
  apply keep_event; [apply _ | apply logs_local | |]; intros; by apply logs_step.
Qed.
Lemma logs_remove c c' : remove c = Ok c' -> logs true c c'.
Proof.
  unfold remove. intros E. inv_ok. apply logs_step.
  repeat match goal with E : _ = true |- _ => revert E end. intros E1 E2%negb_true_iff%Z.eqb_neq. done.
Qed.
Lemma logs_exec_event user x c c' : exec_event user x c = Ok c' -> logs true c c'.
Proof.
  intros E. apply (logs_taken _ x). revert E.
  apply keep_exec_event; [apply _ | apply logs_local | | | apply logs_remove]; intros; by apply logs_step.
Qed.
Lemma logs_ConnectDestroyed user c c' : ConnectDestroyed user c = Ok c' -> logs true c c'.
Proof.
  apply keep_ConnectDestroyed; [apply _ | apply logs_local | | apply logs_remove]. intros; by apply logs_step.
Qed.
Lemma logs_api inLoop a c c' : exec_api inLoop a c = Ok c' -> logs false c c'.
Proof. apply keep_exec_api; [apply _ | apply logs_local|]. intros; by apply logs_step. Qed.

(** The code of a connection only adds functors, behind those that are queued. *)
Definition queues (c c' : conn) : Prop := queue c `prefix_of` queue c'.
#[local] Instance queues_preorder : PreOrder queues.
Proof. split; [by intros c; unfold queues | unfold queues; intros x y z ? ?; by etrans]. Qed.
Lemma queues_event user x c c' : exec_event user x c = Ok c' -> queues (taken x c) c'.
Proof.
  apply keep_exec_event; [apply _ | by intros ? ? _ _ | by unfold queues | by unfold queues |].
  unfold remove, queues. intros c1 c2 E. by inv_ok.
Qed.
Lemma queues_api inLoop a c c' : exec_api inLoop a c = Ok c' -> queues c c'.
Proof. apply keep_exec_api; [apply _ | by intros ? ? _ _ | by unfold queues]. Qed.
End ConnLog.

Section ConnPoller.
Context {B K : Type} `{StreamBuffer B} `{EpollKernel K}.
Abbreviation conn := (conn B) (only parsing).
Context (user : Z -> callback -> conn -> list api).

(** ** A loop with its connections *)
(** [functors] is the part of [pendingFunctors_] of the loop that is about connections:
    for each functor, first to last, the connection it was bound to.  What it does is in
    the queue of that connection, in the same order. *)
Record net : Type := mkNet { lp : loop K; cs : gmap Z conn; functors : list Z }.
Definition with_lp (l : loop K) (s : net) : net := mkNet l (cs s) (functors s).

Definition exec_chan (p : Z) (o : chan_op) (l : loop K) : outcome (loop K) :=
  match o with
  | ChChange f => change_events f p l
  | ChRemove => Epoll.Remove p l
  | ChTie => ch ← deref p l; Ok (set_chan p (Tie ch) l)
  end.
Definition object (p : Z) (s : net) : outcome conn :=
  match cs s !! p with Some c => Ok c | None => Fault (Undefined "dangling TcpConnection pointer") end.
(** Code of connection [p] runs, with the first [n] functors of the loop taken for it.
    What it queues goes to the end of the loop's functors. *)
Definition runs_on (n : nat) (p : Z) (f : conn -> outcome conn) (s : net) : outcome net :=
  c ← object p s;
  c' ← f c;
  l ← ofold (exec_chan p) (drop (length (chanLog c)) (chanLog c')) (lp s);
  Ok (mkNet l (<[p := c']> (cs s)) (drop n (functors s) ++ replicate (n + length (queue c') - length (queue c)) p)).

(** The constructor: the socket is open, the channel has its four callbacks. *)
Definition net_new (p sockfd : Z) (wcb hcb : bool) (s : net) : net :=
  let c := new_TcpConnection sockfd wcb hcb in
  mkNet (set_chan p (channel_ c) (lp s)) (<[p := c]> (cs s)) (functors s).
(** The destructor: its assertion, then that of [~Channel].  Functors that were bound to the
    object stay in the loop. *)
Definition net_release (p : Z) (s : net) : outcome net :=
  c ← object p s;
  massert (Disconnected c) "state_ == kDisconnected";;
  l ← destroy p (lp s);
  Ok (mkNet l (delete p (cs s)) (functors s)).

(** What code in the loop thread, or another thread, does between two points of the loop. *)
Inductive act : Type :=
  | NNew (p sockfd : Z) (wcb hcb : bool)
  | NEstablished (p : Z)
  | NInLoop (p : Z) (a : api)               (** a call on the connection, in the loop thread *)
  | NOther (p : Z) (a : api)                (** the same from another thread *)
  | NDestroy (p : Z)                        (** the server queues [ConnectDestroyed] *)
  | NRelease (p : Z)                        (** the last shared pointer goes *)
  | NChannel (x : Epoll.call).              (** a call on a channel that is not a connection's *)
Definition exec_act (x : act) (s : net) : outcome net :=
  match x with
  | NNew p sockfd wcb hcb => Ok (net_new p sockfd wcb hcb s)
  | NEstablished p => runs_on 0 p (exec_event (user p) Established) s
  | NInLoop p a => runs_on 0 p (exec_api true a) s
  | NOther p a => runs_on 0 p (exec_event (user p) (OtherThread a)) s
  | NDestroy p => runs_on 0 p (exec_event (user p) Destroy) s
  | NRelease p => net_release p s
  | NChannel x => l ← exec_call x (lp s); Ok (with_lp l s)
  end.

(** The handlers of an active channel: those of the connection, if it is one's, with
    the kernel's answers [io p]; [script p] is what they do beyond the connection: calls on
    other connections, or what the owner of the channel does. *)
Definition io_part (io : Z -> write_t * readv_t) (r p : Z) (s : net) : outcome net :=
  match cs s !! p with
  | Some _ => runs_on 0 p (exec_event (user p) (IO r (io p).1 (io p).2)) s
  | None => Ok s
  end.
Definition handlers (io : Z -> write_t * readv_t) (script : Z -> list act) (r p : Z) (s : net) : outcome net :=
  s ← io_part io r p s;
  ofold exec_act (script p) s.
Definition guarded (io : Z -> write_t * readv_t) (script : Z -> list act) (p : Z) (s : net) : outcome net :=
  ch ← deref p (lp s);
  s ← handlers io script (revents_ ch) p (with_lp (set_chan p (with_handling true ch) (lp s)) s);
  ch ← deref p (lp s);
  Ok (with_lp (set_chan p (with_handling false ch) (lp s)) s).
(** [tie_.lock()] gives the connection as long as the object exists. *)
Definition dispatch (io : Z -> write_t * readv_t) (script : Z -> list act) (p : Z) (s : net) : outcome net :=
  let s := with_lp (set_handling (eventHandling_ (lp s)) (activeChannels_ (lp s)) (Some p) (lp s)) s in
  ch ← deref p (lp s);
  if tied_ ch && negb (bool_decide (is_Some (cs s !! p))) then Ok s
  else guarded io script p s.
Definition round (io : Z -> write_t * readv_t) (script : Z -> list act) (s : net) : outcome net :=
  l ← Poll (set_handling (eventHandling_ (lp s)) [] (currentActiveChannel_ (lp s)) (lp s));
  s ← ofold (dispatch io script) (activeChannels_ l)
        (with_lp (set_handling true (activeChannels_ l) (currentActiveChannel_ l) l) s);
  Ok (with_lp (set_handling false (activeChannels_ (lp s)) None (lp s)) s).

(** The loop: rounds, the functors the connections queued, and the rest in between. *)
Inductive step : Type :=
  | NAct (x : act)
  | NFunctor (w : write_t)                  (** the next functor of the loop that is about a connection *)
  | NRound (io : Z -> write_t * readv_t) (script : Z -> list act).
Definition exec_step (x : step) (s : net) : outcome net :=
  match x with
  | NAct x => exec_act x s
  | NFunctor w =>
      match functors s with
      | p :: _ => runs_on 1 p (exec_event (user p) (RunFunctor w)) s
      | [] => Ok s
      end
  | NRound io script => round io script s
  end.
Definition new_net (k : K) : net := mkNet (new_loop k) ∅ [].

(** ** What the environment owes *)
Definition conn_is (p : Z) (P : conn -> Prop) (s : net) : Prop := exists c, cs s !! p = Some c /\ P c.
Definition fresh_fd (f : Z) (s : net) : Prop := forall p ch, chans (lp s) !! p = Some ch -> fd ch <> f.
(** The channel a call is about. *)
Definition target (x : Epoll.call) : Z :=
  match x with
  | CNew p _ | CEnableReading p | CDisableReading p | CEnableWriting p | CDisableWriting p
  | CDisableAll p | CRemove p | CDestroy p => p
  end.
Context `{!StreamBufferLaws B} `{!EpollLaws K}.
Definition act_ok (x : act) (s : net) : Prop :=
  match x with
  | NNew p sockfd _ _ => chans (lp s) !! p = None /\ fresh_fd sockfd s
  | NEstablished p => conn_is p (fun c => state_ c = kConnecting) s
  | NInLoop p a | NOther p a => conn_is p (api_ok true a) s
  | NDestroy p => conn_is p (fun _ => True) s
  | NRelease p => conn_is p (fun c => state_ c = kDisconnected /\ index_ (channel_ c) = kNew /\ queue c = []) s /\
      forall ch, chans (lp s) !! p = Some ch -> ch_eventHandling_ ch = false
  | NChannel x => call_ok x (lp s) /\ cs s !! target x = None /\
      match x with CNew _ f => fresh_fd f s | _ => True end
  end.
Fixpoint acts_ok (l : list act) (s : net) : Prop :=
  match l with
  | [] => True
  | x :: l' => act_ok x s /\ forall s', exec_act x s = Ok s' -> acts_ok l' s'
  end.
Definition guarded_ok (io : Z -> write_t * readv_t) (script : Z -> list act) (p : Z) (s : net) : Prop :=
  forall ch, chans (lp s) !! p = Some ch ->
    (is_Some (cs s !! p) -> write_range (io p).1 /\ readv_ok (io p).2 /\ report_ok (revents_ ch)) /\
    forall s', io_part io (revents_ ch) p (with_lp (set_handling (eventHandling_ (lp s)) (activeChannels_ (lp s)) (Some p)
        (set_chan p (with_handling true ch) (lp s))) s) = Ok s' ->
      acts_ok (script p) s'.
Fixpoint dispatches_ok (io : Z -> write_t * readv_t) (script : Z -> list act) (ps : list Z) (s : net) : Prop :=
  match ps with
  | [] => True
  | p :: ps' => guarded_ok io script p s /\ forall s', dispatch io script p s = Ok s' -> dispatches_ok io script ps' s'
  end.
Definition step_ok (x : step) (s : net) : Prop :=
  match x with
  | NAct x => act_ok x s
  | NFunctor w => forall p c, head (functors s) = Some p -> cs s !! p = Some c -> event_ok true (RunFunctor w) c
  | NRound io script => events_size (lp s) < 2 ^ 31 /\
      forall l, Poll (set_handling (eventHandling_ (lp s)) [] (currentActiveChannel_ (lp s)) (lp s)) = Ok l ->
        dispatches_ok io script (activeChannels_ l)
          (with_lp (set_handling true (activeChannels_ l) (currentActiveChannel_ l) l) s)
  end.
Fixpoint steps_ok (l : list step) (s : net) : Prop :=
  match l with
  | [] => True
  | x :: l' => step_ok x s /\ forall s', exec_step x s = Ok s' -> steps_ok l' s'
  end.

(** ** The invariant *)
(** The connection's copy of the channel: what the dispatch sets is left out. *)
Definition plain (ch : Channel) : Channel := SetRevents 0 (with_handling false ch).
Definition distinct_fds (m : gmap Z Channel) : Prop :=
  forall p q c d, m !! p = Some c -> m !! q = Some d -> fd c = fd d -> p = q.
(** How many functors of connection [p] are queued. *)
Definition queued_for (p : Z) (l : list Z) : nat := length (filter (.= p) l).
Arguments queued_for : simpl never.
Record net_inv (s : net) : Prop := mk_net_inv {
  n_poller : inv (lp s);
  n_fds : distinct_fds (chans (lp s));
  n_good : forall p c, cs s !! p = Some c -> good true c;
  n_copy : forall p c, cs s !! p = Some c -> exists ch, chans (lp s) !! p = Some ch /\ plain ch = channel_ c;
  n_functors : forall p, queued_for p (functors s) = match cs s !! p with Some c => length (queue c) | None => 0%nat end;
}.
Lemma queued_for_app p l l' : queued_for p (l ++ l') = (queued_for p l + queued_for p l')%nat.
Proof. unfold queued_for. by rewrite filter_app, length_app. Qed.
Lemma queued_for_replicate p q n : queued_for p (replicate n q) = if decide (q = p) then n else 0%nat.
Proof.
  unfold queued_for. induction n as [|n IH]; [by case_decide|]. cbn [replicate]. rewrite filter_cons.
  case_decide; [|done]. cbn. by rewrite IH.
Qed.

Lemma free_when_new l p ch : inv l -> distinct_fds (chans l) -> chans l !! p = Some ch ->
  index_ ch = kNew -> channels_ l !! fd ch = None.
Proof.
  intros I D Hp Hi. apply eq_None_not_Some. intros (q & Hq). pose proof Hq as (d & Hd & Ed)%(inv_channels _ I).
  assert (q = p) as -> by by eapply (D q p).
  replace d with ch in * by congruence. by apply (inv_registered _ I) in Hq.
Qed.
Lemma distinct_insert m p c c' : distinct_fds m -> m !! p = Some c -> fd c' = fd c -> distinct_fds (<[p:=c']> m).
Proof.
  intros D Hp Ef x y cx cy [[<- <-]|[Hx E]]%lookup_insert_Some [[<- <-]|[Hy E']]%lookup_insert_Some Hf.
  - done.
  - eapply D; [exact Hp | exact E' | congruence].
  - eapply D; [exact E | exact Hp | congruence].
  - by eapply D.
Qed.
Lemma distinct_new m p c' : distinct_fds m -> (forall q c, m !! q = Some c -> fd c <> fd c') -> distinct_fds (<[p:=c']> m).
Proof.
  intros D Hf x y cx cy [[<- <-]|[Hx E]]%lookup_insert_Some [[<- <-]|[Hy E']]%lookup_insert_Some He.
  - done.
  - by destruct (Hf _ _ E').
  - by destruct (Hf _ _ E).
  - by eapply D.
Qed.
Lemma distinct_delete m p : distinct_fds m -> distinct_fds (delete p m).
Proof. intros D x y cx cy [_ E]%lookup_delete_Some [_ E']%lookup_delete_Some Hf. by eapply D. Qed.

(** A channel that may be removed during a dispatch. *)
Definition removable (l : loop K) (p : Z) : Prop :=
  eventHandling_ l = false \/ currentActiveChannel_ l = Some p \/ p ∉ activeChannels_ l.
(** What a call leaves in place: a channel whose handlers are running, and the active
    channels that are still to be handled, with the events they received. *)
Record frame (l l' : loop K) : Prop := mk_frame {
  fr_loop : same_loop l l';
  fr_held : forall p ch, chans l !! p = Some ch -> ch_eventHandling_ ch = true ->
    exists ch', chans l' !! p = Some ch' /\ ch_eventHandling_ ch' = true;
  fr_next : forall p ch, chans l !! p = Some ch -> ~ removable l p -> index_ ch <> kNew ->
    exists ch', chans l' !! p = Some ch' /\ index_ ch' <> kNew;
}.
#[global] Instance frame_preorder : PreOrder frame.
Proof.
  split.
  - intros l. by split; [|eauto|eauto].
  - intros x y z [(A1 & A2 & A3 & A4) H1 N1] [(B1 & B2 & B3 & B4) H2 N2]. split; [split_and!; congruence| |].
    + intros p ch Hp Hh. destruct (H1 _ _ Hp Hh) as (ch1 & ? & ?). eauto.
    + intros p ch Hp Hr Hi. destruct (N1 _ _ Hp Hr Hi) as (ch1 & ? & ?). eapply N2; [done | | done].
      unfold removable in *. by rewrite A2, A3, A4.
Qed.
(** A call that changes one channel. *)
Lemma frame_one l l' p ch ch' : same_loop l l' -> chans l !! p = Some ch -> chans l' = <[p:=ch']> (chans l) ->
  ch_eventHandling_ ch' = ch_eventHandling_ ch -> (removable l p \/ (index_ ch <> kNew -> index_ ch' <> kNew)) -> frame l l'.
Proof.
  intros Hs Hp E Hh Hi. split; [done | |]; intros x cx Hx; rewrite E.
  - intros Hx'. destruct (decide (p = x)) as [<-|]; [|rewrite lookup_insert_ne; eauto].
    rewrite lookup_insert_eq. exists ch'. split; [done|]. congruence.
  - intros Hr Hxi. destruct (decide (p = x)) as [<-|]; [|rewrite lookup_insert_ne; eauto].
    rewrite lookup_insert_eq. exists ch'. split; [done|]. replace cx with ch in * by congruence.
    destruct Hi; [done | auto].
Qed.

(** *** The log of a connection on the poller *)
Lemma change_index f ch : index_ (changed f ch) <> kNew.
Proof. unfold changed, next_index; cbn. by case_if. Qed.

Definition moved_on (p : Z) (ch' : Channel) (l l' : loop K) : Prop :=
  inv l' /\ distinct_fds (chans l') /\ frame l l' /\
  exists pc', chans l' = <[p := pc']> (chans l) /\ plain pc' = ch'.

Lemma exec_chan_Ok p removes o pc ch' l :
  inv l -> distinct_fds (chans l) -> chans l !! p = Some pc -> chan_step removes o (plain pc) ch' ->
  (removes = true -> removable l p) ->
  sound (moved_on p ch' l) (exec_chan p o l).
Proof.
  intros I D Hp Hs Hr. destruct o as [f| |]; cbn in *.
  - subst ch'. destruct (change_events_Ok f p pc l I Hp) as [(l' & -> & I' & S & E & _)|(m & ->)];
      [by apply (free_when_new l p) | | done].
    split_and!; [done | rewrite E; by eapply distinct_insert | | by exists (changed f pc)].
    eapply frame_one; [done | exact Hp | exact E | done | right; intros _; apply change_index].
  - destruct Hs as (-> & He & Hi & ->).
    destruct (Remove_Ok p pc l I Hp Hi He (Hr eq_refl)) as (l' & -> & I' & S & E & _).
    split_and!; [done | rewrite E; by eapply distinct_insert | | by eexists].
    eapply frame_one; [done | exact Hp | exact E | done | left; auto].
  - subst ch'. unfold deref. rewrite Hp. cbn.
    split_and!; [exact (inv_touch l p pc (Tie pc) _ _ _ I Hp eq_refl eq_refl eq_refl eq_refl) | by eapply distinct_insert | | by exists (Tie pc)].
    eapply frame_one; [done | exact Hp | done | done | by right].
Qed.

Lemma replay_Ok p removes ops pc ch' l :
  inv l -> distinct_fds (chans l) -> chans l !! p = Some pc -> chan_run removes ops (plain pc) ch' ->
  (removes = true -> removable l p) ->
  sound (moved_on p ch' l) (ofold (exec_chan p) ops l).
Proof.
  revert pc l. induction ops as [|o ops IH]; intros pc l I D Hp Hrun Hr; cbn [ofold].
  - cbn in *. subst ch'. split_and!; [done | done | done |]. exists pc. by rewrite insert_id.
  - destruct Hrun as (ch1 & Hs & Hrun).
    eapply sound_bind; [by eapply exec_chan_Ok|]. intros l1 (I1 & D1 & F1 & pc1 & E1 & <-).
    eapply sound_mono; [apply (IH pc1); [done | done | by rewrite E1, lookup_insert_eq | done |]|].
    { destruct (fr_loop _ _ F1) as (_ & A2 & A3 & A4). unfold removable in *. by rewrite A2, A3, A4. }
    intros l2 (I2 & D2 & F2 & pc2 & E2 & E3). split_and!; [done | done | by etrans|].
    exists pc2. by rewrite E2, E1, insert_insert_eq.
Qed.

Lemma functors_run n p c c' (s : net) : net_inv s -> cs s !! p = Some c -> take n (functors s) = replicate n p ->
  drop n (queue c) `prefix_of` queue c' ->
  forall q, queued_for q (drop n (functors s) ++ replicate (n + length (queue c') - length (queue c)) p) =
    match <[p:=c']> (cs s) !! q with Some c => length (queue c) | None => 0%nat end.
Proof.
  intros N Hc Ht Hq q. pose proof (n_functors _ N q) as Hn. rewrite <- (take_drop n (functors s)), Ht, queued_for_app, queued_for_replicate in Hn.
  rewrite queued_for_app, queued_for_replicate. apply prefix_length in Hq. rewrite length_drop in Hq.
  case_decide as E; [subst q; rewrite lookup_insert_eq; rewrite Hc in Hn; lia | rewrite lookup_insert_ne by done; lia].
Qed.
Lemma runs_on_Ok n p f removes c s :
  net_inv s -> cs s !! p = Some c -> (removes = true -> removable (lp s) p) ->
  holds true (good true) (f c) -> (forall c', f c = Ok c' -> logs removes c c') ->
  take n (functors s) = replicate n p -> (forall c', f c = Ok c' -> drop n (queue c) `prefix_of` queue c') ->
  sound (fun s' => net_inv s' /\ frame (lp s) (lp s') /\ exists c', f c = Ok c' /\ cs s' = <[p:=c']> (cs s)) (runs_on n p f s).
Proof.
  intros N Hc Hr Hf Hl Ht Hqs. pose proof N as [I D G C _]. unfold runs_on, object. rewrite Hc. cbn [mbind outcome_bind].
  destruct (f c) as [c'|e] eqn:Ef; [|by destruct e]. cbn [mbind outcome_bind holds] in *.
  destruct (Hl c' eq_refl) as (ops & Eo & Hrun). rewrite Eo, drop_app_length.
  destruct (C p c Hc) as (pc & Hp & Hpc). rewrite <- Hpc in Hrun.
  eapply sound_bind; [by eapply replay_Ok|]. intros l (I1 & D1 & F1 & pc' & E1 & Hpc'). cbn.
  split; [|by split; [|eauto]]. split; cbn; [done | done | | | by apply functors_run; auto].
  - intros q d [[<- <-]|[Hq E]]%lookup_insert_Some; [done | by eapply G].
  - intros q d [[<- <-]|[Hq E]]%lookup_insert_Some; rewrite E1.
    + rewrite lookup_insert_eq. eauto.
    + destruct (C q d E) as (pd & Hd & ?). rewrite lookup_insert_ne by done. eauto.
Qed.

(** *** What happens between two points of the loop *)
Lemma frame_new l p ch : chans l !! p = None -> frame l (set_chan p ch l).
Proof.
  intros Hp. split; [done| |]; intros x cx Hx; exists cx; cbn; rewrite lookup_insert_ne by congruence; done.
Qed.
Lemma frame_del l p ch : chans l !! p = Some ch -> index_ ch = kNew -> ch_eventHandling_ ch = false -> frame l (del_chan p l).
Proof.
  intros Hp Hi Hh. split; [done| |]; intros x cx Hx; exists cx; cbn; rewrite lookup_delete_ne; try done; congruence.
Qed.
Lemma inv_new_conn_chan sockfd wcb hcb p l : inv l -> chans l !! p = None ->
  inv (set_chan p (channel_ (new_TcpConnection (B := B) sockfd wcb hcb)) l).
Proof.
  intros I Hp. pose proof (inv_new_chan l p sockfd I Hp) as I1.
  assert (Hp1 : chans (set_chan p (new_Channel sockfd) l) !! p = Some (new_Channel sockfd)) by (cbn; by rewrite lookup_insert_eq).
  pose proof (inv_touch _ p _ (channel_ (new_TcpConnection (B := B) sockfd wcb hcb)) (eventHandling_ l) (activeChannels_ l)
    (currentActiveChannel_ l) I1 Hp1 eq_refl eq_refl eq_refl eq_refl) as I2.
  by rewrite set_chan_twice in I2.
Qed.

(** A call on one channel. *)
Definition called (p : Z) (l l' : loop K) : Prop :=
  inv l' /\ distinct_fds (chans l') /\ frame l l' /\ forall q, q <> p -> chans l' !! q = chans l !! q.
Lemma called_change f p l : inv l -> distinct_fds (chans l) -> (exists c, chans l !! p = Some c /\ (index_ c = kNew -> channels_ l !! fd c = None)) ->
  sound (called p l) (change_events f p l).
Proof.
  intros I D (c & Hp & _). eapply sound_mono; [by apply (exec_chan_Ok p false (ChChange f) c (changed f (plain c)) l)|].
  intros l' (? & ? & ? & pc' & E & _). split_and!; [done..|]. intros q Hq. by rewrite E, lookup_insert_ne.
Qed.
Lemma exec_call_called x l : inv l -> distinct_fds (chans l) -> call_ok x l ->
  match x with CNew _ f => forall p ch, chans l !! p = Some ch -> fd ch <> f | _ => True end ->
  sound (called (target x) l) (exec_call x l).
Proof.
  intros I D Hx Hf. destruct x; cbn [exec_call call_ok target] in *; try by apply called_change.
  - split_and!; [by apply inv_new_chan | by apply distinct_new | by apply frame_new | intros; by apply lookup_insert_ne].
  - destruct Hx as (c & Hp & Hi & He & Ha). eapply sound_mono;
      [by apply (exec_chan_Ok p true ChRemove c (SetIndex kNew (with_added false (plain c))) l)|].
    intros l' (? & ? & ? & pc' & E & _). split_and!; [done..|]. intros q Hq. by rewrite E, lookup_insert_ne.
  - destruct Hx as (c & Hp & Hi & Hh). destruct (destroy_Ok l p c I Hp Hi Hh) as [-> ?].
    split_and!; [done | by apply distinct_delete | by eapply frame_del | intros; by apply lookup_delete_ne].
Qed.

(** The connections that are still to be handled stay open. *)
Definition net_frame (s s' : net) : Prop :=
  frame (lp s) (lp s') /\
  forall p ch c', chans (lp s) !! p = Some ch -> ~ removable (lp s) p -> index_ ch <> kNew -> cs s' !! p = Some c' ->
    exists c, cs s !! p = Some c /\ (open c -> open c').
#[local] Instance net_frame_preorder : PreOrder net_frame.
Proof.
  split.
  - intros s. split; [done|]. eauto.
  - intros x y z [F1 C1] [F2 C2]. split; [by etrans|]. intros p ch c' Hp Hr Hi Hc.
    destruct (fr_next _ _ F1 _ _ Hp Hr Hi) as (ch1 & Hp1 & Hi1).
    destruct (C2 p ch1 c' Hp1) as (c1 & Hc1 & ?); [|done|done|].
    { destruct (fr_loop _ _ F1) as (_ & A2 & A3 & A4). unfold removable in *. by rewrite A2, A3, A4. }
    destruct (C1 p ch c1 Hp Hr Hi Hc1) as (c & ? & ?). eauto.
Qed.
Lemma net_frame_run p c c' s s' : frame (lp s) (lp s') -> cs s !! p = Some c -> cs s' = <[p:=c']> (cs s) ->
  (open c -> open c') -> net_frame s s'.
Proof.
  intros F Hc E Ho. split; [done|]. intros q ch d _ _ _. rewrite E.
  intros [[<- <-]|[Hq Ed]]%lookup_insert_Some; eauto.
Qed.
Lemma moved_open (c c' : conn) : moved c c' -> open c -> open c'.
Proof. intros [_ [E|[_ E]]]; unfold open; rewrite E; auto. Qed.

(** One piece of code of a connection that does not close it. *)
Lemma runs_on_act p f c s : net_inv s -> cs s !! p = Some c ->
  holds true (fun c' => good true c' /\ (open c -> open c')) (f c) -> (forall c', f c = Ok c' -> logs false c c') ->
  (forall c', f c = Ok c' -> queues c c') ->
  sound (fun s' => net_inv s' /\ net_frame s s') (runs_on 0 p f s).
Proof.
  intros N Hc Hf Hl Hq. eapply sound_mono; [eapply (runs_on_Ok 0 p f false c s); try done|].
  - eapply holds_mono; [exact Hf|]. by intros ? [? _].
  - intros s' (? & F & c' & E & Ec). split; [done|]. rewrite E in Hf. destruct Hf. by eapply net_frame_run.
Qed.

Hypothesis Huser : forall p, user_ok true (user p).

Lemma net_new_Ok p f wcb hcb s : net_inv s -> chans (lp s) !! p = None -> fresh_fd f s ->
  net_inv (net_new p f wcb hcb s) /\ net_frame s (net_new p f wcb hcb s).
Proof.
  intros [I D G C Q] Hp Hf. assert (Hn : cs s !! p = None).
  { destruct (cs s !! p) as [c|] eqn:Hc; [|done]. destruct (C p c Hc) as (ch & ? & _). congruence. }
  split; [split; cbn|].
  - by apply (inv_new_conn_chan f wcb hcb).
  - by apply distinct_new.
  - intros q c [[<- <-]|[Hq E]]%lookup_insert_Some; [apply good_new | by eapply G].
  - intros q c [[<- <-]|[Hq E]]%lookup_insert_Some; [rewrite lookup_insert_eq; eauto|].
    rewrite lookup_insert_ne by done. eauto.
  - intros q. rewrite Q. destruct (decide (p = q)) as [<-|]; [by rewrite lookup_insert_eq, Hn | by rewrite lookup_insert_ne].
  - split; [by apply frame_new|]. intros q ch c' Hq _ _. cbn.
    intros [[<- <-]|[Hne E]]%lookup_insert_Some; [congruence | eauto].
Qed.
Lemma net_release_Ok p c s : net_inv s -> cs s !! p = Some c -> state_ c = kDisconnected -> index_ (channel_ c) = kNew -> queue c = [] ->
  (forall ch, chans (lp s) !! p = Some ch -> ch_eventHandling_ ch = false) ->
  sound (fun s' => net_inv s' /\ net_frame s s') (net_release p s).
Proof.
  intros [I D G C Q] Hc Hs Hi Hqe Hh. destruct (C p c Hc) as (ch & Hp & Hpc).
  assert (Hi' : index_ ch = kNew) by (by rewrite <- Hi, <- Hpc).
  unfold net_release, object. rewrite Hc. cbn [mbind outcome_bind]. unfold Disconnected.
  rewrite bool_decide_true by done. cbn [massert mbind outcome_bind].
  destruct (destroy_Ok (lp s) p ch I Hp Hi' (Hh _ Hp)) as [-> I']. cbn. split.
  - split; cbn; [done | by apply distinct_delete | | |].
    + intros q d [_ E]%lookup_delete_Some. by eapply G.
    + intros q d [Hq E]%lookup_delete_Some. destruct (C q d E) as (cd & ? & ?). exists cd.
      by rewrite lookup_delete_ne.
    + intros q. rewrite Q. destruct (decide (p = q)) as [<-|]; [by rewrite lookup_delete_eq, Hc, Hqe | by rewrite lookup_delete_ne].
  - split; [eapply frame_del; eauto|]. intros q cq c' _ _ _. cbn. intros [_ E]%lookup_delete_Some. eauto.
Qed.

Lemma exec_act_Ok x s : net_inv s -> act_ok x s -> sound (fun s' => net_inv s' /\ net_frame s s') (exec_act x s).
Proof.
  intros N Hx. pose proof N as [I D G C Q]. destruct x as [p f wcb hcb|p|p a|p a|p|p|x]; cbn [exec_act act_ok] in *.
  - destruct Hx as [Hp Hf]. by apply net_new_Ok.
  - destruct Hx as (c & Hc & Hs). eapply runs_on_act; [done | done | | |].
    + eapply holds_mono; [by apply exec_event_Ok; [apply Huser | eapply G |]|]. intros c' [? _]. split; [done|].
      intros [E|E]; congruence.
    + intros c'. by apply logs_event.
    + intros c'. by apply queues_event.
  - destruct Hx as (c & Hc & Ha). eapply runs_on_act; [done | done | | |].
    + eapply holds_mono; [by apply exec_api_Ok; [eapply G |]|]. intros c' [? ?]. split; [done | by apply moved_open].
    + intros c'. by apply logs_api.
    + intros c'. by apply queues_api.
  - destruct Hx as (c & Hc & Ha). eapply runs_on_act; [done | done | | |].
    + eapply holds_mono; [by apply exec_api_Ok; [eapply G |]|]. intros c' [? ?]. split; [done | by apply moved_open].
    + intros c'. by apply logs_api.
    + intros c'. by apply queues_api.
  - destruct Hx as (c & Hc & _). eapply runs_on_act; [done | done | | |].
    + cbn. split; [apply good_queue; [by eapply G | done] | done].
    + intros c'. by apply logs_event.
    + intros c'. by apply queues_event.
  - destruct Hx as [(c & Hc & Hs & Hi & Hq) Hh]. by apply (net_release_Ok p c).
  - destruct Hx as (Hx & Ht & Hf). eapply sound_bind; [by apply exec_call_called|].
    intros l (I' & D' & F' & E). cbn. split; [|split; [done | eauto]].
    split; cbn; [done | done | done| |done]. intros q d Hq. destruct (C q d Hq) as (cd & ? & ?). exists cd.
    rewrite E; [done|]. congruence.
Qed.
Lemma exec_acts_Ok l s : net_inv s -> acts_ok l s -> sound (fun s' => net_inv s' /\ net_frame s s') (ofold exec_act l s).
Proof.
  revert s. induction l as [|x l IH]; intros s N Hl; cbn [ofold]; [done|]. destruct Hl as [Hx Hl].
  pose proof (exec_act_Ok x s N Hx) as H1. destruct (exec_act x s) as [s1|]; [|done]. destruct H1 as [N1 F1].
  cbn [mbind outcome_bind]. eapply sound_mono; [apply IH; auto|]. intros s' [? ?]. split; [done | by etrans].
Qed.

(** *** A round of the loop *)
(** What the dispatch sets is not seen by the connections. *)
Lemma net_same s l : net_inv s -> inv l -> (forall q, plain <$> chans l !! q = plain <$> chans (lp s) !! q) ->
  net_inv (with_lp l s).
Proof.
  intros [I D G C Q] I' E.
  assert (Hl : forall q c, chans l !! q = Some c -> exists c0, chans (lp s) !! q = Some c0 /\ plain c = plain c0).
  { intros q c Hq. specialize (E q). rewrite Hq in E. destruct (chans (lp s) !! q) as [c0|]; [|done].
    apply (inj Some) in E. by exists c0. }
  split; cbn; [done | | done | |done].
  - intros p q c d Hp Hq Ef. destruct (Hl _ _ Hp) as (c0 & Hp0 & Ec), (Hl _ _ Hq) as (d0 & Hq0 & Ed).
    apply (f_equal fd) in Ec, Ed. cbn in Ec, Ed. eapply D; [exact Hp0 | exact Hq0 | congruence].
  - intros p c Hc. destruct (C p c Hc) as (ch & Hp & Ech). specialize (E p). rewrite Hp in E.
    destruct (chans l !! p) as [c1|]; [|done]. apply (inj Some) in E. exists c1. split; [done|]. congruence.
Qed.
Lemma deref_Some p ch (l : loop K) : chans l !! p = Some ch -> deref p l = Ok ch.
Proof. unfold deref. by intros ->. Qed.
Lemma inv_flags h a cur (l : loop K) : inv l -> inv (set_handling h a cur l).
Proof. intros []. by split. Qed.
Lemma net_flag s p ch h a cur x : net_inv s -> chans (lp s) !! p = Some ch ->
  net_inv (with_lp (set_handling h a cur (set_chan p (with_handling x ch) (lp s))) s).
Proof.
  intros N Hp. apply net_same; [done | by eapply (inv_touch (lp s) p ch); [apply N|..] |].
  intros q. cbn. destruct (decide (p = q)) as [<-|]; [|by rewrite lookup_insert_ne].
  by rewrite lookup_insert_eq, Hp.
Qed.

(** An active channel that is still to be handled. *)
Definition awaits (s : net) (p : Z) : Prop :=
  (exists ch, chans (lp s) !! p = Some ch /\ index_ ch <> kNew) /\ forall c, cs s !! p = Some c -> open c.
Record dispatching (ps : list Z) (s : net) : Prop := mk_dispatching {
  d_net : net_inv s;
  d_handling : eventHandling_ (lp s) = true;
  d_active : forall p, p ∈ ps -> p ∈ activeChannels_ (lp s);
  d_awaits : forall p, p ∈ ps -> awaits s p;
  d_nodup : NoDup ps;
}.
Lemma awaits_frame s s' p : net_frame s s' -> ~ removable (lp s) p -> awaits s p -> awaits s' p.
Proof.
  intros [F C] Hr [(ch & Hp & Hi) Ho]. split; [by eapply (fr_next _ _ F)|].
  intros c' Hc. destruct (C p ch c' Hp Hr Hi Hc) as (c & ? & Hoc). eauto.
Qed.
(** The handlers of one channel leave the others as they were. *)
Lemma io_part_Ok io r p s : net_inv s -> (forall c, cs s !! p = Some c -> open c) ->
  (is_Some (cs s !! p) -> write_range (io p).1 /\ readv_ok (io p).2 /\ report_ok r) ->
  sound (fun s' => net_inv s' /\ frame (lp s) (lp s') /\ forall q, q <> p -> cs s' !! q = cs s !! q) (io_part io r p s).
Proof.
  intros N Ho Hio. unfold io_part. destruct (cs s !! p) as [c|] eqn:Hc; [|done].
  destruct (Hio ltac:(eauto)) as (Hw & Hrv & Hrep). pose proof (n_good _ N p c Hc) as G.
  destruct (open_live c G (Ho c eq_refl)) as [Hi _].
  eapply sound_mono; [eapply (runs_on_Ok 0 p _ false c s); [done | done | done | | | done |]|].
  - eapply holds_mono; [by apply (exec_event_Ok true (user p) (Huser p) (IO r (io p).1 (io p).2) c G)|]. by intros c' [? _].
  - intros c'. by apply logs_event.
  - intros c'. by apply queues_event.
  - intros s' (? & F & c' & _ & E). split_and!; [done | done |]. intros q Hq. by rewrite E, lookup_insert_ne.
Qed.

Lemma handlers_Ok io script r p (ps : list Z) s : net_inv s -> (forall c, cs s !! p = Some c -> open c) ->
  (is_Some (cs s !! p) -> write_range (io p).1 /\ readv_ok (io p).2 /\ report_ok r) ->
  (forall s', io_part io r p s = Ok s' -> acts_ok (script p) s') ->
  p ∉ ps -> (forall q, q ∈ ps -> ~ removable (lp s) q /\ awaits s q) ->
  (exists ch, chans (lp s) !! p = Some ch /\ ch_eventHandling_ ch = true) ->
  sound (fun s' => net_inv s' /\ same_loop (lp s) (lp s') /\ (forall q, q ∈ ps -> awaits s' q) /\
      exists ch, chans (lp s') !! p = Some ch) (handlers io script r p s).
Proof.
  intros N Ho Hio Hscript Hnp Hps (ch & Hp & Hh). unfold handlers.
  assert (H2 := io_part_Ok io r p s N Ho Hio).
  destruct (io_part io r p s) as [s2|] eqn:E2; [|done]. destruct H2 as (N2 & F2 & C2). cbn [mbind outcome_bind].
  eapply sound_mono; [apply exec_acts_Ok; auto|]. intros s3 [N3 F3].
  destruct (fr_held _ _ F2 p ch Hp Hh) as (ch2 & Hp2 & Hh2).
  destruct (fr_held _ _ (proj1 F3) p ch2 Hp2 Hh2) as (ch3 & Hp3 & _).
  split_and!; [done | apply fr_loop; etrans; [exact F2 | apply F3] | | by eauto].
  intros q Hq. destruct (Hps q Hq) as [Hr [(cq & Hcq & Hiq) Hoq]]. apply (awaits_frame s2 s3); [done | |].
  - destruct (fr_loop _ _ F2) as (_ & A2 & A3 & A4). unfold removable. by rewrite A2, A3, A4.
  - split; [by eapply (fr_next _ _ F2)|]. rewrite C2; [done|]. by intros ->.
Qed.

Lemma dispatch_Ok io script p ps s : dispatching (p :: ps) s -> guarded_ok io script p s ->
  sound (dispatching ps) (dispatch io script p s).
Proof.
  intros [N Hh Ha Hw [Hnp Hnd]%NoDup_cons] Hok. destruct (Hw p ltac:(left)) as [(ch & Hp & Hi) Ho].
  destruct (Hok ch Hp) as [Hio Hscript].
  set (s1 := with_lp (set_handling (eventHandling_ (lp s)) (activeChannels_ (lp s)) (Some p)
    (set_chan p (with_handling true ch) (lp s))) s) in *.
  assert (Hrest : forall s', net_inv s' -> same_loop (lp s1) (lp s') -> (forall q, q ∈ ps -> awaits s' q) -> dispatching ps s').
  { intros s' N' (_ & A2 & A3 & _) Hw'. split; [done | by rewrite A2 | | done | done].
    intros q Hq. rewrite A3. apply Ha. by right. }
  unfold dispatch, guarded. cbv zeta. rewrite (deref_Some p ch) by done. cbn [mbind outcome_bind].
  case_if.
  { cbn. apply Hrest; [| done |].
    - apply net_same; [done | apply inv_flags, N | done].
    - intros q Hq. destruct (Hw q ltac:(by right)). by split. }
  match goal with |- context [handlers io script (revents_ ch) p ?x] => change x with s1 end.
  eapply sound_bind; [apply (handlers_Ok io script (revents_ ch) p ps s1); try done|].
  - exact (net_flag s p ch _ _ _ true N Hp).
  - intros q Hq. assert (Hne : p <> q) by (by intros ->). split.
    + unfold removable. cbn. rewrite Hh. intros [?|[[= ->]|Hx]]; [done | done|]. apply Hx, Ha. by right.
    + destruct (Hw q ltac:(by right)) as [(cq & ? & ?) ?]. split; [|done]. exists cq. cbn. by rewrite lookup_insert_ne.
  - exists (with_handling true ch). cbn. by rewrite lookup_insert_eq.
  - intros s3 (N3 & L3 & Hw3 & ch3 & Hp3). rewrite (deref_Some p ch3) by done. cbn.
    apply Hrest; [exact (net_flag s3 p ch3 _ _ _ false N3 Hp3) | done|].
    intros q Hq. destruct (Hw3 q Hq) as [(c3 & ? & ?) ?]. split; [|done]. exists c3. cbn.
    rewrite lookup_insert_ne; [done|]. by intros ->.
Qed.
Lemma dispatches_Ok io script ps s : dispatching ps s -> dispatches_ok io script ps s ->
  sound (dispatching []) (ofold (dispatch io script) ps s).
Proof.
  revert s. induction ps as [|p ps IH]; intros s Hd Hok; [done|]. destruct Hok as [Hp Hok]. cbn [ofold].
  pose proof (dispatch_Ok io script p ps s Hd Hp) as H1. destruct (dispatch io script p s) as [s1|]; [|done].
  apply IH; auto.
Qed.

(** Between two rounds. *)
Definition resting (s : net) : Prop := net_inv s /\ eventHandling_ (lp s) = false.

(** A channel the poller reports is registered; a connection it reports is open. *)
Lemma poll_awaits s l : resting s -> events_size (lp s) < 2 ^ 31 ->
  Poll (set_handling (eventHandling_ (lp s)) [] (currentActiveChannel_ (lp s)) (lp s)) = Ok l ->
  dispatching (activeChannels_ l) (with_lp (set_handling true (activeChannels_ l) (currentActiveChannel_ l) l) s).
Proof.
  intros [N _] Hsz EP. set (l0 := set_handling _ _ _ _) in *.
  destruct (epoll_wait (events_size l0) (kernel l0)) as [[n evs] k] eqn:Ew.
  destruct (Poll_Ok l0 n evs k (inv_flags _ _ _ _ (n_poller _ N)) eq_refl Hsz Ew)
    as (l' & E & I' & Ea & Hnd & Hev & Hne & _ & _ & _). rewrite E in EP. injection EP as ->. rewrite Ea.
  split; cbn; [| done | done | | done].
  - apply (net_same s (set_handling true _ _ l) N); [by apply inv_flags|]. intros q. cbn.
    destruct (decide (q ∈ data_ptr <$> evs)) as [Hq|Hq]; [|by rewrite Hne].
    apply list_elem_of_fmap in Hq as (e & -> & He). destruct (Hev e He) as (c & Hc & _ & ->).
    cbn in Hc. by rewrite Hc.
  - intros q (e & -> & He)%list_elem_of_fmap. destruct (Hev e He) as (ch & Hc & Hi & Hl). split.
    + exists (SetRevents (events e) ch). split; [done|]. cbn. by rewrite Hi.
    + intros c Hcs. destruct (n_copy _ N _ _ Hcs) as (ch' & Hc' & Ech). cbn in Hc, Hcs. replace ch' with ch in * by congruence.
      apply added_open; [by eapply (n_good _ N)|]. by rewrite <- Ech.
Qed.
Lemma Poll_total s : resting s -> events_size (lp s) < 2 ^ 31 ->
  exists l, Poll (set_handling (eventHandling_ (lp s)) [] (currentActiveChannel_ (lp s)) (lp s)) = Ok l.
Proof.
  intros [N _] Hsz. set (l0 := set_handling _ _ _ _) in *.
  destruct (epoll_wait (events_size l0) (kernel l0)) as [[n evs] k] eqn:Ew.
  destruct (Poll_Ok l0 n evs k (inv_flags _ _ _ _ (n_poller _ N)) eq_refl Hsz Ew) as (l' & ? & _). eauto.
Qed.
Lemma round_Ok io script s : resting s -> step_ok (NRound io script) s -> sound resting (round io script s).
Proof.
  intros R [Hsz Hok]. unfold round. destruct (Poll_total s R Hsz) as [l E]. rewrite E. cbn [mbind outcome_bind].
  eapply sound_bind; [apply dispatches_Ok; [by apply poll_awaits | by apply Hok]|].
  intros s' [N' _ _ _ _]. split; [|done]. apply net_same; [done | apply inv_flags, N' | done].
Qed.

Lemma exec_step_Ok x s : resting s -> step_ok x s -> sound resting (exec_step x s).
Proof.
  intros R Hx. pose proof R as [N Hh]. destruct x as [x|w|io script]; cbn [exec_step].
  - eapply sound_mono; [by apply exec_act_Ok|]. intros s' [N' [F _]]. split; [done|].
    destruct (fr_loop _ _ F) as (_ & -> & _). done.
  - destruct (functors s) as [|p l] eqn:Ef; [done|]. pose proof (n_functors _ N p) as Hn. rewrite Ef in Hn.
    unfold queued_for in Hn. rewrite filter_cons_True in Hn by done. destruct (cs s !! p) as [c|] eqn:Hc; [|done].
    specialize (Hx p c). rewrite Ef in Hx. specialize (Hx eq_refl Hc).
    eapply sound_mono; [eapply (runs_on_Ok 1 p _ true c s N Hc); [by left | | | by rewrite Ef |]|].
    + eapply holds_mono; [by apply (exec_event_Ok true (user p) (Huser p) (RunFunctor w) c); [by eapply n_good|]|]. by intros c' [? _].
    + intros c'. apply logs_exec_event.
    + intros c' E%queues_event. unfold queues in E. cbn in E. by destruct (queue c).
    + intros s' (N' & F & _). split; [done|]. destruct (fr_loop _ _ F) as (_ & -> & _). done.
  - by apply round_Ok.
Qed.
Lemma exec_steps_Ok l s : resting s -> steps_ok l s -> sound resting (ofold exec_step l s).
Proof.
  revert s. induction l as [|x l IH]; intros s R Hl; [done|]. destruct Hl as [Hx Hl]. cbn [ofold].
  pose proof (exec_step_Ok x s R Hx) as H1. destruct (exec_step x s) as [s1|]; [|done]. apply IH; auto.
Qed.

(** ** What the kernel watches *)
Lemma flag_u32 e n : 0 <= n < 32 -> flag (u32 e) (2 ^ n) = flag e (2 ^ n).
Proof. intros Hn. rewrite !flag_pow2 by lia. unfold u32. apply Z.mod_pow2_bits_low. lia. Qed.

(** The events a connection waits for: input while it is open, output exactly while
    bytes wait to be written, and nothing at all before and after. *)
Definition watched (l : loop K) (p : Z) (c : conn) : Prop :=
  match state_ c with
  | kConnected | kDisconnecting =>
      exists ev, interest (kernel l) !! fd (channel_ c) = Some ev /\ data_ptr ev = p /\
        flag (events ev) EPOLLIN = true /\
        (flag (events ev) EPOLLOUT = true <-> sb_bytes (outputBuffer_ c) <> [])
  | kConnecting | kDisconnected => interest (kernel l) !! fd (channel_ c) = None
  end.
Section Watched.
Context (l : loop K) (p : Z) (ch : Channel) (c : conn).
Hypotheses (I : inv l) (D : distinct_fds (chans l)) (G : good true c)
  (Hp : chans l !! p = Some ch) (E : plain ch = channel_ c).
Lemma unwatched : index_ (channel_ c) <> kAdded -> interest (kernel l) !! fd (channel_ c) = None.
Proof using I D Hp E.
  intros Hi. rewrite <- E in Hi |- *. apply (inv_not_added _ p ch I Hp); [done|]. by apply (free_when_new _ p).
Qed.
Lemma open_watched : open c -> watched l p c.
Proof using I D G Hp E.
  intros Ho. destruct (open_live c G Ho) as [Hi Hin]. assert (Hch : index_ ch = kAdded) by (by rewrite <- Hi, <- E).
  destruct (inv_is_added _ _ _ I Hp Hch) as [_ Hint].
  assert (Hn : state_ c <> kDisconnected) by (destruct Ho; congruence).
  assert (Hev : exists ev, interest (kernel l) !! fd (channel_ c) = Some ev /\ data_ptr ev = p /\
        flag (events ev) EPOLLIN = true /\
        (flag (events ev) EPOLLOUT = true <-> sb_bytes (outputBuffer_ c) <> [])).
  { exists (event_of p ch). rewrite <- E in Hin |- *. split_and!; [done | done | |].
    - cbn [events event_of]. by rewrite (flag_u32 _ 0).
    - cbn [events event_of]. rewrite (flag_u32 _ 2) by lia. rewrite <- (g_writing _ _ G Hn).
      unfold isWriting, IsWriting. by rewrite <- E. }
  unfold watched. by destruct Ho as [Es|Es]; rewrite Es.
Qed.
Lemma copy_watched : watched l p c.
Proof using I D G Hp E.
  pose proof (g_live _ _ G eq_refl) as Hl. unfold live in Hl.
  destruct (state_ c) eqn:Es; try (apply open_watched; unfold open; auto; fail).
  - unfold watched. rewrite Es. apply unwatched, Hl.
  - unfold watched. rewrite Es. apply unwatched. by rewrite Hl.
Qed.
End Watched.
Lemma all_watched s p c : net_inv s -> cs s !! p = Some c -> watched (lp s) p c.
Proof. intros [I D G C Q] Hc. destruct (C p c Hc) as (ch & Hp & E). apply (copy_watched _ _ ch); eauto. Qed.
Lemma functors_live s p : net_inv s -> p ∈ functors s -> exists c, cs s !! p = Some c /\ queue c <> [].
Proof.
  intros N Hp. pose proof (n_functors _ N p) as Hn. assert (Hpos : (0 < queued_for p (functors s))%nat).
  { unfold queued_for. apply list_elem_of_split in Hp as (l1 & l2 & ->). rewrite filter_app, filter_cons_True, length_app by done. cbn. lia. }
  destruct (cs s !! p) as [c|]; [|lia]. exists c. split; [done|]. intros Hq. rewrite Hq in Hn. cbn in Hn. lia.
Qed.
Lemma resting_new k : interest k = ∅ -> resting (new_net k).
Proof. intros Hk. split; [|done]. split; cbn; [by apply inv_new_loop | | | | intros p; by rewrite lookup_empty]; by intros ? ?; rewrite lookup_empty. Qed.

(** C5: the connections of a loop and its poller agree.  The loop polls, dispatches, runs
    the functors of its connections in the order they were queued, and connections are
    made, established, called from the loop and from other threads, destroyed and released
    beside other channels, in any order, on any kernel that behaves as epoll(7) documents
    and reports as [report_ok] says.  What is owed ([steps_ok]): nobody switches reading off or on ([user_ok
    true], [api_ok true]: StartRead and StopRead do abort), a connection is called only while it exists,
    [ConnectDestroyed] is queued for one that is established and not half-closed, and the last pointer to a connection goes after it ran
    and when no functor of the connection is queued.  (The code does not ensure the last part, see
    [send_behind_destroy_dangles].)  Then no assertion of [TcpConnection], [Channel],
    [EventLoop] or [Epoll] fails, and no channel or connection that is gone is used, by a functor either (the
    process can only be aborted because the kernel refused a registration, or end
    because a buffer outgrows memory); every open connection is watched for input, and
    for output exactly while it has bytes left to write; a connection that is not yet
    established or is closed is not watched; every event the kernel may report
    leads to a live channel, which is no closed connection's; and every functor the loop
    still has to run is of a connection that exists. *)
Theorem connections_watched l k : interest k = ∅ -> steps_ok l (new_net k) ->
  sound (fun s => (forall p c, cs s !! p = Some c -> watched (lp s) p c) /\
      (forall f ev, interest (kernel (lp s)) !! f = Some ev ->
        exists ch, chans (lp s) !! data_ptr ev = Some ch /\ fd ch = f /\
          forall c, cs s !! data_ptr ev = Some c -> open c) /\
      (forall p, p ∈ functors s -> exists c, cs s !! p = Some c /\ queue c <> []))
    (ofold exec_step l (new_net k)).
Proof.
  intros Hk Hl. eapply sound_mono; [apply exec_steps_Ok; [by apply resting_new | done]|]. intros s [N _].
  split; [intros; by apply all_watched|]. split; [|intros p; by apply functors_live].
  intros f ev (p & ch & Hf & Hp & Hi & ->)%(inv_interest _ (n_poller _ N)). cbn.
  apply (inv_channels _ (n_poller _ N)) in Hf as (ch' & Hp' & Ef). rewrite Hp in Hp'. injection Hp' as <-.
  exists ch. split_and!; [done | done|]. intros c Hc. destruct (n_copy _ N p c Hc) as (ch' & Hp' & E).
  apply added_open; [by eapply (n_good _ N)|]. rewrite <- E; cbn; congruence.
Qed.
End ConnPoller.
Arguments net : clear implicits.

(** ** A concrete run

    An acceptor (channel 8) takes two connections; the first greets, echoes and is closed by
    its peer, destroyed and released; the second has part of its greeting left. *)
Definition ex_net_kernel : simple_epoll := mkSimple ∅ {[3 := 1; 5 := 1]}.
Definition greeters (p : Z) : callback -> conn ConnBuffer.Buffer -> list api := echo.
Abbreviation ex_net := (net ConnBuffer.Buffer simple_epoll) (only parsing).
Definition ex_io (d : list byte) : Z -> write_t * readv_t := fun _ => (takes 3 false, delivers d).
Definition at_acceptor (l : list act) (p : Z) : list act := if p =? 8 then l else [].
Definition ex_steps : list step :=
  [NAct (NChannel (CNew 8 3)); NAct (NChannel (CEnableReading 8));
   NRound (ex_io []) (at_acceptor [NNew 16 5 true true; NEstablished 16]);
   NRound (ex_io (chars "abc")) (at_acceptor [NNew 32 6 true true; NEstablished 32]);
   NRound (ex_io []) (at_acceptor [NInLoop 32 (ASend (chars "!") (takes 3 false))]);
   NAct (NDestroy 16); NFunctor (takes 3 false); NAct (NRelease 16)].

(** The contracts hold in this run: checked by evaluation. *)
Definition ok_or {A} (m : outcome A) (a : A) : A := match m with Ok b => b | Fault _ => a end.
Definition test_conn (P : conn ConnBuffer.Buffer -> bool) (p : Z) (s : ex_net) : bool :=
  match cs s !! p with Some c => P c | None => false end.
Lemma test_conn_is P Q p s : test_conn P p s = true -> (forall c, P c = true -> Q c) -> conn_is p Q s.
Proof. unfold test_conn, conn_is. destruct (cs s !! p) as [c|]; [|done]. eauto. Qed.
Lemma fresh_fd_test f (s : ex_net) :
  bool_decide (map_Forall (fun _ ch => fd ch <> f) (chans (lp s))) = true -> fresh_fd f s.
Proof. intros E p ch. apply bool_decide_eq_true_1 in E. apply E. Qed.
Lemma steps_next x l s : step_ok greeters x s -> steps_ok greeters l (ok_or (exec_step greeters x s) s) ->
  steps_ok greeters (x :: l) s.
Proof. intros Hx Hl. split; [done|]. intros s' E. by rewrite E in Hl. Qed.
Lemma net_acts_next x l s : act_ok x s -> acts_ok greeters l (ok_or (exec_act greeters x s) s) -> acts_ok greeters (x :: l) s.
Proof. intros Hx Hl. split; [done|]. intros s' E. by rewrite E in Hl. Qed.
Definition entered (p : Z) (ch : Channel) (s : ex_net) : ex_net :=
  with_lp (set_handling (eventHandling_ (lp s)) (activeChannels_ (lp s)) (Some p) (set_chan p (with_handling true ch) (lp s))) s.
Lemma dispatch_next d script p ps s ch : chans (lp s) !! p = Some ch -> close_test (revents_ ch) = false ->
  acts_ok greeters (script p) (ok_or (io_part greeters (ex_io d) (revents_ ch) p (entered p ch s)) s) ->
  dispatches_ok greeters (ex_io d) script ps (ok_or (dispatch greeters (ex_io d) script p s) s) ->
  dispatches_ok greeters (ex_io d) script (p :: ps) s.
Proof.
  intros Hp Hr Ha Hl. split; [|intros s' E; by rewrite E in Hl]. intros ch' Hp'. rewrite Hp in Hp'. injection Hp' as <-. split.
  - intros _. split_and!; [by apply takes_range | apply delivers_ok|]. intros E. by rewrite Hr in E.
  - intros s' E. unfold entered in Ha. by rewrite E in Ha.
Qed.
Definition polled (s : ex_net) : loop simple_epoll :=
  ok_or (Poll (set_handling (eventHandling_ (lp s)) [] (currentActiveChannel_ (lp s)) (lp s))) (lp s).
Lemma round_next d script ps s : (events_size (lp s) <? 2 ^ 31) = true -> activeChannels_ (polled s) = ps ->
  dispatches_ok greeters (ex_io d) script ps
    (with_lp (set_handling true (activeChannels_ (polled s)) (currentActiveChannel_ (polled s)) (polled s)) s) ->
  step_ok greeters (NRound (ex_io d) script) s.
Proof.
  intros Hs%Z.ltb_lt Ha Hd. split; [done|]. intros l E. unfold polled in *. rewrite E in Ha, Hd. cbn in Ha, Hd. by rewrite Ha in *.
Qed.
Lemma functor_next p P w s : head (functors s) = Some p -> test_conn P p s = true ->
  (forall c, P c = true -> event_ok true (RunFunctor w) c) -> step_ok greeters (NFunctor w) s.
Proof.
  intros Hh Ht HP q c Hq Hc. rewrite Hh in Hq. injection Hq as <-. unfold test_conn in Ht. rewrite Hc in Ht. by apply HP.
Qed.
Ltac act_ex :=
  match goal with
  | |- act_ok (NNew _ _ _ _) _ => split; [vm_compute; reflexivity | apply fresh_fd_test; vm_compute; reflexivity]
  | |- act_ok (NEstablished _) _ =>
      apply (test_conn_is (fun c => bool_decide (state_ c = kConnecting))); [vm_compute; reflexivity | by intros c ?%bool_decide_eq_true]
  | |- act_ok (NInLoop _ _) _ => apply (test_conn_is (fun c => negb (shutWr c)));
      [vm_compute; reflexivity | intros c ?%negb_true_iff; split; [vm_compute; reflexivity | by apply takes_false_ok]]
  | |- act_ok (NDestroy _) _ => apply (test_conn_is (fun _ => true)); [vm_compute; reflexivity | done]
  end.
Ltac dispatch_ex := repeat (eapply dispatch_next; [vm_compute; reflexivity | vm_compute; reflexivity
  | repeat (apply net_acts_next; [act_ex|]); exact I |]); exact I.
Lemma ex_steps_ok : steps_ok greeters ex_steps (new_net ex_net_kernel).
Proof.
  unfold ex_steps. do 2 (apply steps_next; [split_and!; [vm_compute; first [reflexivity | eexists; split; [reflexivity | done]]
    | vm_compute; reflexivity | first [apply fresh_fd_test; vm_compute; reflexivity | exact I]]|]).
  do 3 (apply steps_next; [eapply round_next; [vm_compute; reflexivity | vm_compute; reflexivity | dispatch_ex]|]).
  apply steps_next; [cbn [step_ok]; act_ex|]. apply steps_next; [|apply steps_next; [|exact I]].
  - apply (functor_next 16 (fun c => negb (shutWr c) && bool_decide (state_ c = kDisconnected) && negb (index_ (channel_ c) =? kNew)));
      [vm_compute; reflexivity | vm_compute; reflexivity|].
    intros c [[Hs%negb_true_iff Hd%bool_decide_eq_true]%andb_prop Hi%negb_true_iff%Z.eqb_neq]%andb_prop.
    split_and!; [by apply takes_false_ok | congruence | by right].
  - split.
    + apply (test_conn_is (fun c => bool_decide (state_ c = kDisconnected) && (index_ (channel_ c) =? kNew) && (length (queue c) =? 0)%nat)); [vm_compute; reflexivity|].
      intros c [[?%bool_decide_eq_true ?%Z.eqb_eq]%andb_prop ?%Nat.eqb_eq%nil_length_inv]%andb_prop. done.
    + intros ch Hch. vm_compute in Hch. by injection Hch as <-.
Qed.

(** [Send] and [Shutdown] from another thread bind the bare pointer.  The destructor of the
    server queues [ConnectDestroyed] for an open connection; a thread that still holds it
    sends and lets go; [ConnectDestroyed] runs, with it goes the last pointer, and the loop
    comes to [SendInLoop] of an object that is gone. *)
Lemma send_behind_destroy_dangles :
  ofold (exec_step greeters) [NAct (NNew 16 5 true true); NAct (NEstablished 16); NAct (NDestroy 16);
      NAct (NOther 16 (ASend (chars "x") (takes 1 false))); NFunctor (takes 1 false); NAct (NRelease 16); NFunctor (takes 1 false)]
    (new_net ex_net_kernel) = Fault (Undefined "dangling TcpConnection pointer").
Proof. vm_compute. reflexivity. Qed.

Lemma connections_watched_witness :
  exists s c, ofold (exec_step greeters) ex_steps (new_net ex_net_kernel) = Ok s /\ cs s !! 32 = Some c /\
    watched (lp s) 32 c /\ sb_bytes (outputBuffer_ c) = chars "lo!" /\ cs s !! 16 = None.
Proof.
  pose proof (connections_watched greeters (fun p => echo_ok true) ex_steps ex_net_kernel eq_refl ex_steps_ok) as Hw.
  assert (Hx : (fun s => ((fun c => sb_bytes (outputBuffer_ c)) <$> cs s !! 32, bool_decide (cs s !! 16 = None))) <$>
      ofold (exec_step greeters) ex_steps (new_net ex_net_kernel) = Ok (Some (chars "lo!"), true)) by (vm_compute; reflexivity).
  destruct (ofold (exec_step greeters) ex_steps (new_net ex_net_kernel)) as [s|f]; [|discriminate Hx].
  cbn [fmap outcome_fmap] in Hx. injection Hx as Hx1 Hx2. destruct (cs s !! 32) as [c|] eqn:Hc; [|discriminate Hx1].
  injection Hx1 as Hx1. exists s, c. destruct Hw as [Hw _]. split; [reflexivity|]. split; [exact Hc|].
  split; [exact (Hw 32 c Hc)|]. split; [exact Hx1|]. by apply bool_decide_eq_true_1 in Hx2.
Defined.
