(* ===== verification/ServerCallbacks.v ===== *)
(** * The callbacks of a server (src/src/network/TcpServer.h, TcpServer.cc)

    What the user of a [TcpServer] sets, and what a connection the server makes gets of
    it: [NewConnection] copies the three callbacks into the connection.  The other files
    take the callbacks of a connection as one function; here it is put together from
    what was set. *)
From S2P Require Import Prelude ByteStream Epoll TcpConnection ConnEnd ConnPoller.

Section ServerCallbacks.
Context {B : Type} `{StreamBuffer B}.
Abbreviation conn := (conn B) (only parsing).

(** A callback lists the calls it makes on the connection; the argument of the
    connection callback is [conn->Connected()].  [threadInitCallback_] is not about
    connections: only whether it is set matters (LoopThreadPool.v). *)
Record callbacks : Type := mkCallbacks {
  connectionCallback_ : bool -> conn -> list api;
  messageCallback_ : conn -> list api;
  writeCompleteCallback_ : option (conn -> list api);
  threadInitCallback_ : bool;
}.
(** The constructor of the server. *)
Definition new_callbacks : callbacks := mkCallbacks (fun _ _ => []) DefaultMessageCallback None false.
Definition SetConnectionCallback cb (s : callbacks) : callbacks :=
  mkCallbacks cb (messageCallback_ s) (writeCompleteCallback_ s) (threadInitCallback_ s).
Definition SetMessageCallback cb (s : callbacks) : callbacks :=
  mkCallbacks (connectionCallback_ s) cb (writeCompleteCallback_ s) (threadInitCallback_ s).
Definition SetWriteCompleteCallback cb (s : callbacks) : callbacks :=
  mkCallbacks (connectionCallback_ s) (messageCallback_ s) cb (threadInitCallback_ s).
Definition SetThreadInitCallback cb (s : callbacks) : callbacks :=
  mkCallbacks (connectionCallback_ s) (messageCallback_ s) (writeCompleteCallback_ s) cb.

(** The connection [NewConnection] makes, and what its callbacks do.  The server sets no
    high-water callback: [hwm] is what a user of the connection may have set; the close
    callback is the server's. *)
Definition NewConnection_conn (sockfd : Z) (s : callbacks) : conn :=
  TcpConnection.SetWriteCompleteCallback (bool_decide (is_Some (writeCompleteCallback_ s))) (new_TcpConnection sockfd false false).
Definition conn_user (hwm : Z -> conn -> list api) (s : callbacks) (cb : callback) (c : conn) : list api :=
  match cb with
  | ConnectionCb up => connectionCallback_ s up c
  | MessageCb => messageCallback_ s c
  | WriteCompleteCb => match writeCompleteCallback_ s with Some f => f c | None => [] end
  | HighWaterMarkCb len => hwm len c
  | CloseCb => []
  end.

Context `{!StreamBufferLaws B}.
(** A callback keeps the contract of a connection. *)
Definition callback_ok (f : conn -> list api) : Prop := forall c, good true c -> apis_ok true (f c) c.
Record callbacks_ok (s : callbacks) : Prop := mk_callbacks_ok {
  k_connection : forall up, callback_ok (connectionCallback_ s up);
  k_message : callback_ok (messageCallback_ s);
  k_complete : forall f, writeCompleteCallback_ s = Some f -> callback_ok f;
}.
Lemma new_callbacks_ok : callbacks_ok new_callbacks.
Proof. split; [by intros up c G | | done]. intros c G. exact (defaults_ok true MessageCb c G). Qed.
Lemma conn_user_ok hwm s : callbacks_ok s -> (forall len, callback_ok (hwm len)) -> user_ok true (conn_user hwm s).
Proof.
  intros [K1 K2 K3] Hh cb c G. destruct cb; cbn; [by apply K1 | by apply K2 | | by apply Hh | done].
  destruct (writeCompleteCallback_ s) as [f|] eqn:E; [by eapply K3 | done].
Qed.
Lemma NewConnection_conn_new sockfd s :
  NewConnection_conn sockfd s = new_TcpConnection sockfd (bool_decide (is_Some (writeCompleteCallback_ s))) false.
Proof. done. Qed.

Context {K : Type} `{EpollKernel K} `{!EpollLaws K}.
(** A server whose user sets callbacks that keep the contract, in any order and any
    number of times: whatever its loop does, its connections and the poller agree. *)
Theorem server_callbacks_watched hwm (sets : list (callbacks -> callbacks)) l (k : K) :
  let s := foldl (fun s f => f s) new_callbacks sets in
  Forall (fun f => forall s, callbacks_ok s -> callbacks_ok (f s)) sets -> (forall len, callback_ok (hwm len)) ->
  interest k = ∅ -> steps_ok (fun _ => conn_user hwm s) l (new_net k) ->
  sound (fun n => forall p c, cs n !! p = Some c -> watched (lp n) p c) (ofold (exec_step (fun _ => conn_user hwm s)) l (new_net k)).
Proof.
  intros s Hsets Hh Hk Hl. assert (Hs : callbacks_ok s).
  { subst s. generalize new_callbacks_ok. generalize new_callbacks. clear Hl.
    induction Hsets as [|f sets Hf _ IH]; intros s0 Hs0; cbn; [done | apply IH; auto]. }
  eapply sound_mono; [apply (exec_steps_Ok (fun _ => conn_user hwm s) (fun _ => conn_user_ok hwm s Hs Hh)); [by apply resting_new | done]|].
  intros n [N _] p c Hc. by apply all_watched.
Qed.
End ServerCallbacks.

(** ** A server that takes all input *)
Definition take_all (c : conn ConnBuffer.Buffer) : list api := [ARetrieve (sb_readable (inputBuffer_ c))].
Definition taking_server : callbacks := SetMessageCallback take_all (new_callbacks (B := ConnBuffer.Buffer)).
Lemma set_take_all_ok s : callbacks_ok s -> callbacks_ok (SetMessageCallback take_all s).
Proof. intros [K1 K2 K3]. split; cbn; [done | | done]. intros c G. exact (defaults_ok true MessageCb c G). Qed.
Lemma taking_server_ok : callbacks_ok taking_server.
Proof. apply set_take_all_ok, new_callbacks_ok. Qed.
(** A client writes to it: the input is taken whole, and only input is watched. *)
Lemma taking_server_run :
  (fun n => ((fun c => (sb_bytes (inputBuffer_ c), sent c)) <$> cs n !! 16, interest (kernel (lp n)) !! 5)) <$>
    ofold (exec_step (fun _ => conn_user (fun _ _ => []) taking_server))
      [NAct (NNew 16 5 false false); NAct (NEstablished 16); NRound (ex_io (chars "hello")) (fun _ => [])] (new_net ex_net_kernel) =
  Ok (Some ([], []), Some (mkEvent 3 16)).
Proof. vm_compute. reflexivity. Qed.
