(* ===== verification/ServerConns.v ===== *)
(** * A server with its connections (src/src/network/TcpServer.cc over TcpConnection.cc)

    TcpServer.v sees a connection only as the phase of its life.  Here every connection
    is the full object of TcpConnection.v: the functors of the server call
    [ConnectEstablished] and [ConnectDestroyed] of that object, and the close callback
    a handler makes is [RemoveConnection] of the server.  [view] forgets the objects
    but for their phases; a step of the full server is a step of TcpServer.v, or none,
    through [view]. *)
From S2P Require Import Prelude LogStream LoopThreadPool TcpServer.
From S2P Require Import Epoll ByteStream TcpConnection.

Section ServerConns.
Context {B : Type} `{StreamBuffer B}.
Abbreviation conn := (conn B) (only parsing).
Context (user : nat -> callback -> conn -> list api).

(** [conns] of [srv] holds the names and loops; its phases are not used. *)
Record system : Type := mkSystem { srv : TcpServer.TcpServer; objs : list conn }.

(** Code of connection [i] runs, in the thread of its loop when it can close the
    connection; each [closeCallback_] it made is a call of [RemoveConnection]. *)
Definition conn_runs (i : nat) (f : conn -> outcome conn) (sys : system) : outcome system :=
  match objs sys !! i with
  | None => Fault (Undefined "no such connection")
  | Some c =>
      c' ← f c;
      k ← conn_at i (srv sys);
      s ← ofold (fun _ => RemoveConnection (cloop k) i)
            (drop (length (close_cbs (trace c))) (close_cbs (trace c'))) (srv sys);
      Ok (mkSystem s (<[i := c']> (objs sys)))
  end.

Definition full_NewConnection (sockfd : Z) (wcb hcb : bool) (sys : system) : outcome system :=
  let id := length (conns (srv sys)) in
  '(ioLoop, s) ← register_conn (srv sys);
  let os := objs sys ++ [new_TcpConnection sockfd wcb hcb] in
  if ioLoop =? loop_ s then conn_runs id (TcpConnection.ConnectEstablished (user id)) (mkSystem s os)
  else Ok (mkSystem (TcpServer.queueInLoop ioLoop (TcpServer.FConnectEstablished id) s) os).

Definition full_run_functor (f : TcpServer.functor) (sys : system) : outcome system :=
  match f with
  | TcpServer.FConnectEstablished id => conn_runs id (TcpConnection.ConnectEstablished (user id)) sys
  | TcpServer.FConnectDestroyed id => conn_runs id (TcpConnection.ConnectDestroyed (user id)) sys
  | FRemoveConnectionInLoop id => s ← RemoveConnectionInLoop id (srv sys); Ok (mkSystem s (objs sys))
  end.

Inductive action : Type :=
  | SAccept (sockfd : Z) (wcb hcb : bool)                       (** the acceptor hands over a socket *)
  | SPoll (i : nat) (revents : Z) (w : write_t) (readv : readv_t)  (** a loop dispatches an event of connection [i] *)
  | SQueued (i : nat) (w : write_t)                             (** a loop runs a functor connection [i] queued *)
  | SUser (i : nat) (a : api)                                   (** a call from outside the loop thread *)
  | SRun (loop : Z).                                            (** a loop runs a functor the server queued *)
Definition exec_action (x : action) (sys : system) : outcome system :=
  match x with
  | SAccept sockfd wcb hcb => full_NewConnection sockfd wcb hcb sys
  | SPoll i r w readv => conn_runs i (TcpConnection.exec_event (user i) (IO r w readv)) sys
  | SQueued i w => conn_runs i (TcpConnection.exec_event (user i) (RunFunctor w)) sys
  | SUser i a => conn_runs i (TcpConnection.exec_event (user i) (OtherThread a)) sys
  | SRun L =>
      match take_first L (pending (srv sys)) with
      | Some (f, l) => full_run_functor f (mkSystem (set_pending l (srv sys)) (objs sys))
      | None => Ok sys
      end
  end.

(** ** The abstraction *)
Definition phase_of (c : conn) : phase :=
  match state_ c with
  | kConnecting => Fresh
  | kConnected | kDisconnecting => Up
  | kDisconnected => if index_ (channel_ c) =? kNew then Gone else Down
  end.
Definition seen (k : TcpServer.TcpConnection) (c : conn) : TcpServer.TcpConnection := set_phase (phase_of c) k.
Definition view (sys : system) : TcpServer := set_conns (zip_with seen (conns (srv sys)) (objs sys)) (srv sys).

(** ** What code of a connection does to its life *)
(** Calls on the connection never queue its destruction and leave the channel known to
    the poller. *)
Definition kept (c c' : conn) : Prop :=
  (TcpConnection.FConnectDestroyed ∉ queue c -> TcpConnection.FConnectDestroyed ∉ queue c') /\
  (index_ (channel_ c) <> kNew -> index_ (channel_ c') <> kNew) /\ moved c c'.
#[local] Instance kept_preorder : PreOrder kept.
Proof.
  split.
  - intros c. by split_and!; [..|split; [|left]].
  - intros x y z (Q1 & I1 & T1 & S1) (Q2 & I2 & T2 & S2). split_and!; auto. split; [congruence|].
    destruct S1 as [S1|[S1 S1']], S2 as [S2|[S2 S2']]; rewrite ?S1, ?S2 in *; auto; congruence.
Qed.
Lemma next_index_known i e : next_index i e <> kNew.
Proof. unfold next_index. by case_match. Qed.
Lemma kept_queue f c : f <> TcpConnection.FConnectDestroyed -> kept c (TcpConnection.queueInLoop f c).
Proof.
  intros Hf. split_and!; [|done | by split; [|left]]. cbn. rewrite not_elem_of_app, list_elem_of_singleton. done.
Qed.
Lemma kept_chan f c : kept c (chan f c).
Proof. split_and!; [done | intros _; apply next_index_known | by split; [|left]]. Qed.
Lemma kept_same c c' : queue c' = queue c -> channel_ c' = channel_ c -> state_ c' = state_ c -> trace c' = trace c -> kept c c'.
Proof. intros E1 E2 E3 E4. unfold kept, moved. rewrite E1, E2, E3, E4. auto. Qed.

Lemma kept_write_now data w c n r f c' : write_now data w c = (n, r, f, c') -> kept c c'.
Proof.
  unfold write_now. intros E. repeat case_match; simplify_eq; try done; (etrans; [|by apply kept_queue]) || idtac; by apply kept_same.
Qed.
Lemma kept_DoSend data w c c' : DoSendInLoop data w c = Ok c' -> kept c c'.
Proof.
  unfold DoSendInLoop. intros E. case_decide; [by inv_ok|].
  destruct (write_now data w c) as [[[n r] f] c1] eqn:Ew. apply kept_write_now in Ew. etrans; [exact Ew|]. clear Ew.
  inv_ok. set (c2 := if f then c1 else _) in *. assert (K2 : kept c1 c2) by (subst c2; destruct f; by apply kept_same).
  etrans; [exact K2|]. clearbody c2. clear K2. case_match; [|by inv_ok]. unfold buffer_rest in E. inv_ok.
  set (c3 := if (_ && _ && _) then _ else c2) in *. assert (K3 : kept c2 c3) by (subst c3; case_match; [by apply kept_queue | done]).
  etrans; [exact K3|]. clearbody c3. case_match; [|by apply kept_same]. etrans; [|apply kept_chan]. by apply kept_same.
Qed.
Lemma kept_exec_api inLoop a c c' : exec_api inLoop a c = Ok c' -> kept c c'.
Proof.
  destruct a; cbn [exec_api]; intros E.
  - unfold Send, SendInLoop in E. case_decide; [|by inv_ok]. destruct inLoop; [by apply kept_DoSend in E | inv_ok; by apply kept_queue].
  - unfold SendInput in E. case_decide; [|by inv_ok]. inv_ok. destruct inLoop; inv_ok.
    + match goal with E : DoSendInLoop _ _ _ = Ok _ |- _ => apply kept_DoSend in E; etrans; [exact E | by apply kept_same] end.
    + etrans; [|by apply kept_queue]. by apply kept_same.
  - injection E as <-. unfold Shutdown, ShutdownInLoop. case_decide as Hs; [|done].
    assert (kept c (SetState kDisconnecting c)) by (split_and!; [done | done | by split; [|right]]).
    destruct inLoop; [case_match|]; (etrans; [eassumption|]); [by apply kept_same | done | by apply kept_queue].
  - injection E as <-. unfold ForceClose. case_decide as Hs; [|done]. etrans; [|by apply kept_queue].
    split_and!; [done | done | split; [done|]]. destruct Hs as [Hs|Hs]; [by right | by left].
  - injection E as <-. unfold StartRead, StartReadInLoop. destruct inLoop; [|by apply kept_queue].
    case_match; [|done]. etrans; [apply kept_chan | by apply kept_same].
  - injection E as <-. unfold StopRead, StopReadInLoop. destruct inLoop; [|by apply kept_queue].
    case_match; [|done]. etrans; [apply kept_chan | by apply kept_same].
  - inv_ok. by apply kept_same.
  - injection E as <-. by apply kept_same.
  - injection E as <-. by apply kept_same.
Qed.
Lemma kept_apis l c c' : ofold (exec_api true) l c = Ok c' -> kept c c'.
Proof.
  revert c. induction l as [|x l IH]; intros c E; cbn [ofold] in E; [by inv_ok|]. inv_ok.
  etrans; [by eapply kept_exec_api | by apply IH].
Qed.

(** Event handlers may also close the connection, once. *)
Definition evolves (c c' : conn) : Prop :=
  (TcpConnection.FConnectDestroyed ∉ queue c -> TcpConnection.FConnectDestroyed ∉ queue c') /\
  (index_ (channel_ c) <> kNew -> index_ (channel_ c') <> kNew) /\
  ((close_cbs (trace c') = close_cbs (trace c) /\
    (state_ c' = state_ c \/ (state_ c = kConnected /\ state_ c' = kDisconnecting))) \/
   (open c /\ state_ c' = kDisconnected /\ close_cbs (trace c') = close_cbs (trace c) ++ [CloseCb])).
#[local] Instance evolves_preorder : PreOrder evolves.
Proof.
  split; [intros c; split_and!; auto|].
  intros x y z (Q1 & I1 & L1) (Q2 & I2 & L2). split_and!; auto. unfold open in *.
  destruct L1 as [[T1 S1]|(O1 & S1 & T1)], L2 as [[T2 S2]|(O2 & S2 & T2)]; rewrite ?T1, ?S1 in *.
  - left. split; [congruence|]. destruct S1 as [S1|[S1 S1']], S2 as [S2|[S2 S2']]; rewrite ?S1, ?S2 in *; auto; congruence.
  - right. split_and!; [|done | congruence]. destruct S1 as [S1|[S1 S1']]; [by rewrite S1 in O2 | auto].
  - right. split_and!; [done | | congruence]. destruct S2 as [S2|[S2 S2']]; congruence.
  - destruct O2; congruence.
Qed.
Lemma kept_evolves c c' : kept c c' -> evolves c c'.
Proof. intros (Q & I & T & L). split_and!; auto. left. rewrite T. auto. Qed.

Section User.
Context (u : callback -> conn -> list api).
(** A callback made with the trace of [c] extended by it. *)
Lemma kept_call cb c c' : call u cb c = Ok c' -> kept (set_trace (trace c ++ [cb]) c) c'.
Proof. unfold call. apply kept_apis. Qed.
Lemma evolves_call cb c c' : is_close_cb cb = false -> call u cb c = Ok c' -> evolves c c'.
Proof.
  intros Hcb (Q & I & T & L)%kept_call. split_and!; [done | done|]. left. rewrite T. cbn. rewrite close_cbs_snoc, Hcb, app_nil_r. auto.
Qed.
Lemma evolves_HandleClose c c' : HandleClose u c = Ok c' -> evolves c c'.
Proof.
  unfold HandleClose. intros E. inv_ok. match goal with E : bool_decide _ = true |- _ => apply bool_decide_eq_true in E; rename E into Ho end.
  match goal with E : call _ _ _ = Ok _ |- _ => apply kept_call in E as (Q & I & T & L) end. cbn in T, L.
  split_and!; [exact Q | intros _; apply I, next_index_known|]. right. split_and!; [done | |].
  - cbn. destruct L as [L|[? _]]; [done | done].
  - cbn. by rewrite T, !close_cbs_snoc, app_nil_r.
Qed.
Lemma evolves_HandleWrite w c c' : HandleWrite w c = Ok c' -> evolves c c'.
Proof.
  intros E. apply kept_evolves. unfold HandleWrite in E. destruct (isWriting c); [|by inv_ok]. inv_ok. destruct (w a) as [n e].
  case_match; [|by inv_ok]. inv_ok. case_match; [|inv_ok; by apply kept_same].
  set (c1 := set_output a0 _) in *. assert (K1 : kept c c1) by by apply kept_same.
  inv_ok. etrans; [exact K1|]. clearbody c1. clear K1.
  set (c2 := disableWriting c1). assert (K2 : kept c1 c2) by apply kept_chan. etrans; [exact K2|]. clearbody c2. clear K2.
  set (c3 := if writeCompleteCallback_ _ then _ else c2).
  assert (K3 : kept c2 c3) by (subst c3; case_match; [by apply kept_queue | done]). etrans; [exact K3|]. clearbody c3.
  case_decide; [|done]. unfold ShutdownInLoop. case_match; [by apply kept_same | done].
Qed.
Lemma evolves_handle w readv k c c' : handle u w readv k c = Ok c' -> evolves c c'.
Proof.
  destruct k; cbn [handle].
  - apply evolves_HandleClose.
  - by intros [= <-].
  - unfold HandleRead. intros E. inv_ok. match type of E with context [set_input ?i c] => assert (K : evolves c (set_input i c)) by (by apply kept_evolves, kept_same) end.
    etrans; [exact K|]. repeat case_match; [by apply evolves_call in E | by apply evolves_HandleClose | by inv_ok].
  - apply evolves_HandleWrite.
Qed.
Lemma evolves_handles w readv l c c' : ofold (handle u w readv) l c = Ok c' -> evolves c c'.
Proof.
  revert c. induction l as [|x l IH]; intros c E; cbn [ofold] in E; [by inv_ok|]. inv_ok.
  etrans; [by eapply evolves_handle | by apply IH].
Qed.
Lemma evolves_run_functor w f c c' : f <> TcpConnection.FConnectDestroyed ->
  TcpConnection.run_functor u w f c = Ok c' -> evolves c c'.
Proof.
  intros Hf. destruct f; cbn [TcpConnection.run_functor]; intros E; try done.
  - by apply evolves_call in E.
  - by apply evolves_call in E.
  - unfold ForceCloseInLoop in E. case_decide; [by apply evolves_HandleClose in E | by inv_ok].
  - by apply kept_evolves, kept_DoSend in E || apply kept_evolves; by apply kept_DoSend in E.
  - injection E as <-. apply kept_evolves. unfold ShutdownInLoop. case_match; [by apply kept_same | done].
  - injection E as <-. apply kept_evolves. by apply (kept_exec_api true AStartRead).
  - injection E as <-. apply kept_evolves. by apply (kept_exec_api true AStopRead).
Qed.
(** A step of a connection that is neither its establishment nor its destruction. *)
Definition ordinary (x : TcpConnection.event) : Prop := match x with Established | Destroy => False | _ => True end.
Lemma evolves_event x c c' : ordinary x -> TcpConnection.FConnectDestroyed ∉ queue c ->
  TcpConnection.exec_event u x c = Ok c' -> evolves c c'.
Proof.
  destruct x; intros Hx Hq E; try done; cbn [TcpConnection.exec_event] in E.
  - by apply evolves_handles in E.
  - destruct (queue c) as [|f q] eqn:Eq; [by inv_ok|]. apply not_elem_of_cons in Hq as [Hf Hq].
    apply evolves_run_functor in E as (Q & I & L); [|done]. split_and!; [|done | done]. intros _. by apply Q.
  - apply kept_evolves. by eapply kept_exec_api.
Qed.

(** ** The invariant of a connection in the server *)
Context `{!StreamBufferLaws B}.
Record obj_ok (c : conn) : Prop := {
  o_good : good true c;
  o_queue : TcpConnection.FConnectDestroyed ∉ queue c;
  o_fresh : state_ c = kConnecting -> queue c = [];
  o_closed : state_ c = kDisconnected -> close_cbs (trace c) = [CloseCb];
}.
Lemma obj_new sockfd wcb hcb : obj_ok (new_TcpConnection sockfd wcb hcb).
Proof. split; try done; [apply good_new | apply not_elem_of_nil]. Qed.

(** What the kernel and the users owe. *)
Definition event_pre (x : TcpConnection.event) (c : conn) : Prop :=
  match x with
  | IO r w readv => write_range w /\ readv_ok readv /\ index_ (channel_ c) = kAdded /\ report_ok r
  | RunFunctor w => write_ok w c
  | OtherThread a => api_ok true a c
  | _ => False
  end.
Lemma event_pre_ok x c : obj_ok c -> event_pre x c -> state_ c <> kConnecting \/ (exists a, x = OtherThread a) ->
  event_ok true x c.
Proof.
  intros O Hx Hs. destruct x as [|r w readv|w|a|]; cbn in *; try done.
  - destruct Hx as (? & ? & ? & ?). auto.
  - split_and!; [done | by destruct Hs as [|[? ?]] |]. intros Hh. destruct (queue c) as [|f q] eqn:Eq; [done|].
    injection Hh as ->. destruct (o_queue c O). rewrite Eq. left.
Qed.
Lemma obj_added_open c : obj_ok c -> index_ (channel_ c) = kAdded -> open c.
Proof. intros O. apply added_open, (o_good c O). Qed.
Lemma open_added c : obj_ok c -> open c -> index_ (channel_ c) = kAdded.
Proof. intros O Ho. by apply (open_live c (o_good c O)). Qed.
Lemma exec_api_fresh a c c' : api_ok true a c -> state_ c = kConnecting -> exec_api false a c = Ok c' -> queue c' = queue c.
Proof.
  intros Ha E. destruct a; cbn in *; try done; unfold Send, SendInput, Shutdown, ForceClose; rewrite ?E;
    repeat (rewrite decide_False by (intros [=] || intros [[=]|[=]])); try (by intros [= <-]).
  intros Hx. inv_ok. by cbn.
Qed.

Hypothesis Hu : user_ok true u.
Lemma quiet_call cb c c' : good true c -> is_conn_cb cb = false -> is_close_cb cb = false -> state_ c = kDisconnected ->
  call u cb c = Ok c' -> channel_ c' = channel_ c.
Proof.
  intros G E1 E2 Hs E. pose proof (good_plain true cb c G E1 E2) as G'.
  by apply (exec_apis_closed _ _ _ (Hu cb _ G')) in E as [? _].
Qed.
(** A closed connection leaves its channel alone. *)
Lemma quiet_event x c c' : obj_ok c -> event_pre x c -> state_ c = kDisconnected ->
  TcpConnection.exec_event u x c = Ok c' -> channel_ c' = channel_ c.
Proof.
  intros O Hx Hs E. destruct x as [|r w readv|w|a|]; try done; cbn [TcpConnection.exec_event] in E.
  - destruct Hx as (_ & _ & Hi & _). destruct (obj_added_open c O Hi); congruence.
  - destruct (queue c) as [|f q] eqn:Eq; [by inv_ok|].
    pose proof (g_queue _ _ (o_good c O)) as Hq. rewrite Eq in Hq. apply Forall_cons in Hq as [Hf Hq].
    assert (G : good true (set_queue q c)) by (destruct (o_good c O); by split).
    destruct f; cbn [TcpConnection.run_functor] in E; try done.
    + by apply quiet_call in E.
    + by apply quiet_call in E.
    + unfold ForceCloseInLoop in E. rewrite decide_False in E by (cbn; rewrite Hs; intros [|]; done). by inv_ok.
    + unfold SendInLoop, DoSendInLoop in E. rewrite decide_True in E by done. by inv_ok.
    + injection E as <-. unfold ShutdownInLoop. by case_match.
    + destruct (o_queue c O). rewrite Eq. left.
  - by apply exec_api_closed in E as [? _].
Qed.

(** One step of the object as the server sees it: the phase moves from [from] to [to],
    and the close callbacks made are [cbs]. *)
Definition phase_step (from to : phase) (cbs : list callback) (c c' : conn) : Prop :=
  phase_of c = from /\ phase_of c' = to /\ close_cbs (trace c') = close_cbs (trace c) ++ cbs.
Lemma phase_open c : open c -> phase_of c = Up.
Proof. intros [E|E]; unfold phase_of; by rewrite E. Qed.
Lemma phase_down c : state_ c = kDisconnected -> index_ (channel_ c) <> kNew -> phase_of c = Down.
Proof. intros E Hi. unfold phase_of. rewrite E. by destruct (Z.eqb_spec (index_ (channel_ c)) kNew). Qed.

Lemma obj_evolves x c c' : obj_ok c -> ordinary x -> event_pre x c ->
  state_ c <> kConnecting \/ (exists a, x = OtherThread a) -> good true c' ->
  TcpConnection.exec_event u x c = Ok c' ->
  obj_ok c' /\ (phase_step (phase_of c) (phase_of c) [] c c' \/ phase_step Up Down [CloseCb] c c').
Proof.
  intros O Ho Hx Hs G' E. destruct (evolves_event x c c' Ho (o_queue c O) E) as (Q & I & L). split.
  - split; [done | by apply Q, O | |].
    + intros Hc. assert (Hc0 : state_ c = kConnecting) by (destruct L as [[_ [?|[? ?]]]|(_ & ? & _)]; congruence).
      destruct Hs as [?|[a ->]]; [done|]. by rewrite (exec_api_fresh a c c' Hx Hc0 E), (o_fresh c O Hc0).
    + intros Hd. destruct L as [[-> [Es|[? ?]]]|(Hop & _ & ->)]; [apply (o_closed c O); congruence | congruence |].
      assert (Hn : close_cbs (trace c) = []) by (apply (g_closed _ _ (o_good c O)); destruct Hop; congruence). by rewrite Hn.
  - destruct L as [[T L]|(Hop & Hd & T)].
    + left. split_and!; [done | | by rewrite app_nil_r]. destruct (decide (state_ c = kDisconnected)) as [Hd|Hd].
      * unfold phase_of. rewrite (quiet_event x c c' O Hx Hd E). destruct L as [->|[? _]]; [done | congruence].
      * destruct L as [Es|[Es Es']]; unfold phase_of; rewrite Es; [destruct (state_ c); done | by rewrite Es'].
    + right. split_and!; [by apply phase_open | | done]. apply phase_down; [done|]. apply I. by rewrite (open_added c O Hop).
Qed.
Lemma obj_event x c : obj_ok c -> ordinary x -> event_pre x c ->
  holds true (fun c' => obj_ok c' /\ (phase_step (phase_of c) (phase_of c) [] c c' \/ phase_step Up Down [CloseCb] c c'))
    (TcpConnection.exec_event u x c).
Proof.
  intros O Ho Hx.
  assert (Hdec : (state_ c <> kConnecting \/ exists a, x = OtherThread a) \/ state_ c = kConnecting /\ exists w, x = RunFunctor w).
  { destruct x as [|r w readv|w|a|]; try done; [| |by left; right; exists a].
    - left; left. destruct Hx as (_ & _ & Hi & _). destruct (obj_added_open c O Hi); congruence.
    - destruct (decide (state_ c = kConnecting)); [right; eauto | by left; left]. }
  destruct Hdec as [Hs|[Hs [w ->]]].
  - pose proof (exec_event_Ok true u Hu x c (o_good c O) (event_pre_ok x c O Hx Hs)) as Hg.
    destruct (TcpConnection.exec_event u x c) as [c'|[]] eqn:E; cbn in Hg |- *; try done. by apply (obj_evolves x); try apply Hg.
  - cbn [TcpConnection.exec_event]. rewrite (o_fresh c O Hs). split; [done|]. left. split_and!; [done | done | by rewrite app_nil_r].
Qed.
Lemma obj_established c : obj_ok c -> state_ c = kConnecting ->
  holds true (fun c' => obj_ok c' /\ phase_step Fresh Up [] c c') (TcpConnection.ConnectEstablished u c).
Proof.
  intros O Hs. pose proof (ConnectEstablished_Ok true u Hu c (o_good c O) Hs) as Hg.
  destruct (TcpConnection.ConnectEstablished u c) as [c'|[]] eqn:E; cbn in Hg |- *; try done. destruct Hg as [G' _].
  unfold TcpConnection.ConnectEstablished in E. inv_ok. apply kept_call in E as (Q & _ & T & L). cbn in Q, T, L.
  assert (Hop : open c') by (unfold open; destruct L as [->|[_ ->]]; auto). split.
  - split; [done | by apply Q, O | |]; intros Hx; destruct Hop; congruence.
  - split_and!; [by unfold phase_of; rewrite Hs | by apply phase_open | by rewrite T, close_cbs_snoc].
Qed.
Lemma obj_destroyed c : obj_ok c -> phase_of c = Down ->
  holds true (fun c' => obj_ok c' /\ phase_step Down Gone [] c c') (TcpConnection.ConnectDestroyed u c).
Proof.
  intros O Hp. assert (Hd : state_ c = kDisconnected /\ index_ (channel_ c) <> kNew).
  { unfold phase_of in Hp. destruct (state_ c); try done. by destruct (Z.eqb_spec (index_ (channel_ c)) kNew). }
  destruct Hd as [Hs Hi].
  pose proof (ConnectDestroyed_Ok true u Hu c (o_good c O) (or_intror (conj Hs Hi))) as Hg.
  unfold TcpConnection.ConnectDestroyed in *. rewrite decide_False in Hg |- * by congruence. cbn [mbind outcome_bind] in *.
  destruct (remove c) as [c'|[]] eqn:E; cbn in Hg |- *; try done. unfold remove in E. inv_ok. split.
  - split; [apply Hg | apply O | by cbn; rewrite Hs | intros _; by apply (o_closed c O)].
  - split_and!; [done | by unfold phase_of; cbn; rewrite Hs | by rewrite app_nil_r].
Qed.
End User.

(** ** [view] and the operations of the server *)
Lemma view_at sys i c : length (objs sys) = length (conns (srv sys)) -> objs sys !! i = Some c ->
  exists k, conns (srv sys) !! i = Some k /\ conns (view sys) !! i = Some (seen k c).
Proof.
  intros Hl Hc. destruct (lookup_lt_is_Some_2 (conns (srv sys)) i) as [k Hk]; [rewrite <- Hl; by eapply lookup_lt_Some|].
  exists k. split; [done|]. cbn. by rewrite lookup_zip_with, Hk, Hc.
Qed.
Lemma view_put s os i k c c' : conns s !! i = Some k -> os !! i = Some c ->
  view (mkSystem s (<[i := c']> os)) = move i (phase_of c') (seen k c) (view (mkSystem s os)).
Proof.
  intros Hk Hc. unfold view, move. cbn [srv objs conns set_conns].
  change (set_phase (phase_of c') (seen k c)) with (seen k c'). rewrite insert_zip_with, (list_insert_id (conns s)) by done. done.
Qed.
Lemma view_put_same s os i k c c' : conns s !! i = Some k -> os !! i = Some c -> phase_of c' = phase_of c ->
  view (mkSystem s (<[i := c']> os)) = view (mkSystem s os).
Proof.
  intros Hk Hc Hp. rewrite (view_put s os i k c c' Hk Hc), Hp. unfold move. rewrite list_insert_id; [done|].
  cbn. by rewrite lookup_zip_with, Hk, Hc.
Qed.
Lemma view_RemoveInLoop s os i k c : conns s !! i = Some k -> os !! i = Some c ->
  RemoveConnectionInLoop i (view (mkSystem s os)) = (fun s' => view (mkSystem s' os)) <$> RemoveConnectionInLoop i s.
Proof.
  intros Hk Hc. unfold RemoveConnectionInLoop, conn_at. cbn [view srv objs conns set_conns].
  rewrite lookup_zip_with, Hk, Hc. cbn [mbind option_bind outcome_bind]. cbn. by destruct (connections_ s !! cname k).
Qed.
Lemma view_Remove t s os i k c : conns s !! i = Some k -> os !! i = Some c ->
  RemoveConnection t i (view (mkSystem s os)) = (fun s' => view (mkSystem s' os)) <$> RemoveConnection t i s.
Proof.
  intros Hk Hc. unfold RemoveConnection. change (loop_ (view (mkSystem s os))) with (loop_ s).
  case_match; [by eapply view_RemoveInLoop | done].
Qed.
Lemma RemoveInLoop_conns i s s' : RemoveConnectionInLoop i s = Ok s' -> conns s' = conns s.
Proof. unfold RemoveConnectionInLoop. intros E. inv_ok. done. Qed.
Lemma Remove_conns t i s s' : RemoveConnection t i s = Ok s' -> conns s' = conns s.
Proof. unfold RemoveConnection. case_match; [apply RemoveInLoop_conns | by intros [= <-]]. Qed.
Lemma view_register sys sockfd wcb hcb : length (objs sys) = length (conns (srv sys)) ->
  register_conn (view sys) =
    (fun '(io, s) => (io, view (mkSystem s (objs sys ++ [new_TcpConnection sockfd wcb hcb])))) <$> register_conn (srv sys).
Proof.
  intros Hl. unfold register_conn. change (pool (view sys)) with (pool (srv sys)).
  destruct (GetNextLoop (pool (srv sys))) as [[io p]|f]; [|done]. cbn [mbind outcome_bind].
  change (connName (name (set_pool p (view sys))) (ipPort (set_pool p (view sys))) (nextConnId_ (set_pool p (view sys))))
    with (connName (name (set_pool p (srv sys))) (ipPort (set_pool p (srv sys))) (nextConnId_ (set_pool p (srv sys)))).
  destruct (connName _ _ _) as [nm|f]; [|done]. cbn [mbind outcome_bind].
  change (nextConnId_ (set_pool p (view sys))) with (nextConnId_ (set_pool p (srv sys))).
  destruct (sint_checked 32 _) as [next|f]; [|done]. cbn [mbind outcome_bind fmap outcome_fmap]. do 2 f_equal.
  unfold view. cbn. rewrite zip_with_app by done. rewrite length_zip_with_l_eq by done. done.
Qed.

(** ** The full server takes the steps of the abstract one *)
Context `{!StreamBufferLaws B}.
Record objs_ok (sys : system) : Prop := {
  so_len : length (objs sys) = length (conns (srv sys));
  so_objs : forall i c, objs sys !! i = Some c -> obj_ok c;
}.
Record sys_ok (sys : system) : Prop := { so_objs_ok :> objs_ok sys; so_inv : TcpServer.inv (view sys) }.
(** [m] is a step of the server from [view sys], or none. *)
Definition simulates (sys : system) (m : outcome system) : Prop :=
  holds true (fun sys' => sys_ok sys' /\
    exists evs, ofold TcpServer.exec_event evs (view sys) = Ok (view sys') /\ (length evs <= 1)%nat) m.

Lemma sys_put s os i k c c' : objs_ok (mkSystem s os) -> conns s !! i = Some k -> os !! i = Some c -> obj_ok c' ->
  forall s', conns s' = conns s -> TcpServer.inv (view (mkSystem s' (<[i := c']> os))) -> sys_ok (mkSystem s' (<[i := c']> os)).
Proof.
  intros [Hl Ho] Hk Hc Hc' s' Hs Hi. split; [|done]. split; cbn in *; [by rewrite length_insert, Hs|].
  intros j cj [(<- & <- & _)|[_ Hj]]%list_lookup_insert_Some; [done | by eapply Ho].
Qed.
(** The code of a connection that makes no close callback. *)
Lemma conn_runs_stay i f sys k c c' : conns (srv sys) !! i = Some k -> objs sys !! i = Some c -> f c = Ok c' ->
  close_cbs (trace c') = close_cbs (trace c) -> conn_runs i f sys = Ok (mkSystem (srv sys) (<[i := c']> (objs sys))).
Proof.
  intros Hk Hc E T. unfold conn_runs, conn_at. rewrite Hc, E. cbn [mbind outcome_bind]. rewrite Hk, T, drop_all. done.
Qed.
(** ... and one that makes it. *)
Lemma conn_runs_close i f sys k c c' : conns (srv sys) !! i = Some k -> objs sys !! i = Some c -> f c = Ok c' ->
  close_cbs (trace c') = close_cbs (trace c) ++ [CloseCb] ->
  conn_runs i f sys = (fun s => mkSystem s (<[i := c']> (objs sys))) <$> RemoveConnection (cloop k) i (srv sys).
Proof.
  intros Hk Hc E T. unfold conn_runs, conn_at. rewrite Hc, E. cbn [mbind outcome_bind]. rewrite Hk, T.
  rewrite drop_app_length. cbn [mbind outcome_bind ofold]. by destruct (RemoveConnection (cloop k) i (srv sys)).
Qed.

Hypothesis Hu : forall i, user_ok true (user i).

Lemma sim_event sys i x c : sys_ok sys -> objs sys !! i = Some c -> ordinary x -> event_pre x c ->
  simulates sys (conn_runs i (TcpConnection.exec_event (user i) x) sys).
Proof.
  intros Hok Hc Ho Hx. destruct sys as [s os]. destruct (view_at _ i c (so_len _ Hok) Hc) as (k & Hk & Hv). cbn [srv objs] in *.
  pose proof (obj_event (user i) (Hu i) x c (so_objs _ Hok i c Hc) Ho Hx) as Hstep.
  destruct (TcpConnection.exec_event (user i) x c) as [c'|[]] eqn:E; cbn in Hstep; try done;
    try (unfold conn_runs; cbn [objs]; rewrite Hc, E; done).
  destruct Hstep as [O' [(_ & Hp & T)|(Hp & Hp' & T)]].
  - rewrite app_nil_r in T. rewrite (conn_runs_stay i _ (mkSystem s os) k c c' Hk Hc E T).
    pose proof (view_put_same s os i k c c' Hk Hc Hp) as Hview. split; [|exists []; cbn; rewrite Hview; split; [done | lia]].
    eapply sys_put; try apply Hok; try done. cbn [srv objs]. rewrite Hview. apply (so_inv _ Hok).
  - rewrite (conn_runs_close i _ (mkSystem s os) k c c' Hk Hc E T). cbn [srv objs].
    destruct (Close_Ok (view (mkSystem s os)) i (so_inv _ Hok)) as (s' & Es & Hi & _).
    pose proof Es as Es'. cbn [TcpServer.exec_event] in Es'. rewrite Hv in Es'. cbn [cphase seen set_phase] in Es'.
    rewrite decide_True in Es' by done. change (cloop (seen k c)) with (cloop k) in Es'. rewrite <- Hp', <- view_put in Es' by done.
    rewrite (view_Remove _ s _ i k c') in Es' by (done || (rewrite list_lookup_insert_eq; [done | by eapply lookup_lt_Some])).
    destruct (RemoveConnection (cloop k) i s) as [s1|] eqn:Er; [|done]. injection Es' as <-.
    split; [eapply sys_put; try apply Hok; try done; by eapply Remove_conns|].
    exists [EvClose i]. cbn [ofold]. rewrite Es. split; [done | cbn; lia].
Qed.

(** Code that moves the phase of one connection without a close callback. *)
Lemma sim_move s os i f from to c : objs_ok (mkSystem s os) -> os !! i = Some c ->
  holds true (fun c' => obj_ok c' /\ phase_step from to [] c c') (f c) ->
  forall s0, conns s0 = conns s -> (forall k, conns s !! i = Some k -> TcpServer.inv (move i to (seen k c) (view (mkSystem s0 os)))) ->
  holds true (fun sys' => sys_ok sys' /\ exists k, conns s !! i = Some k /\ view sys' = move i to (seen k c) (view (mkSystem s0 os)))
    (conn_runs i f (mkSystem s0 os)).
Proof.
  intros Hok Hc Hf s0 Hs Hi. destruct (view_at _ i c (so_len _ Hok) Hc) as (k & Hk & _). cbn [srv objs] in *.
  destruct (f c) as [c'|[]] eqn:E; cbn in Hf; try done; try (unfold conn_runs; cbn [objs]; rewrite Hc, E; done).
  destruct Hf as [O' (_ & Hp & T)]. rewrite app_nil_r in T. rewrite <- Hs in Hk.
  rewrite (conn_runs_stay i _ (mkSystem s0 os) k c c' Hk Hc E T). cbn [srv objs].
  pose proof (view_put s0 os i k c c' Hk Hc) as Hv. rewrite Hp in Hv. rewrite Hs in Hk.
  split; [|by exists k]. eapply sys_put; try apply Hok; try done. rewrite Hv. by apply Hi.
Qed.
(** The functor a loop runs next and the phase of its connection. *)
Definition waits (f : TcpServer.functor) : phase :=
  match f with TcpServer.FConnectEstablished _ => Fresh | _ => Down end.
Lemma head_phase s L f l : TcpServer.inv s -> take_first L (pending s) = Some (f, l) ->
  exists k, conns s !! fid f = Some k /\ cphase k = waits f.
Proof.
  intros Hi (_ & Hin & Hone & _)%take_first_mine.
  assert (Hlt : (fid f < length (conns s))%nat) by (apply (inv_pending _ Hi (L, f)); by apply list_elem_of_filter in Hin as [_ ?]).
  destruct (functor_lt s (fid f) Hi Hlt) as [c Hc]. exists c. split; [done|].
  pose proof (inv_status _ Hi _ _ Hc) as Hst. unfold status_ok in Hst. destruct (cphase c).
  - destruct Hst as [Hm _]. apply Hone in Hm as [E _]. by injection E as <- <-.
  - destruct Hst as [Hm _]. rewrite Hm in Hin. by apply elem_of_nil in Hin.
  - destruct Hst as [[Hm _]|[Hm _]]; apply Hone in Hm as [E _]; by injection E as <- <-.
  - destruct Hst as [Hm _]. rewrite Hm in Hin. by apply elem_of_nil in Hin.
Qed.
Lemma view_objs sys i k : length (objs sys) = length (conns (srv sys)) -> conns (view sys) !! i = Some k ->
  exists k0 c, conns (srv sys) !! i = Some k0 /\ objs sys !! i = Some c /\ k = seen k0 c.
Proof.
  intros Hl. cbn. rewrite lookup_zip_with. intros Hk. destruct (conns (srv sys) !! i) as [k0|]; [|done]. cbn in Hk.
  destruct (objs sys !! i) as [c|]; [|done]. cbn in Hk. injection Hk as <-. by exists k0, c.
Qed.
Lemma phase_fresh c : phase_of c = Fresh -> state_ c = kConnecting.
Proof. unfold phase_of. destruct (state_ c); try done. by case_match. Qed.

Lemma sim_run sys L : sys_ok sys -> simulates sys (exec_action (SRun L) sys).
Proof.
  intros Hok. destruct sys as [s os]. cbn [exec_action srv objs].
  destruct (Run_Ok (view (mkSystem s os)) L (so_inv _ Hok)) as (s' & Es & Hi & _).
  pose proof Es as Er. cbn [TcpServer.exec_event] in Er. change (pending (view (mkSystem s os))) with (pending s) in Er.
  destruct (take_first L (pending s)) as [[f l]|] eqn:Et; [|split; [done|]; by exists []; split; [|cbn; lia]].
  destruct (head_phase (view (mkSystem s os)) L f l (so_inv _ Hok) Et) as (k & Hk & Hp).
  destruct (view_objs _ _ _ (so_len _ Hok) Hk) as (k0 & c & Hk0 & Hc & ->). cbn [srv objs] in Hk0, Hc.
  change (cphase (seen k0 c)) with (phase_of c) in Hp. set (s0 := set_pending l s) in *.
  change (set_pending l (view (mkSystem s os))) with (view (mkSystem s0 os)) in Er.
  change (conns (view (mkSystem s os)) !! fid f = Some (seen k0 c)) with (conns (view (mkSystem s0 os)) !! fid f = Some (seen k0 c)) in Hk.
  assert (Hdone : forall sys', view sys' = s' -> exists evs, ofold TcpServer.exec_event evs (view (mkSystem s os)) = Ok (view sys') /\ (length evs <= 1)%nat).
  { intros sys' ->. exists [EvRun L]. cbn [ofold]. rewrite Es. split; [done | cbn; lia]. }
  destruct f as [i|i|i]; cbn [fid TcpServer.run_functor full_run_functor waits] in *.
  - unfold TcpServer.ConnectEstablished, conn_at in Er. rewrite Hk in Er. cbn [mbind outcome_bind] in Er.
    change (cphase (seen k0 c)) with (phase_of c) in Er. rewrite Hp in Er. cbn in Er. injection Er as Er.
    eapply holds_mono; [apply (sim_move s os i _ Fresh Up c Hok Hc)|].
    + apply obj_established; [apply Hu | by apply (so_objs _ Hok i) | by apply phase_fresh].
    + done.
    + intros k Hk'. rewrite Hk0 in Hk'. injection Hk' as <-. cbn. rewrite Er. done.
    + intros sys' [Hok' (k & Hk' & Hv)]. rewrite Hk0 in Hk'. injection Hk' as <-. split; [done|]. apply Hdone. by rewrite Hv, <- Er.
  - unfold TcpServer.ConnectDestroyed, conn_at in Er. rewrite Hk in Er. cbn [mbind outcome_bind] in Er.
    change (cphase (seen k0 c)) with (phase_of c) in Er. rewrite Hp in Er. rewrite bool_decide_true in Er by (by right).
    cbn in Er. injection Er as Er.
    eapply holds_mono; [apply (sim_move s os i _ Down Gone c Hok Hc)|].
    + apply obj_destroyed; [apply Hu | by apply (so_objs _ Hok i) | done].
    + done.
    + intros k Hk'. rewrite Hk0 in Hk'. injection Hk' as <-. cbn. rewrite Er. done.
    + intros sys' [Hok' (k & Hk' & Hv)]. rewrite Hk0 in Hk'. injection Hk' as <-. split; [done|]. apply Hdone. by rewrite Hv, <- Er.
  - rewrite (view_RemoveInLoop s0 os i k0 c Hk0 Hc) in Er. cbn [srv objs].
    destruct (RemoveConnectionInLoop i s0) as [s1|] eqn:E1; [|done]. injection Er as Er. split; [|by apply Hdone].
    split; [split; cbn [srv objs]; [rewrite (RemoveInLoop_conns _ _ _ E1); apply (so_len _ Hok) | apply (so_objs _ Hok)] | by rewrite Er].
Qed.

Lemma register_objs sys io s1 sockfd wcb hcb : objs_ok sys -> register_conn (srv sys) = Ok (io, s1) ->
  objs_ok (mkSystem s1 (objs sys ++ [new_TcpConnection sockfd wcb hcb])) /\
  exists k, conns s1 !! length (conns (srv sys)) = Some k.
Proof.
  intros [Hl Ho] E. unfold register_conn in E. inv_ok. split; [split|]; cbn.
  - rewrite !length_app, Hl. done.
  - intros i c [Hi|[_ Hi]]%lookup_app_Some; [by eapply Ho|]. apply list_elem_of_lookup_2, list_elem_of_singleton in Hi as ->. apply obj_new.
  - eexists. rewrite lookup_app_r, Nat.sub_diag by done. reflexivity.
Qed.
Lemma sim_accept sys sockfd wcb hcb : sys_ok sys -> zlen (conns (srv sys)) + 1 < 2 ^ 31 - 1 ->
  simulates sys (exec_action (SAccept sockfd wcb hcb) sys).
Proof.
  intros Hok Hb. assert (Hlen : length (conns (view sys)) = length (conns (srv sys))).
  { cbn. apply length_zip_with_l_eq. symmetry. apply (so_len _ Hok). }
  destruct (Accept_Ok (view sys) (so_inv _ Hok)) as (s' & Es & Hi & _); [unfold zlen in *; by rewrite Hlen|].
  assert (Hdone : forall sys', view sys' = s' -> exists evs, ofold TcpServer.exec_event evs (view sys) = Ok (view sys') /\ (length evs <= 1)%nat).
  { intros sys' ->. exists [EvAccept]. cbn [ofold]. rewrite Es. split; [done | cbn; lia]. }
  cbn [TcpServer.exec_event] in Es. unfold NewConnection in Es. rewrite Hlen in Es. cbn [exec_action]. unfold full_NewConnection.
  rewrite (view_register sys sockfd wcb hcb (so_len _ Hok)) in Es.
  destruct (register_conn (srv sys)) as [[io s1]|] eqn:Er; [|done]. cbn [mbind outcome_bind fmap outcome_fmap] in Es |- *.
  destruct (register_objs sys io s1 sockfd wcb hcb Hok Er) as [Ho1 [k Hk]].
  set (os := objs sys ++ [new_TcpConnection sockfd wcb hcb]) in *. set (id := length (conns (srv sys))) in *.
  change (loop_ (view (mkSystem s1 os))) with (loop_ s1) in Es.
  destruct (io =? loop_ s1); [|injection Es as Es; split; [split; [split; apply Ho1 | by rewrite <- Es in Hi] | by apply Hdone]].
  assert (Hc : os !! id = Some (new_TcpConnection sockfd wcb hcb)).
  { unfold os, id. rewrite <- (so_len _ Hok), lookup_app_r, Nat.sub_diag by done. done. }
  set (c := new_TcpConnection sockfd wcb hcb) in *.
  assert (Hv : conns (view (mkSystem s1 os)) !! id = Some (seen k c)) by (cbn; by rewrite lookup_zip_with, Hk, Hc).
  unfold TcpServer.ConnectEstablished, conn_at in Es. rewrite Hv in Es. cbn in Es. injection Es as Es.
  eapply holds_mono; [apply (sim_move s1 os id _ Fresh Up c Ho1 Hc)|].
  - apply obj_established; [apply Hu | apply obj_new | done].
  - done.
  - intros k' Hk'. rewrite Hk in Hk'. injection Hk' as <-. by rewrite Es.
  - intros sys' [Hok' (k' & Hk' & Hv')]. rewrite Hk in Hk'. injection Hk' as <-. split; [done|]. apply Hdone. by rewrite Hv'.
Qed.

(** What the environment owes in each step (the poller reports channels it watches, a
    hang-up comes with input; system calls and users keep their contracts). *)
Definition act_ok (x : action) (sys : system) : Prop :=
  match x with
  | SAccept _ _ _ | SRun _ => True
  | SPoll i r w readv => exists c, objs sys !! i = Some c /\ event_pre (IO r w readv) c
  | SQueued i w => exists c, objs sys !! i = Some c /\ event_pre (RunFunctor w) c
  | SUser i a => exists c, objs sys !! i = Some c /\ event_pre (OtherThread a) c
  end.
Lemma sim_action x sys : sys_ok sys -> act_ok x sys -> zlen (conns (srv sys)) + 1 < 2 ^ 31 - 1 ->
  simulates sys (exec_action x sys).
Proof.
  intros Hok Hx Hb. destruct x; cbn [exec_action act_ok] in *.
  - by apply sim_accept.
  - destruct Hx as (c & Hc & Hx). by apply (sim_event sys i _ c).
  - destruct Hx as (c & Hc & Hx). by apply (sim_event sys i _ c).
  - destruct Hx as (c & Hc & Hx). by apply (sim_event sys i _ c).
  - by apply (sim_run sys loop).
Qed.
Fixpoint acts_ok (l : list action) (sys : system) : Prop :=
  match l with
  | [] => True
  | x :: l => act_ok x sys /\ forall sys', exec_action x sys = Ok sys' -> acts_ok l sys'
  end.
Lemma view_zlen sys : objs_ok sys -> zlen (conns (view sys)) = zlen (conns (srv sys)).
Proof. intros [Hl _]. unfold zlen. cbn. by rewrite length_zip_with_l_eq. Qed.
Lemma sim_grows sys sys' evs : sys_ok sys -> sys_ok sys' -> (length evs <= 1)%nat ->
  zlen (conns (srv sys)) + 1 < 2 ^ 31 - 1 -> ofold TcpServer.exec_event evs (view sys) = Ok (view sys') ->
  zlen (conns (srv sys')) <= zlen (conns (srv sys)) + 1.
Proof.
  intros Ho Ho' Hl Hb E. rewrite <- (view_zlen sys Ho) in Hb |- *. rewrite <- (view_zlen sys' Ho'). destruct evs as [|ev [|? ?]]; cbn in Hl; [| |lia].
  - revert E. cbn [ofold]. generalize (view sys) (view sys'). intros v v' [= ->]. lia.
  - cbn [ofold] in E. destruct (server_exec_event_Ok (view sys) ev (so_inv _ Ho) Hb) as (s' & E' & _ & Hg).
    rewrite E' in E. revert Hg E. cbn [mbind outcome_bind ofold]. generalize (view sys'). by intros v' Hg [= ->].
Qed.
Lemma sim_actions l sys : sys_ok sys -> acts_ok l sys -> zlen (conns (srv sys)) + zlen l < 2 ^ 31 - 1 ->
  holds true (fun sys' => sys_ok sys' /\ exists evs, ofold TcpServer.exec_event evs (view sys) = Ok (view sys') /\ (length evs <= length l)%nat)
    (ofold exec_action l sys).
Proof.
  revert sys. induction l as [|x l IH]; intros sys Hok Hl Hb; [split; [done|]; by exists []|].
  rewrite zlen_cons in Hb. pose proof (zlen_nonneg l). destruct Hl as [Hx Hl]. cbn [ofold].
  pose proof (sim_action x sys Hok Hx ltac:(lia)) as Hs. unfold simulates in Hs.
  destruct (exec_action x sys) as [sys1|[]]; cbn in Hs |- *; try done. destruct Hs as [Hok1 (evs1 & E1 & Hn1)].
  pose proof (sim_grows sys sys1 evs1 Hok Hok1 Hn1 ltac:(lia) E1) as Hg.
  eapply holds_mono; [apply IH; [done | by apply Hl | lia]|]. intros sys2 [Hok2 (evs2 & E2 & Hn2)]. split; [done|].
  exists (evs1 ++ evs2). rewrite ofold_app, E1. cbn [mbind outcome_bind]. rewrite length_app. split; [done | cbn; lia].
Qed.

(** The server is started, then [acts] happen. *)
Definition full_serve (new_loop : Z -> Z) (cb : bool) (base : Z) (ip nm : list byte) (n : Z) (acts : list action)
    : outcome system :=
  s ← serve new_loop cb base ip nm n [];
  ofold exec_action acts (mkSystem s []).
Lemma serve_none new_loop cb base ip nm n s : serve new_loop cb base ip nm n [] = Ok s -> conns s = [].
Proof. unfold serve, SetThreadNum, Start. intros E. inv_ok. cbn in *. inv_ok. case_match; inv_ok; done. Qed.
Lemma serve_more new_loop cb base ip nm n evs s : serve new_loop cb base ip nm n [] = Ok s ->
  serve new_loop cb base ip nm n evs = ofold TcpServer.exec_event evs s.
Proof. unfold serve. intros E. inv_ok. rewrite E0. cbn [mbind outcome_bind]. rewrite E1. cbn [mbind outcome_bind ofold] in *. by injection E as ->. Qed.
Lemma full_serve_Ok new_loop cb base ip nm n acts s :
  0 <= n < 2 ^ 31 -> zlen ip <= 51 -> zlen acts < 2 ^ 31 - 1 ->
  serve new_loop cb base ip nm n [] = Ok s -> acts_ok acts (mkSystem s []) ->
  holds true (fun sys => sys_ok sys /\ exists evs, serve new_loop cb base ip nm n evs = Ok (view sys))
    (full_serve new_loop cb base ip nm n acts).
Proof.
  intros Hn Hip Hl Es Ha. destruct (serve_Ok new_loop cb base ip nm n [] Hn Hip) as (s' & _ & E & Hi & _); [vm_compute; reflexivity|].
  rewrite Es in E. injection E as <-. unfold full_serve. rewrite Es. cbn [mbind outcome_bind].
  pose proof (serve_none _ _ _ _ _ _ _ Es) as Hc.
  assert (Hv : view (mkSystem s []) = s) by (unfold view; cbn; rewrite Hc; destruct s; cbn in *; by subst).
  eapply holds_mono; [apply sim_actions; [|done | cbn; rewrite Hc; exact Hl]|].
  - split; [split; cbn; [by rewrite Hc | intros i c; by rewrite lookup_nil] | by rewrite Hv].
  - intros sys [Hok (evs & E & _)]. split; [done|]. exists evs. rewrite Hv in E. by rewrite (serve_more _ _ _ _ _ _ _ s).
Qed.
End ServerConns.

(** C17: a server with its connections does what the server with phases does.  Whatever
    happens on the sockets, in the queues of the loops and in the threads of the users,
    as long as nobody calls StartRead or StopRead ([user_ok true] for the callbacks, [api_ok true] for the other threads: either can abort),
    the messages are shorter than 2^62 bytes, write(2) and readv(2) answer in range, the
    poller reports only registered channels, and a hang-up without input comes
    without other read events ([report_ok]):
    no assertion of the server, of a connection or of a channel fails (a run ends early
    only when a buffer outgrows the address space); each state is, through [view], one
    that the abstract server of TcpServer.v reaches; the bytes of every connection are
    those accepted, in order, its user heard once that it is up, if it was established, and once that it is down, if it
    closed, and it told
    the server exactly once that it closed.  When the loops have nothing left of the
    server to run, a connection is open and registered, or it is closed, out of the
    registry and out of its poller. *)
Theorem full_server_refines {B : Type} `{StreamBuffer B, !StreamBufferLaws B} (user : nat -> callback -> conn B -> list api)
    new_loop cb base ip nm n acts s :
  0 <= n < 2 ^ 31 -> zlen ip <= 51 -> zlen acts < 2 ^ 31 - 1 -> (forall i, user_ok true (user i)) ->
  serve new_loop cb base ip nm n [] = Ok s -> acts_ok user acts (mkSystem s []) ->
  (exists what, full_serve user new_loop cb base ip nm n acts = Fault (Exception what)) \/
  exists sys, full_serve user new_loop cb base ip nm n acts = Ok sys /\
    (exists evs, serve new_loop cb base ip nm n evs = Ok (view sys)) /\
    forall i c, objs sys !! i = Some c ->
      wire c ++ sb_bytes (outputBuffer_ c) = sent c /\ conn_cbs (trace c) = told (state_ c) /\
      close_cbs (trace c) = (if decide (state_ c = kDisconnected) then [CloseCb] else []) /\
      (pending (srv sys) = [] -> exists k, conns (srv sys) !! i = Some k /\
        (open c /\ connections_ (srv sys) !! cname k = Some i \/
         state_ c = kDisconnected /\ index_ (channel_ c) = kNew /\ connections_ (srv sys) !! cname k <> Some i)).
Proof.
  intros Hn Hip Hl Hu Es Ha. pose proof (full_serve_Ok user Hu new_loop cb base ip nm n acts s Hn Hip Hl Es Ha) as Hs.
  destruct (full_serve user new_loop cb base ip nm n acts) as [sys|[]]; cbn in Hs; try done; [right | left; eauto].
  destruct Hs as [Hok Hev]. exists sys. split; [done|]. split; [done|]. intros i c Hc.
  pose proof (so_objs _ Hok i c Hc) as O. split_and!; [apply (g_stream _ _ (o_good c O)) | apply (g_told _ _ (o_good c O)) | |].
  - case_decide as Hd; [by apply o_closed | by apply (g_closed _ _ (o_good c O))].
  - intros Hq. destruct (view_at sys i c (so_len _ Hok) Hc) as (k & Hk & Hv). exists k. split; [done|].
    pose proof (TcpServer.inv_status _ (so_inv _ Hok) _ _ Hv) as Hst. unfold status_ok, registered in Hst.
    change (pending (view sys)) with (pending (srv sys)) in Hst. rewrite Hq in Hst.
    change (mine i []) with (@nil (Z * TcpServer.functor)) in Hst. change (cphase (seen k c)) with (phase_of c) in Hst.
    unfold phase_of in Hst. unfold open. destruct (state_ c) eqn:Hd.
    + destruct (Z.eqb_spec (index_ (channel_ c)) kNew); [right; split_and!; try done; apply Hst | by destruct Hst as [[? _]|[? _]]].
    + by destruct Hst.
    + left. split; [by left | apply Hst].
    + left. split; [by right | apply Hst].
Qed.

(** *** Two I/O threads and two connections of an echo server; the peer of the first
    sends a request, reads the answer and closes *)
Definition ex_acts : list action :=
  [SAccept 5 true true; SAccept 6 true true; SRun 10; SRun 11; SPoll 0 1 (takes 9 false) (delivers (chars "abc"));
   SPoll 0 4 (takes 9 false) (delivers []); SQueued 0 (takes 9 false); SUser 1 (ASend (chars "bye") (takes 9 false));
   SPoll 0 1 (takes 9 false) (delivers []); SQueued 1 (takes 9 false); SRun 1; SRun 10].
Definition ex_users (i : nat) : callback -> conn ConnBuffer.Buffer -> list api := echo.
Definition ex_server : TcpServer :=
  match serve TcpServer.ex_loop false 1 (chars "0.0.0.0:80") (chars "srv") 2 [] with Ok s => s | Fault _ => new_TcpServer 0 [] [] end.
(** The contracts hold in this run: checked by evaluation. *)
Definition next (x : action) (sys : system) : system (B := ConnBuffer.Buffer) :=
  match exec_action ex_users x sys with Ok sys' => sys' | Fault _ => sys end.
Definition obj_test (P : conn ConnBuffer.Buffer -> bool) (i : nat) (sys : system) : bool :=
  match objs sys !! i with Some c => P c | None => false end.
Lemma acts_next x l sys : act_ok x sys -> acts_ok ex_users l (next x sys) -> acts_ok ex_users (x :: l) sys.
Proof. intros Hx Hl. split; [done|]. intros sys' E. unfold next in Hl. by rewrite E in Hl. Qed.
Lemma obj_test_true P i sys : obj_test P i sys = true -> exists c, objs sys !! i = Some c /\ P c = true.
Proof. unfold obj_test. destruct (objs sys !! i) as [c|]; [by exists c | done]. Qed.
Lemma poll_next i r n d sys : 0 <= n -> close_test r = false ->
  obj_test (fun c => index_ (channel_ c) =? kAdded) i sys = true -> act_ok (SPoll i r (takes n false) (delivers d)) sys.
Proof.
  intros Hn Hr (c & Hc & E%Z.eqb_eq)%obj_test_true. exists c. split; [done|].
  split_and!; [by apply takes_range | apply delivers_ok | done |]. intros E'. by rewrite Hr in E'.
Qed.
Lemma queued_next i n sys : 0 <= n -> obj_test (fun c => negb (shutWr c)) i sys = true -> act_ok (SQueued i (takes n false)) sys.
Proof. intros Hn (c & Hc & E%negb_true_iff)%obj_test_true. exists c. split; [done | by apply takes_false_ok]. Qed.
Lemma send_next i m n sys : 0 <= n -> zlen m < 2 ^ 62 -> obj_test (fun c => negb (shutWr c)) i sys = true ->
  act_ok (SUser i (ASend m (takes n false))) sys.
Proof. intros Hn Hm (c & Hc & E%negb_true_iff)%obj_test_true. exists c. split; [done|]. split; [done | by apply takes_false_ok]. Qed.
Lemma ex_acts_ok : acts_ok ex_users ex_acts (mkSystem ex_server []).
Proof.
  unfold ex_acts. repeat (apply acts_next; [first
    [ exact I | apply poll_next; [lia | reflexivity | vm_compute; reflexivity] | apply queued_next; [lia | vm_compute; reflexivity]
    | apply send_next; [lia | vm_compute; reflexivity | vm_compute; reflexivity] ]|]). exact I.
Qed.
Lemma full_server_refines_witness :
  exists sys, full_serve ex_users TcpServer.ex_loop false 1 (chars "0.0.0.0:80") (chars "srv") 2 ex_acts = Ok sys /\
    (exists evs, serve TcpServer.ex_loop false 1 (chars "0.0.0.0:80") (chars "srv") 2 evs = Ok (view sys)) /\
    map phase_of (objs sys) = [Gone; Up] /\ map wire (objs sys) = [chars "helloabc"; chars "hel"] /\
    map sent (objs sys) = [chars "helloabc"; chars "hellobye"].
Proof.
  destruct (full_server_refines ex_users TcpServer.ex_loop false 1 (chars "0.0.0.0:80") (chars "srv") 2 ex_acts ex_server)
    as [[what E]|(sys & E & Hev & _)];
    [lia | vm_compute; discriminate | vm_compute; reflexivity | intros i; exact (echo_ok true) | vm_compute; reflexivity
    | exact ex_acts_ok | vm_compute in E; discriminate E |].
  exists sys. split; [exact E|]. split; [exact Hev|].
  assert (Hx : (fun sys => (map phase_of (objs sys), map wire (objs sys), map sent (objs sys))) <$>
      full_serve ex_users TcpServer.ex_loop false 1 (chars "0.0.0.0:80") (chars "srv") 2 ex_acts =
    Ok ([Gone; Up], [chars "helloabc"; chars "hel"], [chars "helloabc"; chars "hellobye"])) by (vm_compute; reflexivity).
  rewrite E in Hx. injection Hx as H1 H2 H3. split_and!; assumption.
Defined.
