(* ===== verification/ServerPollers.v ===== *)
(** * The server on its pollers (src/src/network/TcpServer.cc over TcpConnection.cc,
    Channel.cc, Epoll.cc and EventLoop.cc)

    ServerConns.v runs the server with its full connections and takes what the pollers
    report as given; ConnPoller.v runs connections on one poller and takes the server as
    given.  Here the two meet: every loop has its poller, a connection's channel lives on
    the poller of its I/O loop, what a loop dispatches is what its poller reported, and
    [ConnectEstablished] and [ConnectDestroyed] run when the server has them run.  The
    loops take turns at any point between two handlers, so that any number of them can be
    in the middle of a round.  The channel of connection [i] has the address [i]; the
    channels of the acceptor, the wakeup descriptors and the timers have negative ones. *)
From S2P Require Import Prelude LoopThreadPool TcpServer.
From S2P Require Import Epoll ByteStream TcpConnection ConnEnd ConnPoller ServerConns.

Section ServerPollers.
Context {B K : Type} `{StreamBuffer B} `{EpollKernel K}.
Abbreviation conn := (conn B) (only parsing).
Context (user : nat -> callback -> conn -> list api).

(** [todo L] is the rest of the active channels of a loop that is in a round; the users
    hold shared pointers to the connections in [held]; those in [released] have been
    destructed. *)
Record world : Type := mkWorld {
  sys : system (B := B);
  pollers : Z -> loop K;
  todo : gmap Z (list Z);
  held : gset nat;
  released : gset nat;
}.
Definition upd (L : Z) (l : loop K) (ps : Z -> loop K) : Z -> loop K := fun x => if x =? L then l else ps x.
Definition with_poller (L : Z) (l : loop K) (w : world) : world := mkWorld (sys w) (upd L l (pollers w)) (todo w) (held w) (released w).
(** The I/O loop of a connection. *)
Definition home (i : nat) (s : system (B := B)) : Z := match conns (srv s) !! i with Some k => cloop k | None => 0 end.

(** The channel calls connection [i] made between two states, on its poller; a connection
    that is new has made its channel first. *)
Definition sync (i : nat) (s s' : system (B := B)) (ps : Z -> loop K) : outcome (Z -> loop K) :=
  match objs s' !! i with
  | None => Ok ps
  | Some c' =>
      let L := home i s' in
      let '(l, old) := match objs s !! i with
        | Some c => (ps L, chanLog c)
        | None => (set_chan (Z.of_nat i) (channel_ (new_TcpConnection (B := B) (fd (channel_ c')) false false)) (ps L), [])
        end in
      l ← ofold (exec_chan (Z.of_nat i)) (drop (length old) (chanLog c')) l;
      Ok (upd L l ps)
  end.
(** The connection an action of the server is about; none has this number if there is none. *)
Definition subject (x : action) (s : system (B := B)) : nat :=
  match x with
  | SAccept _ _ _ => length (objs s)
  | SPoll i _ _ _ | SQueued i _ | SUser i _ => i
  | SRun L => match take_first L (pending (srv s)) with Some (f, _) => fid f | None => length (objs s) end
  end.
(** Whether the action runs code of its connection: a functor that is not there does not. *)
Definition uses (x : action) (s : system (B := B)) : bool :=
  match x with
  | SQueued i _ => match objs s !! i with Some c => negb (bool_decide (queue c = [])) | None => false end
  | _ => true
  end.
Definition world_act (x : action) (w : world) : outcome world :=
  (if uses x (sys w) && bool_decide (subject x (sys w) ∈ released w)
   then Fault (Undefined "dangling TcpConnection pointer") else Ok tt);;
  s ← exec_action user x (sys w);
  ps ← sync (subject x (sys w)) (sys w) s (pollers w);
  Ok (mkWorld s ps (todo w) (held w) (released w)).

(** A loop polls. *)
Definition world_poll (L : Z) (w : world) : outcome world :=
  let l := pollers w L in
  l ← Poll (set_handling (eventHandling_ l) [] (currentActiveChannel_ l) l);
  Ok (mkWorld (sys w) (upd L (set_handling true (activeChannels_ l) (currentActiveChannel_ l) l) (pollers w))
        (<[L := activeChannels_ l]> (todo w)) (held w) (released w)).
(** It handles the next active channel: [handleEvent], with the answers of the kernel for
    a connection.  What the handlers of other channels do are steps of their own. *)
Definition world_handle (L : Z) (wr : write_t) (readv : readv_t) (w : world) : outcome world :=
  match todo w !! L with
  | Some (p :: rest) =>
      let l := pollers w L in
      let l := set_handling (eventHandling_ l) (activeChannels_ l) (Some p) l in
      ch ← deref p l;
      let w := mkWorld (sys w) (upd L l (pollers w)) (<[L := rest]> (todo w)) (held w) (released w) in
      if tied_ ch && (0 <=? p) && bool_decide (Z.to_nat p ∈ released w) then Ok w
      else
        let w := with_poller L (set_chan p (with_handling true ch) l) w in
        w ← (if 0 <=? p then world_act (SPoll (Z.to_nat p) (revents_ ch) wr readv) w else Ok w);
        ch ← deref p (pollers w L);
        Ok (with_poller L (set_chan p (with_handling false ch) (pollers w L)) w)
  | _ => Ok w
  end.
(** The end of the dispatch. *)
Definition world_end (L : Z) (w : world) : world :=
  match todo w !! L with
  | Some [] => let l := pollers w L in
      mkWorld (sys w) (upd L (set_handling false (activeChannels_ l) None l) (pollers w)) (delete L (todo w)) (held w) (released w)
  | _ => w
  end.
(** The last shared pointer to connection [i] goes. *)
Definition world_release (i : nat) (w : world) : outcome world :=
  match objs (sys w) !! i with
  | None => Fault (Undefined "no such connection")
  | Some c =>
      massert (Disconnected c) "state_ == kDisconnected";;
      l ← destroy (Z.of_nat i) (pollers w (home i (sys w)));
      Ok (mkWorld (sys w) (upd (home i (sys w)) l (pollers w)) (todo w) (held w) ({[i]} ∪ released w))
  end.

Inductive world_step : Type :=
  | WAct (x : action)                                  (** all but [SPoll], which a poller makes *)
  | WPoll (L : Z)
  | WHandle (L : Z) (wr : write_t) (readv : readv_t)
  | WEnd (L : Z)
  | WHold (i : nat)                                    (** a user takes a shared pointer *)
  | WDrop (i : nat)
  | WRelease (i : nat)
  | WChannel (L : Z) (x : Epoll.call).                 (** a call on another channel of the loop *)
Definition exec_world (x : world_step) (w : world) : outcome world :=
  match x with
  | WAct x => world_act x w
  | WPoll L => world_poll L w
  | WHandle L wr readv => world_handle L wr readv w
  | WEnd L => Ok (world_end L w)
  | WHold i => Ok (mkWorld (sys w) (pollers w) (todo w) ({[i]} ∪ held w) (released w))
  | WDrop i => Ok (mkWorld (sys w) (pollers w) (todo w) (held w ∖ {[i]}) (released w))
  | WRelease i => world_release i w
  | WChannel L x => l ← exec_call x (pollers w L); Ok (with_poller L l w)
  end.
Definition new_world (s : TcpServer) (k : Z -> K) : world := mkWorld (mkSystem s []) (fun L => new_loop (k L)) ∅ ∅ ∅.

(** ** What the environment owes *)
Definition fresh_in (f : Z) (l : loop K) : Prop := forall p ch, chans l !! p = Some ch -> fd ch <> f.
Context `{!StreamBufferLaws B} `{!EpollLaws K}.
(** Nothing of the server holds connection [i] any more. *)
Definition unreferenced (i : nat) (s : system (B := B)) : Prop :=
  (forall k, conns (srv s) !! i = Some k -> connections_ (srv s) !! cname k <> Some i) /\
  Forall (fun x => fid x.2 <> i) (pending (srv s)).
(** A socket that is accepted has a descriptor that is in no other use in its loop; a
    loop runs functors between its rounds; a user calls a connection through a shared pointer that he holds,
    and copies one that the server, a functor or a user holds.  The last pointer goes when
    the registry, the functors of the server, the users and the dispatch hold none, and no
    functor of the connection is queued (some of these bind the bare pointer). *)
Definition world_step_ok (x : world_step) (w : world) : Prop :=
  match x with
  | WAct (SAccept sockfd wcb hcb) => forall s', exec_action user (SAccept sockfd wcb hcb) (sys w) = Ok s' ->
      fresh_in sockfd (pollers w (home (length (objs (sys w))) s'))
  | WAct (SPoll _ _ _ _) => False
  | WAct (SRun L) => todo w !! L = None
  | WAct (SQueued i wr) => todo w !! home i (sys w) = None /\ ServerConns.act_ok (SQueued i wr) (sys w)
  | WAct (SUser i a) => (i ∈ held w) /\ ServerConns.act_ok (SUser i a) (sys w)
  | WPoll L => todo w !! L = None /\ events_size (pollers w L) < 2 ^ 31
  | WHandle L wr readv => forall p rest ch, todo w !! L = Some (p :: rest) -> 0 <= p -> chans (pollers w L) !! p = Some ch ->
      write_range wr /\ readv_ok readv /\ report_ok (revents_ ch)
  | WEnd L => True
  | WHold i => i ∈ held w \/ ((i < length (objs (sys w)))%nat /\ ~ unreferenced i (sys w))
  | WDrop i => True
  | WRelease i => (i < length (objs (sys w)))%nat /\ (i ∉ released w) /\ unreferenced i (sys w) /\ (i ∉ held w) /\
      (forall c, objs (sys w) !! i = Some c -> queue c = []) /\
      forall ch, chans (pollers w (home i (sys w))) !! Z.of_nat i = Some ch -> ch_eventHandling_ ch = false
  | WChannel L x => target x < 0 /\ call_ok x (pollers w L) /\
      match x with CNew _ f => fresh_in f (pollers w L) | _ => True end
  end.
Fixpoint world_ok (l : list world_step) (w : world) : Prop :=
  match l with
  | [] => True
  | x :: l' => world_step_ok x w /\ forall w', exec_world x w = Ok w' -> world_ok l' w'
  end.

(** ** What an action of the server does to the connections *)
Lemma conn_runs_shape i f (s s' : system (B := B)) : conn_runs i f s = Ok s' ->
  exists c c', objs s !! i = Some c /\ f c = Ok c' /\ objs s' = <[i := c']> (objs s) /\ conns (srv s') = conns (srv s).
Proof.
  unfold conn_runs. intros E. destruct (objs s !! i) as [c|]; [|done]. inv_ok. exists c, a. split_and!; [done | done | done|].
  cbn. match goal with E : ofold _ _ (srv s) = Ok _ |- _ =>
    apply (ofold_inv (fun t => conns t = conns (srv s))) in E; [done | | done] end.
  intros x t t' _ Ht E'. by rewrite (Remove_conns _ _ _ _ E').
Qed.
(** All but [SAccept] change at most one connection, the subject. *)
Definition touches (i : nat) (f : conn -> outcome conn) (s s' : system (B := B)) : Prop :=
  conns (srv s') = conns (srv s) /\
  (objs s' = objs s \/ exists c c', objs s !! i = Some c /\ f c = Ok c' /\ objs s' = <[i := c']> (objs s)).
Lemma conn_runs_touches i f s s' : conn_runs i f s = Ok s' -> touches i f s s'.
Proof. intros (c & c' & ? & ? & ? & ?)%conn_runs_shape. split; [done|]. right. eauto. Qed.

Lemma home_same i (s s' : system (B := B)) : conns (srv s') = conns (srv s) -> home i s' = home i s.
Proof. unfold home. by intros ->. Qed.

(** ** The invariant *)
Definition waiting (w : world) (L q : Z) : Prop :=
  (exists ch, chans (pollers w L) !! q = Some ch /\ index_ ch <> kNew) /\
  (0 <= q -> forall c, objs (sys w) !! Z.to_nat q = Some c -> open c).
Record world_inv (w : world) : Prop := mk_world_inv {
  v_sys : sys_ok (sys w);
  v_poller : forall L, inv (pollers w L) /\ distinct_fds (chans (pollers w L));
  v_copy : forall i c, objs (sys w) !! i = Some c -> (i ∉ released w) ->
    exists ch, chans (pollers w (home i (sys w))) !! Z.of_nat i = Some ch /\ plain ch = channel_ c;
  v_home : forall L p ch, chans (pollers w L) !! p = Some ch -> 0 <= p ->
    (Z.to_nat p < length (objs (sys w)))%nat /\ (Z.to_nat p ∉ released w) /\ home (Z.to_nat p) (sys w) = L;
  v_gone : forall i, i ∈ released w -> exists c, objs (sys w) !! i = Some c /\ phase_of c = Gone /\ queue c = [];
  v_held : forall i, i ∈ held w -> i ∉ released w;
  v_idle : forall L, todo w !! L = None -> eventHandling_ (pollers w L) = false /\ currentActiveChannel_ (pollers w L) = None;
  v_round : forall L ps, todo w !! L = Some ps -> NoDup ps /\ forall q, q ∈ ps -> ~ removable (pollers w L) q /\ waiting w L q;
}.

Lemma upd_eq L l (ps : Z -> loop K) : upd L l ps L = l.
Proof. unfold upd. by rewrite Z.eqb_refl. Qed.
Lemma upd_ne L l (ps : Z -> loop K) x : x <> L -> upd L l ps x = ps x.
Proof. unfold upd. by intros ->%Z.eqb_neq. Qed.

(** A step on the poller of one loop, with a step of the server. *)
Record good_move (w : world) (L : Z) (l' : loop K) (s' : system (B := B)) : Prop := mk_good_move {
  m_sys : sys_ok s';
  m_poller : inv l' /\ distinct_fds (chans l');
  m_frame : frame (pollers w L) l';
  m_length : (length (objs (sys w)) <= length (objs s'))%nat;
  m_home : forall i, (i < length (objs (sys w)))%nat -> home i s' = home i (sys w);
  m_here : forall i c, objs s' !! i = Some c -> (i ∉ released w) -> home i s' = L ->
    exists ch, chans l' !! Z.of_nat i = Some ch /\ plain ch = channel_ c;
  m_there : forall i c, objs s' !! i = Some c -> home i s' <> L -> objs (sys w) !! i = Some c;
  m_chans : forall p ch, chans l' !! p = Some ch -> 0 <= p ->
    (Z.to_nat p < length (objs s'))%nat /\ (Z.to_nat p ∉ released w) /\ home (Z.to_nat p) s' = L;
  m_released : forall i, i ∈ released w -> objs s' !! i = objs (sys w) !! i;
  m_open : forall i c c', objs (sys w) !! i = Some c -> objs s' !! i = Some c' -> open c -> home i (sys w) = L ->
    (exists ps, todo w !! L = Some ps /\ Z.of_nat i ∈ ps) -> open c';
}.
Lemma world_moves w L l' s' : world_inv w -> good_move w L l' s' ->
  world_inv (mkWorld s' (upd L l' (pollers w)) (todo w) (held w) (released w)).
Proof.
  intros [V1 V2 V3 V4 Vg Vh V5 V6] [M1 M2 M3 M4 M5 M6 M7 M8 Mr M9]. pose proof (fr_loop _ _ M3) as (_ & A2 & A3 & A4).
  split; cbn.
  - done.
  - intros X. destruct (decide (X = L)) as [->|HX]; [rewrite upd_eq; done | rewrite upd_ne by done; apply V2].
  - intros i c Hc Hr. destruct (decide (home i s' = L)) as [E|E].
    + rewrite E, upd_eq. by apply M6.
    + rewrite upd_ne by done. pose proof (M7 i c Hc E) as Hc0.
      rewrite (M5 i) by (by eapply lookup_lt_Some). by apply V3.
  - intros X p ch. destruct (decide (X = L)) as [->|HX]; [rewrite upd_eq; apply M8|].
    rewrite upd_ne by done. intros Hp Hz. destruct (V4 X p ch Hp Hz) as (? & ? & ?). split_and!; [lia | done|].
    by rewrite M5.
  - intros i Hr. rewrite Mr by done. by apply Vg.
  - exact Vh.
  - intros X HX. destruct (decide (X = L)) as [->|]; [rewrite upd_eq, A2, A4; auto | rewrite upd_ne by done; auto].
  - intros X ps HX. destruct (V6 X ps HX) as [Hn Hq]. split; [done|]. intros q Hin. destruct (Hq q Hin) as [Hr [(ch & Hch & Hi) Ho]].
    unfold waiting. cbn. destruct (decide (X = L)) as [->|HXL].
    + rewrite upd_eq. split; [unfold removable in *; by rewrite A2, A3, A4|]. split; [by eapply (fr_next _ _ M3)|].
      intros Hz c' Hc'. destruct (V4 L q ch Hch Hz) as (Hlt & _ & Hh). destruct (lookup_lt_is_Some_2 _ _ Hlt) as [c Hc].
      apply (M9 _ c c' Hc Hc'); [by apply Ho | done |]. exists ps. by rewrite Z2Nat.id.
    + rewrite upd_ne by done. split; [done|]. split; [by exists ch|]. intros Hz c' Hc'.
      destruct (V4 X q ch Hch Hz) as (Hlt & _ & Hh). apply Ho; [done|]. apply (M7 _ _ Hc'). rewrite M5 by done. by rewrite Hh.
Qed.

(** A step on the poller alone that the connections do not see. *)
Lemma world_quiet w L l' : world_inv w -> inv l' -> distinct_fds (chans l') -> frame (pollers w L) l' ->
  (forall p, 0 <= p -> plain <$> chans l' !! p = plain <$> chans (pollers w L) !! p) ->
  world_inv (with_poller L l' w).
Proof.
  intros V I D F E. apply world_moves; [done|]. split; try done; [apply V| | |].
  - intros i c Hc Hr Hh. destruct (v_copy _ V i c Hc Hr) as (ch & Hch & Ep). rewrite Hh in Hch.
    specialize (E (Z.of_nat i) ltac:(lia)). rewrite Hch in E. destruct (chans l' !! Z.of_nat i) as [ch'|]; [|done].
    apply (inj Some) in E. exists ch'. split; [done|]. congruence.
  - intros p ch Hp Hz. specialize (E p Hz). rewrite Hp in E. destruct (chans (pollers w L) !! p) as [ch0|] eqn:E0; [|done].
    by apply (v_home _ V L p ch0).
  - intros i c c' Hc Hc'. rewrite Hc in Hc'. by injection Hc' as <-.
Qed.
(** The flags of a loop and its round change. *)
Lemma world_set w L l' t : world_inv w -> inv l' -> distinct_fds (chans l') ->
  (forall p, 0 <= p -> plain <$> chans l' !! p = plain <$> chans (pollers w L) !! p) ->
  match t with
  | None => eventHandling_ l' = false /\ currentActiveChannel_ l' = None
  | Some ps => NoDup ps /\ forall q, q ∈ ps -> ~ removable l' q /\ (exists ch, chans l' !! q = Some ch /\ index_ ch <> kNew) /\
      (0 <= q -> forall c, objs (sys w) !! Z.to_nat q = Some c -> open c)
  end ->
  world_inv (mkWorld (sys w) (upd L l' (pollers w)) (partial_alter (fun _ => t) L (todo w)) (held w) (released w)).
Proof.
  intros [V1 V2 V3 V4 Vg Vh V5 V6] I' D' E Ht. split; cbn; try done.
  - intros X. destruct (decide (X = L)) as [->|HX]; [rewrite upd_eq; done | rewrite upd_ne by done; apply V2].
  - intros i c Hc Hr. destruct (V3 i c Hc Hr) as (ch & Hch & Ep). destruct (decide (home i (sys w) = L)) as [Eh|Eh].
    + rewrite Eh in *. rewrite upd_eq. specialize (E (Z.of_nat i) ltac:(lia)). rewrite Hch in E.
      destruct (chans l' !! Z.of_nat i) as [ch'|]; [|done]. apply (inj Some) in E. exists ch'. split; [done|]. congruence.
    + rewrite upd_ne by done. by exists ch.
  - intros X p ch. destruct (decide (X = L)) as [->|HX]; [rewrite upd_eq | rewrite upd_ne by done; apply V4].
    intros Hp Hz. specialize (E p Hz). rewrite Hp in E. destruct (chans (pollers w L) !! p) as [ch0|] eqn:E0; [|done].
    by apply (V4 L p ch0).
  - intros X. destruct (decide (X = L)) as [->|HX]; [rewrite upd_eq, lookup_partial_alter_eq | rewrite upd_ne, lookup_partial_alter_ne by done; apply V5].
    intros ->. done.
  - intros X ps. unfold waiting. cbn. destruct (decide (X = L)) as [->|HX];
      [rewrite upd_eq, lookup_partial_alter_eq | rewrite upd_ne, lookup_partial_alter_ne by done; apply V6].
    intros ->. done.
Qed.

(** ** The actions of the server *)
Lemma sync_touch w i c c' s' removes : world_inv w -> objs (sys w) !! i = Some c -> i ∉ released w ->
  sys_ok s' -> conns (srv s') = conns (srv (sys w)) -> objs s' = <[i := c']> (objs (sys w)) ->
  logs removes c c' -> (removes = true -> todo w !! home i (sys w) = None) ->
  (forall ps, todo w !! home i (sys w) = Some ps -> Z.of_nat i ∈ ps -> open c -> open c') ->
  sound (fun ps => world_inv (mkWorld s' ps (todo w) (held w) (released w)) /\
      exists ch, chans (ps (home i (sys w))) !! Z.of_nat i = Some ch) (sync i (sys w) s' (pollers w)).
Proof.
  intros V Hc Hr Hs Hk Ho (ops & Eo & Hrun) Hrem Hop. set (L := home i (sys w)) in *.
  pose proof (lookup_lt_Some _ _ _ Hc) as Hlt.
  assert (Hc' : objs s' !! i = Some c') by (rewrite Ho; by apply list_lookup_insert_eq).
  assert (Hh : forall j, home j s' = home j (sys w)) by (intros j; by apply home_same).
  assert (Hoj : forall j, j <> i -> objs s' !! j = objs (sys w) !! j) by (intros j Hj; rewrite Ho; by apply list_lookup_insert_ne).
  destruct (v_copy _ V i c Hc Hr) as (pc & Hpc & Epc). fold L in Hpc. rewrite <- Epc in Hrun.
  unfold sync. rewrite Hc', Hc, Hh, Eo, drop_app_length. fold L.
  destruct (v_poller _ V L) as [I D].
  eapply sound_bind; [eapply (replay_Ok (Z.of_nat i) removes ops pc (channel_ c') (pollers w L)); try done|].
  { intros Hx. left. by apply (v_idle _ V _ (Hrem Hx)). }
  intros l' (I' & D' & F' & pc' & El & Epc'). cbn. split; [|exists pc'; by rewrite upd_eq, El, lookup_insert_eq].
  assert (Hlen : length (objs s') = length (objs (sys w))) by (by rewrite Ho, length_insert).
  apply world_moves; [done|]. split; try done; [by rewrite Hlen | | | | |].
  - intros j cj Hcj Hrj Hj. destruct (decide (j = i)) as [->|Hne].
    + rewrite Hc' in Hcj. injection Hcj as <-. exists pc'. by rewrite El, lookup_insert_eq.
    + rewrite Hoj in Hcj by done. destruct (v_copy _ V j cj Hcj Hrj) as (ch & Hch & ?). rewrite <- Hh, Hj in Hch.
      exists ch. rewrite El, lookup_insert_ne by lia. done.
  - intros j cj Hcj Hj. destruct (decide (j = i)) as [->|Hne]; [by rewrite Hh in Hj | by rewrite Hoj in Hcj].
  - intros p ch. rewrite El, Hlen. intros [[<- <-]|[Hne Hp]]%lookup_insert_Some Hz.
    + rewrite Nat2Z.id, Hh. done.
    + rewrite Hh. by apply (v_home _ V L p ch).
  - intros j Hj. apply Hoj. by intros ->.
  - intros j cj cj' Hcj Hcj' Hopj Hj (ps & Hps & Hin). destruct (decide (j = i)) as [->|Hne].
    + rewrite Hc in Hcj. injection Hcj as <-. rewrite Hc' in Hcj'. injection Hcj' as <-. by eapply Hop.
    + rewrite Hoj in Hcj' by done. congruence.
Qed.
(** The same when the action leaves the connections alone. *)
Lemma world_same w s' ps : world_inv w -> sys_ok s' -> conns (srv s') = conns (srv (sys w)) -> objs s' = objs (sys w) ->
  (forall L, ps L = pollers w L) -> world_inv (mkWorld s' ps (todo w) (held w) (released w)).
Proof.
  intros [V1 V2 V3 V4 Vg Vh V5 V6] Hs Hk Ho Hps. assert (Hh : forall j, home j s' = home j (sys w)) by (intros j; by apply home_same).
  split; cbn; rewrite ?Ho; try done.
  - intros L. by rewrite Hps.
  - intros j cj. rewrite Hh, Hps. apply V3.
  - intros L p ch. rewrite Hh, Hps. apply V4.
  - intros L. rewrite Hps. apply V5.
  - intros L l HL. destruct (V6 L l HL) as [? Hq]. split; [done|]. intros q Hin. destruct (Hq q Hin) as [? [? Hop]].
    unfold waiting. cbn. by rewrite Hps, Ho.
Qed.
Lemma sync_none w i s' : world_inv w -> sys_ok s' -> conns (srv s') = conns (srv (sys w)) -> objs s' = objs (sys w) ->
  sound (fun ps => world_inv (mkWorld s' ps (todo w) (held w) (released w))) (sync i (sys w) s' (pollers w)).
Proof.
  intros V Hs Hk Ho. unfold sync. rewrite Ho. destruct (objs (sys w) !! i) as [c|]; [rewrite drop_all|]; cbn; apply world_same; try done.
  intros L. unfold upd. by destruct (Z.eqb_spec L (home i s')) as [->|].
Qed.

Hypothesis Huser : forall i, user_ok true (user i).
(** The server took at most one step of TcpServer.v. *)
Definition went (s s' : system (B := B)) : Prop :=
  exists evs, ofold TcpServer.exec_event evs (view s) = Ok (view s') /\ (length evs <= 1)%nat.
Definition room (w : world) : Prop := zlen (conns (srv (sys w))) + 1 < 2 ^ 31 - 1.
Definition stepped (w w' : world) : Prop := world_inv w' /\ went (sys w) (sys w').

(** The connection of an action is there. *)
Lemma world_act_there x w : (subject x (sys w) ∉ released w) ->
  world_act x w = (s ← exec_action user x (sys w); ps ← sync (subject x (sys w)) (sys w) s (pollers w);
                   Ok (mkWorld s ps (todo w) (held w) (released w))).
Proof. intros Hr. unfold world_act. by rewrite bool_decide_false, andb_false_r. Qed.
Lemma not_released_new w : world_inv w -> length (objs (sys w)) ∉ released w.
Proof. intros V Hx. destruct (v_gone _ V _ Hx) as (c & Hc%lookup_lt_Some & _). lia. Qed.
(** Code of one connection runs for an action. *)
Lemma act_event w i x c r : world_inv w -> objs (sys w) !! i = Some c -> i ∉ released w ->
  subject r (sys w) = i -> exec_action user r (sys w) = conn_runs i (TcpConnection.exec_event (user i) x) (sys w) ->
  simulates (sys w) (exec_action user r (sys w)) ->
  (forall wr, x = RunFunctor wr -> todo w !! home i (sys w) = None) ->
  (forall ps c', todo w !! home i (sys w) = Some ps -> Z.of_nat i ∈ ps -> TcpConnection.exec_event (user i) x c = Ok c' -> open c -> open c') ->
  sound (fun w' => stepped w w' /\ todo w' = todo w /\ released w' = released w /\
      exists ch, chans (pollers w' (home i (sys w))) !! Z.of_nat i = Some ch) (world_act r w).
Proof.
  intros V Hc Hr Hsub Er Hsim Hq Hop. rewrite world_act_there; rewrite Hsub; [|done]. unfold simulates in Hsim.
  destruct (exec_action user r (sys w)) as [s'|f] eqn:E; [|by destruct f]. destruct Hsim as [Hs Hev]. cbn [mbind outcome_bind].
  symmetry in Er. destruct (conn_runs_shape _ _ _ _ Er) as (c0 & c' & Hc0 & Ef & Ho & Hk). rewrite Hc in Hc0. injection Hc0 as <-.
  set (removes := match x with RunFunctor _ => true | _ => false end).
  eapply sound_bind; [eapply (sync_touch w i c c' s' removes V Hc Hr Hs Hk Ho)|].
  - destruct x; [apply logs_event in Ef | apply logs_event in Ef | by apply logs_exec_event in Ef | apply logs_event in Ef | apply logs_event in Ef]; done.
  - intros Hx. destruct x as [| |wr| |]; try done. by apply (Hq wr).
  - intros ps Hps Hin. by eapply Hop.
  - intros ps [V' Hch]. cbn. split; [split; [done | exact Hev] | by split_and!].
Qed.

Lemma act_user w i a : world_inv w -> room w -> world_step_ok (WAct (SUser i a)) w -> sound (stepped w) (world_act (SUser i a) w).
Proof.
  intros V Hb [Hr%(v_held _ V) (c & Hc & Ha)]. eapply sound_mono; [eapply (act_event w i (OtherThread a) c (SUser i a) V Hc Hr)|]; try done.
  - apply (sim_action user Huser); [apply V | by exists c | exact Hb].
  - intros ps c' _ _ E Ho. cbn in E, Ha. pose proof (o_good c (so_objs _ (v_sys _ V) i c Hc)) as G.
    pose proof (exec_api_Ok true false a c G Ha) as Hx. rewrite E in Hx. by eapply moved_open; [apply Hx|].
  - by intros w' [? _].
Qed.
(** No functor of a connection that is gone is left. *)
Lemma act_queued_gone w i wr c : world_inv w -> room w -> ServerConns.act_ok (SQueued i wr) (sys w) ->
  objs (sys w) !! i = Some c -> i ∈ released w -> sound (stepped w) (world_act (SQueued i wr) w).
Proof.
  intros V Hb Hok Hc Hr. destruct (v_gone _ V i Hr) as (c0 & Hc0 & _ & Hq). rewrite Hc in Hc0. injection Hc0 as <-.
  pose proof (sim_action user Huser (SQueued i wr) (sys w) (v_sys _ V) Hok Hb) as Hsim. unfold simulates in Hsim.
  unfold world_act. cbn [uses subject]. rewrite Hc, bool_decide_true by done. cbn [negb andb mbind outcome_bind].
  destruct (exec_action user (SQueued i wr) (sys w)) as [s'|f] eqn:E; [|by destruct f]. destruct Hsim as [Hs Hev]. cbn [mbind outcome_bind].
  cbn [exec_action] in E. apply conn_runs_shape in E as (c0 & c' & Hc0 & Ef & Ho & Hk). rewrite Hc in Hc0. injection Hc0 as <-.
  cbn [TcpConnection.exec_event] in Ef. rewrite Hq in Ef. injection Ef as <-. rewrite list_insert_id in Ho by done.
  eapply sound_bind; [by apply sync_none|]. intros ps V'. by split.
Qed.
Lemma act_queued w i wr : world_inv w -> room w -> world_step_ok (WAct (SQueued i wr)) w -> sound (stepped w) (world_act (SQueued i wr) w).
Proof.
  intros V Hb (Ht & Hok). pose proof Hok as (c & Hc & Ha).
  destruct (decide (i ∈ released w)) as [Hr|Hr]; [by apply (act_queued_gone w i wr c)|]. eapply sound_mono; [eapply (act_event w i (RunFunctor wr) c (SQueued i wr) V Hc Hr)|]; try done.
  - apply (sim_action user Huser); [apply V | done | exact Hb].
  - intros ps c' Hps. congruence.
  - by intros w' [? _].
Qed.

(** The loop of the functor that destroys a connection is the loop of the connection. *)
Lemma functor_home s L i l k : TcpServer.inv s -> take_first L (pending s) = Some (TcpServer.FConnectDestroyed i, l) ->
  conns s !! i = Some k -> cloop k = L.
Proof.
  intros Hi (_ & Hin & Hone & _)%take_first_mine Hk. pose proof (inv_status _ Hi _ _ Hk) as Hst. unfold status_ok in Hst. cbn [fid] in *.
  destruct (cphase k); [destruct Hst as [Hm _] | destruct Hst as [Hm _] | destruct Hst as [[Hm _]|[Hm _]] | destruct Hst as [Hm _]];
    try (rewrite Hm in Hin; by apply elem_of_nil in Hin); apply Hone in Hm as [E _]; by injection E as <-.
Qed.
Lemma run_there w L : world_inv w -> subject (SRun L) (sys w) ∉ released w.
Proof.
  intros V. cbn [subject]. destruct (take_first L (pending (srv (sys w)))) as [[f l]|] eqn:Et; [|by apply not_released_new].
  destruct (head_phase (view (sys w)) L f l (so_inv _ (v_sys _ V)) Et) as (k & Hk & Hp).
  destruct (view_objs _ _ _ (so_len _ (v_sys _ V)) Hk) as (k0 & c & _ & Hc & ->). change (cphase (seen k0 c)) with (phase_of c) in Hp.
  intros Hx. destruct (v_gone _ V _ Hx) as (c0 & Hc0 & Hg & _). rewrite Hc in Hc0. injection Hc0 as <-. rewrite Hp in Hg. by destruct f.
Qed.
Lemma act_run w L : world_inv w -> room w -> todo w !! L = None -> sound (stepped w) (world_act (SRun L) w).
Proof.
  intros V Hb HL. pose proof (sim_action user Huser (SRun L) (sys w) (v_sys _ V) I Hb) as Hsim. unfold simulates in Hsim.
  rewrite world_act_there by by apply run_there. destruct (exec_action user (SRun L) (sys w)) as [s'|f] eqn:E; [|by destruct f]. destruct Hsim as [Hs Hev]. cbn [mbind outcome_bind].
  assert (Hend : forall m, sound (fun ps => world_inv (mkWorld s' ps (todo w) (held w) (released w))) m ->
    sound (stepped w) (m ≫= fun ps => Ok (mkWorld s' ps (todo w) (held w) (released w)))).
  { intros m Hm. eapply sound_bind; [exact Hm|]. intros ps V'. by split. }
  apply Hend. cbn [exec_action] in E. unfold subject. destruct (take_first L (pending (srv (sys w)))) as [[f l]|] eqn:Et.
  2:{ injection E as <-. by apply sync_none. }
  destruct (head_phase (view (sys w)) L f l (so_inv _ (v_sys _ V)) Et) as (k & Hk & Hp).
  destruct (view_objs _ _ _ (so_len _ (v_sys _ V)) Hk) as (k0 & c & Hk0 & Hc & ->). change (cphase (seen k0 c)) with (phase_of c) in Hp.
  assert (Hr : fid f ∉ released w) by (pose proof (run_there w L V) as Hr; cbn [subject] in Hr; by rewrite Et in Hr).
  destruct f as [i|i|i]; cbn [full_run_functor fid] in *.
  - apply conn_runs_shape in E as (c0 & c' & Hc0 & Ef & Ho & Hkk). cbn in Hc0, Ho, Hkk. rewrite Hc in Hc0. injection Hc0 as <-.
    eapply sound_mono; [eapply (sync_touch w i c c' s' false V Hc Hr Hs Hkk Ho); [|done|]|].
    + by apply (logs_event (user i) Established).
    + intros ps _ _ [Hx|Hx]; apply phase_fresh in Hp; congruence.
    + by intros ps [? _].
  - apply conn_runs_shape in E as (c0 & c' & Hc0 & Ef & Ho & Hkk). cbn in Hc0, Ho, Hkk. rewrite Hc in Hc0. injection Hc0 as <-.
    assert (HL' : todo w !! home i (sys w) = None).
    { unfold home. rewrite Hk0. by rewrite (functor_home (view (sys w)) L i l (seen k0 c) (so_inv _ (v_sys _ V)) Et Hk : cloop k0 = L). }
    eapply sound_mono; [eapply (sync_touch w i c c' s' true V Hc Hr Hs Hkk Ho); [|done|]|].
    + by eapply logs_ConnectDestroyed.
    + intros ps Hps. congruence.
    + by intros ps [? _].
  - inv_ok. cbn in *. apply sync_none; try done. cbn. by rewrite (RemoveInLoop_conns _ _ _ E0).
Qed.

(** A new connection. *)
Lemma accept_shape sockfd wcb hcb s s' : sys_ok s -> exec_action user (SAccept sockfd wcb hcb) s = Ok s' ->
  exists c k, objs s' = objs s ++ [c] /\ conns (srv s') = conns (srv s) ++ [k] /\
    logs false (new_TcpConnection sockfd wcb hcb) c /\ fd (channel_ c) = sockfd.
Proof.
  intros Hok. cbn [exec_action]. unfold full_NewConnection. intros E. inv_ok.
  assert (Hk : exists k, conns t = conns (srv s) ++ [k]) by (unfold register_conn in *; inv_ok; cbn; eauto).
  destruct Hk as [k Hk]. destruct (z =? loop_ t).
  - apply conn_runs_shape in E as (c & c' & Hc & Ef & Ho & Hkk). cbn in Hc, Ho, Hkk.
    rewrite <- (so_len _ Hok), lookup_app_r, Nat.sub_diag in Hc by done. injection Hc as <-.
    exists c', k. split_and!; [|congruence | by apply (logs_event (user (length (conns (srv s)))) Established) in Ef |].
    + rewrite Ho, <- (so_len _ Hok), insert_app_r_alt, Nat.sub_diag by done. done.
    + destruct (same_exec_event (user (length (conns (srv s)))) Established _ _ Ef) as [-> _]. done.
  - inv_ok. exists (new_TcpConnection sockfd wcb hcb), k. split_and!; [done | done | by apply logs_local | done].
Qed.
Lemma act_accept w sockfd wcb hcb : world_inv w -> room w -> world_step_ok (WAct (SAccept sockfd wcb hcb)) w ->
  sound (stepped w) (world_act (SAccept sockfd wcb hcb) w).
Proof.
  intros V Hb Hf. pose proof (sim_action user Huser (SAccept sockfd wcb hcb) (sys w) (v_sys _ V) I Hb) as Hsim. unfold simulates in Hsim.
  rewrite world_act_there by by apply not_released_new. destruct (exec_action user (SAccept sockfd wcb hcb) (sys w)) as [s'|f] eqn:E; [|by destruct f].
  destruct Hsim as [Hs Hev]. cbn [mbind outcome_bind subject].
  destruct (accept_shape _ _ _ _ _ (v_sys _ V) E) as (c & k & Ho & Hk & (ops & Eo & Hrun) & Hfd). set (i := length (objs (sys w))) in *.
  assert (Hold : forall j cj, objs (sys w) !! j = Some cj -> objs s' !! j = Some cj /\ j <> i /\ home j s' = home j (sys w)).
  { intros j cj Hj. pose proof (lookup_lt_Some _ _ _ Hj). split_and!; [rewrite Ho; by apply lookup_app_l_Some | unfold i; lia|].
    unfold home. rewrite Hk, lookup_app_l; [done|]. rewrite <- (so_len _ (v_sys _ V)). done. }
  assert (Hnew : forall j cj, objs s' !! j = Some cj -> objs (sys w) !! j = Some cj \/ (j = i /\ cj = c)).
  { intros j cj. rewrite Ho. intros [?|[? Hx]]%lookup_app_Some; [by left|]. right. apply list_lookup_singleton_Some in Hx as [? <-].
    unfold i. split; [lia | done]. }
  assert (Hci : objs s' !! i = Some c) by (rewrite Ho, lookup_app_r, Nat.sub_diag; done).
  assert (Hi0 : objs (sys w) !! i = None) by (apply lookup_ge_None_2; done).
  unfold sync. rewrite Hci, Hi0, drop_0. cbn in Eo. rewrite Eo. set (L := home i s').
  set (ch0 := channel_ (new_TcpConnection (B := B) (fd (channel_ c)) false false)).
  destruct (v_poller _ V L) as [IL D]. assert (Hn : chans (pollers w L) !! Z.of_nat i = None).
  { apply eq_None_not_Some. intros [ch Hch]. destruct (v_home _ V _ _ _ Hch) as (? & _); [lia|]. unfold i in *. lia. }
  assert (F0 : frame (pollers w L) (set_chan (Z.of_nat i) ch0 (pollers w L))) by by apply frame_new.
  eapply (sound_bind (fun ps => world_inv (mkWorld s' ps (todo w) (held w) (released w)))); [|intros ps V'; by split].
  eapply sound_bind; [apply (replay_Ok (Z.of_nat i) false ops ch0 (channel_ c) (set_chan (Z.of_nat i) ch0 (pollers w L))); try done|].
  - by apply (inv_new_conn_chan (B := B) (fd (channel_ c)) false false).
  - apply distinct_new; [done|]. cbn. rewrite Hfd. by apply Hf.
  - cbn. by rewrite lookup_insert_eq.
  - subst ch0. rewrite Hfd. exact Hrun.
  - intros l' (I' & D' & F' & pc' & El & Epc'). cbn in El. rewrite insert_insert_eq in El. cbn.
    apply world_moves; [done|]. split; try done.
    + by etrans.
    + rewrite Ho, length_app. lia.
    + intros j [cj Hj]%lookup_lt_is_Some_2. by apply (Hold j cj).
    + intros j cj Hj Hr Hh. destruct (Hnew j cj Hj) as [Hj0|[-> ->]]; [|exists pc'; by rewrite El, lookup_insert_eq].
      destruct (Hold j cj Hj0) as (_ & Hne & Hhj). destruct (v_copy _ V j cj Hj0 Hr) as (ch & Hch & ?). rewrite <- Hhj, Hh in Hch.
      exists ch. rewrite El, lookup_insert_ne by lia. done.
    + intros j cj Hj Hh. destruct (Hnew j cj Hj) as [?|[-> ->]]; [done|]. by destruct Hh.
    + intros p ch. rewrite El. intros [[<- <-]|[Hne Hp]]%lookup_insert_Some Hz.
      * rewrite Nat2Z.id. split_and!; [rewrite Ho, length_app; unfold i; cbn; lia | | done].
        intros Hx. destruct (v_gone _ V _ Hx) as (c0 & Hc0 & _). congruence.
      * destruct (v_home _ V _ _ _ Hp Hz) as (Hlt & ? & <-). split_and!; [rewrite Ho, length_app; lia | done|].
        destruct (lookup_lt_is_Some_2 _ _ Hlt) as [cj Hj]. by apply (Hold _ cj).
    + intros j Hj. destruct (v_gone _ V _ Hj) as (cj & Hcj & _). rewrite Hcj. by apply (Hold j cj).
    + intros j cj cj' Hj Hj'. destruct (Hold j cj Hj) as [Hx _]. congruence.
Qed.

(** ** The rounds of the loops *)
Lemma went_same s : went s s.
Proof. exists []. cbn. split; [done | lia]. Qed.
Lemma world_poll_Ok w L : world_inv w -> events_size (pollers w L) < 2 ^ 31 -> todo w !! L = None -> sound (stepped w) (world_poll L w).
Proof.
  intros V Hsz Ht. unfold world_poll. set (l0 := set_handling _ _ _ _). destruct (v_poller _ V L) as [IL D].
  destruct (epoll_wait (events_size l0) (kernel l0)) as [[n evs] k] eqn:Ew.
  destruct (Poll_Ok l0 n evs k (inv_flags _ _ _ _ IL) eq_refl Hsz Ew) as (l' & -> & I' & Ea & Hnd & Hev & Hne & _ & _ & _ & Ecur).
  cbn [mbind outcome_bind sound]. split; [|apply went_same]. rewrite Ea.
  assert (Hsame : forall q, plain <$> chans l' !! q = plain <$> chans (pollers w L) !! q).
  { intros q. destruct (decide (q ∈ data_ptr <$> evs)) as [Hq|Hq]; [|by rewrite Hne].
    apply list_elem_of_fmap in Hq as (e & -> & He). destruct (Hev e He) as (c & Hc & _ & ->). cbn in Hc. by rewrite Hc. }
  apply (world_set w L _ (Some (data_ptr <$> evs))); [done | by apply inv_flags | | done |].
  - intros p q c d Hp Hq Ef. pose proof (Hsame p) as Ep. pose proof (Hsame q) as Eq. cbn in Hp, Hq. rewrite Hp in Ep. rewrite Hq in Eq.
    destruct (chans (pollers w L) !! p) as [c0|] eqn:Hp0; [|done]. destruct (chans (pollers w L) !! q) as [d0|] eqn:Hq0; [|done].
    apply (inj Some), (f_equal fd) in Ep, Eq. cbn in Ep, Eq. eapply (D p q); [done | done | congruence].
  - split; [done|]. intros q Hq. split_and!.
    + unfold removable. cbn. intros [?|[Hx|Hx]]; [done | | done]. rewrite Ecur in Hx. cbn in Hx.
      destruct (v_idle _ V L Ht) as [_ Hcur]. congruence.
    + apply list_elem_of_fmap in Hq as (e & -> & He). destruct (Hev e He) as (c & Hc & Hi & Hl). exists (SetRevents (events e) c).
      split; [done|]. cbn. by rewrite Hi.
    + intros Hz c Hc. apply list_elem_of_fmap in Hq as (e & -> & He). destruct (Hev e He) as (ch & Hch & Hi & Hl). cbn in Hch.
      destruct (v_home _ V L _ _ Hch Hz) as (_ & Hr & Hh). destruct (v_copy _ V _ c Hc Hr) as (ch' & Hch' & Ech).
      rewrite Hh, Z2Nat.id in Hch' by done. replace ch' with ch in * by congruence.
      apply added_open; [apply (so_objs _ (v_sys _ V) _ c Hc)|]. by rewrite <- Ech.
Qed.

(** A channel's own flag. *)
Lemma world_flag w L p ch b cur t : world_inv w -> chans (pollers w L) !! p = Some ch ->
  match t with
  | None => eventHandling_ (pollers w L) = false /\ cur = None
  | Some ps => NoDup ps /\ forall q, q ∈ ps -> q <> p /\ cur <> Some q /\ eventHandling_ (pollers w L) = true /\
      q ∈ activeChannels_ (pollers w L) /\ waiting w L q
  end ->
  world_inv (mkWorld (sys w) (upd L (set_handling (eventHandling_ (pollers w L)) (activeChannels_ (pollers w L)) cur
      (set_chan p (with_handling b ch) (pollers w L))) (pollers w)) (partial_alter (fun _ => t) L (todo w)) (held w) (released w)).
Proof.
  intros V Hp Ht. destruct (v_poller _ V L) as [IL D]. apply world_set; [done | | | |].
  - by apply (inv_touch (pollers w L) p ch).
  - by eapply (distinct_insert _ p ch).
  - intros q _. cbn. destruct (decide (p = q)) as [<-|]; [by rewrite lookup_insert_eq, Hp | by rewrite lookup_insert_ne].
  - destruct t as [ps|]; [|done]. destruct Ht as [Hn Hq]. split; [done|]. intros q Hin.
    destruct (Hq q Hin) as (Hne & Hcur & Hh & Ha & [(cq & Hcq & Hi) Ho]). split_and!; [| |done].
    + unfold removable. cbn. rewrite Hh. by intros [?|[?|?]].
    + exists cq. cbn. by rewrite lookup_insert_ne.
Qed.
Lemma not_removable (l : loop K) q : ~ removable l q -> eventHandling_ l = true /\ q ∈ activeChannels_ l /\ currentActiveChannel_ l <> Some q.
Proof.
  unfold removable. intros Hn. split_and!.
  - destruct (eventHandling_ l); [done|]. exfalso. auto.
  - destruct (decide (q ∈ activeChannels_ l)); [done|]. exfalso. auto.
  - intros Hx. auto.
Qed.
(** After the handlers of channel [p] the loop goes on with the rest. *)
Lemma world_unflag w L p ch rest : world_inv w -> chans (pollers w L) !! p = Some ch -> todo w !! L = Some rest -> p ∉ rest ->
  world_inv (with_poller L (set_chan p (with_handling false ch) (pollers w L)) w).
Proof.
  intros V Hp Ht Hr. unfold with_poller. rewrite <- (partial_alter_self (todo w) L), Ht.
  apply (world_flag w L p ch false (currentActiveChannel_ (pollers w L)) (Some rest) V Hp).
  destruct (v_round _ V L rest Ht) as [Hn Hq]. split; [done|]. intros q Hin. destruct (Hq q Hin) as [(? & ? & ?)%not_removable ?].
  split_and!; try done. by intros ->.
Qed.

Lemma world_handle_Ok w L wr readv : world_inv w -> room w -> world_step_ok (WHandle L wr readv) w ->
  sound (stepped w) (world_handle L wr readv w).
Proof.
  intros V Hb Hok. unfold world_handle. destruct (todo w !! L) as [[|p rest]|] eqn:Ht; [by split; [|apply went_same] | | by split; [|apply went_same]].
  destruct (v_round _ V L _ Ht) as [[Hnp Hnd]%NoDup_cons Hq]. destruct (Hq p ltac:(left)) as [Hrm [(ch & Hp & Hi) Ho]].
  cbv zeta. rewrite (deref_Some p ch) by done. cbn [mbind outcome_bind].
  assert (Hrel : tied_ ch && (0 <=? p) && bool_decide (Z.to_nat p ∈ released w) = false).
  { destruct (tied_ ch); [|done]. destruct (Z.leb_spec 0 p) as [Hz|]; [|done]. destruct (v_home _ V L p ch Hp Hz) as (_ & Hr & _).
    by rewrite bool_decide_false. }
  cbn [released]. rewrite Hrel.
  match goal with |- context [if 0 <=? p then world_act _ ?x else Ok ?x] => set (w1 := x) end.
  assert (V1 : world_inv (mkWorld (sys w) (upd L (set_handling (eventHandling_ (pollers w L)) (activeChannels_ (pollers w L)) (Some p)
      (set_chan p (with_handling true ch) (pollers w L))) (pollers w)) (<[L := rest]> (todo w)) (held w) (released w))).
  { apply (world_flag w L p ch true (Some p) (Some rest) V Hp). split; [done|]. intros q Hin.
    assert (q <> p) by (by intros ->). destruct (Hq q ltac:(by right)) as [(? & ? & ?)%not_removable ?]. split_and!; try done. congruence. }
  assert (E1 : forall X, pollers w1 X = upd L (set_handling (eventHandling_ (pollers w L)) (activeChannels_ (pollers w L)) (Some p)
      (set_chan p (with_handling true ch) (pollers w L))) (pollers w) X).
  { intros X. subst w1. cbn. unfold upd. by destruct (X =? L). }
  apply (world_same _ (sys w) (pollers w1)) in V1; [|apply V | done | done | exact E1].
  change (world_inv w1) in V1. assert (Hp1 : chans (pollers w1 L) !! p = Some (with_handling true ch)) by (rewrite E1, upd_eq; cbn; by rewrite lookup_insert_eq).
  assert (Ht1 : todo w1 !! L = Some rest) by (cbn; by rewrite lookup_insert_eq).
  destruct (Z.leb_spec 0 p) as [Hz|Hz].
  - destruct (v_home _ V L p ch Hp Hz) as (Hlt & Hr & Hh). destruct (lookup_lt_is_Some_2 _ _ Hlt) as [c Hc].
    destruct (Hok p rest ch Ht Hz Hp) as (Hw & Hrv & Hrep).
    destruct (open_live c (o_good c (so_objs _ (v_sys _ V) _ c Hc)) (Ho Hz c Hc)) as [Hadd _].
    eapply sound_bind; [eapply (act_event w1 (Z.to_nat p) (IO (revents_ ch) wr readv) c (SPoll (Z.to_nat p) (revents_ ch) wr readv) V1 Hc Hr)|]; try done.
    + apply (sim_action user Huser); [apply V | by exists c | exact Hb].
    + cbn [home sys w1]. intros ps c' Hps Hin. change (home (Z.to_nat p) (sys w1)) with (home (Z.to_nat p) (sys w)) in Hps.
      rewrite Hh, Ht1 in Hps. injection Hps as <-. by rewrite Z2Nat.id in Hin.
    + intros w2 ([V2 Hw2] & Ht2 & _ & ch2 & Hp2). change (home (Z.to_nat p) (sys w1)) with (home (Z.to_nat p) (sys w)) in Hp2.
      rewrite Hh, Z2Nat.id in Hp2 by done. rewrite (deref_Some p ch2) by done. cbn.
      split; [|exact Hw2]. apply (world_unflag w2 L p ch2 rest); [done | done | congruence | done].
  - cbn [mbind outcome_bind]. rewrite (deref_Some p (with_handling true ch)) by done. cbn [mbind outcome_bind sound].
    split; [|apply went_same]. by apply (world_unflag w1 L p _ rest).
Qed.
Lemma world_end_Ok w L : world_inv w -> stepped w (world_end L w).
Proof.
  intros V. unfold world_end. destruct (todo w !! L) as [[|p rest]|]; (split; [|apply went_same]); try done.
  destruct (v_poller _ V L) as [IL D]. apply (world_set w L _ None); try done. by apply inv_flags.
Qed.

(** ** Releasing a connection *)
Lemma unreferenced_gone w i c : world_inv w -> objs (sys w) !! i = Some c -> unreferenced i (sys w) -> phase_of c = Gone.
Proof.
  intros V Hc [Hreg Hpend]. destruct (view_at _ i c (so_len _ (v_sys _ V)) Hc) as (k & Hk & Hv).
  pose proof (inv_status _ (so_inv _ (v_sys _ V)) _ _ Hv) as Hst. unfold status_ok, registered in Hst.
  assert (Hm : mine i (pending (view (sys w))) = []).
  { unfold mine. apply filter_none. intros [X f] Hin. rewrite Forall_forall in Hpend. by apply (Hpend (X, f)). }
  rewrite Hm in Hst. specialize (Hreg k Hk). change (cphase (seen k c)) with (phase_of c) in Hst.
  destruct (phase_of c); [by destruct Hst | by destruct Hst | | done]. destruct Hst as [[? _]|[? _]]; done.
Qed.
Lemma world_release_Ok w i : world_inv w -> world_step_ok (WRelease i) w -> sound (stepped w) (world_release i w).
Proof.
  intros V ([c Hc]%lookup_lt_is_Some_2 & Hr & Hun & Hnh & Hqe & Hfl). pose proof (unreferenced_gone w i c V Hc Hun) as Hg.
  unfold world_release. rewrite Hc. set (L := home i (sys w)) in *.
  assert (Hs : state_ c = kDisconnected /\ index_ (channel_ c) = kNew).
  { unfold phase_of in Hg. destruct (state_ c); try done. by destruct (Z.eqb_spec (index_ (channel_ c)) kNew). }
  destruct Hs as [Hs Hix]. unfold Disconnected. rewrite bool_decide_true by done. cbn [massert mbind outcome_bind].
  destruct (v_copy _ V i c Hc Hr) as (ch & Hch & Ech). fold L in Hch. destruct (v_poller _ V L) as [IL D].
  assert (Hi : index_ ch = kNew) by (by rewrite <- Hix, <- Ech).
  destruct (destroy_Ok (pollers w L) (Z.of_nat i) ch IL Hch Hi (Hfl ch Hch)) as [-> I']. cbn. split; [|apply went_same].
  destruct V as [V1 V2 V3 V4 Vg Vh V5 V6]. split; cbn; try done.
  - intros X. destruct (decide (X = L)) as [->|HX]; [rewrite upd_eq; split; [done | by apply distinct_delete] | rewrite upd_ne by done; apply V2].
  - intros j cj Hj [Hne Hrj]%not_elem_of_union. rewrite not_elem_of_singleton in Hne. destruct (V3 j cj Hj Hrj) as (cd & ? & ?). exists cd.
    destruct (decide (home j (sys w) = L)) as [Eh|Eh]; [|by rewrite upd_ne]. rewrite Eh in *. rewrite upd_eq. cbn. rewrite lookup_delete_ne by lia. done.
  - intros X p cp. destruct (decide (X = L)) as [->|HX]; [rewrite upd_eq | rewrite upd_ne by done]; intros Hp Hz.
    + cbn in Hp. apply lookup_delete_Some in Hp as [Hne Hp]. destruct (V4 L p cp Hp Hz) as (? & ? & ?). split_and!; [done | | done]. set_solver by lia.
    + destruct (V4 X p cp Hp Hz) as (? & ? & Hh). split_and!; [done | | done]. rewrite not_elem_of_union, not_elem_of_singleton.
      split; [|done]. intros Hx. apply HX. by rewrite <- Hh, Hx.
  - intros j [->%elem_of_singleton|Hj]%elem_of_union; [eauto | by apply Vg].
  - intros j Hj. rewrite not_elem_of_union, not_elem_of_singleton. split; [by intros -> | by apply Vh].
  - intros X HX. destruct (decide (X = L)) as [->|]; [rewrite upd_eq; by apply V5 | rewrite upd_ne by done; by apply V5].
  - intros X ps HX. destruct (V6 X ps HX) as [Hn Hq]. split; [done|]. intros q Hin. unfold waiting. cbn.
    destruct (Hq q Hin) as [Hrm [(cq & Hcq & Hiq) Hoq]].
    destruct (decide (X = L)) as [->|]; [rewrite upd_eq | by rewrite upd_ne by done; split; [|split; [exists cq|]]].
    split; [done|]. split; [|done]. exists cq. cbn. rewrite lookup_delete_ne; [done|]. intros <-. congruence.
Qed.

(** Nothing comes to hold a connection that is gone. *)
Lemma released_unreferenced w i : world_inv w -> i ∈ released w -> unreferenced i (sys w).
Proof.
  intros V Hr. destruct (v_gone _ V i Hr) as (c & Hc & Hg & _). destruct (view_at _ i c (so_len _ (v_sys _ V)) Hc) as (k & Hk & Hv).
  pose proof (inv_status _ (so_inv _ (v_sys _ V)) _ _ Hv) as Hst. unfold status_ok, registered in Hst.
  change (cphase (seen k c)) with (phase_of c) in Hst. rewrite Hg in Hst. destruct Hst as [Hm Hreg]. split.
  - intros k' Hk'. rewrite Hk in Hk'. by injection Hk' as <-.
  - apply Forall_forall. intros [X f] Hin Hf. cbn in Hf. assert (Hx : (X, f) ∈ mine i (pending (view (sys w)))).
    { unfold mine. by apply list_elem_of_filter. }
    rewrite Hm in Hx. by apply elem_of_nil in Hx.
Qed.
Lemma world_holds w h : world_inv w -> (forall i, i ∈ h -> i ∉ released w) -> world_inv (mkWorld (sys w) (pollers w) (todo w) h (released w)).
Proof. intros [] Hh. by split. Qed.
Lemma exec_world_Ok x w : world_inv w -> room w -> world_step_ok x w -> sound (stepped w) (exec_world x w).
Proof.
  intros V Hb Hx. destruct x as [x|L|L wr readv|L|i|i|i|L x]; cbn [exec_world].
  - destruct x as [f wcb hcb|i r wr readv|i wr|i a|L]; [by apply act_accept | done | by apply act_queued | by apply act_user | by apply act_run].
  - destruct Hx. by apply world_poll_Ok.
  - by apply world_handle_Ok.
  - by apply world_end_Ok.
  - split; [|apply went_same]. apply world_holds; [done|]. intros j [->%elem_of_singleton|Hj]%elem_of_union; [|by apply (v_held _ V)].
    destruct Hx as [Hx|[_ Hx]]; [by apply (v_held _ V)|]. intros Hr. by apply Hx, released_unreferenced.
  - split; [|apply went_same]. apply world_holds; [done|]. intros j [Hj _]%elem_of_difference. by apply (v_held _ V).
  - by apply world_release_Ok.
  - destruct Hx as (Ht & Hc & Hf). destruct (v_poller _ V L) as [IL D].
    eapply sound_bind; [by apply exec_call_called|]. intros l (I' & D' & F' & E). cbn. split; [|apply went_same].
    apply world_quiet; try done. intros p Hz. rewrite E by lia. done.
Qed.
Lemma exec_worlds_Ok l w : world_inv w -> world_ok l w -> zlen (conns (srv (sys w))) + zlen l < 2 ^ 31 - 1 ->
  sound (fun w' => world_inv w' /\ exists evs, ofold TcpServer.exec_event evs (view (sys w)) = Ok (view (sys w'))) (ofold exec_world l w).
Proof.
  revert w. induction l as [|x l IH]; intros w V Hl Hb; [split; [done|]; by exists []|].
  rewrite zlen_cons in Hb. pose proof (zlen_nonneg l). destruct Hl as [Hx Hl]. cbn [ofold].
  assert (Hroom : room w) by (unfold room; lia). pose proof (exec_world_Ok x w V Hroom Hx) as Hx1.
  destruct (exec_world x w) as [w1|]; [|done]. destruct Hx1 as [V1 (evs1 & E1 & Hn1)]. cbn [mbind outcome_bind].
  pose proof (sim_grows (sys w) (sys w1) evs1 (v_sys _ V) (v_sys _ V1) Hn1 Hroom E1) as Hg.
  eapply sound_mono; [apply IH; [done | by apply Hl | lia]|]. intros w2 [V2 (evs2 & E2)]. split; [done|].
  exists (evs1 ++ evs2). by rewrite ofold_app, E1.
Qed.
Lemma world_inv_new s k : TcpServer.inv s -> conns s = [] -> (forall L, interest (k L) = ∅) -> world_inv (new_world s k).
Proof.
  intros Hi Hc Hk. split; cbn.
  - split; [split; cbn; [by rewrite Hc | intros i c; by rewrite lookup_nil]|]. unfold view. cbn. rewrite Hc. destruct s; cbn in *. by subst.
  - intros L. split; [by apply inv_new_loop | intros p q c d; by rewrite lookup_empty].
  - intros i c. by rewrite lookup_nil.
  - intros L p ch. by rewrite lookup_empty.
  - intros i Hx. by apply not_elem_of_empty in Hx.
  - intros i Hx. by apply not_elem_of_empty in Hx.
  - done.
  - intros L ps. by rewrite lookup_empty.
Qed.
End ServerPollers.
Arguments world : clear implicits.

(** C1: the whole server on the whole reactor.  A server with any number of I/O loops, each
    with its own poller on a kernel that behaves as epoll(7) documents: the pollers
    report what they find, the loops dispatch it to the connections, callbacks and threads
    of the users call the connections, connections are accepted, closed, removed from the
    registry, destroyed in their loops and released, descriptors are used again, and the
    loops interleave between any two handlers.

    What the users and the kernel owe.  Nobody calls StartRead or StopRead, in callbacks
    ([user_ok true]) or elsewhere ([api_ok true] in [world_ok]): these do abort.  Messages
    are shorter than 2^62 bytes and no more is retrieved than there is.  A thread calls a
    connection through a shared pointer it holds ([WHold], [held]).  The last pointer goes
    when nobody holds one, the dispatch is over, and no functor of the connection is
    queued: [Send] and [Shutdown] bind the bare pointer, so that the code alone does not
    ensure this (ConnPoller.v, [send_behind_destroy_dangles]).  write(2) and readv(2)
    answer in range, an accepted descriptor is in no other use, and a hang-up without
    input comes without other read events ([report_ok]).  There are fewer than 2^31 - 1
    steps, and the server is not destroyed.

    Then no assertion of server, connection, channel, loop or poller fails and no functor,
    dispatch or call reaches a connection or channel that is gone; the process can still
    end because a kernel refuses a registration (LOG_SYSFATAL) or because a buffer outgrows
    memory (an exception), which is what [sound] admits.  The server goes only through
    states of the abstract one; every connection that is not yet released is watched by
    the poller of its loop for exactly what it waits for; and whatever a poller may report
    of a connection belongs to one that is open and of that loop. *)
Theorem server_on_pollers {B K : Type} `{StreamBuffer B, !StreamBufferLaws B, EpollKernel K, !EpollLaws K}
    (user : nat -> callback -> conn B -> list api) new_loop cb base ip nm n s (k : Z -> K) l :
  0 <= n < 2 ^ 31 -> zlen ip <= 51 -> zlen l < 2 ^ 31 - 1 -> (forall i, user_ok true (user i)) ->
  serve new_loop cb base ip nm n [] = Ok s -> (forall L, interest (k L) = ∅) -> world_ok user l (new_world s k) ->
  sound (fun w =>
      (exists evs, serve new_loop cb base ip nm n evs = Ok (view (sys w))) /\
      (forall i c, objs (sys w) !! i = Some c -> i ∉ released w ->
         watched (pollers w (home i (sys w))) (Z.of_nat i) c) /\
      (forall L f ev, interest (kernel (pollers w L)) !! f = Some ev -> 0 <= data_ptr ev ->
         exists c, objs (sys w) !! Z.to_nat (data_ptr ev) = Some c /\ open c /\ home (Z.to_nat (data_ptr ev)) (sys w) = L))
    (ofold (exec_world user) l (new_world s k)).
Proof.
  intros Hn Hip Hl Hu Es Hk Hok. destruct (serve_Ok new_loop cb base ip nm n [] Hn Hip) as (s' & _ & E & Hi & _); [vm_compute; reflexivity|].
  rewrite Es in E. injection E as <-. pose proof (serve_none _ _ _ _ _ _ _ Es) as Hc.
  assert (Hv : view (mkSystem s ([] : list (conn B))) = s) by (unfold view; cbn; rewrite Hc; destruct s; cbn in *; by subst).
  eapply sound_mono; [apply (exec_worlds_Ok user Hu l (new_world s k)); [by apply world_inv_new | done | cbn; rewrite Hc; exact Hl]|].
  intros w [V (evs & Ev)]. split_and!.
  - exists evs. rewrite (serve_more _ _ _ _ _ _ _ s) by done. cbn [new_world sys] in Ev. by rewrite Hv in Ev.
  - intros i c Hci Hr. destruct (v_copy _ V i c Hci Hr) as (ch & Hch & Ep). destruct (v_poller _ V (home i (sys w))) as [I D].
    apply (copy_watched _ _ ch); try done. apply (so_objs _ (v_sys _ V) i c Hci).
  - intros L f ev Hev Hz. destruct (v_poller _ V L) as [I D]. apply (inv_interest _ I) in Hev as (p & ch & _ & Hp & Hi' & ->). cbn in *.
    destruct (v_home _ V L p ch Hp Hz) as (Hlt & Hr & Hh). destruct (lookup_lt_is_Some_2 _ _ Hlt) as [c Hci]. exists c. split_and!; [done | | done].
    destruct (v_copy _ V _ c Hci Hr) as (ch' & Hch' & Ep). rewrite Hh, Z2Nat.id in Hch' by done. replace ch' with ch in * by congruence.
    apply added_open; [apply (so_objs _ (v_sys _ V) _ c Hci)|]. by rewrite <- Ep.
Qed.

(** ** A concrete run
    Base loop 1 with the acceptor, I/O loops 10 and 11.  Two connections are accepted, one
    for each; both greet; the peer of the first closes while loop 11 is in a round too; it is
    removed, destroyed and released, and its descriptor serves a third connection. *)
Definition ex_kernels (L : Z) : simple_epoll :=
  if L =? 1 then mkSimple ∅ {[3 := 1]} else if L =? 10 then mkSimple ∅ {[5 := 1]} else mkSimple ∅ {[6 := 4]}.
Abbreviation ex_world := (world ConnBuffer.Buffer simple_epoll) (only parsing).
Definition ex_steps_server : list world_step :=
  [WChannel 1 (CNew (-1) 3); WChannel 1 (CEnableReading (-1)); WPoll 1; WAct (SAccept 5 true true); WAct (SAccept 6 true true);
   WHandle 1 (takes 1 false) (delivers []); WEnd 1; WAct (SRun 10); WAct (SRun 11);
   WHold 1; WAct (SUser 1 (ASend (chars "hi") (takes 1 false))); WAct (SQueued 1 (takes 1 false)); WDrop 1; WPoll 10; WPoll 11;
   WHandle 10 (takes 1 false) (delivers []); WAct (SRun 1); WHandle 11 (takes 1 false) (delivers []); WEnd 10; WEnd 11;
   WAct (SRun 10); WRelease 0; WAct (SAccept 5 true true); WAct (SRun 10)].

(** The contracts hold: checked by evaluation. *)
Definition ex_start_world : ex_world := new_world ex_server ex_kernels.
Lemma worlds_next x l (w : ex_world) : world_step_ok ex_users x w -> world_ok ex_users l (ok_or (exec_world ex_users x w) ex_start_world) ->
  world_ok ex_users (x :: l) w.
Proof. intros Hx Hl. split; [done|]. intros w' E. by rewrite E in Hl. Qed.
Definition fresh_test (f : Z) (l : loop simple_epoll) : bool := bool_decide (map_Forall (fun _ ch => fd ch <> f) (chans l)).
Lemma fresh_test_true f l : fresh_test f l = true -> fresh_in f l.
Proof. intros E p ch. apply bool_decide_eq_true_1 in E. apply E. Qed.
Lemma accept_next f (w : ex_world) :
  fresh_test f (pollers w (home (length (objs (sys w))) (ok_or (exec_action ex_users (SAccept f true true) (sys w)) (sys w)))) = true ->
  world_step_ok ex_users (WAct (SAccept f true true)) w.
Proof. intros E s' Es. rewrite Es in E. by apply fresh_test_true. Qed.
Definition handle_test (L : Z) (w : ex_world) : bool :=
  match todo w !! L with
  | Some (p :: _) => match chans (pollers w L) !! p with Some ch => negb (close_test (revents_ ch)) | None => true end
  | _ => true
  end.
Lemma handle_next L n d (w : ex_world) : 0 <= n -> handle_test L w = true -> world_step_ok ex_users (WHandle L (takes n false) (delivers d)) w.
Proof.
  intros Hn E p rest ch Ht _ Hp. unfold handle_test in E. rewrite Ht, Hp in E. apply negb_true_iff in E.
  split_and!; [by apply takes_range | apply delivers_ok|]. intros E'. by rewrite E in E'.
Qed.
Definition release_test (i : nat) (w : ex_world) : bool :=
  (i <? length (objs (sys w)))%nat && bool_decide (i ∉ released w) &&
  match conns (srv (sys w)) !! i with Some k => bool_decide (connections_ (srv (sys w)) !! cname k <> Some i) | None => true end &&
  bool_decide (Forall (fun x => fid x.2 <> i) (pending (srv (sys w)))) && bool_decide (i ∉ held w) &&
  match objs (sys w) !! i with Some c => (length (queue c) =? 0)%nat | None => true end &&
  match chans (pollers w (home i (sys w))) !! Z.of_nat i with Some ch => negb (ch_eventHandling_ ch) | None => true end.
Lemma release_next i (w : ex_world) : release_test i w = true -> world_step_ok ex_users (WRelease i) w.
Proof.
  unfold release_test. intros [[[[[[E1%Nat.ltb_lt E2%bool_decide_eq_true]%andb_prop E3]%andb_prop E4%bool_decide_eq_true]%andb_prop
    E6%bool_decide_eq_true]%andb_prop E7]%andb_prop E5]%andb_prop.
  split_and!; [done | done | split; [|done] | done | |].
  - intros k Hk. rewrite Hk in E3. by apply bool_decide_eq_true_1 in E3.
  - intros c Hc. rewrite Hc in E7. by apply nil_length_inv, Nat.eqb_eq.
  - intros ch Hch. rewrite Hch in E5. by apply negb_true_iff.
Qed.
(** A call on a connection that has not been shut down. *)
Definition obj_test (i : nat) (w : ex_world) : bool := match objs (sys w) !! i with Some c => negb (shutWr c) | None => false end.
Lemma world_user_next i d n (w : ex_world) : 0 <= n -> zlen d < 2 ^ 62 -> bool_decide (i ∈ held w) = true -> obj_test i w = true ->
  world_step_ok ex_users (WAct (SUser i (ASend d (takes n false)))) w.
Proof.
  intros Hn Hd Hh%bool_decide_eq_true Ht. unfold obj_test in Ht. destruct (objs (sys w) !! i) as [c|] eqn:Hc; [|done].
  apply negb_true_iff in Ht. split; [done|]. exists c. split; [done|]. split; [done | by apply takes_false_ok].
Qed.
Lemma world_queued_next i n (w : ex_world) : 0 <= n -> bool_decide (todo w !! home i (sys w) = None) = true -> obj_test i w = true ->
  world_step_ok ex_users (WAct (SQueued i (takes n false))) w.
Proof.
  intros Hn Hh%bool_decide_eq_true Ht. unfold obj_test in Ht. destruct (objs (sys w) !! i) as [c|] eqn:Hc; [|done].
  apply negb_true_iff in Ht. split; [done|]. exists c. split; [done|]. by apply takes_false_ok.
Qed.
(** The registry holds the connection. *)
Lemma world_hold_next i (w : ex_world) : (i <? length (objs (sys w)))%nat &&
    match conns (srv (sys w)) !! i with Some k => bool_decide (connections_ (srv (sys w)) !! cname k = Some i) | None => false end = true ->
  world_step_ok ex_users (WHold i) w.
Proof.
  intros [E1%Nat.ltb_lt E2]%andb_prop. right. split; [done|]. intros [Hu _]. destruct (conns (srv (sys w)) !! i) as [k|]; [|done].
  apply bool_decide_eq_true_1 in E2. by apply (Hu k).
Qed.
Ltac world_step_ex :=
  match goal with
  | |- world_step_ok _ (WAct (SUser _ _)) _ => apply world_user_next; [lia | vm_compute; reflexivity..]
  | |- world_step_ok _ (WAct (SQueued _ _)) _ => apply world_queued_next; [lia | vm_compute; reflexivity..]
  | |- world_step_ok _ (WHold _) _ => apply world_hold_next; vm_compute; reflexivity
  | |- world_step_ok _ (WDrop _) _ => exact I
  | |- world_step_ok _ (WAct (SAccept _ _ _)) _ => apply accept_next; vm_compute; reflexivity
  | |- world_step_ok _ (WAct (SRun _)) _ => vm_compute; reflexivity
  | |- world_step_ok _ (WPoll _) _ => split; vm_compute; reflexivity
  | |- world_step_ok _ (WHandle _ _ _) _ => apply handle_next; [lia | vm_compute; reflexivity]
  | |- world_step_ok _ (WEnd _) _ => exact I
  | |- world_step_ok _ (WRelease _) _ => apply release_next; vm_compute; reflexivity
  | |- world_step_ok _ (WChannel _ _) _ => split_and!; [vm_compute; reflexivity
      | vm_compute; first [reflexivity | eexists; split; [reflexivity | done]]
      | first [apply fresh_test_true; vm_compute; reflexivity | exact I]]
  end.
Lemma ex_steps_server_ok : world_ok ex_users ex_steps_server (new_world ex_server ex_kernels).
Proof. unfold ex_steps_server. repeat (apply worlds_next; [world_step_ex|]). exact I. Qed.
Lemma ex_kernels_empty L : interest (ex_kernels L) = ∅.
Proof. unfold ex_kernels. by repeat case_match. Qed.
Lemma server_on_pollers_witness :
  exists w, ofold (exec_world ex_users) ex_steps_server (new_world ex_server ex_kernels) = Ok w /\
    map phase_of (objs (sys w)) = [Gone; Up; Up] /\ released w = {[0%nat]} /\
    interest (kernel (pollers w 10)) !! 5 = Some (mkEvent 7 2) /\ interest (kernel (pollers w 11)) !! 6 = Some (mkEvent 7 1) /\
    forall c, objs (sys w) !! 2%nat = Some c -> watched (pollers w (home 2 (sys w))) 2 c.
Proof.
  pose proof (server_on_pollers ex_users TcpServer.ex_loop false 1 (chars "0.0.0.0:80") (chars "srv") 2 ex_server ex_kernels ex_steps_server) as Hw.
  assert (Hx : (fun w => (map phase_of (objs (sys w)), bool_decide (released w = {[0%nat]}), interest (kernel (pollers w 10)) !! 5,
      interest (kernel (pollers w 11)) !! 6)) <$> ofold (exec_world ex_users) ex_steps_server (new_world ex_server ex_kernels) =
    Ok ([Gone; Up; Up], true, Some (mkEvent 7 2), Some (mkEvent 7 1))) by (vm_compute; reflexivity).
  destruct (ofold (exec_world ex_users) ex_steps_server (new_world ex_server ex_kernels)) as [w|f]; [|discriminate Hx].
  injection Hx as H1 H2 H3 H4. apply bool_decide_eq_true_1 in H2. exists w. split_and!; try assumption; [reflexivity|].
  intros c Hc. destruct Hw as (_ & Hwat & _);
    [lia | vm_compute; discriminate | vm_compute; reflexivity | intros i; exact (echo_ok true) | vm_compute; reflexivity
    | exact ex_kernels_empty | exact ex_steps_server_ok |].
  apply (Hwat 2%nat c Hc). rewrite H2. apply not_elem_of_singleton. discriminate.
Defined.
