(* ===== verification/Acceptor.v ===== *)
(** * Accepting connections (src/src/network/Acceptor.h, Acceptor.cc, and
    [Sockets::accept], whose error handling is in Socket.v)

    The kernel is an interface: the descriptors the process has open, how many it
    may have, and the connections waiting on the listening socket.  A descriptor is
    a natural number; -1 is [None]. *)
From S2P Require Import Prelude Socket.

Class AcceptKernel (K : Type) := {
  fds : K -> gset nat;
  limit : K -> nat;
  backlog : K -> nat;
  k_accept : K -> (Z + nat) * K;
  k_close : nat -> K -> K;
  k_open : K -> (Z + nat) * K;           (** open("/dev/null") *)
}.
(** accept(2) takes one waiting connection when a descriptor is free, and fails with
    EMFILE when none is; open(2) succeeds when a descriptor is free; close(2) frees
    one. *)
Class AcceptLaws (K : Type) `{!AcceptKernel K} : Prop := {
  accept_room k n : backlog k = S n -> (size (fds k) < limit k)%nat ->
    exists fd k', k_accept k = (inr fd, k') /\ fd ∉ fds k /\ fds k' = {[fd]} ∪ fds k /\
      backlog k' = n /\ limit k' = limit k;
  accept_full k n : backlog k = S n -> (limit k <= size (fds k))%nat ->
    exists k', k_accept k = (inl EMFILE, k') /\ fds k' = fds k /\ backlog k' = S n /\ limit k' = limit k;
  close_frees fd k : fds (k_close fd k) = fds k ∖ {[fd]} /\ backlog (k_close fd k) = backlog k /\
      limit (k_close fd k) = limit k;
  open_room k : (size (fds k) < limit k)%nat ->
    exists fd k', k_open k = (inr fd, k') /\ fd ∉ fds k /\ fds k' = {[fd]} ∪ fds k /\
      backlog k' = backlog k /\ limit k' = limit k;
}.

Section Acceptor.
Context {K : Type} `{!AcceptKernel K}.

(** [Sockets::accept]: which errors come back is in Socket.v. *)
Definition accept (k : K) : outcome ((Z + nat) * K) :=
  let '(r, k) := k_accept k in
  r ← check_accept r; Ok (r, k).

Record Acceptor : Type := mkAcceptor {
  newConnectionCallback_ : bool;
  listening_ : bool;
  idleFd_ : option nat;
  handed : list nat;                     (** descriptors given to the callback *)
}.
(** The constructor opens the idle descriptor; creating and binding the socket end
    the process when they fail. *)
Definition new_Acceptor (cb : bool) (k : K) : outcome (Acceptor * K) :=
  let '(r, k) := k_open k in
  match r with
  | inr fd => Ok (mkAcceptor cb false (Some fd) [], k)
  | inl _ => Fault (Assertion "idleFd_ >= 0")
  end.
Definition Listen (a : Acceptor) : Acceptor :=
  mkAcceptor (newConnectionCallback_ a) true (idleFd_ a) (handed a).
Definition close_opt (fd : option nat) (k : K) : K := match fd with Some fd => k_close fd k | None => k end.
Definition fd_of (r : Z + nat) : option nat := match r with inr fd => Some fd | inl _ => None end.
Definition destroy (a : Acceptor) (k : K) : K := close_opt (idleFd_ a) k.

Definition HandleRead (s : Acceptor * K) : outcome (Acceptor * K) :=
  let '(a, k) := s in
  '(r, k) ← accept k;
  match r with
  | inr connfd =>
      if newConnectionCallback_ a then
        Ok (mkAcceptor (newConnectionCallback_ a) (listening_ a) (idleFd_ a) (handed a ++ [connfd]), k)
      else Ok (a, k_close connfd k)
  | inl errno =>
      if errno =? EMFILE then
        let k := close_opt (idleFd_ a) k in
        let '(r, k) := k_accept k in
        let k := close_opt (fd_of r) k in
        let '(r, k) := k_open k in
        Ok (mkAcceptor (newConnectionCallback_ a) (listening_ a) (fd_of r) (handed a), k)
      else Ok (a, k)
  end.

(** The idle descriptor is there to be given up. *)
Definition ready (s : Acceptor * K) : Prop :=
  exists fd, idleFd_ s.1 = Some fd /\ fd ∈ fds s.2 /\ (size (fds s.2) <= limit s.2)%nat.

Context `{!AcceptLaws K}.

Lemma size_union_new (fd : nat) (X : gset nat) : fd ∉ X -> size ({[fd]} ∪ X) = S (size X).
Proof. intros H. rewrite size_union by set_solver. by rewrite size_singleton. Qed.
Lemma size_remove (fd : nat) (X : gset nat) : fd ∈ X -> size X = S (size (X ∖ {[fd]})).
Proof.
  intros H. assert (E : X = {[fd]} ∪ (X ∖ {[fd]})).
  { apply set_eq. intros x. destruct (decide (x = fd)) as [->|]; set_solver. }
  rewrite E at 1. apply size_union_new. set_solver.
Qed.

(** With room: the connection is handed over, or closed when nobody wants it. *)
Lemma HandleRead_room a k n : ready (a, k) -> backlog k = S n -> (size (fds k) < limit k)%nat ->
  exists fd k', HandleRead (a, k) = Ok (mkAcceptor (newConnectionCallback_ a) (listening_ a) (idleFd_ a)
      (handed a ++ if newConnectionCallback_ a then [fd] else []), k') /\
    ready (mkAcceptor (newConnectionCallback_ a) (listening_ a) (idleFd_ a)
      (handed a ++ if newConnectionCallback_ a then [fd] else []), k') /\
    backlog k' = n /\ limit k' = limit k /\
    fds k' = (if newConnectionCallback_ a then {[fd]} ∪ fds k else fds k).
Proof.
  intros (d & Hd & Hin & Hsz) Hb Hroom. cbn in *. unfold HandleRead, accept.
  destruct (accept_room k n Hb Hroom) as (fd & k1 & -> & Hfd & Hf & Hb1 & Hl1). cbn [mbind outcome_bind].
  exists fd. destruct a as [cb li idle ha]. cbn in *. destruct cb.
  - exists k1. split; [done|]. split; [|done]. exists d. cbn. rewrite Hf, size_union_new by done.
    split_and!; [done | set_solver | lia].
  - destruct (close_frees fd k1) as (Hf2 & Hb2 & Hl2). exists (k_close fd k1). rewrite app_nil_r. split; [done|].
    assert (E : fds (k_close fd k1) = fds k) by (rewrite Hf2, Hf; apply set_eq; intros x; destruct (decide (x = fd)) as [->|]; set_solver).
    split; [|split_and!; congruence]. exists d. cbn. rewrite E. split_and!; [done | done | lia].
Qed.

(** Without room: the idle descriptor is given up for it, and opened again. *)
Lemma HandleRead_full a k n : ready (a, k) -> backlog k = S n -> (limit k <= size (fds k))%nat ->
  exists idle k', HandleRead (a, k) = Ok (mkAcceptor (newConnectionCallback_ a) (listening_ a) (Some idle) (handed a), k') /\
    ready (mkAcceptor (newConnectionCallback_ a) (listening_ a) (Some idle) (handed a), k') /\
    backlog k' = n /\ limit k' = limit k /\ size (fds k') = size (fds k).
Proof.
  intros (d & Hd & Hin & Hsz) Hb Hfull. cbn in *. unfold HandleRead, accept.
  destruct (accept_full k n Hb Hfull) as (k1 & -> & Hf1 & Hb1 & Hl1). unfold check_accept. rewrite decide_True by (by right; right; right; right; right; left).
  cbn [mbind outcome_bind]. rewrite Z.eqb_refl, Hd. cbn [close_opt].
  destruct (close_frees d k1) as (Hf2 & Hb2 & Hl2). rewrite <- Hf1 in Hin. pose proof (size_remove d (fds k1) Hin) as Hs.
  destruct (accept_room (k_close d k1) n) as (fd & k3 & -> & Hfd & Hf3 & Hb3 & Hl3);
    [congruence | rewrite Hf2, Hl2, Hl1; rewrite Hf1 in *; lia |]. cbn [fd_of close_opt].
  destruct (close_frees fd k3) as (Hf4 & Hb4 & Hl4).
  assert (E : fds (k_close fd k3) = fds k ∖ {[d]}).
  { rewrite Hf4, Hf3, Hf2, Hf1. rewrite Hf2, Hf1 in Hfd. apply set_eq. intros x. destruct (decide (x = fd)) as [->|]; set_solver. }
  rewrite Hf1 in Hs. destruct (open_room (k_close fd k3)) as (idle & k5 & -> & Hid & Hf5 & Hb5 & Hl5);
    [rewrite E, Hl4, Hl3, Hl2, Hl1; lia|]. cbn [fd_of]. exists idle, k5. split; [done|].
  assert (Hsz5 : size (fds k5) = size (fds k)) by (rewrite Hf5, size_union_new by done; rewrite E; lia).
  split; [|split_and!; congruence]. exists idle. cbn. rewrite Hsz5, Hf5, Hl5, Hl4, Hl3, Hl2, Hl1.
  split_and!; [done | set_solver | lia].
Qed.

(** Descriptors open besides those handed over. *)
Definition own (s : Acceptor * K) : Z := Z.of_nat (size (fds s.2)) - zlen (handed s.1).

Lemma HandleRead_progress s n : ready s -> backlog s.2 = S n ->
  exists s', HandleRead s = Ok s' /\ ready s' /\ backlog s'.2 = n /\ limit s'.2 = limit s.2 /\ own s' = own s /\
    newConnectionCallback_ s'.1 = newConnectionCallback_ s.1 /\
    ((size (fds s.2) < limit s.2)%nat -> newConnectionCallback_ s.1 = true ->
       zlen (handed s'.1) = zlen (handed s.1) + 1).
Proof.
  destruct s as [a k]. intros Hr Hb. cbn [fst snd] in *. unfold own, zlen.
  destruct (decide (size (fds k) < limit k)%nat) as [Hroom|Hfull].
  - pose proof Hr as (_ & _ & _ & Hsz). destruct (accept_room k n Hb Hroom) as (fd0 & k0 & E0 & Hfd0 & _).
    destruct (HandleRead_room a k n Hr Hb Hroom) as (fd & k' & E & Hr' & Hb' & Hl & Hf). eexists. split; [exact E|].
    cbn [fst snd handed newConnectionCallback_]. rewrite length_app. assert (Hnew : newConnectionCallback_ a = true -> fd ∉ fds k).
    { intros Hcb. unfold HandleRead, accept in E. rewrite E0 in E. cbn in E. rewrite Hcb in E. injection E as E _.
      apply app_inv_head in E. injection E as ->. done. }
    split; [done|]. split; [done|]. split; [done|]. rewrite Hf. destruct (newConnectionCallback_ a).
    + rewrite size_union_new by auto. cbn. split_and!; [lia | done | lia].
    + cbn. split_and!; [lia | done | done].
  - destruct (HandleRead_full a k n Hr Hb ltac:(lia)) as (idle & k' & E & Hr' & Hb' & Hl & Hf). eexists. split; [exact E|].
    cbn [fst snd handed newConnectionCallback_]. rewrite Hf. split_and!; try done.
Qed.

Lemma drain_Ok m s : ready s -> backlog s.2 = m ->
  exists s', ofold (fun _ => HandleRead) (replicate m tt) s = Ok s' /\ ready s' /\ backlog s'.2 = 0%nat /\ own s' = own s /\
    ((size (fds s.2) + m <= limit s.2)%nat -> newConnectionCallback_ s.1 = true ->
       zlen (handed s'.1) = zlen (handed s.1) + Z.of_nat m).
Proof.
  revert s; induction m as [|m IH]; intros s Hr Hb; cbn [replicate ofold].
  - exists s. split_and!; try done. intros _ _. lia.
  - destruct (HandleRead_progress s m Hr Hb) as (s1 & -> & Hr1 & Hb1 & Hl1 & Ho1 & Hc1 & Hh1). cbn [mbind outcome_bind].
    destruct (IH s1 Hr1 Hb1) as (s' & -> & Hr' & Hb' & Ho' & Hh'). exists s'. split_and!; try done; [congruence|].
    intros Hle Hcb. assert (Hx : zlen (handed s1.1) = zlen (handed s.1) + 1) by (apply Hh1; [lia | done]).
    rewrite Hh'; [lia | | congruence]. unfold own in Ho1. lia.
Qed.
End Acceptor.

(** ** A kernel *)
Record fd_table : Type := mkTable { t_fds : gset nat; t_limit : nat; t_backlog : nat }.
Definition t_alloc (t : fd_table) (b : nat) : (Z + nat) * fd_table :=
  let fd := fresh (t_fds t) in (inr fd, mkTable ({[fd]} ∪ t_fds t) (t_limit t) b).
#[global] Instance table_kernel : AcceptKernel fd_table := {
  fds := t_fds; limit := t_limit; backlog := t_backlog;
  k_accept t := if (t_limit t <=? size (t_fds t))%nat then (inl EMFILE, t)
                else match t_backlog t with O => (inl EAGAIN, t) | S n => t_alloc t n end;
  k_close fd t := mkTable (t_fds t ∖ {[fd]}) (t_limit t) (t_backlog t);
  k_open t := if (t_limit t <=? size (t_fds t))%nat then (inl EMFILE, t) else t_alloc t (t_backlog t);
}.
#[global] Instance table_laws : AcceptLaws fd_table.
Proof.
  split; cbn.
  - intros t n Hb Hr. destruct (Nat.leb_spec (t_limit t) (size (t_fds t))); [lia|]. rewrite Hb.
    eexists _, _. split; [done|]. cbn. split; [apply is_fresh | done].
  - intros t n Hb Hr. destruct (Nat.leb_spec (t_limit t) (size (t_fds t))); [|lia]. eauto.
  - done.
  - intros t Hr. destruct (Nat.leb_spec (t_limit t) (size (t_fds t))); [lia|].
    eexists _, _. split; [done|]. cbn. split; [apply is_fresh | done].
Qed.

(** C28: The acceptor makes progress even when the process is out of descriptors.
    As long as it has its idle descriptor, each [HandleRead] takes one waiting
    connection, so that [backlog] runs empty after as many calls as connections
    wait and the listening socket does not stay readable for ever; the idle
    descriptor is there again afterwards, no descriptor leaks (all that are open
    besides are those handed to the callback), and while descriptors are free every
    connection is handed over. *)
Theorem acceptor_drains {K} `{!AcceptKernel K, !AcceptLaws K} (a : Acceptor) (k : K) :
  ready (a, k) ->
  exists a' k', ofold (fun _ => HandleRead) (replicate (backlog k) tt) (a, k) = Ok (a', k') /\
    backlog k' = 0%nat /\ ready (a', k') /\ own (a', k') = own (a, k) /\
    ((size (fds k) + backlog k <= limit k)%nat -> newConnectionCallback_ a = true ->
       zlen (handed a') = zlen (handed a) + Z.of_nat (backlog k)).
Proof.
  intros Hr. destruct (drain_Ok (backlog k) (a, k) Hr eq_refl) as ([a' k'] & E & Hr' & Hb & Ho & Hh).
  exists a', k'. split_and!; done.
Qed.
(** Three descriptors, all in use, two connections waiting. *)
Lemma acceptor_drains_witness :
  exists a' k', ofold (fun _ => HandleRead) [tt; tt] (mkAcceptor true true (Some 2%nat) [], mkTable {[0; 1; 2]}%nat 3 2) =
      Ok (a', k') /\ backlog k' = 0%nat /\ is_Some (idleFd_ a').
Proof.
  destruct (acceptor_drains (mkAcceptor true true (Some 2%nat) []) (mkTable {[0; 1; 2]}%nat 3 2)) as (a' & k' & E & Hb & Hr & _).
  - exists 2%nat. split; [reflexivity|]. split; [apply (bool_decide_unpack _); vm_compute; exact I | vm_compute; lia].
  - exists a', k'. split; [exact E|]. split; [exact Hb|]. destruct Hr as (fd & Hfd & _). cbn in Hfd. rewrite Hfd. eexists. reflexivity.
Defined.

(** Running out of descriptors system-wide is one of the errors that end the
    process. *)
Lemma ENFILE_is_fatal {K} `{!AcceptKernel K} (a : Acceptor) (k : K) :
  k_accept k = (inl ENFILE, k) -> HandleRead (a, k) = Fault (LogFatal "unexpected error of ::accept").
Proof. intros E. unfold HandleRead, accept. rewrite E. reflexivity. Qed.
